(* ===== verification/_CoqProject ===== *)
-Q . S2P
Prelude.v
Process.v
Parse.v
Queue.v
Engine.v
Generic.v
Invariant.v
Lifecycle.v
Correctness.v
Termination.v
Order.v
Metrics.v
Timeline.v
Bounds.v
Response.v
Program.v
Console.v
Divergence.v
Scenarios.v
