(* ===== verification/Prelude.v ===== *)
(** * CPU-Scheduling: a verification development for [src/cpu_scheduling.c]

    The program simulates a single CPU over a pre-known list of process
    arrivals and I/O block requests, under one of four policies (FCFS,
    non-preemptive SJF, preemptive SJF / SRTN, Round Robin), and reports
    per-process completion, waiting, turnaround and response times.
    [main] opens input.txt, reads the policy and the records ([setPolicy],
    [input], which calls [insert]), runs [schedule], which calls one of
    [fcfs], [sjf], [sjfPreempt] and [roundRobin] on the process list and
    the two queues, and writes the report to output.txt ([output]).

    ** The program's parts and the files that model them

    - [Prelude] (this file): the result monad [res] in which the program
      runs (a NULL dereference, the read of a variable that was never
      assigned and an exhausted fuel are values, not exceptions), its
      notation (scope [sim_scope]), the loop combinator [while] with its
      rules (invariant, variant, total correctness, more fuel, a run in
      phases), the tactics and the hint database [sched] shared by all
      files, and generic lemmas on lists and integers.
    - [Process]: the process control block [node] (the C struct of the
      same name), the process list that [insert] builds in file order, the
      global counters [PROCESS_ID] and [INTERRUPT_ID], and [load], the
      list [input] builds from parsed records.  A C pointer to a PCB is
      the index of that PCB in the process list; the [next] field of the
      struct is the successor index.  [completionTime], [waitingTime] and
      [turnAroundTime] are [option Z]: [insert] leaves them uninitialised,
      and [None] is an indeterminate value.
    - [Parse]: the input file as the string of its unread characters, the
      [%d] conversion of [fscanf] ([scan_d]: white space, sign, longest
      run of digits, input failure and matching failure), [setPolicy],
      and the loop of [input] ([input_file]) with its three uninitialised
      locals and the return value of [fscanf] it tests against [EOF];
      the printer [print_input] of a configuration as reference.
    - [Queue]: the pointer-chained [priorityQueue] as a list of PCB
      indices, with [enqueue], [priorityEnqueue], [priorityBlock],
      [deduct], [dequeue] and [isEmpty].  The two ordered insertions are
      translated with the case analysis of the C code (empty queue, head,
      one element, scan with a trailing pointer, last element) and proved
      equal to a reference insertion "before the first strictly greater
      key".
    - [Engine]: the engine state [state] (the locals [data], [ref] and
      [quantum] of the scheduling functions, the two queues, the globals
      [SYSTEM_TIME] and [IS_CPU_IDLE], and the process list through which
      every PCB is mutated), one definition per block of the tick loop,
      the four loop bodies [fcfs_iter], [sjf_iter], [sjfPreempt_iter] and
      [roundRobin_iter], the four functions and the dispatcher [schedule];
      then what holds of single blocks: the strict preemption test, the
      NULL dereference of the SRTN release, the default case of
      [schedule], the idle wait in closed form, and the two dispatches of
      Round Robin with what each does to the response time.
    - [Generic]: the loop [tick] the four functions are copies of, with
      the policy as a parameter (ready-queue insertion, preemption,
      quantum and response-time bookkeeping), the interface [ReadyQueue]
      of a ready-queue insertion, and the lemmas that each C loop body
      is [tick] at its policy.  [tick] has no lines of its own in the C
      file: it is the device by which a fact is proved once for the four
      functions, and the theorems are stated of [schedule] and of the C
      loop bodies.
    - [Invariant]: the structural invariant [inv] (the CPU flag agrees
      with the running slot; running slot, ready queue and blocked queue
      hold every admitted, real, unfinished process exactly once and
      nothing else), its preservation by every block, and what follows
      from it: no block of FCFS, SJF and Round Robin dereferences NULL,
      the inner loops end, and at loop exit every real process is
      terminated.
    - [Lifecycle]: the history relation [evolves] between two states of a
      run (the clock does not go back, identity, arrival and burst time
      never change, a terminated PCB never changes, and a PCB terminated
      in between has remaining time 0 and turnaround = completion -
      arrival), proved of every block.
    - [Correctness]: the theorems on [schedule] and on the four loop
      bodies that the three files above add up to, and the closed form of
      the unblock loop.
    - [Termination]: the invariant [top] of the start of a turn and the
      measure [turns_left] of the outer loop for runs without block
      requests, and the theorem that [schedule] returns on well-formed
      files without block requests, with the fuel that is enough.
    - [Order]: the outer loop as a step relation [reach] on engine
      states, and the invariant [ordered] of its turn boundaries: the
      blocked queue is sorted by the blocked time left, under SJF and SRTN
      the ready queue by the remaining time, and under SRTN the running
      process has no more time left than a ready one.
    - [Metrics]: the loop of [output] (the waiting time, the two sums, the
      count, the unguarded division) and [simulate], the calls of
      [schedule] and [output] on the list of parsed records; the metric
      equations of the rows of the report, and the report of a run under
      an invalid policy number.
    - [Timeline]: three families of input files on which the state at
      every value of the clock has a closed form ([block_at], [fcfs_at],
      [rr_at], [response_at]): a process that blocks once, for every
      burst time, request time and block duration; Round Robin after an
      idle turn, for every burst time of the second process; Round Robin
      and a block request, for every quantum and burst time.
    - [Bounds]: the invariant [timely] (the CPU time a process has
      received is at most the time since its arrival) and the bounds of
      the report that follow from it.
    - [Response]: the invariant [prompt] of Round Robin on lists without
      block requests (a process is served no more than the time since
      its first dispatch, and its response time is assigned at that
      dispatch only) and the response bound that follows from it.
    - [Program]: [main] from the two files to the exit status and the
      report written, the part of [output] that opens the file and
      selects the banner and the columns ([output_file], [write_report]),
      and [display]; what the report holds on well-formed records and on
      any input file.
    - [Console]: standard output as a log beside the engine state: what
      the [printf] calls of the four scheduling functions say (a process
      was blocked, completed, unblocked, with its identity and the
      clock), the turn [tick_out] and the run with these calls in their
      places, [schedule_out] with the line that names the policy, and
      [main_out] with the error messages of [main] and [output].
    - [Divergence]: the two states from which the outer loop never
      returns (an arrival that was not admitted in its tick; a process
      dispatched with no time left), with the inputs that reach them.
    - [Scenarios]: the scenarios of the specification and single inputs
      on which code and specification part, evaluated by the kernel:
      examples that illustrate the theorems of the other files.

    ** What the theorems show

    - Loader: the list is the records in file order with identities from
      1 and from 1001; the test [processId > 1000] is right up to 1000
      processes and wrong for the 1001st.
    - Parser: reading a printed configuration gives back the policy, the
      quantum and the records (round trip); the loop of [input] returns
      within one turn per character on a file of numbers and white space,
      and never returns once a character that belongs to no number is
      reached; a file that ends inside a record yields one more PCB, made
      of the numbers read and of what the previous record left.
    - Queues: the C insertion equals the reference insertion; it is a
      permutation of the old queue and the new element, keeps the queue
      sorted by its key and is stable; [deduct] takes one unit off every
      blocked process and keeps the queue sorted.
    - Engine: each loop body keeps [inv] and leaves terminated PCBs
      alone; under FCFS, SJF and Round Robin no run dereferences NULL, and
      under SRTN a release on an idle CPU does; a run that returns has
      terminated every real process with consistent completion and
      turnaround times; the report's rows then satisfy the metric
      equations.  With an invalid policy number nothing is scheduled and
      the report is written from fields that were never assigned.
    - Idle wait: on a process record it moves the clock to the arrival
      time and starts the process, and does nothing else (the blocked
      processes are not aged, the quantum of Round Robin is not
      refilled); on a record whose arrival time is past it never ends.
    - Families of runs: a process of burst [b] blocked at [t] for [d]
      completes at [b + d + 1] under FCFS, SJF and Round Robin, one turn
      later than the specification says, and SRTN stops in a NULL
      dereference; Round Robin with a quantum that is at least every
      burst time differs from FCFS on the files with bursts 1, [b], 1
      and an idle turn; a block request under Round Robin leaves a
      process with the response time [tq + 1] and the waiting time 1.
    - Refinement: the four hand-copied loops of the C file are instances
      of the one parameterised loop, on which the invariants are proved
      once.
    - Order: every state the outer loop reaches from a loaded list keeps
      both queues sorted and every pointer inside the process list;
      under SJF and SRTN the dispatch gives the CPU to a ready process
      with the least remaining time.
    - Bounds: in the report of a run that returns, every waiting time is
      at least 0 and every turnaround time at least the burst time, with
      or without block requests; under Round Robin without block requests
      every response time is between 0 and the waiting time (with block
      requests it is not, see [Timeline]).
    - Termination: on a file in arrival order without block requests and
      with bursts of at least 1, [schedule] returns under every policy
      within the sum of the bursts plus the number of records turns, the
      idle wait within the latest arrival time plus one; [main] on the
      printed form of such a file returns 0 and writes a report whose
      rows hold the metric equations.
    - Whole program: whatever the input file holds, the list [input]
      returns is the loaded list of some records, so that when [main]
      ends under one of the four policies every row of its report is the
      row of a process with a completion time not before its arrival
      time plus its burst time.
    - Console: forgetting the log gives back [schedule] and [main]; when
      a run returns the completions on the console are, one for one, the
      real processes with the completion times of the report, every
      process announced as blocked was announced as unblocked as often,
      and the clock values of the log never decrease.
    - Divergence: the idle wait spins on a missed arrival, a process with
      burst time 0 can run for ever; both with the shortest inputs, and
      a second input on which an arrival is missed, in the tick after a
      release on an idle CPU.
    - Scenarios: the tables of the specification's scenarios and of the
      inputs behind the findings, as evaluated examples.

    ** Integers, bounds and fuel

    C [int] values are modelled as [Z].  Signed overflow is undefined in
    C, so the model describes exactly the executions in which no [int]
    overflows; a run that never returns in the model is, on the machine,
    a run that goes on until [SYSTEM_TIME] or [remainingTime] overflows.  The outer [while] of each scheduling function and the
    idle-wait [while] do not always end (see [Divergence]), so both take a
    fuel argument and return [Err OutOfFuel] when it runs out; a result
    other than that is stable under more fuel ([while_fuel_mono]).  The
    arrival loop is given the number of records left and the unblock loop
    the length of the blocked queue as fuel; [Invariant.tick_is_Ok] and
    [Correctness.unblock_loops_release_in_order] show that these bounds
    are never exhausted.  [Termination.fuel_of] and
    [Termination.idle_fuel_of] are the fuel that is enough for a run
    without block requests: every turn either uses one unit of CPU time of
    the running process or reads at least one record, and the idle wait
    takes one turn per tick up to the next arrival.  With block requests a
    run may not return at all ([Divergence]); what holds of such runs is
    stated of the runs that return, and of the families of [Timeline],
    whose runs take exactly [b + d + 2], [b + 4] and [b + 2] turns, the
    fuel their theorems ask for (the idle wait needs one unit there).
    The examples of [Scenarios] run with fuel 50 or 80, far above the 4
    to 24 turns they take.  The loop of [input] takes fuel as well: every turn that
    assigns a variable consumes a character, so the length of the file
    plus one is enough when the file holds numbers and white space only
    ([Parse.input_file_terminates]), one more than the number of records
    on a printed file ([Parse.read_print]), and no fuel is enough
    otherwise ([Parse.input_file_never_returns]).  [Program.main] gives
    its one fuel argument to the three loops.

    ** Not modelled

    Allocation and release ([malloc], whose result the code does not
    test, [free], [fclose]); the text of the report beyond its banner, its
    columns and its numbers (the widths of the [fprintf] formats, the
    rounding of [%.2f]); the characters of the console lines, which are
    kept as constructors with their two integers; the console of a run
    that does not return (the log is that of the runs that end).  The
    averages are single-precision floating point in C; the model keeps
    the exact integer sums and the count.  A numeral of the input file
    outside the range of [int] is undefined behaviour of [fscanf]; the
    model reads its value.  Still open: a criterion for termination of
    runs with block requests. *)

From Stdlib Require Export ZArith Lia.
From stdpp Require Export sorting prelude.

#[export] Set Warnings "-clear-no-such-hyp".

(** ** The result monad *)

(** What can go wrong in a run: the C code dereferences a NULL pointer,
    it uses a local variable that was never assigned, or a loop of the
    model runs out of fuel. *)
Inductive error : Type :=
| NullDeref
| UninitRead
| OutOfFuel.

Inductive res (A : Type) : Type :=
| Ok (a : A)
| Err (e : error).
Arguments Ok {A} a.
Arguments Err {A} e.

Definition res_bind {A B : Type} (m : res A) (k : A → res B) : res B :=
  match m with
  | Ok a => k a
  | Err e => Err e
  end.

Definition is_Ok {A : Type} (m : res A) : Prop := ∃ a, m = Ok a.

Declare Scope sim_scope.
Delimit Scope sim_scope with sim.
Notation "'do' x <- m ; k" := (res_bind m (fun x => k))
  (at level 10, x name, m at level 100, k at level 200) : sim_scope.
Open Scope sim_scope.

#[export] Instance error_eq_dec : EqDecision error.
Proof. solve_decision. Defined.

#[export] Instance res_eq_dec {A : Type} `{EqDecision A} : EqDecision (res A).
Proof. solve_decision. Defined.

#[export] Instance is_Ok_dec {A : Type} (m : res A) : Decision (is_Ok m).
Proof.
  destruct m as [a|e]; [left; by exists a | right; by intros [a ?]].
Defined.

(** ** Tactics *)

(** Split on the first integer or index comparison of the goal, turning
    the boolean test of the code into the proposition it decides. *)
Ltac case_test :=
  match goal with
  | |- context [Z.eqb ?a ?b] => destruct (Z.eqb_spec a b)
  | |- context [Z.gtb ?a ?b] => destruct (Z.gtb_spec a b)
  | |- context [Z.ltb ?a ?b] => destruct (Z.ltb_spec a b)
  | |- context [Z.leb ?a ?b] => destruct (Z.leb_spec a b)
  | |- context [Nat.ltb ?a ?b] => destruct (Nat.ltb_spec a b)
  | |- context [Nat.leb ?a ?b] => destruct (Nat.leb_spec a b)
  end.

(** The same in a hypothesis. *)
Ltac case_test_in H :=
  match type of H with
  | context [Z.eqb ?a ?b] => destruct (Z.eqb_spec a b)
  | context [Z.gtb ?a ?b] => destruct (Z.gtb_spec a b)
  | context [Z.ltb ?a ?b] => destruct (Z.ltb_spec a b)
  | context [Z.leb ?a ?b] => destruct (Z.leb_spec a b)
  | context [Nat.ltb ?a ?b] => destruct (Nat.ltb_spec a b)
  | context [Nat.leb ?a ?b] => destruct (Nat.leb_spec a b)
  end.

(** The database of the development: rewriting with [autorewrite with
    sched], resolution with [auto with sched]. *)
Create HintDb sched.
Create Rewrite HintDb sched.

(** ** Laws of the result monad *)

Lemma res_bind_ret_l {A B : Type} (a : A) (k : A → res B) :
  res_bind (Ok a) k = k a.
Proof. reflexivity. Qed.

Lemma res_bind_ret_r {A : Type} (m : res A) : res_bind m Ok = m.
Proof. by destruct m. Qed.

Lemma res_bind_assoc {A B C : Type} (m : res A) (k : A → res B) (h : B → res C) :
  res_bind (res_bind m k) h = res_bind m (λ a, res_bind (k a) h).
Proof. by destruct m. Qed.

Lemma res_bind_ext {A B : Type} (m m' : res A) (k k' : A → res B) :
  m = m' → (∀ a, k a = k' a) → res_bind m k = res_bind m' k'.
Proof. intros <- Hk. destruct m; simpl; auto. Qed.

Lemma res_bind_Ok {A B : Type} (m : res A) (k : A → res B) (b : B) :
  res_bind m k = Ok b ↔ ∃ a, m = Ok a ∧ k a = Ok b.
Proof.
  destruct m as [a|e]; simpl; split.
  - by exists a.
  - by intros (a' & [= ->] & ?).
  - done.
  - by intros (a' & ? & _).
Qed.

Lemma res_bind_Err {A B : Type} (m : res A) (k : A → res B) (e : error) :
  res_bind m k = Err e ↔ m = Err e ∨ ∃ a, m = Ok a ∧ k a = Err e.
Proof.
  destruct m as [a|e']; simpl; split.
  - right. by exists a.
  - by intros [?|(a' & [= ->] & ?)].
  - intros [= ->]. by left.
  - by intros [[= ->]|(a' & ? & _)].
Qed.

Lemma is_Ok_bind {A B : Type} (m : res A) (k : A → res B) :
  is_Ok (res_bind m k) ↔ ∃ a, m = Ok a ∧ is_Ok (k a).
Proof.
  unfold is_Ok. destruct m as [a|e]; simpl.
  - split; [eauto|]. by intros (a' & [= <-] & ?).
  - split; [by intros [? ?]|by intros (? & ? & _)].
Qed.

#[export] Hint Rewrite @res_bind_ret_l @res_bind_ret_r @res_bind_assoc : sched.

(** Destruct a successful bind in a hypothesis. *)
Ltac bind_inv H :=
  let a := fresh "a" in
  let Ha := fresh "Ha" in
  apply res_bind_Ok in H as (a & Ha & H).

(** ** Loops with fuel *)

(** [while guard body fuel s] runs the C loop [while (guard) body] from
    state [s]: it stops with [Ok] as soon as the guard is false, stops with
    the error of the body if the body fails, and with [Err OutOfFuel] if the
    guard still holds after [fuel] turns. *)
Fixpoint while {S : Type} (guard : S → bool) (body : S → res S)
    (fuel : nat) (s : S) : res S :=
  if guard s then
    match fuel with
    | O => Err OutOfFuel
    | Datatypes.S fuel' => do s' <- body s; while guard body fuel' s'
    end
  else Ok s.

Section while_facts.
Context {S : Type} (guard : S → bool) (body : S → res S).

Lemma while_false fuel s : guard s = false → while guard body fuel s = Ok s.
Proof. intros Hg. destruct fuel; simpl; by rewrite Hg. Qed.

Lemma while_true fuel s :
  guard s = true →
  while guard body (Datatypes.S fuel) s = res_bind (body s) (while guard body fuel).
Proof. intros Hg. simpl. by rewrite Hg. Qed.

(** Two bodies that agree while the guard holds give the same loop. *)
Lemma while_ext (body' : S → res S) fuel s :
  (∀ s1, guard s1 = true → body s1 = body' s1) →
  while guard body fuel s = while guard body' fuel s.
Proof.
  intros Hb. revert s. induction fuel as [|fuel IH]; intros s; simpl; [done|].
  destruct (guard s) eqn:Hg; [|done]. rewrite <- Hb by done.
  destruct (body s); simpl; auto.
Qed.

(** A loop that ends leaves the guard false. *)
Lemma while_exit fuel s s' : while guard body fuel s = Ok s' → guard s' = false.
Proof.
  revert s. induction fuel as [|fuel IH]; intros s; simpl;
    destruct (guard s) eqn:Hg; try done; try (by intros [= <-]).
  intros H. apply res_bind_Ok in H as (s1 & _ & H). eauto.
Qed.

(** The invariant rule: what the body preserves while the guard holds is
    true when the loop ends. *)
Lemma while_invariant (I : S → Prop) fuel s s' :
  (∀ s1 s2, I s1 → guard s1 = true → body s1 = Ok s2 → I s2) →
  I s → while guard body fuel s = Ok s' → I s'.
Proof.
  intros Hbody. revert s. induction fuel as [|fuel IH]; intros s HI; simpl;
    destruct (guard s) eqn:Hg; try done; try (by intros [= <-]).
  intros H. apply res_bind_Ok in H as (s1 & Hs1 & H). eauto.
Qed.

(** More fuel does not change the result of a loop that ended, with a
    state or with an error of its body. *)
Lemma while_fuel_mono fuel fuel' s r :
  fuel ≤ fuel' → while guard body fuel s = r → r ≠ Err OutOfFuel →
  while guard body fuel' s = r.
Proof.
  revert fuel' s. induction fuel as [|fuel IH]; intros fuel' s Hle; simpl.
  - destruct (guard s) eqn:Hg; [by intros <-|]. intros <- _. by apply while_false.
  - destruct fuel' as [|fuel']; [lia|]. simpl. destruct (guard s); [|done].
    destruct (body s) as [s1|e]; simpl; [|done]. apply IH. lia.
Qed.

(** The variant rule: a loop whose body decreases a measure that is
    positive while the guard holds ends within that measure, unless its
    body fails. *)
Lemma while_measure (m : S → nat) (I : S → Prop) fuel s :
  (∀ s1, I s1 → guard s1 = true → 0 < m s1 ∧ body s1 ≠ Err OutOfFuel) →
  (∀ s1 s2, I s1 → guard s1 = true → body s1 = Ok s2 → I s2 ∧ m s2 < m s1) →
  I s → m s ≤ fuel → while guard body fuel s ≠ Err OutOfFuel.
Proof.
  intros Hpos Hbody. revert s. induction fuel as [|fuel IH]; intros s HI Hm; simpl;
    (destruct (guard s) eqn:Hg; [|done]); destruct (Hpos _ HI Hg) as [Hm0 Hne]; [lia|].
  destruct (body s) as [s1|e] eqn:Hb; simpl; [|done].
  destruct (Hbody _ _ HI Hg Hb). apply IH; [done|lia].
Qed.

(** A loop fails with an error other than fuel only if its body does. *)
Lemma while_no_error (e : error) (I : S → Prop) fuel s :
  e ≠ OutOfFuel →
  (∀ s1 s2, I s1 → guard s1 = true → body s1 = Ok s2 → I s2) →
  (∀ s1, I s1 → guard s1 = true → body s1 ≠ Err e) →
  I s → while guard body fuel s ≠ Err e.
Proof.
  intros He Hinv Hbody. revert s. induction fuel as [|fuel IH]; intros s HI; simpl;
    (destruct (guard s) eqn:Hg; [|done]); [congruence|].
  destruct (body s) as [s1|e1] eqn:Hb; simpl; [eauto|].
  rewrite <- Hb. auto.
Qed.

(** Total correctness: a loop whose body succeeds, keeps the invariant and
    decreases the measure ends within the measure, with the invariant and
    the guard false. *)
Lemma while_terminates (m : S → nat) (I : S → Prop) fuel s :
  (∀ s1, I s1 → guard s1 = true → ∃ s2, body s1 = Ok s2 ∧ I s2 ∧ m s2 < m s1) →
  I s → m s ≤ fuel →
  ∃ s', while guard body fuel s = Ok s' ∧ I s' ∧ guard s' = false.
Proof.
  intros Hbody. revert s. induction fuel as [|fuel IH]; intros s HI Hm; simpl;
    (destruct (guard s) eqn:Hg; [|by exists s]);
    destruct (Hbody _ HI Hg) as (s2 & Hb & HI2 & Hlt); [lia|].
  rewrite Hb. simpl. apply IH; [done|lia].
Qed.

(** A run in phases: when every state of the phase [φ T], for [T] from
    [lo] on, passes the guard and the body takes it to the phase
    [φ (T + 1)], the loop reaches the phase [φ (lo + k)] in [k] turns. *)
Lemma while_turns (φ : Z → S → Prop) (k : nat) (lo : Z) fuel s :
  (∀ T s1, (lo ≤ T < lo + Z.of_nat k)%Z → φ T s1 →
     guard s1 = true ∧ ∃ s2, body s1 = Ok s2 ∧ φ (T + 1)%Z s2) →
  φ lo s →
  ∃ s', φ (lo + Z.of_nat k)%Z s' ∧
    while guard body (k + fuel) s = while guard body fuel s'.
Proof.
  revert lo s. induction k as [|k IH]; intros lo s Hstep Hs.
  - exists s. by rewrite Z.add_0_r.
  - destruct (Hstep lo s) as (Hg & s2 & Hb & Hs2); [lia|done|].
    destruct (IH (lo + 1)%Z s2) as (s' & Hs' & Hw); [|done|].
    { intros T s1 HT. apply Hstep. lia. }
    exists s'. split; [by replace (lo + Z.of_nat (Datatypes.S k))%Z
                          with (lo + 1 + Z.of_nat k)%Z by lia|].
    simpl. by rewrite Hg, Hb.
Qed.

End while_facts.

(** ** Lists *)

Section lists.
Context {A : Type}.
Implicit Types (l k : list A) (x y : A).

(** A list and its head split: the shape the C queue code tests with
    [q->head == NULL]. *)
Lemma list_nil_or_cons l : l = [] ∨ ∃ x l', l = x :: l'.
Proof. destruct l; eauto. Qed.

Lemma NoDup_app_comm_3 l1 l2 l3 : NoDup (l1 ++ l2 ++ l3) → NoDup (l2 ++ l1 ++ l3).
Proof.
  intros H. by rewrite Permutation_app_swap_app.
Qed.

Lemma NoDup_snoc l x : NoDup (l ++ [x]) ↔ (x ∉ l) ∧ NoDup l.
Proof.
  rewrite NoDup_app. split.
  - intros (? & Hd & _). split; [|done]. intros Hx. apply (Hd x Hx). set_solver.
  - intros [? ?]. split_and!; [done| |apply NoDup_singleton].
    intros y ? ->%list_elem_of_singleton. done.
Qed.

Lemma Forall_snoc (P : A → Prop) l x : Forall P (l ++ [x]) ↔ Forall P l ∧ P x.
Proof. rewrite Forall_app, Forall_singleton. done. Qed.

End lists.

(** Altering position [i] does not change what is stored at the positions
    of a list of other indices. *)
Lemma Forall_alter_other {A : Type} `{Inhabited A} (P : A → Prop) (f : A → A)
    (l : list A) (i : nat) (q : list nat) :
  i ∉ q → Forall (λ j, P (l !!! j)) q → Forall (λ j, P (alter f i l !!! j)) q.
Proof.
  intros Hi. rewrite !Forall_forall. intros HP j Hj.
  rewrite list_lookup_total_alter_ne; [auto|]. intros ->. done.
Qed.

(** ** Integers *)

Lemma Z_gtb_ltb_flip (a b : Z) : (a >? b)%Z = (b <? a)%Z.
Proof. apply Z.gtb_ltb. Qed.
