(* ===== verification/Process.v ===== *)
(** * Process: the process control block and the process list

    [node] is the C struct [node] of [src/cpu_scheduling.c] without its
    [next] pointer: the process list [list *l] is a Rocq list of PCBs in
    insertion order, and a pointer to a PCB is its index in that list.
    [insert] and [input] build the list with the two global identity
    counters.  The theorems state which identity each record receives, that
    the identity test [processId > 1000] of the engine recognises block
    requests exactly while at most 1000 processes are loaded, and what a
    freshly inserted PCB holds. *)

From S2P Require Import Prelude.

#[local] Open Scope Z_scope.

(** ** The process control block (struct node, lines 15-28) *)

(** The three [option] fields are the ones [insert] does not initialise:
    [None] is the indeterminate value of freshly allocated memory.  The
    two flags only ever hold 0 or 1 in the C code: [false] is 0. *)
Record node : Type := mkNode {
  processId : Z;
  arrivalTime : Z;
  burstTime : Z;
  completionTime : option Z;
  waitingTime : option Z;
  turnAroundTime : option Z;
  remainingTime : Z;
  responseTime : Z;
  isTerminated : bool;
  firstExecution : bool;
  blockedTime : Z
}.

#[export] Instance node_eq_dec : EqDecision node.
Proof. solve_decision. Defined.

#[export] Instance node_inhabited : Inhabited node :=
  populate (mkNode 0 0 0 None None None 0 0 false false 0).

(** Field assignments [p->f = v]. *)
Definition set_completionTime (v : option Z) (n : node) : node :=
  mkNode (processId n) (arrivalTime n) (burstTime n) v (waitingTime n)
    (turnAroundTime n) (remainingTime n) (responseTime n) (isTerminated n)
    (firstExecution n) (blockedTime n).

Definition set_waitingTime (v : option Z) (n : node) : node :=
  mkNode (processId n) (arrivalTime n) (burstTime n) (completionTime n) v
    (turnAroundTime n) (remainingTime n) (responseTime n) (isTerminated n)
    (firstExecution n) (blockedTime n).

Definition set_turnAroundTime (v : option Z) (n : node) : node :=
  mkNode (processId n) (arrivalTime n) (burstTime n) (completionTime n)
    (waitingTime n) v (remainingTime n) (responseTime n) (isTerminated n)
    (firstExecution n) (blockedTime n).

Definition set_remainingTime (v : Z) (n : node) : node :=
  mkNode (processId n) (arrivalTime n) (burstTime n) (completionTime n)
    (waitingTime n) (turnAroundTime n) v (responseTime n) (isTerminated n)
    (firstExecution n) (blockedTime n).

Definition set_responseTime (v : Z) (n : node) : node :=
  mkNode (processId n) (arrivalTime n) (burstTime n) (completionTime n)
    (waitingTime n) (turnAroundTime n) (remainingTime n) v (isTerminated n)
    (firstExecution n) (blockedTime n).

Definition set_isTerminated (v : bool) (n : node) : node :=
  mkNode (processId n) (arrivalTime n) (burstTime n) (completionTime n)
    (waitingTime n) (turnAroundTime n) (remainingTime n) (responseTime n) v
    (firstExecution n) (blockedTime n).

Definition set_firstExecution (v : bool) (n : node) : node :=
  mkNode (processId n) (arrivalTime n) (burstTime n) (completionTime n)
    (waitingTime n) (turnAroundTime n) (remainingTime n) (responseTime n)
    (isTerminated n) v (blockedTime n).

Definition set_blockedTime (v : Z) (n : node) : node :=
  mkNode (processId n) (arrivalTime n) (burstTime n) (completionTime n)
    (waitingTime n) (turnAroundTime n) (remainingTime n) (responseTime n)
    (isTerminated n) (firstExecution n) v.

(** The identity convention of the engine: [p->processId > 1000] holds of
    the records that stand for an I/O block request. *)
Definition is_interrupt (n : node) : bool := processId n >? 1000.

(** ** The loader (insert, lines 109-136; input, lines 296-301) *)

(** One record of the input file: arrival time, burst time (or block
    duration) and the interrupt flag, as [fscanf] delivers them. *)
Record event : Type := mkEvent {
  ev_arrival : Z;
  ev_burst : Z;
  ev_interrupt : Z
}.

(** The process list with the two global counters. *)
Record loader : Type := mkLoader {
  plist : list node;
  PROCESS_ID : Z;
  INTERRUPT_ID : Z
}.

(** The globals as initialised at lines 5-6 and the empty list of [main]. *)
Definition loader_init : loader := mkLoader [] 1 1001.

(** The PCB [insert] allocates, for identity [id]. *)
Definition new_node (id arrival burst : Z) : node :=
  {| processId := id;
     arrivalTime := arrival;
     burstTime := burst;
     completionTime := None;
     waitingTime := None;
     turnAroundTime := None;
     remainingTime := burst;
     responseTime := 0;
     isTerminated := false;
     firstExecution := false;
     blockedTime := 0 |}.

(** [insert]: take the identity from the counter the flag selects,
    post-increment that counter, append at the tail of the list. *)
Definition insert (ld : loader) (arrival burst isInterrupt : Z) : loader :=
  if isInterrupt =? 0
  then mkLoader (plist ld ++ [new_node (PROCESS_ID ld) arrival burst])
                (PROCESS_ID ld + 1) (INTERRUPT_ID ld)
  else mkLoader (plist ld ++ [new_node (INTERRUPT_ID ld) arrival burst])
                (PROCESS_ID ld) (INTERRUPT_ID ld + 1).

(** [input]: one [insert] per record read, in file order. *)
Definition input (ld : loader) (evs : list event) : loader :=
  foldl (λ ld e, insert ld (ev_arrival e) (ev_burst e) (ev_interrupt e)) ld evs.

(** The process list of a whole input file. *)
Definition load (evs : list event) : list node := plist (input loader_init evs).

(** ** Counting the records of each kind *)

Definition is_proc_event (e : event) : bool := ev_interrupt e =? 0.

Definition n_procs (evs : list event) : nat := length (filter is_proc_event evs).

Definition n_intrs (evs : list event) : nat :=
  length (filter (λ e, negb (is_proc_event e)) evs).

(** The identity the loader gives to record [e] at position [i] of the
    file [evs]. *)
Definition event_id (evs : list event) (i : nat) (e : event) : Z :=
  if is_proc_event e
  then 1 + Z.of_nat (n_procs (take i evs))
  else 1001 + Z.of_nat (n_intrs (take i evs)).

(** ** What a change of the process list leaves alone *)

(** The fields no statement of the engine assigns. *)
Definition static (n : node) : Z * Z * Z :=
  (processId n, arrivalTime n, burstTime n).

(** Identity and termination flag: what decides whether a PCB is a live
    process. *)
Definition id_term (n : node) : Z * bool := (processId n, isTerminated n).

Section agree.
Context {B : Type} (π : node → B).

(** Two process lists agree on a projection [π] of their PCBs. *)
Definition agree (l l' : list node) : Prop := π <$> l = π <$> l'.

End agree.

(** ** Theorems *)

Section agree_facts.
Context {B : Type} (π : node → B).

#[export] Instance agree_equiv : Equivalence (agree π).
Proof. unfold agree. split; [by intros ?|by intros ???|intros ???; congruence]. Qed.

Lemma agree_length l l' : agree π l l' → length l = length l'.
Proof. intros H. by rewrite <- (length_fmap π l), H, length_fmap. Qed.

Lemma agree_lookup l l' i : agree π l l' → π (l' !!! i) = π (l !!! i).
Proof.
  intros H. assert (π <$> l !! i = π <$> l' !! i) as Hi.
  { by rewrite <- !list_lookup_fmap, H. }
  rewrite !list_lookup_total_alt.
  destruct (l !! i), (l' !! i); simpl in *; congruence.
Qed.

(** An assignment through a pointer that does not touch [π]. *)
Lemma agree_alter f i l : (∀ n, π (f n) = π n) → agree π l (alter f i l).
Proof.
  intros Hf. unfold agree. apply list_eq. intros j. rewrite !list_lookup_fmap.
  rewrite list_lookup_alter. case_decide as H; [|done]. subst.
  destruct (l !! j); simpl; [|done]. by rewrite Hf.
Qed.

Lemma agree_alter_r f i l l' :
  (∀ n, π (f n) = π n) → agree π l l' → agree π l (alter f i l').
Proof. intros Hf Hl. etrans; [exact Hl|]. by apply agree_alter. Qed.

(** Reading [π] behind such an assignment. *)
Lemma lookup_alter_field f (i j : nat) (l : list node) :
  (∀ n, π (f n) = π n) → π (alter f i l !!! j) = π (l !!! j).
Proof. intros Hf. by apply agree_lookup, agree_alter. Qed.

End agree_facts.

Lemma agree_static_id_term l l' :
  agree static l l' → agree isTerminated l l' → agree id_term l l'.
Proof.
  unfold agree. intros Hs Ht. apply list_eq. intros i.
  assert (static <$> l !! i = static <$> l' !! i) as Hsi by (by rewrite <- !list_lookup_fmap, Hs).
  assert (isTerminated <$> l !! i = isTerminated <$> l' !! i) as Hti
    by (by rewrite <- !list_lookup_fmap, Ht).
  rewrite !list_lookup_fmap. unfold static, id_term in *.
  destruct (l !! i), (l' !! i); simpl in *; congruence.
Qed.

Lemma input_nil ld : input ld [] = ld.
Proof. reflexivity. Qed.

Lemma input_cons ld e evs :
  input ld (e :: evs) = input (insert ld (ev_arrival e) (ev_burst e) (ev_interrupt e)) evs.
Proof. reflexivity. Qed.

Lemma input_snoc ld evs e :
  input ld (evs ++ [e]) =
  insert (input ld evs) (ev_arrival e) (ev_burst e) (ev_interrupt e).
Proof. unfold input. by rewrite foldl_app. Qed.

Lemma n_procs_snoc evs e :
  n_procs (evs ++ [e]) = (n_procs evs + if is_proc_event e then 1 else 0)%nat.
Proof.
  unfold n_procs. rewrite filter_app, length_app. f_equal.
  rewrite filter_cons, filter_nil. by destruct (is_proc_event e).
Qed.

Lemma n_intrs_snoc evs e :
  n_intrs (evs ++ [e]) = (n_intrs evs + if is_proc_event e then 0 else 1)%nat.
Proof.
  unfold n_intrs. rewrite filter_app, length_app. f_equal.
  rewrite filter_cons, filter_nil. by destruct (is_proc_event e).
Qed.

(** The counters after loading: one past the number of records of each
    kind. *)
Lemma input_counters evs :
  PROCESS_ID (input loader_init evs) = 1 + Z.of_nat (n_procs evs) ∧
  INTERRUPT_ID (input loader_init evs) = 1001 + Z.of_nat (n_intrs evs).
Proof.
  induction evs as [|e evs [IHp IHi]] using rev_ind; [done|].
  rewrite input_snoc, n_procs_snoc, n_intrs_snoc. unfold insert, is_proc_event.
  destruct (ev_interrupt e =? 0); simpl; lia.
Qed.

(** The list grows by one PCB per record. *)
Lemma input_length evs : length (load evs) = length evs.
Proof.
  unfold load. induction evs as [|e evs IH] using rev_ind; [done|].
  rewrite input_snoc. unfold insert.
  destruct (ev_interrupt e =? 0); simpl; rewrite !length_app, IH; done.
Qed.

(** Loading a longer file only appends. *)
Lemma load_snoc evs e :
  load (evs ++ [e]) =
  load evs ++ [new_node (if is_proc_event e
                         then 1 + Z.of_nat (n_procs evs)
                         else 1001 + Z.of_nat (n_intrs evs))
                        (ev_arrival e) (ev_burst e)].
Proof.
  unfold load. rewrite input_snoc. destruct (input_counters evs) as [Hp Hi].
  unfold insert, is_proc_event. destruct (ev_interrupt e =? 0); simpl; congruence.
Qed.

(** The PCB at position [i] of the loaded list is the fresh PCB of the
    [i]-th record. *)
Lemma load_lookup (evs : list event) (i : nat) (e : event) :
  evs !! i = Some e →
  load evs !! i = Some (new_node (event_id evs i e) (ev_arrival e) (ev_burst e)).
Proof.
  unfold event_id. revert i e. induction evs as [|e' evs IH] using rev_ind; [done|].
  intros i e Hi. rewrite load_snoc.
  destruct (decide (i < length evs)%nat) as [Hlt|Hge].
  - rewrite lookup_app_l in Hi by done.
    rewrite lookup_app_l by (by rewrite input_length).
    rewrite take_app_le by lia. by apply IH.
  - apply lookup_lt_Some in Hi as Hlen. rewrite length_app in Hlen. simpl in Hlen.
    assert (i = length evs) as -> by lia.
    rewrite list_lookup_middle in Hi by done. injection Hi as <-.
    rewrite list_lookup_middle by (by rewrite input_length).
    by rewrite take_app_length.
Qed.

(** Every PCB of a loaded list is as [insert] allocated it. *)
Lemma load_new_node (evs : list event) (n : node) :
  n ∈ load evs → ∃ id a b, n = new_node id a b.
Proof.
  intros [i Hi]%list_elem_of_lookup.
  destruct (evs !! i) as [e|] eqn:He.
  - rewrite (load_lookup _ _ _ He) in Hi. injection Hi as <-. eauto.
  - apply lookup_ge_None in He. apply lookup_lt_Some in Hi.
    rewrite input_length in Hi. lia.
Qed.

(** C36: loading a file yields, record by record and in file order, the
    fresh PCB of each record: arrival and burst are the record's, the
    remaining time is the burst, the PCB is neither terminated nor blocked,
    and its identity is one more than the number of earlier records of its
    kind, counted from 1 for processes and from 1001 for block requests. *)
Theorem load_spec (evs : list event) :
  load evs = imap (λ i e, new_node (event_id evs i e) (ev_arrival e) (ev_burst e)) evs.
Proof.
  apply list_eq. intros i. rewrite list_lookup_imap.
  destruct (evs !! i) as [e|] eqn:He; simpl.
  - by apply load_lookup.
  - apply lookup_ge_None. rewrite input_length. by apply lookup_ge_None.
Qed.

(** The loaded list field by field: arrival times and remaining times are
    the first two columns of the file. *)
Lemma load_arrival evs : arrivalTime <$> load evs = ev_arrival <$> evs.
Proof.
  apply list_eq. intros i. rewrite !list_lookup_fmap.
  destruct (evs !! i) as [e|] eqn:He; simpl; [by rewrite (load_lookup _ _ _ He)|].
  rewrite (proj2 (lookup_ge_None _ _)); [done|]. rewrite input_length. by apply lookup_ge_None.
Qed.

Lemma load_remaining evs : remainingTime <$> load evs = ev_burst <$> evs.
Proof.
  apply list_eq. intros i. rewrite !list_lookup_fmap.
  destruct (evs !! i) as [e|] eqn:He; simpl; [by rewrite (load_lookup _ _ _ He)|].
  rewrite (proj2 (lookup_ge_None _ _)); [done|]. rewrite input_length. by apply lookup_ge_None.
Qed.

Lemma n_procs_take_le evs i : (n_procs (take i evs) ≤ n_procs evs)%nat.
Proof.
  unfold n_procs. rewrite <- (take_drop i evs) at 2.
  rewrite filter_app, length_app. lia.
Qed.

(** The identity of a process record is at most the number of process
    records. *)
Lemma event_id_proc evs i e :
  evs !! i = Some e → is_proc_event e = true →
  1 ≤ event_id evs i e ≤ Z.of_nat (n_procs evs).
Proof.
  intros He Hp. unfold event_id. rewrite Hp. pose proof (n_procs_take_le evs (S i)) as Hle.
  rewrite (take_S_r _ _ _ He), n_procs_snoc, Hp in Hle. lia.
Qed.

(** While the file holds at most 1000 process records, the engine's
    test [processId > 1000] is true of exactly the PCBs that were inserted
    with a non-zero interrupt flag. *)
Theorem load_is_interrupt (evs : list event) (i : nat) (e : event) (n : node) :
  (n_procs evs ≤ 1000)%nat →
  evs !! i = Some e →
  load evs !! i = Some n →
  is_interrupt n = negb (is_proc_event e).
Proof.
  intros Hbound He Hn. rewrite (load_lookup _ _ _ He) in Hn. injection Hn as <-.
  unfold is_interrupt, event_id; simpl. pose proof (n_procs_take_le evs (S i)) as Hle.
  rewrite (take_S_r _ _ _ He), n_procs_snoc in Hle.
  destruct (is_proc_event e); simpl; case_test; lia.
Qed.

Lemma load_is_interrupt_witness :
  is_interrupt (new_node 1001 2 3) = negb (is_proc_event (mkEvent 2 3 1)).
Proof.
  apply (load_is_interrupt [mkEvent 0 5 0; mkEvent 2 3 1] 1 (mkEvent 2 3 1));
    [vm_compute; lia | reflexivity | reflexivity].
Defined.

(** C37: past 1000 process records the identity convention breaks: the
    1001st process receives identity 1001 and the test [processId > 1000]
    takes it for a block request. *)
Theorem load_overflow_ids (evs : list event) (e : event) :
  n_procs evs = 1000%nat →
  is_proc_event e = true →
  ∃ n, load (evs ++ [e]) !! length evs = Some n ∧ is_interrupt n = true.
Proof.
  intros Hn He. rewrite load_snoc, He, Hn.
  rewrite list_lookup_middle by (by rewrite input_length). eauto.
Qed.

Lemma load_overflow_ids_witness :
  ∃ n, load (replicate 1000 (mkEvent 0 1 0) ++ [mkEvent 5 2 0])
         !! length (replicate 1000 (mkEvent 0 1 0)) = Some n ∧
       is_interrupt n = true.
Proof.
  apply (load_overflow_ids (replicate 1000 (mkEvent 0 1 0)) (mkEvent 5 2 0));
    vm_compute; reflexivity.
Defined.
