(* ===== verification/Parse.v ===== *)
(** * Parse: reading input.txt

    [setPolicy] and [input] of [src/cpu_scheduling.c] read the input file
    with [fscanf]: the policy, the quantum when the policy is 4, then
    triples (arrival time, burst time, interrupt flag) until [fscanf]
    returns [EOF].  The file is modelled as the string of the characters
    not yet read.

    - [scan_d] is the [%d] conversion of the C library: it skips white
      space, reads an optional sign and the longest run of digits, and
      leaves the first character that does not belong to the number in the
      stream.  It fails with an input failure at the end of the file and
      with a matching failure on any other character.
    - [fscanf_ddd] is the call of [input]: it returns [EOF] only when the
      file ends before the first number; after a matching failure, or when
      the file ends inside a record, it returns the number of variables it
      assigned and leaves the others as they were.
    - [input_file] is the loop of [input]: its three locals are not
      initialised, so they are [option] values, and [insert] of a local
      that was never assigned is [Err UninitRead].  The loop has a fuel
      argument because it does not always end.

    The theorems: reading back a printed configuration gives the
    configuration ([read_print]); a character that is not part of a number
    makes [input] loop for ever ([input_file_never_returns]), and on a
    file without one the loop ends within one turn per character
    ([input_file_terminates]); a file that
    ends inside a record yields one more PCB, made of the numbers read and
    of what the previous record left in the other locals
    ([truncated_record_reuses_locals]); whatever the file, the list the
    loop returns is [Process.load] of some records ([read_input_load]). *)

From Stdlib Require Import Ascii String.
From stdpp Require Import pretty.
From S2P Require Import Prelude Process.

#[local] Open Scope Z_scope.

(** ** The C library: the [%d] conversion of [fscanf] *)

(** [isspace] in the C locale: space, and the controls from tab to
    carriage return. *)
Definition isspace (c : ascii) : bool :=
  let n := N_of_ascii c in ((n =? 32) || ((9 <=? n) && (n <=? 13)))%N.

Definition isdigit (c : ascii) : bool :=
  let n := N_of_ascii c in ((48 <=? n) && (n <=? 57))%N.

Definition digit_val (c : ascii) : Z := Z.of_N (N_of_ascii c) - 48.

Fixpoint skip_space (fs : string) : string :=
  match fs with
  | String c fs' => if isspace c then skip_space fs' else fs
  | EmptyString => EmptyString
  end.

(** The longest run of digits at the front of the stream, accumulated in
    base 10. *)
Fixpoint read_digits (acc : Z) (fs : string) : Z * string :=
  match fs with
  | String c fs' =>
      if isdigit c then read_digits (10 * acc + digit_val c) fs' else (acc, fs)
  | EmptyString => (acc, EmptyString)
  end.

(** The outcome of one conversion, with the stream it leaves. *)
Inductive conversion : Type :=
  | InputFailure
  | MatchFailure (rest : string)
  | Converted (z : Z) (rest : string).

(** The digits after the optional sign: without a digit the conversion
    fails, and a sign that was read stays consumed. *)
Definition read_number (sign : Z) (fs : string) : conversion :=
  match fs with
  | String c _ =>
      if isdigit c then let (z, rest) := read_digits 0 fs in Converted (sign * z) rest
      else MatchFailure fs
  | EmptyString => MatchFailure EmptyString
  end.

Definition scan_d (fs : string) : conversion :=
  match skip_space fs with
  | EmptyString => InputFailure
  | String c fs' =>
      if (c =? "-")%char then read_number (-1) fs'
      else if (c =? "+")%char then read_number 1 fs'
      else read_number 1 (String c fs')
  end.

(** ** setPolicy (lines 305-308) *)

(** [fscanf(fs, "%d", &x)] with its return value ignored: [x] keeps its
    value when the conversion fails. *)
Definition fscanf_d (x : Z) (fs : string) : Z * string :=
  match scan_d fs with
  | Converted z rest => (z, rest)
  | MatchFailure rest => (x, rest)
  | InputFailure => (x, EmptyString)
  end.

(** The two globals are zero until assigned.  The result is
    [SCHEDULING_POLICY], [TIME_QUANTUM] and the rest of the file. *)
Definition setPolicy (fs : string) : Z * Z * string :=
  let (policy, fs1) := fscanf_d 0 fs in
  if policy =? 4 then let (tq, fs2) := fscanf_d 0 fs1 in (policy, tq, fs2)
  else (policy, 0, fs1).

(** ** input (lines 296-301) *)

(** The locals of [input]: [None] is a local never assigned. *)
Record locals : Type := mkLocals {
  l_arrivalTime : option Z;
  l_burstTime : option Z;
  l_isInterrupt : option Z
}.

Definition no_locals : locals := mkLocals None None None.

(** What [fscanf] returns: [EOF], or the number of variables assigned. *)
Inductive scanned : Type :=
  | EOF
  | Items (n : nat).

(** [fscanf(fs, "%d%d%d", &arrivalTime, &burstTime, &isInterrupt)]. *)
Definition fscanf_ddd (v : locals) (fs : string) : scanned * locals * string :=
  match scan_d fs with
  | InputFailure => (EOF, v, EmptyString)
  | MatchFailure r => (Items 0, v, r)
  | Converted a r1 =>
      let v1 := mkLocals (Some a) (l_burstTime v) (l_isInterrupt v) in
      match scan_d r1 with
      | InputFailure => (Items 1, v1, EmptyString)
      | MatchFailure r => (Items 1, v1, r)
      | Converted b r2 =>
          let v2 := mkLocals (Some a) (Some b) (l_isInterrupt v) in
          match scan_d r2 with
          | InputFailure => (Items 2, v2, EmptyString)
          | MatchFailure r => (Items 2, v2, r)
          | Converted i r3 => (Items 3, mkLocals (Some a) (Some b) (Some i), r3)
          end
      end
  end.

(** [insert(l, arrivalTime, burstTime, isInterrupt)] with the locals as
    they are. *)
Definition insert_locals (ld : loader) (v : locals) : res loader :=
  match v with
  | mkLocals (Some a) (Some b) (Some i) => Ok (insert ld a b i)
  | _ => Err UninitRead
  end.

(** The loop of [input]: one [insert] for every call of [fscanf] that
    does not return [EOF]. *)
Fixpoint input_file (fuel : nat) (v : locals) (ld : loader) (fs : string)
  : res loader :=
  match fuel with
  | O => Err OutOfFuel
  | S fuel' =>
      let '(ret, v', fs') := fscanf_ddd v fs in
      match ret with
      | EOF => Ok ld
      | Items _ => do ld' <- insert_locals ld v'; input_file fuel' v' ld' fs'
      end
  end.

(** The reading part of [main] (lines 86-87): the policy, the quantum and
    the process list. *)
Definition read_input (fuel : nat) (fs : string) : res (Z * Z * list node) :=
  let '(policy, tq, fs1) := setPolicy fs in
  do ld <- input_file fuel no_locals loader_init fs1;
  Ok (policy, tq, plist ld).

(** ** Reference definitions: a printer of input files *)

Definition nl : string := String "010" EmptyString.

(** One record, followed by [tail]. *)
Definition print_event (e : event) (tail : string) : string :=
  nl +:+ pretty (ev_arrival e) +:+ " " +:+ pretty (ev_burst e) +:+ " "
     +:+ pretty (ev_interrupt e) +:+ tail.

Definition print_events (evs : list event) (tail : string) : string :=
  foldr print_event tail evs.

(** The policy, the quantum when the policy is 4, one line per record,
    then [tail]. *)
Definition print_file (policy tq : Z) (evs : list event) (tail : string) : string :=
  pretty policy +:+ (if policy =? 4 then " " +:+ pretty tq else EmptyString)
    +:+ print_events evs tail.

(** A well-formed input file: it ends with its last line. *)
Definition print_input (policy tq : Z) (evs : list event) : string :=
  print_file policy tq evs nl.

(** The quantum [setPolicy] leaves in [TIME_QUANTUM]. *)
Definition quantum_read (policy tq : Z) : Z := if policy =? 4 then tq else 0.

(** The locals of a record read in full. *)
Definition locals_of (e : event) : locals :=
  mkLocals (Some (ev_arrival e)) (Some (ev_burst e)) (Some (ev_interrupt e)).

(** All three locals have been assigned. *)
Definition assigned (v : locals) : bool :=
  match v with
  | mkLocals (Some _) (Some _) (Some _) => true
  | _ => false
  end.

(** The locals after the records [evs]. *)
Definition locals_after (v : locals) (evs : list event) : locals :=
  from_option locals_of v (last evs).

(** The first character is not a digit. *)
Definition ends_number (fs : string) : bool :=
  match fs with
  | String c _ => negb (isdigit c)
  | EmptyString => true
  end.

(** A character no number contains. *)
Definition garbage (c : ascii) : bool :=
  negb (isspace c || isdigit c || (c =? "-")%char || (c =? "+")%char).

Fixpoint has_garbage (fs : string) : bool :=
  match fs with
  | String c fs' => garbage c || has_garbage fs'
  | EmptyString => false
  end.

(** A conversion never consumes such a character, and it is never at the
    end of the file while one is ahead. *)
Definition keeps_garbage (r : conversion) : Prop :=
  match r with
  | InputFailure => False
  | MatchFailure rest | Converted _ rest => has_garbage rest = true
  end.

(** A conversion that does not meet the end of the file takes at least one
    character. *)
Definition progress (fs : string) (r : conversion) : Prop :=
  match r with
  | InputFailure => True
  | MatchFailure rest | Converted _ rest =>
      has_garbage rest = false ∧ (String.length rest < String.length fs)%nat
  end.

(** * Theorems *)

(** ** Character classes *)

Lemma isdigit_class c :
  isdigit c = true →
  isspace c = false ∧ (c =? "-")%char = false ∧ (c =? "+")%char = false ∧
  garbage c = false.
Proof. destruct c as [[] [] [] [] [] [] [] []]; by vm_compute. Qed.

Lemma isspace_class c : isspace c = true → garbage c = false.
Proof. unfold garbage. by intros ->. Qed.

Lemma pretty_N_char_digit d :
  (d < 10)%N →
  isdigit (pretty_N_char d) = true ∧ digit_val (pretty_N_char d) = Z.of_N d.
Proof.
  intros Hd.
  assert (d ∈ [0; 1; 2; 3; 4; 5; 6; 7; 8; 9]%N) as Hin.
  { rewrite !elem_of_cons. lia. }
  rewrite !elem_of_cons, elem_of_nil in Hin. by destruct_or!; subst.
Qed.

(** ** Reading what [pretty] prints *)

Lemma pretty_N_go_app x s rest :
  pretty_N_go x s +:+ rest = pretty_N_go x (s +:+ rest).
Proof.
  revert s. induction (N.lt_wf_0 x) as [x _ IH]; intros s.
  destruct (decide (x = 0)%N) as [->|Hx]; [by rewrite !pretty_N_go_0|].
  rewrite (pretty_N_go_step x s), (pretty_N_go_step x (s +:+ rest)) by lia.
  rewrite IH; [done|]. apply N.div_lt; lia.
Qed.

Lemma pretty_N_go_head x s :
  (0 < x)%N → ∃ c r, pretty_N_go x s = String c r ∧ isdigit c = true.
Proof.
  revert s. induction (N.lt_wf_0 x) as [x _ IH]; intros s Hx.
  rewrite pretty_N_go_step by done.
  destruct (decide (x `div` 10 = 0)%N) as [->|Hd].
  - rewrite pretty_N_go_0. eexists _, _. split; [done|].
    by apply pretty_N_char_digit, N.mod_lt.
  - apply IH; [apply N.div_lt; lia|by apply N.neq_0_lt_0].
Qed.

Lemma read_digits_go x :
  ∃ k, ∀ acc s,
    read_digits acc (pretty_N_go x s) = read_digits (acc * k + Z.of_N x) s.
Proof.
  induction (N.lt_wf_0 x) as [x _ IH].
  destruct (decide (x = 0)%N) as [->|Hx].
  { exists 1. intros acc s. rewrite pretty_N_go_0. f_equal. lia. }
  destruct (IH (x `div` 10)%N) as [k Hk]; [apply N.div_lt; lia|].
  exists (10 * k). intros acc s. rewrite pretty_N_go_step, Hk by lia.
  cbn [read_digits].
  destruct (pretty_N_char_digit (x `mod` 10)%N) as [-> ->]; [by apply N.mod_lt|].
  f_equal. pose proof (N.div_mod x 10). lia.
Qed.

Lemma read_digits_end acc rest :
  ends_number rest = true → read_digits acc rest = (acc, rest).
Proof. destruct rest as [|c r]; [done|]. simpl. by intros ->%negb_true_iff. Qed.

Lemma read_number_digit sign c fs :
  isdigit c = true →
  read_number sign (String c fs) =
    let (z, rest) := read_digits 0 (String c fs) in Converted (sign * z) rest.
Proof. unfold read_number. by intros ->. Qed.

Lemma read_number_pretty sign (p : positive) rest :
  ends_number rest = true →
  read_number sign (pretty p +:+ rest) = Converted (sign * Z.pos p) rest.
Proof.
  intros Hrest. unfold pretty, pretty_positive, pretty, pretty_N.
  rewrite decide_False, pretty_N_go_app by done. change (EmptyString +:+ rest) with rest.
  destruct (pretty_N_go_head (N.pos p) rest) as (c & r & Heq & Hc); [lia|].
  rewrite Heq, read_number_digit, <- Heq by done.
  destruct (read_digits_go (N.pos p)) as [k ->].
  by rewrite read_digits_end.
Qed.

Lemma scan_d_space c fs : isspace c = true → scan_d (String c fs) = scan_d fs.
Proof. unfold scan_d. simpl. by intros ->. Qed.

Lemma scan_d_digit c fs :
  isdigit c = true → scan_d (String c fs) = read_number 1 (String c fs).
Proof.
  intros (Hs & Hm & Hp & _)%isdigit_class. unfold scan_d. simpl.
  by rewrite Hs, Hm, Hp.
Qed.

Lemma scan_d_pretty z rest :
  ends_number rest = true → scan_d (pretty z +:+ rest) = Converted z rest.
Proof.
  intros Hrest. destruct z as [|p|p]; unfold pretty, pretty_Z.
  - change ("0" +:+ rest) with (String "0" rest).
    rewrite scan_d_digit, read_number_digit by done.
    simpl. by rewrite read_digits_end.
  - pose proof (read_number_pretty 1 p rest Hrest) as Hr.
    destruct (pretty p +:+ rest) as [|c r] eqn:Heq; [done|].
    destruct (isdigit c) eqn:Hc; [|by unfold read_number in Hr; rewrite Hc in Hr].
    by rewrite scan_d_digit, Hr.
  - change (("-" +:+ pretty p) +:+ rest) with (String "-" (pretty p +:+ rest)).
    unfold scan_d. simpl. by rewrite read_number_pretty.
Qed.

(** ** Reading a printed file *)

Lemma ends_number_print_events evs tail :
  ends_number tail = true → ends_number (print_events evs tail) = true.
Proof. by destruct evs. Qed.

Lemma scan_d_sp fs : scan_d (" " +:+ fs) = scan_d fs.
Proof. done. Qed.

Lemma scan_d_nl fs : scan_d (nl +:+ fs) = scan_d fs.
Proof. done. Qed.

Lemma fscanf_ddd_print v e tail :
  ends_number tail = true →
  fscanf_ddd v (print_event e tail) = (Items 3, locals_of e, tail).
Proof.
  intros Htail. unfold fscanf_ddd, print_event.
  by rewrite scan_d_nl, scan_d_pretty, scan_d_sp, scan_d_pretty, scan_d_sp,
    scan_d_pretty.
Qed.

Lemma locals_after_cons v e evs :
  locals_after v (e :: evs) = locals_after (locals_of e) evs.
Proof. unfold locals_after. rewrite last_cons. by destruct (last evs). Qed.

Lemma locals_after_snoc v evs e : locals_after v (evs ++ [e]) = locals_of e.
Proof. unfold locals_after. by rewrite last_snoc. Qed.

Lemma input_file_print fuel v ld evs tail :
  ends_number tail = true →
  input_file (length evs + fuel) v ld (print_events evs tail) =
    input_file fuel (locals_after v evs) (input ld evs) tail.
Proof.
  intros Htail. revert v ld. induction evs as [|e evs IH]; intros v ld; [done|].
  cbn [length Nat.add input_file print_events foldr].
  rewrite fscanf_ddd_print by by apply ends_number_print_events.
  rewrite locals_after_cons, input_cons. apply IH.
Qed.

Lemma input_file_end fuel v ld : input_file (S fuel) v ld nl = Ok ld.
Proof. done. Qed.

Lemma setPolicy_print policy tq evs tail :
  ends_number tail = true →
  setPolicy (print_file policy tq evs tail) =
    (policy, quantum_read policy tq, print_events evs tail).
Proof.
  intros Htail%(ends_number_print_events evs).
  unfold setPolicy, print_file, fscanf_d, quantum_read.
  destruct (policy =? 4) eqn:Hp.
  - change ((" " +:+ ?s) +:+ ?t) with (" " +:+ s +:+ t).
    by rewrite scan_d_pretty, Hp, scan_d_sp, scan_d_pretty.
  - change (EmptyString +:+ ?s) with s. by rewrite scan_d_pretty, Hp.
Qed.

(** The records of a printed file are read one per turn; what follows
    them is read with the locals the last record left. *)
Lemma read_input_print policy tq evs tail fuel :
  ends_number tail = true →
  read_input (length evs + fuel) (print_file policy tq evs tail) =
    do ld <- input_file fuel (locals_after no_locals evs) (input loader_init evs) tail;
    Ok (policy, quantum_read policy tq, plist ld).
Proof.
  intros Htail. unfold read_input.
  by rewrite setPolicy_print, input_file_print.
Qed.

(** C15: reading back a printed configuration gives the configuration:
    [setPolicy] finds the policy and, for policy 4, the quantum, and the
    loop of [input], given more fuel than there are records, ends with the
    process list [insert] builds from the records in file order. *)
Theorem read_print (policy tq : Z) (evs : list event) (fuel : nat) :
  (length evs < fuel)%nat →
  read_input fuel (print_input policy tq evs) =
    Ok (policy, quantum_read policy tq, load evs).
Proof.
  intros Hfuel. unfold print_input.
  replace fuel with (length evs + S (fuel - S (length evs)))%nat by lia.
  by rewrite read_input_print, input_file_end.
Qed.

Lemma read_print_witness :
  read_input 3 (print_input 4 2 [mkEvent 0 5 0; mkEvent 2 (-3) 1]) =
    Ok (4, quantum_read 4 2, load [mkEvent 0 5 0; mkEvent 2 (-3) 1]).
Proof. apply (read_print 4 2 [mkEvent 0 5 0; mkEvent 2 (-3) 1] 3). simpl. lia. Defined.

(** C31: a file that ends inside a record still yields a PCB for it: the
    number read is its arrival time, and its burst time and interrupt flag
    are those of the record before, which the locals of [input] still
    hold. *)
Theorem truncated_record_reuses_locals (policy tq : Z) (evs : list event)
    (e : event) (a : Z) (fuel : nat) :
  (length evs + 2 < fuel)%nat →
  read_input fuel (print_file policy tq (evs ++ [e]) (nl +:+ pretty a +:+ nl)) =
    Ok (policy, quantum_read policy tq,
        load (evs ++ [e; mkEvent a (ev_burst e) (ev_interrupt e)])).
Proof.
  intros Hfuel.
  replace fuel with (length (evs ++ [e]) + S (S (fuel - length evs - 3)))%nat
    by (rewrite length_app; simpl; lia).
  rewrite read_input_print, locals_after_snoc by done.
  cbn [input_file]. unfold fscanf_ddd.
  rewrite scan_d_nl, scan_d_pretty by done. simpl.
  unfold load. by rewrite (cons_middle e evs [_]), app_assoc, (input_snoc _ (evs ++ [e])).
Qed.

Lemma truncated_record_reuses_locals_witness :
  read_input 4 (print_file 1 0 ([] ++ [mkEvent 0 5 1]) (nl +:+ pretty 7 +:+ nl)) =
    Ok (1, quantum_read 1 0, load ([] ++ [mkEvent 0 5 1; mkEvent 7 5 1])).
Proof. apply (truncated_record_reuses_locals 1 0 [] (mkEvent 0 5 1) 7 4). simpl. lia. Defined.

(** ** Characters that are not part of a number *)

Lemma skip_space_garbage fs : has_garbage (skip_space fs) = has_garbage fs.
Proof.
  induction fs as [|c fs IH]; [done|]. simpl.
  destruct (isspace c) eqn:Hc; [|done]. by rewrite IH, isspace_class.
Qed.

Lemma read_digits_garbage acc fs :
  has_garbage (read_digits acc fs).2 = has_garbage fs.
Proof.
  revert acc. induction fs as [|c fs IH]; intros acc; [done|]. simpl.
  destruct (isdigit c) eqn:Hc; [|done].
  apply isdigit_class in Hc as (_ & _ & _ & ->). apply IH.
Qed.

Lemma read_number_garbage sign fs :
  has_garbage fs = true → keeps_garbage (read_number sign fs).
Proof.
  intros Hfs. unfold read_number. destruct fs as [|c fs]; [done|].
  destruct (isdigit c); [|done].
  pose proof (read_digits_garbage 0 (String c fs)) as Hr.
  destruct (read_digits 0 (String c fs)). simpl in *. congruence.
Qed.

Lemma scan_d_garbage fs : has_garbage fs = true → keeps_garbage (scan_d fs).
Proof.
  rewrite <- skip_space_garbage. unfold scan_d.
  destruct (skip_space fs) as [|c r]; [done|]. intros Hg.
  destruct (c =? "-")%char eqn:Hm; [|destruct (c =? "+")%char eqn:Hp].
  - apply read_number_garbage. simpl in Hg. unfold garbage in Hg.
    rewrite Hm, !orb_true_r in Hg. done.
  - apply read_number_garbage. simpl in Hg. unfold garbage in Hg.
    rewrite Hp, !orb_true_r in Hg. done.
  - by apply read_number_garbage.
Qed.

Lemma insert_locals_cases ld v :
  (assigned v = true ∧ ∃ ld', insert_locals ld v = Ok ld') ∨
  (assigned v = false ∧ insert_locals ld v = Err UninitRead).
Proof. destruct v as [[?|] [?|] [?|]]; simpl; eauto. Qed.

Lemma fscanf_ddd_assigned v fs ret v' fs' :
  fscanf_ddd v fs = (ret, v', fs') → assigned v = true → assigned v' = true.
Proof.
  unfold fscanf_ddd. destruct v as [[?|] [?|] [?|]]; try done.
  repeat case_match; by intros [= _ <- _].
Qed.

Lemma fscanf_ddd_garbage v fs :
  has_garbage fs = true →
  ∃ n v' fs', fscanf_ddd v fs = (Items n, v', fs') ∧ has_garbage fs' = true.
Proof.
  intros Hfs. unfold fscanf_ddd.
  pose proof (scan_d_garbage fs Hfs) as H1.
  destruct (scan_d fs) as [|r|a r1]; [done|by eauto|].
  pose proof (scan_d_garbage r1 H1) as H2.
  destruct (scan_d r1) as [|r|b r2]; [done|by eauto|].
  pose proof (scan_d_garbage r2 H2) as H3.
  destruct (scan_d r2) as [|r|i r3]; [done|by eauto..].
Qed.

(** C24: a character that belongs to no number is never consumed, so the
    loop of [input] does not end once one is ahead: whatever the fuel, it
    does not return a list; when its three locals have been assigned the
    error is the exhausted fuel, otherwise it can also be the read of a
    local that was never assigned. *)
Theorem input_file_never_returns (fs : string) (fuel : nat) (v : locals)
    (ld : loader) :
  has_garbage fs = true →
  ∃ e, input_file fuel v ld fs = Err e ∧ (assigned v = true → e = OutOfFuel).
Proof.
  intros Hfs. revert v ld fs Hfs.
  induction fuel as [|fuel IH]; intros v ld fs Hfs; [by eauto|].
  destruct (fscanf_ddd_garbage v fs Hfs) as (n & v' & fs' & Hscan & Hfs').
  pose proof (fscanf_ddd_assigned _ _ _ _ _ Hscan) as Hv.
  cbn [input_file]. rewrite Hscan.
  destruct (insert_locals_cases ld v') as [[Hv' [ld' ->]]|[Hv' ->]].
  - destruct (IH v' ld' fs' Hfs') as (e & He & Hout). exists e. split; [done|auto].
  - exists UninitRead. split; [done|]. intros ?%Hv. congruence.
Qed.

Lemma input_file_never_returns_witness :
  input_file 50 (locals_of (mkEvent 0 5 0)) loader_init " 1 3 0 1 x 0" = Err OutOfFuel.
Proof.
  destruct (input_file_never_returns " 1 3 0 1 x 0" 50 (locals_of (mkEvent 0 5 0))
              loader_init) as (e & Herr & Hfuel); [reflexivity|].
  rewrite Herr. f_equal. apply Hfuel. reflexivity.
Defined.

(** ** Files of digits, signs and white space *)

Lemma skip_space_length fs : (String.length (skip_space fs) ≤ String.length fs)%nat.
Proof.
  induction fs as [|c fs IH]; [done|]. simpl.
  destruct (isspace c); simpl; lia.
Qed.

Lemma read_digits_length acc fs :
  (String.length (read_digits acc fs).2 ≤ String.length fs)%nat.
Proof.
  revert acc. induction fs as [|c fs IH]; intros acc; [done|]. simpl.
  destruct (isdigit c); [specialize (IH (10 * acc + digit_val c))|]; simpl; lia.
Qed.

Lemma skip_space_head fs c r : skip_space fs = String c r → isspace c = false.
Proof.
  induction fs as [|d fs IH]; [done|]. simpl.
  destruct (isspace d) eqn:Hd; [done|]. by intros [= <- _].
Qed.

Lemma read_number_progress sign c fs :
  has_garbage fs = false → progress (String c fs) (read_number sign fs).
Proof.
  intros Hfs. unfold read_number. destruct fs as [|d fs]; [by simpl; auto with lia|].
  pose proof (read_digits_garbage 0 (String d fs)) as Hg.
  pose proof (read_digits_length 0 (String d fs)) as Hl.
  destruct (isdigit d); [|by simpl; auto with lia].
  destruct (read_digits 0 (String d fs)). simpl in *. split; [congruence|lia].
Qed.

Lemma read_number_progress_digit sign c fs :
  has_garbage fs = false → isdigit c = true →
  progress (String c fs) (read_number sign (String c fs)).
Proof.
  intros Hfs Hd. rewrite read_number_digit by done.
  pose proof (read_digits_garbage (10 * 0 + digit_val c) fs) as Hg.
  pose proof (read_digits_length (10 * 0 + digit_val c) fs) as Hl.
  simpl. rewrite Hd.
  destruct (read_digits (10 * 0 + digit_val c) fs). simpl in *.
  split; [congruence|lia].
Qed.

Lemma progress_weaken fs fs' r :
  (String.length fs ≤ String.length fs')%nat → progress fs r → progress fs' r.
Proof. destruct r; simpl; [done|intros ? [??]; split; [done|lia]..]. Qed.

Lemma scan_d_progress fs : has_garbage fs = false → progress fs (scan_d fs).
Proof.
  rewrite <- skip_space_garbage. intros Hg.
  apply (progress_weaken (skip_space fs)); [apply skip_space_length|].
  unfold scan_d. destruct (skip_space fs) as [|c r] eqn:Hs; [done|].
  simpl in Hg. apply orb_false_iff in Hg as [Hc Hr].
  destruct (c =? "-")%char eqn:Hm; [by apply read_number_progress|].
  destruct (c =? "+")%char eqn:Hp; [by apply read_number_progress|].
  apply read_number_progress_digit; [done|].
  unfold garbage in Hc. rewrite Hm, Hp, !orb_false_r in Hc.
  apply negb_false_iff, orb_true_iff in Hc as [Hc|Hc]; [|done].
  by rewrite (skip_space_head _ _ _ Hs) in Hc.
Qed.

Lemma fscanf_ddd_progress v fs ret v' fs' :
  has_garbage fs = false → fscanf_ddd v fs = (ret, v', fs') →
  ret = EOF ∨ has_garbage fs' = false ∧ (String.length fs' < String.length fs)%nat.
Proof.
  intros Hfs. unfold fscanf_ddd.
  pose proof (scan_d_progress fs Hfs) as H1.
  destruct (scan_d fs) as [|r|a r1]; simpl in H1; [naive_solver..|].
  destruct H1 as [H1 Hl1]. pose proof (scan_d_progress r1 H1) as H2.
  destruct (scan_d r1) as [|r|b r2]; simpl in H2;
    [intros; simplify_eq/=; destruct_and?; right; split; (done || lia)..|].
  destruct H2 as [H2 Hl2]. pose proof (scan_d_progress r2 H2) as H3.
  destruct (scan_d r2) as [|r|i r3]; simpl in H3;
    intros; simplify_eq/=; destruct_and?; right; split; (done || lia).
Qed.

(** C25: on a file of digits, signs and white space the loop of [input]
    ends within one turn per character: every call of [fscanf] that does
    not return [EOF] takes at least one character.  It returns the list
    when its locals were assigned before the first incomplete record. *)
Theorem input_file_terminates (fs : string) (fuel : nat) (v : locals)
    (ld : loader) :
  has_garbage fs = false → (String.length fs < fuel)%nat →
  input_file fuel v ld fs ≠ Err OutOfFuel ∧
  (assigned v = true → is_Ok (input_file fuel v ld fs)).
Proof.
  revert v ld fs. induction fuel as [|fuel IH]; intros v ld fs Hfs Hlen; [lia|].
  cbn [input_file]. destruct (fscanf_ddd v fs) as [[ret v'] fs'] eqn:Hscan.
  pose proof (fscanf_ddd_assigned _ _ _ _ _ Hscan) as Hv.
  destruct (fscanf_ddd_progress _ _ _ _ _ Hfs Hscan) as [->|[Hfs' Hlen']].
  { split; [done|by eexists]. }
  destruct ret as [|n]; [split; [done|by eexists]|].
  destruct (insert_locals_cases ld v') as [[Hv' [ld' ->]]|[Hv' ->]].
  - destruct (IH v' ld' fs' Hfs') as [Hout Hok]; [lia|]. split; [done|auto].
  - split; [done|]. intros ?%Hv. congruence.
Qed.

Lemma input_file_terminates_witness :
  assigned (locals_of (mkEvent 7 2 0)) = true ∧
  input_file 12 (locals_of (mkEvent 7 2 0)) loader_init "0 5 0 -1 +3" ≠ Err OutOfFuel ∧
  is_Ok (input_file 12 (locals_of (mkEvent 7 2 0)) loader_init "0 5 0 -1 +3").
Proof.
  destruct (input_file_terminates "0 5 0 -1 +3" 12 (locals_of (mkEvent 7 2 0)) loader_init)
    as [Hout Hok].
  - reflexivity.
  - simpl. lia.
  - split; [reflexivity|]. split; [exact Hout|]. apply Hok. reflexivity.
Defined.

(** ** What the loop of [input] returns *)

Lemma insert_locals_Ok ld v ld' :
  insert_locals ld v = Ok ld' →
  ∃ e, ld' = insert ld (ev_arrival e) (ev_burst e) (ev_interrupt e).
Proof.
  destruct v as [[a|] [b|] [i|]]; try done. intros [= <-]. by exists (mkEvent a b i).
Qed.

(** Whatever the file, the list the loop returns is the list of the
    records it has inserted: [Process.input] of some records. *)
Lemma input_file_input fuel v ld0 evs0 fs ld :
  input_file fuel v (input ld0 evs0) fs = Ok ld → ∃ evs, ld = input ld0 (evs0 ++ evs).
Proof.
  revert v evs0 fs. induction fuel as [|fuel IH]; intros v evs0 fs; simpl; [done|].
  destruct (fscanf_ddd v fs) as [[[|k] v'] fs'].
  - intros [= <-]. exists []. by rewrite app_nil_r.
  - destruct (insert_locals _ v') as [ld1|] eqn:Hins; [|done]. simpl.
    apply insert_locals_Ok in Hins as [e ->]. rewrite <- input_snoc.
    intros (evs & ->)%IH. exists (e :: evs). by rewrite <- app_assoc.
Qed.

Lemma read_input_load fuel fs policy tq l :
  read_input fuel fs = Ok (policy, tq, l) →
  policy = (setPolicy fs).1.1 ∧ tq = (setPolicy fs).1.2 ∧ ∃ evs, l = load evs.
Proof.
  unfold read_input. destruct (setPolicy fs) as [[p q] fs1]. simpl.
  destruct (input_file _ _ _ _) as [ld|] eqn:Hin; [|done]. simpl. intros [= <- <- <-].
  apply (input_file_input _ _ _ []) in Hin as [evs ->]. split_and!; [done..|by exists evs].
Qed.
