(* ===== verification/Queue.v ===== *)
(** * Queue: the ready queue and the blocked queue

    A [priorityQueue] of the C file is a chain of [queueNode]s, each holding
    a pointer to a PCB.  Here it is the list of those pointers (indices in
    the process list), head first.  The queue never copies a PCB: the key an
    ordered insertion compares is read from the process list at the time of
    the insertion, so the module takes the process list as an argument
    wherever the C code dereferences [ele].

    - [enqueue], [dequeue], [isEmpty]: the FIFO operations.
    - [pq_insert], [pq_scan]: the ordered insertion of [priorityEnqueue] and
      [priorityBlock], with the case analysis of the C code, for any key.
    - [insert_sorted]: the reference insertion, "before the first element
      with a strictly greater key".
    - [deduct]: one tick of ageing for every PCB of the blocked queue. *)

From S2P Require Import Prelude Process.

#[local] Open Scope Z_scope.

(** ** FIFO operations *)

(** [isEmpty] (lines 289-292). *)
Definition isEmpty (q : list nat) : bool :=
  match q with
  | [] => true
  | _ :: _ => false
  end.

(** [enqueue] (lines 152-166): an empty queue gets the new node as head;
    otherwise walk to the last node and link the new node behind it. *)
Fixpoint enqueue (q : list nat) (data : nat) : list nat :=
  match q with
  | [] => [data]
  | x :: q' => x :: enqueue q' data
  end.

(** [dequeue] (lines 281-285): the head's PCB pointer and the rest.  The C
    code reads [q->head->ele] without a test: on an empty queue that is a
    NULL dereference. *)
Definition dequeue (q : list nat) : res (nat * list nat) :=
  match q with
  | [] => Err NullDeref
  | x :: q' => Ok (x, q')
  end.

(** ** Ordered insertion *)

Section ordered.
(** The key of a PCB pointer: [ele->remainingTime] for the ready queue,
    [ele->blockedTime] for the blocked queue. *)
Context (key : nat → Z).

(** The scan of lines 196-215.  [r] is the node under [ref], [rest] what
    follows it; the result replaces the chain that starts at [ref] (the
    node under [temp] precedes it and is relinked by the caller).  The loop
    runs while [ref->next != NULL]; after it the last node is tested once
    more. *)
Fixpoint pq_scan (data : nat) (r : nat) (rest : list nat) : list nat :=
  match rest with
  | [] => if key r >? key data then [data; r] else [r; data]
  | r' :: rest' =>
      if key r >? key data then data :: r :: rest
      else r :: pq_scan data r' rest'
  end.

(** The whole insertion (lines 170-216): empty queue; new head; a queue of
    one node; the scan from the second node on. *)
Definition pq_insert (q : list nat) (data : nat) : list nat :=
  match q with
  | [] => [data]
  | h :: t =>
      if key h >? key data then data :: h :: t
      else match t with
           | [] => [h; data]
           | r :: rest => h :: pq_scan data r rest
           end
  end.

(** The reference: before the first element whose key is strictly
    greater, at the tail if there is none. *)
Fixpoint insert_sorted (data : nat) (q : list nat) : list nat :=
  match q with
  | [] => [data]
  | x :: q' => if key x >? key data then data :: x :: q' else x :: insert_sorted data q'
  end.

(** Ascending by key, every element against all later ones. *)
Definition sorted_by (q : list nat) : Prop :=
  StronglySorted (λ i j, key i ≤ key j) q.

End ordered.

(** [priorityEnqueue] (lines 170-216): ordered by [remainingTime]. *)
Definition priorityEnqueue (l : list node) (q : list nat) (data : nat) : list nat :=
  pq_insert (λ i, remainingTime (l !!! i)) q data.

(** [priorityBlock] (lines 220-265): ordered by [blockedTime]. *)
Definition priorityBlock (l : list node) (bq : list nat) (data : nat) : list nat :=
  pq_insert (λ i, blockedTime (l !!! i)) bq data.

(** ** Ageing the blocked queue *)

(** [ref->ele->blockedTime--]. *)
Definition dec_blockedTime (n : node) : node :=
  set_blockedTime (blockedTime n - 1) n.

(** [deduct] (lines 269-277): walk the queue and decrement through each
    pointer. *)
Fixpoint deduct (l : list node) (bq : list nat) : list node :=
  match bq with
  | [] => l
  | i :: bq' => deduct (alter dec_blockedTime i l) bq'
  end.

(** A process list for concrete runs of the queue operations: three PCBs
    with remaining times 5, 3, 4 and blocked times 2, 0, 1. *)
Definition sample_procs : list node :=
  [ mkNode 1 0 5 None None None 5 0 false false 2;
    mkNode 2 0 3 None None None 3 0 false false 0;
    mkNode 3 0 4 None None None 4 0 false false 1 ].

(** * Theorems *)

(** ** FIFO *)

Lemma enqueue_app q d : enqueue q d = q ++ [d].
Proof. induction q as [|x q IH]; simpl; congruence. Qed.

Lemma isEmpty_true q : isEmpty q = true ↔ q = [].
Proof. by destruct q. Qed.

Lemma isEmpty_false q : isEmpty q = false ↔ q ≠ [].
Proof. by destruct q. Qed.

Lemma dequeue_Ok q x q' : dequeue q = Ok (x, q') ↔ q = x :: q'.
Proof. destruct q; simpl; [done|]. split; by intros [= -> ->]. Qed.

Lemma dequeue_nonempty q : isEmpty q = false → ∃ x q', dequeue q = Ok (x, q') ∧ q = x :: q'.
Proof. destruct q as [|x q']; [done|]. intros _. by exists x, q'. Qed.

Lemma enqueue_perm q d : enqueue q d ≡ₚ d :: q.
Proof. rewrite enqueue_app. by rewrite Permutation_app_comm. Qed.

(** First in, first out: what is enqueued leaves after everything that
    was in the queue, in the order of arrival. *)
Lemma enqueue_dequeue_fifo x q d :
  dequeue (enqueue (x :: q) d) = Ok (x, enqueue q d).
Proof. reflexivity. Qed.

(** ** The C insertion is the reference insertion *)

Section ordered_facts.
Context (key : nat → Z).
Implicit Types (q : list nat) (d x : nat).

Lemma pq_scan_spec d r rest :
  pq_scan key d r rest = insert_sorted key d (r :: rest).
Proof.
  revert r. induction rest as [|r' rest IH]; intros r; simpl.
  - by destruct (key r >? key d).
  - destruct (key r >? key d); [done|]. by rewrite IH.
Qed.

Lemma pq_insert_spec q d : pq_insert key q d = insert_sorted key d q.
Proof.
  destruct q as [|h [|r rest]]; simpl; try done.
  destruct (key h >? key d); [done|]. by rewrite pq_scan_spec.
Qed.

(** The reference splits the queue at the first strictly greater key. *)
Lemma insert_sorted_split d q :
  ∃ q1 q2, q = q1 ++ q2 ∧ insert_sorted key d q = q1 ++ d :: q2 ∧
    Forall (λ x, key x ≤ key d) q1 ∧
    match q2 with [] => True | y :: _ => key d < key y end.
Proof.
  induction q as [|x q (q1 & q2 & -> & Hins & Hle & Hgt)]; simpl.
  - by exists [], [].
  - case_test.
    + by exists [], (x :: q1 ++ q2).
    + exists (x :: q1), q2. rewrite Hins. split_and!; try done.
      constructor; [lia|done].
Qed.

Lemma insert_sorted_perm d q : insert_sorted key d q ≡ₚ d :: q.
Proof.
  destruct (insert_sorted_split d q) as (q1 & q2 & -> & -> & _).
  by rewrite Permutation_middle.
Qed.

Lemma insert_sorted_length d q : length (insert_sorted key d q) = S (length q).
Proof. by rewrite insert_sorted_perm. Qed.

Lemma insert_sorted_elem_of d q x : x ∈ insert_sorted key d q ↔ x = d ∨ x ∈ q.
Proof. rewrite insert_sorted_perm. apply elem_of_cons. Qed.

Lemma insert_sorted_NoDup d q : d ∉ q → NoDup q → NoDup (insert_sorted key d q).
Proof. intros ? ?. rewrite insert_sorted_perm. by constructor. Qed.

#[local] Instance key_le_trans : Transitive (λ i j : nat, key i ≤ key j).
Proof. intros i j k ? ?. lia. Qed.

Lemma insert_sorted_sorted d q :
  sorted_by key q → sorted_by key (insert_sorted key d q).
Proof.
  unfold sorted_by. induction 1 as [|x q Hq IH Hx]; simpl.
  - repeat constructor.
  - case_test.
    + constructor; [by constructor|].
      constructor; [lia|]. eapply Forall_impl; [exact Hx|]. simpl. lia.
    + constructor; [done|]. rewrite insert_sorted_perm. constructor; [lia|done].
Qed.

(** In a sorted queue the new element lands behind every element whose key
    is not greater and before every element whose key is greater. *)
Lemma insert_sorted_stable d q :
  sorted_by key q →
  ∃ q1 q2, q = q1 ++ q2 ∧ insert_sorted key d q = q1 ++ d :: q2 ∧
    Forall (λ x, key x ≤ key d) q1 ∧ Forall (λ y, key d < key y) q2.
Proof.
  intros Hs. destruct (insert_sorted_split d q) as (q1 & q2 & -> & Hins & Hle & Hgt).
  exists q1, q2. split_and!; try done.
  apply StronglySorted_app_1_r in Hs. destruct q2 as [|y q2]; [done|].
  apply StronglySorted_cons in Hs as [Hy _].
  constructor; [done|]. eapply Forall_impl; [exact Hy|]. simpl. lia.
Qed.

(** The head of the result: the new element exactly when the queue is
    empty or its head has a strictly greater key. *)
Lemma insert_sorted_head d q :
  head (insert_sorted key d q) =
    match q with
    | [] => Some d
    | x :: _ => if key x >? key d then Some d else Some x
    end.
Proof. destruct q as [|x q]; simpl; [done|]. by destruct (key x >? key d). Qed.

(** The keys only matter on the elements involved. *)
Lemma insert_sorted_ext (key' : nat → Z) d q :
  key' d = key d → Forall (λ x, key' x = key x) q →
  insert_sorted key' d q = insert_sorted key d q.
Proof.
  intros Hd. induction 1 as [|x q Hx _ IH]; simpl; [done|].
  by rewrite Hx, Hd, IH.
Qed.

Lemma sorted_by_ext (key' : nat → Z) q :
  Forall (λ x, key' x = key x) q → sorted_by key q → sorted_by key' q.
Proof.
  unfold sorted_by. intros Hk Hs. induction Hs as [|x q Hq IH Hx]; [constructor|].
  apply Forall_cons in Hk as [Hkx Hk]. constructor; [auto|].
  rewrite Forall_forall in *. intros y Hy. rewrite Hkx, (Hk y Hy). auto.
Qed.

(** Shifting every key of the queue by the same amount keeps it sorted. *)
Lemma sorted_by_shift (key' : nat → Z) (c : Z) q :
  (∀ j, j ∈ q → key' j = key j + c) → sorted_by key q → sorted_by key' q.
Proof.
  unfold sorted_by. intros Hk Hs. induction Hs as [|x q Hq IH Hx]; [constructor|].
  constructor.
  - apply IH. intros j Hj. apply Hk. by right.
  - rewrite Forall_forall in *. intros y Hy.
    rewrite (Hk x) by left. rewrite (Hk y) by (by right). specialize (Hx y Hy). lia.
Qed.

Lemma sorted_by_tail x q : sorted_by key (x :: q) → sorted_by key q.
Proof. intros H. by apply StronglySorted_cons in H as [_ ?]. Qed.

(** Adjacent-pairs sortedness, as a reader of the queue would check it. *)
Lemma sorted_by_Sorted q : sorted_by key q ↔ Sorted (λ i j, key i ≤ key j) q.
Proof.
  split; [apply StronglySorted_Sorted|apply Sorted_StronglySorted, _].
Qed.

End ordered_facts.

#[export] Hint Rewrite enqueue_app pq_insert_spec insert_sorted_length : sched.
#[export] Hint Resolve insert_sorted_sorted insert_sorted_NoDup sorted_by_tail : sched.

(** ** The two ordered queues of the program *)

(** C18: [priorityEnqueue] and [priorityBlock], with their special cases
    for the empty queue, the head, the one-element queue and the last
    node, insert the new process before the first queued process whose key
    (the remaining time, the blocked time) is strictly greater, and at the
    tail when there is none. *)
Theorem priority_insertions_spec (l : list node) (q bq : list nat) (data : nat) :
  priorityEnqueue l q data = insert_sorted (λ i, remainingTime (l !!! i)) data q ∧
  priorityBlock l bq data = insert_sorted (λ i, blockedTime (l !!! i)) data bq.
Proof. split; apply pq_insert_spec. Qed.

Lemma priorityEnqueue_perm l q d : priorityEnqueue l q d ≡ₚ d :: q.
Proof. unfold priorityEnqueue. rewrite pq_insert_spec. apply insert_sorted_perm. Qed.

Lemma priorityBlock_perm l q d : priorityBlock l q d ≡ₚ d :: q.
Proof. unfold priorityBlock. rewrite pq_insert_spec. apply insert_sorted_perm. Qed.

(** C32: a queue in ascending order of its key stays so under the
    ordered insertion of [priorityEnqueue] (key: remaining time) and
    [priorityBlock] (key: blocked time), and the insertion is stable: the
    queue is cut in two, the processes of the front part have a key not
    greater than the new one's, those of the back part a strictly greater
    one, and nothing else moves. *)
Theorem pq_insert_sorted_stable (key : nat → Z) (q : list nat) (data : nat) :
  sorted_by key q →
  sorted_by key (pq_insert key q data) ∧
  ∃ q1 q2, q = q1 ++ q2 ∧ pq_insert key q data = q1 ++ data :: q2 ∧
    Forall (λ x, key x ≤ key data) q1 ∧ Forall (λ y, key data < key y) q2.
Proof.
  intros Hs. rewrite pq_insert_spec.
  split; [by apply insert_sorted_sorted|by apply insert_sorted_stable].
Qed.

(** ** Ageing *)

Lemma deduct_length l bq : length (deduct l bq) = length l.
Proof.
  revert l. induction bq as [|i bq IH]; intros l; simpl; [done|].
  by rewrite IH, length_alter.
Qed.

Lemma deduct_app l bq1 bq2 : deduct l (bq1 ++ bq2) = deduct (deduct l bq1) bq2.
Proof. revert l. induction bq1 as [|i bq1 IH]; intros l; simpl; auto. Qed.

(** A PCB outside the blocked queue is not touched. *)
Lemma deduct_lookup_notin l bq j : j ∉ bq → deduct l bq !!! j = l !!! j.
Proof.
  revert l. induction bq as [|i bq IH]; intros l Hj; simpl; [done|].
  apply not_elem_of_cons in Hj as [Hne Hj].
  rewrite IH by done. by apply list_lookup_total_alter_ne.
Qed.

(** A PCB that is queued once loses exactly one tick. *)
Lemma deduct_lookup_in l bq j :
  NoDup bq → j ∈ bq → (j < length l)%nat →
  deduct l bq !!! j = dec_blockedTime (l !!! j).
Proof.
  revert l. induction bq as [|i bq IH]; intros l Hnd Hj Hlen; simpl.
  - by apply elem_of_nil in Hj.
  - apply NoDup_cons in Hnd as [Hi Hnd]. apply elem_of_cons in Hj as [->|Hj].
    + rewrite deduct_lookup_notin by done. by apply list_lookup_total_alter_eq.
    + rewrite IH by (by rewrite ?length_alter).
      rewrite list_lookup_total_alter_ne; [done|]. by intros ->.
Qed.

(** Only [blockedTime] changes, whatever the queue holds. *)
Lemma deduct_fields l bq j :
  let n := l !!! j in let n' := deduct l bq !!! j in
  processId n' = processId n ∧ arrivalTime n' = arrivalTime n ∧
  burstTime n' = burstTime n ∧ completionTime n' = completionTime n ∧
  waitingTime n' = waitingTime n ∧ turnAroundTime n' = turnAroundTime n ∧
  remainingTime n' = remainingTime n ∧ responseTime n' = responseTime n ∧
  isTerminated n' = isTerminated n ∧ firstExecution n' = firstExecution n.
Proof.
  simpl. revert l. induction bq as [|i bq IH]; intros l; simpl; [done|].
  destruct (IH (alter dec_blockedTime i l)) as (-> & -> & -> & -> & -> & -> & -> & -> & -> & ->).
  rewrite list_lookup_total_alter. case_decide as Hd; [|done].
  destruct Hd as [-> _]. done.
Qed.

(** [deduct] leaves every projection of the PCBs alone that does not
    read [blockedTime]. *)
Lemma deduct_agree {B : Type} (π : node → B) l bq :
  (∀ n, π (dec_blockedTime n) = π n) → agree π l (deduct l bq).
Proof.
  intros Hπ. revert l. induction bq as [|i bq IH]; intros l; simpl; [done|].
  etrans; [|apply IH]. by apply agree_alter.
Qed.

(** C22: one tick of ageing takes exactly one unit off the blocked time of
    every process of a duplicate-free blocked queue, leaves every other
    PCB as it was, and keeps the queue sorted by blocked time. *)
Theorem deduct_spec (l : list node) (bq : list nat) :
  NoDup bq → Forall (λ i, (i < length l)%nat) bq →
  sorted_by (λ i, blockedTime (l !!! i)) bq →
  (∀ j, j ∈ bq → blockedTime (deduct l bq !!! j) = blockedTime (l !!! j) - 1) ∧
  (∀ j, j ∉ bq → deduct l bq !!! j = l !!! j) ∧
  sorted_by (λ i, blockedTime (deduct l bq !!! i)) bq.
Proof.
  intros Hnd Hlen Hs. rewrite Forall_forall in Hlen.
  assert (∀ j, j ∈ bq → blockedTime (deduct l bq !!! j) = blockedTime (l !!! j) - 1) as Hin.
  { intros j Hj. by rewrite deduct_lookup_in by auto. }
  split_and!; [done|by intros; apply deduct_lookup_notin|].
  eapply (sorted_by_shift _ _ (-1)); [|exact Hs]. intros j Hj. rewrite Hin by done. lia.
Qed.

(** ** Witnesses *)

Lemma pq_insert_sorted_stable_witness :
  sorted_by (λ i, blockedTime (sample_procs !!! i))
    (pq_insert (λ i, blockedTime (sample_procs !!! i)) [1; 2] 0)%nat ∧
  ∃ q1 q2, [1; 2]%nat = q1 ++ q2 ∧
    pq_insert (λ i, blockedTime (sample_procs !!! i)) [1; 2]%nat 0%nat = q1 ++ 0%nat :: q2 ∧
    Forall (λ x, blockedTime (sample_procs !!! x) ≤ blockedTime (sample_procs !!! 0%nat)) q1 ∧
    Forall (λ y, blockedTime (sample_procs !!! 0%nat) < blockedTime (sample_procs !!! y)) q2.
Proof.
  apply (pq_insert_sorted_stable (λ i, blockedTime (sample_procs !!! i)) [1; 2]%nat 0%nat).
  apply (bool_decide_unpack _). vm_compute. reflexivity.
Defined.

Lemma deduct_spec_witness :
  (∀ j, j ∈ [1; 2; 0]%nat →
     blockedTime (deduct sample_procs [1; 2; 0]%nat !!! j) = blockedTime (sample_procs !!! j) - 1) ∧
  (∀ j, j ∉ [1; 2; 0]%nat → deduct sample_procs [1; 2; 0]%nat !!! j = sample_procs !!! j) ∧
  sorted_by (λ i, blockedTime (deduct sample_procs [1; 2; 0]%nat !!! i)) [1; 2; 0]%nat.
Proof.
  apply (deduct_spec sample_procs [1; 2; 0]%nat).
  - apply (bool_decide_unpack _). vm_compute. reflexivity.
  - apply (bool_decide_unpack _). vm_compute. reflexivity.
  - apply (bool_decide_unpack _). vm_compute. reflexivity.
Defined.
