(* ===== verification/Engine.v ===== *)
(** * Engine: the four scheduling functions

    The state of a run is what the functions [fcfs], [sjf], [sjfPreempt] and
    [roundRobin] of [src/cpu_scheduling.c] read and write: the process list
    (through which every PCB is mutated), the cursor [data] over it, the
    running pointer [ref], the two queues, the globals [SYSTEM_TIME] and
    [IS_CPU_IDLE], and the local [quantum] of [roundRobin].

    Each block of the loop body is one definition, named after what it does
    and mapped to the lines it translates; blocks whose text is the same in
    several of the four functions are defined once.  The four loop bodies
    ([fcfs_iter], [sjf_iter], [sjfPreempt_iter], [roundRobin_iter]) put the
    blocks in the order of the code.  Every dereference of a pointer that
    can be NULL ([ref], the head of a queue) returns [Err NullDeref] when it
    is.  The idle-wait loop and the outer loop take fuel; the arrival loop
    and the unblock loop are given the number of records left and the
    length of the blocked queue, which bound their turns.

    The theorems at the end of the file are those that hold of a block on
    its own: the preemption test is strict, the release of SRTN
    dereferences a NULL [ref] on an idle CPU, [schedule] does nothing for
    a policy number outside 1..4, the idle wait has a closed form, and the
    dispatch of the block-request branch of [roundRobin] assigns the
    response time where the dispatch on an idle CPU does not. *)

From S2P Require Import Prelude Process Queue.

#[local] Open Scope Z_scope.

(** ** The state *)

Record state : Type := mkState {
  procs : list node;      (* the PCBs of [list *l], in list order *)
  data : nat;             (* [node *data]: NULL iff past the end of [procs] *)
  ref : option nat;       (* [node *ref]: the running PCB, [None] is NULL *)
  rq : list nat;          (* the ready queue *)
  bq : list nat;          (* the blocked queue *)
  SYSTEM_TIME : Z;
  IS_CPU_IDLE : bool;     (* [true] is 1 *)
  quantum : Z             (* the local of [roundRobin] *)
}.

#[export] Instance state_eq_dec : EqDecision state.
Proof. solve_decision. Defined.

Definition set_procs (v : list node) (s : state) : state :=
  mkState v (data s) (ref s) (rq s) (bq s) (SYSTEM_TIME s) (IS_CPU_IDLE s) (quantum s).
Definition set_data (v : nat) (s : state) : state :=
  mkState (procs s) v (ref s) (rq s) (bq s) (SYSTEM_TIME s) (IS_CPU_IDLE s) (quantum s).
Definition set_ref (v : option nat) (s : state) : state :=
  mkState (procs s) (data s) v (rq s) (bq s) (SYSTEM_TIME s) (IS_CPU_IDLE s) (quantum s).
Definition set_rq (v : list nat) (s : state) : state :=
  mkState (procs s) (data s) (ref s) v (bq s) (SYSTEM_TIME s) (IS_CPU_IDLE s) (quantum s).
Definition set_bq (v : list nat) (s : state) : state :=
  mkState (procs s) (data s) (ref s) (rq s) v (SYSTEM_TIME s) (IS_CPU_IDLE s) (quantum s).
Definition set_time (v : Z) (s : state) : state :=
  mkState (procs s) (data s) (ref s) (rq s) (bq s) v (IS_CPU_IDLE s) (quantum s).
Definition set_idle (v : bool) (s : state) : state :=
  mkState (procs s) (data s) (ref s) (rq s) (bq s) (SYSTEM_TIME s) v (quantum s).
Definition set_quantum (v : Z) (s : state) : state :=
  mkState (procs s) (data s) (ref s) (rq s) (bq s) (SYSTEM_TIME s) (IS_CPU_IDLE s) v.

(** [data != NULL]. *)
Definition has_data (s : state) : bool := (data s <? length (procs s))%nat.

(** [*data], read where the code has tested [data != NULL]. *)
Definition cur (s : state) : node := procs s !!! data s.

(** [data = data->next]. *)
Definition next_data (s : state) : state := set_data (S (data s)) s.

(** [p->f = ...] through pointer [p]. *)
Definition update (p : nat) (f : node → node) (s : state) : state :=
  set_procs (alter f p (procs s)) s.

(** ** Blocks shared by the four functions *)

(** Line 318: [if(ref != NULL) ref->remainingTime--;] *)
Definition dec_remainingTime (n : node) : node :=
  set_remainingTime (remainingTime n - 1) n.

Definition run_tick (s : state) : state :=
  match ref s with
  | Some r => update r dec_remainingTime s
  | None => s
  end.

(** Line 320: [if(isEmpty(bq) == 0) deduct(bq);] *)
Definition age_blocked (s : state) : state :=
  if isEmpty (bq s) then s else set_procs (deduct (procs s) (bq s)) s.

(** Lines 322-332, the idle wait of [fcfs], [sjf] and [sjfPreempt]: while
    the CPU is idle and nothing is ready, skip a block request, start the
    process that arrives now, or let the clock advance. *)
Definition idle_guard (s : state) : bool :=
  has_data s && IS_CPU_IDLE s && isEmpty (rq s).

Definition idle_step (s : state) : res state :=
  if processId (cur s) >? 1000 then Ok (next_data s)
  else if arrivalTime (cur s) =? SYSTEM_TIME s then
    Ok (next_data (set_ref (Some (data s)) (set_idle false s)))
  else Ok (set_time (SYSTEM_TIME s + 1) s).

Definition idle_wait (fuel : nat) (s : state) : res state :=
  while idle_guard idle_step fuel s.

(** Lines 343-348 (and 366-371): the running process is finished. *)
Definition terminate (t : Z) (n : node) : node :=
  set_isTerminated true
    (set_turnAroundTime (Some (t - arrivalTime n))
       (set_completionTime (Some t) n)).

(** Lines 336-349: a block request meets the running process.  With CPU
    time left the process moves to the blocked queue for the duration of
    the request and [ref] keeps pointing to it until it is reassigned; with
    none left it is finished. *)
Definition block_or_finish (s : state) : res state :=
  match ref s with
  | None => Err NullDeref
  | Some r =>
      if negb (remainingTime (procs s !!! r) =? 0) then
        let s1 := update r (set_blockedTime (burstTime (cur s))) s in
        Ok (set_idle true (set_bq (priorityBlock (procs s1) (bq s1) r) s1))
      else
        Ok (set_ref None (set_idle true (update r (terminate (SYSTEM_TIME s)) s)))
  end.

(** Lines 351-358: the CPU goes to the head of the ready queue, or idles. *)
Definition take_next (s : state) : res state :=
  if negb (isEmpty (rq s)) then
    do xq <- dequeue (rq s);
    Ok (set_idle false (set_rq xq.2 (set_ref (Some xq.1) s)))
  else Ok (set_idle true (set_ref None s)).

(** The guard of the arrival loop, line 334. *)
Definition arrival_guard (s : state) : bool :=
  has_data s && (SYSTEM_TIME s =? arrivalTime (cur s)) && negb (IS_CPU_IDLE s).

(** Lines 365-372: the running process has no time left. *)
Definition complete (s : state) : state :=
  match ref s with
  | Some r =>
      if remainingTime (procs s !!! r) =? 0
      then set_ref None (set_idle true (update r (terminate (SYSTEM_TIME s)) s))
      else s
  | None => s
  end.

(** Lines 374-377: an idle CPU takes the head of the ready queue. *)
Definition dispatch (s : state) : res state :=
  if IS_CPU_IDLE s && negb (isEmpty (rq s)) then
    do xq <- dequeue (rq s);
    Ok (set_idle false (set_rq xq.2 (set_ref (Some xq.1) s)))
  else Ok s.

(** The guard of the unblock loop, line 379:
    [isEmpty(bq) == 0 && bq->head->ele->blockedTime == 0]. *)
Definition unblock_guard (s : state) : bool :=
  match bq s with
  | [] => false
  | h :: _ => blockedTime (procs s !!! h) =? 0
  end.

(** Line 385: [SYSTEM_TIME++]. *)
Definition tick_clock (s : state) : state := set_time (SYSTEM_TIME s + 1) s.

(** The guard of the outer loop, line 317. *)
Definition loop_guard (s : state) : bool :=
  has_data s || bool_decide (ref s ≠ None) || negb (isEmpty (rq s)) || negb (isEmpty (bq s)).

(** The locals at function entry (lines 313-315): [data = l->head],
    [ref = NULL], [IS_CPU_IDLE = 1]. *)
Definition enter (s : state) : state :=
  set_idle true (set_ref None (set_data 0%nat s)).

(** The number of records from [data] to the end of the list: a bound on
    the turns of the arrival loop. *)
Definition records_left (s : state) : nat := length (procs s) - data s.

(** ** First Come First Served (fcfs, lines 312-387) *)

(** One turn of the arrival loop, lines 335-362. *)
Definition fcfs_arrival (s : state) : res state :=
  if processId (cur s) >? 1000 then
    do s1 <- block_or_finish s;
    do s2 <- take_next s1;
    Ok (next_data s2)
  else Ok (next_data (set_rq (enqueue (rq s) (data s)) s)).

(** Lines 334-363. *)
Definition fcfs_arrivals (s : state) : res state :=
  while arrival_guard fcfs_arrival (records_left s) s.

(** One turn of the unblock loop, lines 380-382. *)
Definition fcfs_unblock_step (s : state) : res state :=
  do xq <- dequeue (bq s);
  Ok (set_rq (enqueue (rq s) xq.1) (set_bq xq.2 s)).

(** Lines 379-383. *)
Definition fcfs_unblock (s : state) : res state :=
  while unblock_guard fcfs_unblock_step (length (bq s)) s.

(** The body of the outer loop, lines 318-385. *)
Definition fcfs_iter (ifuel : nat) (s : state) : res state :=
  let s := run_tick s in
  let s := age_blocked s in
  do s <- idle_wait ifuel s;
  do s <- fcfs_arrivals s;
  let s := complete s in
  do s <- dispatch s;
  do s <- fcfs_unblock s;
  Ok (tick_clock s).

Definition fcfs (fuel ifuel : nat) (s : state) : res state :=
  while loop_guard (fcfs_iter ifuel) fuel (enter s).

(** ** Shortest Job First (sjf, lines 391-466) *)

(** Lines 414-441. *)
Definition sjf_arrival (s : state) : res state :=
  if processId (cur s) >? 1000 then
    do s1 <- block_or_finish s;
    do s2 <- take_next s1;
    Ok (next_data s2)
  else Ok (next_data (set_rq (priorityEnqueue (procs s) (rq s) (data s)) s)).

(** Lines 413-442. *)
Definition sjf_arrivals (s : state) : res state :=
  while arrival_guard sjf_arrival (records_left s) s.

(** Lines 459-461. *)
Definition sjf_unblock_step (s : state) : res state :=
  do xq <- dequeue (bq s);
  Ok (set_rq (priorityEnqueue (procs s) (rq s) xq.1) (set_bq xq.2 s)).

(** Lines 458-462. *)
Definition sjf_unblock (s : state) : res state :=
  while unblock_guard sjf_unblock_step (length (bq s)) s.

(** Lines 397-464. *)
Definition sjf_iter (ifuel : nat) (s : state) : res state :=
  let s := run_tick s in
  let s := age_blocked s in
  do s <- idle_wait ifuel s;
  do s <- sjf_arrivals s;
  let s := complete s in
  do s <- dispatch s;
  do s <- sjf_unblock s;
  Ok (tick_clock s).

Definition sjf (fuel ifuel : nat) (s : state) : res state :=
  while loop_guard (sjf_iter ifuel) fuel (enter s).

(** ** Preemptive SJF / SRTN (sjfPreempt, lines 470-557) *)

(** Lines 521-524 and 549-552: if the running process has strictly more
    time left than the head of the ready queue, it goes back into the
    queue and the head runs.  Both [ref] and [rq->head] are dereferenced
    without a test. *)
Definition preempt_check (s : state) : res state :=
  match ref s, rq s with
  | Some r, h :: _ =>
      if remainingTime (procs s !!! r) >? remainingTime (procs s !!! h) then
        do xq <- dequeue (priorityEnqueue (procs s) (rq s) r);
        Ok (set_rq xq.2 (set_ref (Some xq.1) s))
      else Ok s
  | _, _ => Err NullDeref
  end.

(** Lines 493-527. *)
Definition sjfPreempt_arrival (s : state) : res state :=
  if processId (cur s) >? 1000 then
    do s1 <- block_or_finish s;
    do s2 <- take_next s1;
    Ok (next_data s2)
  else
    do s1 <- preempt_check (set_rq (priorityEnqueue (procs s) (rq s) (data s)) s);
    Ok (next_data s1).

(** Lines 492-528. *)
Definition sjfPreempt_arrivals (s : state) : res state :=
  while arrival_guard sjfPreempt_arrival (records_left s) s.

(** Lines 545-552. *)
Definition sjfPreempt_unblock_step (s : state) : res state :=
  do xq <- dequeue (bq s);
  preempt_check (set_rq (priorityEnqueue (procs s) (rq s) xq.1) (set_bq xq.2 s)).

(** Lines 544-553. *)
Definition sjfPreempt_unblock (s : state) : res state :=
  while unblock_guard sjfPreempt_unblock_step (length (bq s)) s.

(** Lines 476-555. *)
Definition sjfPreempt_iter (ifuel : nat) (s : state) : res state :=
  let s := run_tick s in
  let s := age_blocked s in
  do s <- idle_wait ifuel s;
  do s <- sjfPreempt_arrivals s;
  let s := complete s in
  do s <- dispatch s;
  do s <- sjfPreempt_unblock s;
  Ok (tick_clock s).

Definition sjfPreempt (fuel ifuel : nat) (s : state) : res state :=
  while loop_guard (sjfPreempt_iter ifuel) fuel (enter s).

(** ** Round Robin (roundRobin, lines 561-665) *)

Section round_robin.
Context (TIME_QUANTUM : Z).

(** Line 568: [if(IS_CPU_IDLE == 0) quantum--;] *)
Definition quantum_tick (s : state) : state :=
  if IS_CPU_IDLE s then s else set_quantum (quantum s - 1) s.

(** Lines 574-585: the idle wait of [roundRobin] also tests
    [isTerminated] and stores a response time of 0. *)
Definition rr_idle_step (s : state) : res state :=
  if processId (cur s) >? 1000 then Ok (next_data s)
  else if (arrivalTime (cur s) =? SYSTEM_TIME s) && negb (isTerminated (cur s)) then
    Ok (next_data
          (update (data s) (set_responseTime 0)
             (set_ref (Some (data s)) (set_idle false s))))
  else Ok (set_time (SYSTEM_TIME s + 1) s).

Definition rr_idle_wait (fuel : nat) (s : state) : res state :=
  while idle_guard rr_idle_step fuel s.

(** Lines 608-609 and 636-637. *)
Definition first_response (t : Z) (n : node) : node :=
  set_firstExecution false (set_responseTime (t - arrivalTime n) n).

(** Lines 606-616: as [take_next], and the process taken gets a response
    time and a fresh quantum whether or not it has run before. *)
Definition rr_take_next (s : state) : res state :=
  if negb (isEmpty (rq s)) then
    do xq <- dequeue (rq s);
    Ok (set_idle false
          (set_quantum TIME_QUANTUM
             (update xq.1 (first_response (SYSTEM_TIME s))
                (set_rq xq.2 (set_ref (Some xq.1) s)))))
  else Ok (set_idle true (set_ref None s)).

(** Lines 588-620. *)
Definition rr_arrival (s : state) : res state :=
  let s := update (data s) (set_firstExecution true) s in
  if processId (cur s) >? 1000 then
    do s1 <- block_or_finish s;
    do s2 <- rr_take_next s1;
    Ok (next_data s2)
  else Ok (next_data (set_rq (enqueue (rq s) (data s)) s)).

(** Lines 587-621. *)
Definition rr_arrivals (s : state) : res state :=
  while arrival_guard rr_arrival (records_left s) s.

(** Lines 633-641 and 645-653: take the head of the ready queue, record
    its response time if it has not run yet, refill the quantum. *)
Definition rr_run_head (s : state) : res state :=
  do xq <- dequeue (rq s);
  let s1 := set_rq xq.2 (set_ref (Some xq.1) s) in
  let s2 := if firstExecution (procs s1 !!! xq.1)
            then update xq.1 (first_response (SYSTEM_TIME s1)) s1
            else s1 in
  Ok (set_quantum TIME_QUANTUM (set_idle false s2)).

(** Lines 632-655: dispatch on an idle CPU; rotation when the quantum is
    used up and somebody waits; a fresh quantum when nobody does.  In the
    rotation [enqueue(rq, ref)] would store a NULL [ref] in the queue; the
    model stops there. *)
Definition rr_dispatch (s : state) : res state :=
  if IS_CPU_IDLE s && negb (isEmpty (rq s)) then rr_run_head s
  else if (quantum s =? 0) && negb (isEmpty (rq s)) then
    match ref s with
    | Some r => rr_run_head (set_rq (enqueue (rq s) r) s)
    | None => Err NullDeref
    end
  else if (quantum s =? 0) && isEmpty (rq s) then Ok (set_quantum TIME_QUANTUM s)
  else Ok s.

(** Lines 568-663. *)
Definition roundRobin_iter (ifuel : nat) (s : state) : res state :=
  let s := quantum_tick s in
  let s := run_tick s in
  let s := age_blocked s in
  do s <- rr_idle_wait ifuel s;
  do s <- rr_arrivals s;
  let s := complete s in
  do s <- rr_dispatch s;
  do s <- fcfs_unblock s;
  Ok (tick_clock s).

Definition roundRobin (fuel ifuel : nat) (s : state) : res state :=
  while loop_guard (roundRobin_iter ifuel) fuel (set_quantum TIME_QUANTUM (enter s)).

End round_robin.

(** ** The dispatcher (schedule, lines 669-691) *)

Definition schedule (SCHEDULING_POLICY TIME_QUANTUM : Z) (fuel ifuel : nat)
    (s : state) : res state :=
  if SCHEDULING_POLICY =? 1 then fcfs fuel ifuel s
  else if SCHEDULING_POLICY =? 2 then sjf fuel ifuel s
  else if SCHEDULING_POLICY =? 3 then sjfPreempt fuel ifuel s
  else if SCHEDULING_POLICY =? 4 then roundRobin TIME_QUANTUM fuel ifuel s
  else Ok s.

(** The state [main] hands to [schedule]: the loaded list, two empty
    queues, the clock at 0 (lines 7 and 72-77). *)
Definition boot (l : list node) : state :=
  mkState l 0%nat None [] [] 0 false 0.

(** *** Reference definitions *)

(** What the idle wait of [fcfs], [sjf], [sjfPreempt] and that of
    [roundRobin] leave when the record under the cursor is started at the
    clock [t]. *)
Definition started (s : state) (t : Z) : state :=
  next_data (set_ref (Some (data s)) (set_idle false (set_time t s))).

Definition rr_started (s : state) (t : Z) : state :=
  next_data (update (data s) (set_responseTime 0)
               (set_ref (Some (data s)) (set_idle false (set_time t s)))).

(** * Theorems *)

(** C17: under SRTN, releasing a process whose blocked time has run out
    while the CPU is idle dereferences the NULL [ref]: the unblock loop of
    [sjfPreempt] compares [ref->remainingTime] without testing [ref]. *)
Theorem sjfPreempt_unblock_null (s : state) :
  ref s = None → unblock_guard s = true → sjfPreempt_unblock s = Err NullDeref.
Proof.
  intros Hr Hg. unfold sjfPreempt_unblock.
  destruct (bq s) as [|h b] eqn:Hbq; [by unfold unblock_guard in Hg; rewrite Hbq in Hg|].
  simpl length. rewrite while_true by done.
  unfold sjfPreempt_unblock_step, preempt_check. rewrite Hbq. simpl. by rewrite Hr.
Qed.

Lemma sjfPreempt_unblock_null_witness :
  sjfPreempt_unblock (mkState sample_procs 3 None [] [1%nat] 5 true 0) = Err NullDeref.
Proof.
  apply (sjfPreempt_unblock_null (mkState sample_procs 3 None [] [1%nat] 5 true 0));
    reflexivity.
Defined.

(** C19: the preemption test of [sjfPreempt] is strict: the running
    process gives way to the head of the ready queue exactly when it has
    strictly more time left; it then enters the ready queue behind every
    process with a remaining time not greater than its own, and the old
    head runs.  With equal remaining times nothing changes. *)
Theorem preempt_check_strict (s : state) (r h : nat) (q : list nat) :
  ref s = Some r → rq s = h :: q →
  preempt_check s =
    Ok (if remainingTime (procs s !!! r) >? remainingTime (procs s !!! h)
        then set_rq (priorityEnqueue (procs s) q r) (set_ref (Some h) s)
        else s).
Proof.
  intros Hr Hq. unfold preempt_check. rewrite Hr, Hq.
  destruct (_ >? _) eqn:Hgt; [|done].
  unfold priorityEnqueue. rewrite !pq_insert_spec. cbn [insert_sorted].
  by replace (remainingTime (procs s !!! h) >? remainingTime (procs s !!! r)) with false by lia.
Qed.

Lemma preempt_check_strict_witness :
  preempt_check (mkState sample_procs 3 (Some 0%nat) [1%nat; 2%nat] [] 4 false 0) =
    Ok (set_rq (priorityEnqueue sample_procs [2%nat] 0%nat)
          (set_ref (Some 1%nat)
             (mkState sample_procs 3 (Some 0%nat) [1%nat; 2%nat] [] 4 false 0))).
Proof.
  apply (preempt_check_strict
           (mkState sample_procs 3 (Some 0%nat) [1%nat; 2%nat] [] 4 false 0) 0%nat 1%nat [2%nat]);
    reflexivity.
Defined.

(** For a policy number outside 1..4 [schedule] changes nothing:
    no process is run and no field is assigned. *)
Theorem schedule_invalid_policy (n tq : Z) (fuel ifuel : nat) (s : state) :
  ¬ (1 ≤ n ≤ 4) → schedule n tq fuel ifuel s = Ok s.
Proof.
  intros Hn. unfold schedule. repeat case_test; (done || lia).
Qed.

Lemma schedule_invalid_policy_witness :
  schedule 7 2 10 10 (boot sample_procs) = Ok (boot sample_procs).
Proof. apply (schedule_invalid_policy 7 2 10 10 (boot sample_procs)). lia. Defined.

(** ** The idle wait in closed form *)

Section idle_wait_facts.
Context (s : state).
Context (Hguard : idle_guard s = true) (Hreal : processId (cur s) ≤ 1000).

Lemma set_time_same : set_time (SYSTEM_TIME s) s = s.
Proof. by destruct s. Qed.

Lemma idle_guard_started t : idle_guard (started s t) = false.
Proof. unfold idle_guard. simpl. by rewrite andb_false_r. Qed.

Lemma idle_guard_rr_started t : idle_guard (rr_started s t) = false.
Proof. unfold idle_guard. simpl. by rewrite andb_false_r. Qed.

Lemma idle_step_now :
  arrivalTime (cur s) = SYSTEM_TIME s → idle_step s = Ok (started s (SYSTEM_TIME s)).
Proof.
  intros Ha. unfold idle_step, started. rewrite set_time_same.
  repeat case_test; (done || lia).
Qed.

Lemma rr_idle_step_now :
  arrivalTime (cur s) = SYSTEM_TIME s → isTerminated (cur s) = false →
  rr_idle_step s = Ok (rr_started s (SYSTEM_TIME s)).
Proof.
  intros Ha Ht. unfold rr_idle_step, rr_started. rewrite set_time_same, Ht.
  repeat case_test; (done || lia).
Qed.

Lemma idle_step_wait :
  arrivalTime (cur s) ≠ SYSTEM_TIME s →
  idle_step s = Ok (set_time (SYSTEM_TIME s + 1) s) ∧
  rr_idle_step s = Ok (set_time (SYSTEM_TIME s + 1) s).
Proof.
  intros Ha. unfold idle_step, rr_idle_step.
  replace (arrivalTime (cur s) =? SYSTEM_TIME s) with false by lia.
  by replace (processId (cur s) >? 1000) with false by lia.
Qed.

End idle_wait_facts.

(** The wait on a record whose arrival time is [k] units ahead. *)
Lemma idle_wait_ahead (k fuel : nat) (s : state) :
  idle_guard s = true → processId (cur s) ≤ 1000 →
  arrivalTime (cur s) = SYSTEM_TIME s + Z.of_nat k → (k < fuel)%nat →
  idle_wait fuel s = Ok (started s (arrivalTime (cur s))) ∧
  (isTerminated (cur s) = false →
   rr_idle_wait fuel s = Ok (rr_started s (arrivalTime (cur s)))).
Proof.
  revert fuel s. induction k as [|k IH]; intros [|fuel] s Hg Hid Ha Hk; try lia;
    unfold idle_wait, rr_idle_wait; rewrite !while_true by done.
  - replace (arrivalTime (cur s)) with (SYSTEM_TIME s) by lia.
    rewrite idle_step_now by (done || lia).
    split; [by rewrite res_bind_ret_l, while_false by apply idle_guard_started|].
    intros Ht. rewrite rr_idle_step_now by (done || lia).
    by rewrite res_bind_ret_l, while_false by apply idle_guard_rr_started.
  - destruct (idle_step_wait s Hid) as [-> ->]; [lia|]. rewrite !res_bind_ret_l.
    destruct (IH fuel (set_time (SYSTEM_TIME s + 1) s)) as [H1 H2];
      [done|done|simpl; unfold cur in *; simpl; lia|lia|].
    split; [exact H1|exact H2].
Qed.

(** The wait on a record whose arrival time is past. *)
Lemma idle_wait_past (fuel : nat) (s : state) :
  idle_guard s = true → processId (cur s) ≤ 1000 →
  arrivalTime (cur s) < SYSTEM_TIME s →
  idle_wait fuel s = Err OutOfFuel ∧ rr_idle_wait fuel s = Err OutOfFuel.
Proof.
  revert s. unfold idle_wait, rr_idle_wait.
  induction fuel as [|fuel IH]; intros s Hg Hid Ha; [by simpl; rewrite Hg|].
  rewrite !while_true by done.
  destruct (idle_step_wait s Hid) as [-> ->]; [lia|]. rewrite !res_bind_ret_l.
  apply IH; [done|done|]. unfold cur in *. simpl. lia.
Qed.

(** C20: the idle wait in closed form.  With an idle CPU, an empty ready
    queue and a process record under the cursor, the wait of [fcfs], [sjf]
    and [sjfPreempt] moves the clock to the arrival time of the record and
    starts the process: nothing else changes, so the blocked queue and the
    blocked times are as they were however long the wait, and the quantum
    of [roundRobin] is the one the last process left.  [roundRobin] stores
    the response time 0 as well.  When the arrival time is already past,
    the wait does not end with any amount of fuel. *)
Theorem idle_wait_jumps_to_arrival (fuel : nat) (s : state) :
  idle_guard s = true → processId (cur s) ≤ 1000 →
  (SYSTEM_TIME s ≤ arrivalTime (cur s) →
   (Z.to_nat (arrivalTime (cur s) - SYSTEM_TIME s) < fuel)%nat →
   idle_wait fuel s = Ok (started s (arrivalTime (cur s))) ∧
   (isTerminated (cur s) = false →
    rr_idle_wait fuel s = Ok (rr_started s (arrivalTime (cur s))))) ∧
  (arrivalTime (cur s) < SYSTEM_TIME s →
   idle_wait fuel s = Err OutOfFuel ∧ rr_idle_wait fuel s = Err OutOfFuel).
Proof.
  intros Hg Hid. split; [|by apply idle_wait_past].
  intros Ha Hk. apply (idle_wait_ahead (Z.to_nat (arrivalTime (cur s) - SYSTEM_TIME s)));
    (done || lia).
Qed.

Lemma idle_wait_jumps_to_arrival_witness :
  let s := mkState (load [mkEvent 0 4 0; mkEvent 6 3 0]) 1 None [] [0%nat] 2 true 5 in
  (idle_wait 9 s = Ok (started s 6) ∧ rr_idle_wait 9 s = Ok (rr_started s 6)) ∧
  (idle_wait 9 (set_time 7 s) = Err OutOfFuel ∧ rr_idle_wait 9 (set_time 7 s) = Err OutOfFuel).
Proof.
  intros s.
  destruct (idle_wait_jumps_to_arrival 9 s) as [Hahead _]; [reflexivity|by vm_compute|].
  destruct (idle_wait_jumps_to_arrival 9 (set_time 7 s)) as [_ Hpast];
    [reflexivity|by vm_compute|].
  destruct Hahead as [Hfcfs Hrr]; [by vm_compute|vm_compute; lia|].
  split; [split; [exact Hfcfs|by apply Hrr]|]. apply Hpast. reflexivity.
Defined.

(** ** The response time of Round Robin *)

Section response.
Context (tq : Z) (s : state) (x : nat) (q : list nat).
Context (Hrq : rq s = x :: q) (Hx : (x < length (procs s))%nat).

(** The dispatch of lines 606-616 on a non-empty ready queue. *)
Lemma rr_take_next_response :
  ∃ s', rr_take_next tq s = Ok s' ∧
    ref s' = Some x ∧ rq s' = q ∧ quantum s' = tq ∧ data s' = data s ∧
    responseTime (procs s' !!! x) = SYSTEM_TIME s - arrivalTime (procs s !!! x).
Proof.
  unfold rr_take_next. rewrite Hrq. simpl. eexists. split; [done|]. simpl.
  by rewrite list_lookup_total_alter, decide_True.
Qed.

(** The dispatch of lines 633-641 on a process that has run before. *)
Lemma rr_run_head_response :
  firstExecution (procs s !!! x) = false →
  ∃ s', rr_run_head tq s = Ok s' ∧
    ref s' = Some x ∧ rq s' = q ∧ quantum s' = tq ∧ IS_CPU_IDLE s' = false ∧
    procs s' = procs s.
Proof.
  intros Hfe. unfold rr_run_head. rewrite Hrq. simpl. rewrite Hfe. by eexists.
Qed.

End response.

(** C21: Round Robin dispatches at two places, and they do not treat the
    response time alike.  On a block request the running process is
    blocked or finished and the head of the ready queue takes the CPU
    with a fresh quantum: its response time becomes the clock minus its
    arrival time whether or not it has run before.  The dispatch on an
    idle CPU leaves the PCB of a process that has run before as it is. *)
Theorem rr_block_request_overwrites_response (tq : Z) (s : state) (r x : nat)
    (q : list nat) :
  processId (cur s) > 1000 → ref s = Some r → rq s = x :: q →
  (x < length (procs s))%nat →
  (∃ s', rr_arrival tq s = Ok s' ∧
     ref s' = Some x ∧ rq s' = q ∧ quantum s' = tq ∧ data s' = S (data s) ∧
     responseTime (procs s' !!! x) = SYSTEM_TIME s - arrivalTime (procs s !!! x)) ∧
  (IS_CPU_IDLE s = true → firstExecution (procs s !!! x) = false →
   ∃ s', rr_dispatch tq s = Ok s' ∧
     ref s' = Some x ∧ rq s' = q ∧ quantum s' = tq ∧ procs s' = procs s).
Proof.
  intros Hid Hr Hrq Hx. split.
  - unfold rr_arrival. cbv zeta.
    set (s0 := update (data s) (set_firstExecution true) s).
    assert ((processId (cur s0) >? 1000) = true) as ->.
    { unfold cur, s0 in *. simpl. rewrite (lookup_alter_field processId) by done. lia. }
    assert (∃ s1, block_or_finish s0 = Ok s1 ∧ rq s1 = x :: q ∧
              SYSTEM_TIME s1 = SYSTEM_TIME s ∧ data s1 = data s ∧
              length (procs s1) = length (procs s) ∧
              arrivalTime (procs s1 !!! x) = arrivalTime (procs s !!! x))
      as (s1 & -> & Hrq1 & Ht1 & Hd1 & Hl1 & Ha1).
    { unfold block_or_finish, s0. simpl. rewrite Hr.
      destruct (negb _); eexists; (split; [done|]); simpl;
        rewrite !length_alter; split_and!; try done;
        by rewrite !(lookup_alter_field arrivalTime). }
    rewrite res_bind_ret_l.
    destruct (rr_take_next_response tq s1 x q Hrq1) as (s2 & -> & ? & ? & ? & ? & Hresp);
      [lia|].
    rewrite res_bind_ret_l. eexists. split; [done|]. simpl.
    split_and!; try done; congruence.
  - intros Hidle Hfe. unfold rr_dispatch. rewrite Hidle, Hrq. simpl.
    destruct (rr_run_head_response tq s x q Hrq Hfe) as (s' & -> & ? & ? & ? & ? & ?).
    by eexists.
Qed.

Lemma rr_block_request_overwrites_response_witness :
  let l := [ mkNode 1 0 5 None None None 3 0 false false 0;
             mkNode 2 1 4 None None None 3 1 false false 0;
             mkNode 1001 4 2 None None None 2 0 false false 0 ] in
  let s := mkState l 2 (Some 0%nat) [1%nat] [] 4 false 1 in
  (∃ s', rr_arrival 2 s = Ok s' ∧
     ref s' = Some 1%nat ∧ rq s' = [] ∧ quantum s' = 2 ∧ data s' = 3%nat ∧
     responseTime (procs s' !!! 1%nat) = 4 - 1) ∧
  (∃ s', rr_dispatch 2 (set_idle true s) = Ok s' ∧
     ref s' = Some 1%nat ∧ rq s' = [] ∧ quantum s' = 2 ∧ procs s' = l).
Proof.
  intros l s.
  destruct (rr_block_request_overwrites_response 2 s 0 1 []) as [Hblock _];
    [by vm_compute|reflexivity|reflexivity|simpl; lia|].
  destruct (rr_block_request_overwrites_response 2 (set_idle true s) 0 1 []) as [_ Hidle];
    [by vm_compute|reflexivity|reflexivity|simpl; lia|].
  split; [exact Hblock|]. apply Hidle; reflexivity.
Defined.
