(* ===== verification/Generic.v ===== *)
(** * Generic: one tick loop for the four policies

    The four scheduling functions of the C file are copies of one loop that
    differ in three places: how a process enters the ready queue (at the
    tail, or ordered by remaining time), whether an arrival or a release
    from the blocked queue may preempt the running process, and whether
    the quantum and the response time are kept.  [tick] is that loop with a
    [policy] parameter, and the theorems of this file state that each loop
    body of [Engine] is [tick] at its policy.  The invariants of the engine
    are proved once, for [tick], and carried over by these equations.

    The ready-queue discipline is also an interface: [ReadyQueue] says what
    the engine relies on (the insertion is a permutation of the old queue
    and the new element), and both insertions of [Queue] are instances. *)

From S2P Require Import Prelude Process Queue Engine.

#[local] Open Scope Z_scope.

(** ** Policies *)

(** The values 1 to 4 of [SCHEDULING_POLICY]. *)
Inductive policy : Type := FCFS | SJF | SRTN | RR.

#[export] Instance policy_eq_dec : EqDecision policy.
Proof. solve_decision. Defined.

Definition policy_of_Z (n : Z) : option policy :=
  if n =? 1 then Some FCFS
  else if n =? 2 then Some SJF
  else if n =? 3 then Some SRTN
  else if n =? 4 then Some RR
  else None.

(** How a process enters the ready queue. *)
Definition ready_insert (p : policy) (l : list node) (q : list nat) (d : nat) : list nat :=
  match p with
  | FCFS | RR => enqueue q d
  | SJF | SRTN => priorityEnqueue l q d
  end.

(** Whether an insertion into the ready queue is followed by the
    comparison with the running process. *)
Definition preempts (p : policy) : bool :=
  match p with SRTN => true | _ => false end.

(** Whether the quantum and the response time are kept. *)
Definition is_rr (p : policy) : bool :=
  match p with RR => true | _ => false end.

(** What the engine needs of a ready-queue insertion. *)
Class ReadyQueue (ins : list node → list nat → nat → list nat) : Prop := {
  ready_perm : ∀ l q d, ins l q d ≡ₚ d :: q
}.

(** ** The parameterised loop *)

Section generic.
Context (p : policy) (TIME_QUANTUM : Z).

Definition g_idle_step (s : state) : res state :=
  if is_rr p then rr_idle_step s else idle_step s.

Definition g_take_next (s : state) : res state :=
  if is_rr p then rr_take_next TIME_QUANTUM s else take_next s.

(** A block request: the running process is blocked or finished and the
    CPU passes on. *)
Definition g_interrupt (s : state) : res state :=
  do s1 <- block_or_finish s;
  g_take_next s1.

(** A process enters the ready queue; under SRTN it may take the CPU. *)
Definition g_admit (d : nat) (s : state) : res state :=
  let s1 := set_rq (ready_insert p (procs s) (rq s) d) s in
  if preempts p then preempt_check s1 else Ok s1.

Definition g_arrival (s : state) : res state :=
  let s := if is_rr p then update (data s) (set_firstExecution true) s else s in
  if processId (cur s) >? 1000 then
    do s1 <- g_interrupt s;
    Ok (next_data s1)
  else
    do s1 <- g_admit (data s) s;
    Ok (next_data s1).

Definition g_unblock_step (s : state) : res state :=
  do xq <- dequeue (bq s);
  g_admit xq.1 (set_bq xq.2 s).

Definition g_dispatch (s : state) : res state :=
  if is_rr p then rr_dispatch TIME_QUANTUM s else dispatch s.

(** The start of a turn: the running process uses one unit of CPU time
    (and of quantum), the blocked ones one unit of waiting. *)
Definition g_begin (s : state) : state :=
  age_blocked (run_tick (if is_rr p then quantum_tick s else s)).

Definition g_idle_wait (ifuel : nat) (s : state) : res state :=
  while idle_guard g_idle_step ifuel s.

Definition tick (ifuel : nat) (s : state) : res state :=
  do s <- g_idle_wait ifuel (g_begin s);
  do s <- while arrival_guard g_arrival (records_left s) s;
  let s := complete s in
  do s <- g_dispatch s;
  do s <- while unblock_guard g_unblock_step (length (bq s)) s;
  Ok (tick_clock s).

Definition g_enter (s : state) : state :=
  if is_rr p then set_quantum TIME_QUANTUM (enter s) else enter s.

Definition run (fuel ifuel : nat) (s : state) : res state :=
  while loop_guard (tick ifuel) fuel (g_enter s).

End generic.

(** * Theorems *)

#[export] Instance enqueue_ready : ReadyQueue (λ _, enqueue).
Proof. constructor. intros _ q d. apply enqueue_perm. Qed.

#[export] Instance priorityEnqueue_ready : ReadyQueue priorityEnqueue.
Proof. constructor. apply priorityEnqueue_perm. Qed.

#[export] Instance ready_insert_ready (p : policy) : ReadyQueue (ready_insert p).
Proof. destruct p; constructor; intros l q d; apply ready_perm. Qed.

Lemma policy_of_Z_Some n p :
  policy_of_Z n = Some p ↔
  match p with FCFS => n = 1 | SJF => n = 2 | SRTN => n = 3 | RR => n = 4 end.
Proof.
  unfold policy_of_Z. repeat case_test; destruct p; split; (done || lia || by intros [= ]).
Qed.

(** ** The C loop bodies are the parameterised loop *)

Section refinement.
Context (tq : Z).

Lemma fcfs_arrival_generic s : fcfs_arrival s = g_arrival FCFS tq s.
Proof.
  unfold fcfs_arrival, g_arrival, g_interrupt, g_admit; simpl.
  destruct (processId (cur s) >? 1000); [|done]. by rewrite res_bind_assoc.
Qed.

Lemma sjf_arrival_generic s : sjf_arrival s = g_arrival SJF tq s.
Proof.
  unfold sjf_arrival, g_arrival, g_interrupt, g_admit; simpl.
  destruct (processId (cur s) >? 1000); [|done]. by rewrite res_bind_assoc.
Qed.

Lemma sjfPreempt_arrival_generic s : sjfPreempt_arrival s = g_arrival SRTN tq s.
Proof.
  unfold sjfPreempt_arrival, g_arrival, g_interrupt, g_admit; simpl.
  destruct (processId (cur s) >? 1000); [|done]. by rewrite res_bind_assoc.
Qed.

Lemma rr_arrival_generic s : rr_arrival tq s = g_arrival RR tq s.
Proof.
  unfold rr_arrival, g_arrival, g_interrupt, g_admit; simpl.
  destruct (processId _ >? 1000); [|done]. by rewrite res_bind_assoc.
Qed.

Lemma fcfs_unblock_step_generic s : fcfs_unblock_step s = g_unblock_step FCFS s.
Proof. unfold fcfs_unblock_step, g_unblock_step. by destruct (dequeue (bq s)). Qed.

Lemma rr_unblock_step_generic s : fcfs_unblock_step s = g_unblock_step RR s.
Proof. unfold fcfs_unblock_step, g_unblock_step. by destruct (dequeue (bq s)). Qed.

Lemma sjf_unblock_step_generic s : sjf_unblock_step s = g_unblock_step SJF s.
Proof. unfold sjf_unblock_step, g_unblock_step. by destruct (dequeue (bq s)). Qed.

Lemma sjfPreempt_unblock_step_generic s :
  sjfPreempt_unblock_step s = g_unblock_step SRTN s.
Proof. unfold sjfPreempt_unblock_step, g_unblock_step. by destruct (dequeue (bq s)). Qed.

(** A C loop body against [tick]: open both, and replace the bodies of
    the arrival loop and of the unblock loop by the parameterised ones. *)
Ltac iter_is_tick arrival_eq unblock_eq :=
  cbv beta delta [fcfs_iter sjf_iter sjfPreempt_iter roundRobin_iter tick
    g_idle_wait g_begin fcfs_arrivals sjf_arrivals sjfPreempt_arrivals rr_arrivals
    fcfs_unblock sjf_unblock sjfPreempt_unblock idle_wait rr_idle_wait]; simpl;
  repeat (apply res_bind_ext;
          [ first [ reflexivity
                  | apply while_ext; intros; first [apply arrival_eq | apply unblock_eq] ]
          | intros ? ]);
  reflexivity.

Lemma fcfs_iter_tick ifuel s : fcfs_iter ifuel s = tick FCFS tq ifuel s.
Proof. iter_is_tick fcfs_arrival_generic fcfs_unblock_step_generic. Qed.

Lemma sjf_iter_tick ifuel s : sjf_iter ifuel s = tick SJF tq ifuel s.
Proof. iter_is_tick sjf_arrival_generic sjf_unblock_step_generic. Qed.

Lemma sjfPreempt_iter_tick ifuel s : sjfPreempt_iter ifuel s = tick SRTN tq ifuel s.
Proof. iter_is_tick sjfPreempt_arrival_generic sjfPreempt_unblock_step_generic. Qed.

Lemma roundRobin_iter_tick ifuel s : roundRobin_iter tq ifuel s = tick RR tq ifuel s.
Proof. iter_is_tick rr_arrival_generic rr_unblock_step_generic. Qed.

End refinement.

Lemma fcfs_run tq fuel ifuel s : fcfs fuel ifuel s = run FCFS tq fuel ifuel s.
Proof. apply while_ext. intros. apply fcfs_iter_tick. Qed.

Lemma sjf_run tq fuel ifuel s : sjf fuel ifuel s = run SJF tq fuel ifuel s.
Proof. apply while_ext. intros. apply sjf_iter_tick. Qed.

Lemma sjfPreempt_run tq fuel ifuel s : sjfPreempt fuel ifuel s = run SRTN tq fuel ifuel s.
Proof. apply while_ext. intros. apply sjfPreempt_iter_tick. Qed.

Lemma roundRobin_run tq fuel ifuel s : roundRobin tq fuel ifuel s = run RR tq fuel ifuel s.
Proof. apply while_ext. intros. apply roundRobin_iter_tick. Qed.

(** The dispatcher runs the parameterised loop at the policy its first
    argument names, and does nothing for any other value. *)
Lemma schedule_run n tq fuel ifuel s :
  schedule n tq fuel ifuel s =
    match policy_of_Z n with
    | Some p => run p tq fuel ifuel s
    | None => Ok s
    end.
Proof.
  unfold schedule, policy_of_Z.
  repeat case_test; auto using fcfs_run, sjf_run, sjfPreempt_run, roundRobin_run.
Qed.

(** The four loop bodies of the C file are the one parameterised loop
    [tick] at the policies FCFS, SJF, SRTN and RR: they differ only in the
    ready-queue insertion, the preemption comparison and the quantum and
    response-time bookkeeping. *)
Theorem loop_bodies_refine_tick (tq : Z) (ifuel : nat) (s : state) :
  fcfs_iter ifuel s = tick FCFS tq ifuel s ∧
  sjf_iter ifuel s = tick SJF tq ifuel s ∧
  sjfPreempt_iter ifuel s = tick SRTN tq ifuel s ∧
  roundRobin_iter tq ifuel s = tick RR tq ifuel s.
Proof.
  auto using fcfs_iter_tick, sjf_iter_tick, sjfPreempt_iter_tick, roundRobin_iter_tick.
Qed.
