(* ===== verification/Invariant.v ===== *)
(** * Invariant: every process is in exactly one place

    The structural invariant [inv] of the engine state says that the CPU
    flag agrees with the running slot, that the running slot, the ready
    queue and the blocked queue hold no pointer twice, and that they hold
    exactly the admitted PCBs (those before the cursor [data]) that are real
    processes and not terminated.  It is what makes "a process is ready,
    running, blocked or terminated, and only one of these" true of the C
    program.

    The proofs go through three kinds of transition.  A move ([moved]) only
    permutes the live pointers and changes PCB fields other than the
    identity and the termination flag; the cursor passing a record admits a
    process or skips a block request ([inv_admit], [inv_skip]); the running
    process is retired ([inv_retire]).  Every block of the loop body is one
    of these or a sequence of them, for every policy at once. *)

From S2P Require Import Prelude Process Queue Engine Generic.

#[local] Open Scope Z_scope.

(** ** Definitions *)

(** The pointers the engine holds: running slot, ready queue, blocked
    queue. *)
Definition live (s : state) : list nat := option_list (ref s) ++ rq s ++ bq s.

(** [IS_CPU_IDLE] is 1 exactly when [ref] is NULL. *)
Definition idle_ok (s : state) : Prop := IS_CPU_IDLE s = true ↔ ref s = None.

(** An admitted, real, unfinished process. *)
Definition in_system (s : state) (i : nat) : Prop :=
  (i < data s)%nat ∧ is_interrupt (procs s !!! i) = false ∧
  isTerminated (procs s !!! i) = false.

Record inv (s : state) : Prop := mkInv {
  inv_data : (data s ≤ length (procs s))%nat;
  inv_idle : idle_ok s;
  inv_nodup : NoDup (live s);
  inv_live : ∀ i, i ∈ live s ↔ in_system s i;
  inv_fresh : ∀ i, (data s ≤ i)%nat → isTerminated (procs s !!! i) = false
}.

(** A transition that moves pointers between the three places and leaves
    identities, termination flags and the cursor alone. *)
Record moved (s s' : state) : Prop := mkMoved {
  moved_data : data s' = data s;
  moved_procs : agree id_term (procs s) (procs s');
  moved_live : live s' ≡ₚ live s;
  moved_idle : idle_ok s → idle_ok s'
}.

(** The ghost state in which pointer [d] has entered the ready queue at
    its head: what an insertion is a move of. *)
Definition push (d : nat) (s : state) : state := set_rq (d :: rq s) s.

(** The two outcomes of a block request for the running process [r], with
    [ref] already cleared (the C code leaves it dangling until the next
    statement reassigns it). *)
Definition blocked_state (r : nat) (s : state) : state :=
  let s1 := update r (set_blockedTime (burstTime (cur s))) s in
  set_ref None (set_idle true (set_bq (priorityBlock (procs s1) (bq s1) r) s1)).

Definition retired_state (r : nat) (s : state) : state :=
  set_ref None (set_idle true (update r (terminate (SYSTEM_TIME s)) s)).

(** The state when the engine is entered: nothing admitted, nothing
    terminated. *)
Definition initial (s : state) : Prop :=
  rq s = [] ∧ bq s = [] ∧ Forall (λ n, isTerminated n = false) (procs s).

(** * Theorems *)

(** ** Moves *)

#[export] Instance moved_preorder : PreOrder moved.
Proof.
  split.
  - intros s. by split.
  - intros s1 s2 s3 [Hd1 Hp1 Hl1 Hi1] [Hd2 Hp2 Hl2 Hi2]. split.
    + congruence.
    + by etrans.
    + by etrans.
    + auto.
Qed.

Lemma inv_moved s s' : inv s → moved s s' → inv s'.
Proof.
  intros [Hd Hi Hnd Hl Hf] [Hdata Hst Hperm Hidle].
  pose proof (agree_length _ _ _ Hst) as Hlen.
  assert (∀ i, is_interrupt (procs s' !!! i) = is_interrupt (procs s !!! i) ∧
               isTerminated (procs s' !!! i) = isTerminated (procs s !!! i)) as Hsame.
  { intros i. pose proof (agree_lookup _ _ _ i Hst) as [= Hid Ht].
    unfold is_interrupt. by rewrite Hid, Ht. }
  split.
  - lia.
  - auto.
  - by rewrite Hperm.
  - intros i. unfold in_system. destruct (Hsame i) as [-> ->].
    rewrite Hperm, Hdata. apply Hl.
  - intros i Hi'. destruct (Hsame i) as [_ ->]. apply Hf. lia.
Qed.

Lemma moved_next_data s s' : moved s s' → moved (next_data s) (next_data s').
Proof. intros [Hd Hp Hl Hi]. split; simpl; auto. Qed.

(** ** Admission and retirement *)

Lemma inv_admit s :
  inv s → has_data s = true → is_interrupt (cur s) = false →
  inv (next_data (push (data s) s)).
Proof.
  intros [Hd Hi Hnd Hl Hf] Hhas%Nat.ltb_lt Hint.
  assert (data s ∉ live s) as Hfresh by (rewrite Hl; intros [? _]; lia).
  assert (live (next_data (push (data s) s)) ≡ₚ data s :: live s) as Hperm.
  { unfold live; simpl. solve_Permutation. }
  split; simpl.
  - lia.
  - done.
  - rewrite Hperm. by constructor.
  - intros i. rewrite Hperm, elem_of_cons, Hl. unfold in_system, cur in *; simpl.
    specialize (Hf (data s) (le_n _)). split.
    + intros [->|(H1 & H2 & H3)]; (split_and!; [lia|done..]).
    + intros (H1 & H2 & H3). destruct (decide (i = data s)); [by left|right].
      split_and!; [lia|done..].
  - intros i Hi'. apply Hf. lia.
Qed.

Lemma inv_skip s :
  inv s → has_data s = true → is_interrupt (cur s) = true → inv (next_data s).
Proof.
  intros [Hd Hi Hnd Hl Hf] Hhas%Nat.ltb_lt Hint. split; simpl; try done.
  - intros i. rewrite (Hl i). unfold in_system, cur in *; simpl.
    split; intros (H1 & H2 & H3); (split_and!; [|done..]); [lia|].
    destruct (decide (i = data s)) as [->|Hne]; [congruence|lia].
  - intros i Hi'. apply Hf. lia.
Qed.

Lemma inv_retire s r t :
  inv s → ref s = Some r →
  inv (set_ref None (set_idle true (update r (terminate t) s))).
Proof.
  intros [Hd Hi Hnd Hl Hf] Hr. unfold live, in_system in *. rewrite Hr in *. simpl in *.
  apply NoDup_cons in Hnd as [Hnr Hnd].
  assert (r < length (procs s))%nat as Hrlen.
  { destruct (Hl r) as [H _]. destruct H; [left|lia]. }
  split; unfold live, in_system, idle_ok; simpl.
  - rewrite length_alter. lia.
  - done.
  - done.
  - intros i. rewrite list_lookup_total_alter. case_decide as Hc.
    + destruct Hc as [<- _]. simpl. split; [done|]. by intros (_ & _ & ?).
    + specialize (Hl i). rewrite elem_of_cons in Hl.
      assert (i ≠ r) by (intros ->; apply Hc; split; [done|lia]). naive_solver.
  - intros i Hi'. rewrite list_lookup_total_alter. case_decide as Hc.
    + destruct Hc as [<- _]. destruct (Hl r) as [H _]. destruct H; [left|lia].
    + apply Hf. lia.
Qed.

(** ** The blocks of the loop body *)

(** Side conditions of a move. *)
Ltac solve_agree :=
  simpl;
  repeat first
    [ reflexivity
    | apply deduct_agree; intros ?; reflexivity
    | etrans; [|apply deduct_agree; intros ?; reflexivity]
    | apply agree_alter_r; [intros ?; reflexivity|] ].

Ltac solve_live :=
  unfold live, push; simpl;
  rewrite ?enqueue_app, ?priorityEnqueue_perm, ?priorityBlock_perm, ?ready_perm;
  simpl; solve_Permutation.

Ltac solve_moved :=
  split; [reflexivity | solve_agree | solve_live | unfold idle_ok; simpl; naive_solver].

Lemma run_tick_moved s : moved s (run_tick s).
Proof. unfold run_tick. destruct (ref s) as [r|] eqn:Hr; [|done]. solve_moved. Qed.

Lemma age_blocked_moved s : moved s (age_blocked s).
Proof. unfold age_blocked. destruct (isEmpty (bq s)); [done|]. solve_moved. Qed.

Lemma quantum_tick_moved s : moved s (quantum_tick s).
Proof. unfold quantum_tick. destruct (IS_CPU_IDLE s); [done|]. solve_moved. Qed.

Lemma tick_clock_moved s : moved s (tick_clock s).
Proof. solve_moved. Qed.

Lemma idle_guard_true s :
  idle_guard s = true ↔ has_data s = true ∧ IS_CPU_IDLE s = true ∧ rq s = [].
Proof. unfold idle_guard. rewrite !andb_true_iff, isEmpty_true. naive_solver. Qed.

Lemma arrival_guard_true s :
  arrival_guard s = true ↔
  has_data s = true ∧ SYSTEM_TIME s = arrivalTime (cur s) ∧ IS_CPU_IDLE s = false.
Proof.
  unfold arrival_guard. rewrite !andb_true_iff, negb_true_iff, Z.eqb_eq. naive_solver.
Qed.

Lemma unblock_guard_true s :
  unblock_guard s = true ↔ ∃ h b, bq s = h :: b ∧ blockedTime (procs s !!! h) = 0.
Proof.
  unfold unblock_guard. destruct (bq s) as [|h b]; [naive_solver|].
  rewrite Z.eqb_eq. naive_solver.
Qed.

(** The start of a turn only changes PCB fields and the quantum. *)
Lemma g_begin_moved p s : moved s (g_begin p s).
Proof.
  unfold g_begin. etrans; [|apply age_blocked_moved]. etrans; [|apply run_tick_moved].
  destruct (is_rr p); [apply quantum_tick_moved|done].
Qed.

Lemma g_begin_inv p s : inv s → inv (g_begin p s).
Proof. intros Hinv. eapply inv_moved; [done|apply g_begin_moved]. Qed.

(** The idle wait: skip a block request, start the arriving process, or
    wait. *)
Lemma g_idle_step_inv p s s' :
  inv s → idle_guard s = true → g_idle_step p s = Ok s' → inv s'.
Proof.
  intros Hinv (Hd & Hidle & Hrq)%idle_guard_true.
  assert (ref s = None) as Hr by (by apply Hinv).
  unfold g_idle_step, rr_idle_step, idle_step. fold (is_interrupt (cur s)).
  destruct (is_interrupt (cur s)) eqn:Hint.
  { destruct (is_rr p); intros [= <-]; by apply inv_skip. }
  destruct (arrivalTime (cur s) =? SYSTEM_TIME s); simpl;
    destruct (is_rr p); simpl; try destruct (isTerminated (cur s)); simpl; intros [= <-].
  all: first
    [ eapply inv_moved; [exact Hinv|solve_moved]
    | eapply inv_moved; [by apply inv_admit|];
      split; [reflexivity|solve_agree|unfold live; simpl; rewrite Hr, Hrq; solve_Permutation
             |unfold idle_ok; simpl; naive_solver] ].
Qed.

(** The comparison of SRTN is a move, and succeeds exactly when something
    runs and something is ready. *)
Lemma preempt_check_moved s s' : preempt_check s = Ok s' → moved s s'.
Proof.
  unfold preempt_check. destruct (ref s) as [r|] eqn:Hr; [|done].
  destruct (rq s) as [|h q] eqn:Hq; [done|].
  destruct (_ >? _); [|by intros [= <-]].
  destruct (dequeue _) as [[x q']|] eqn:Hdq; simpl; [|done]. intros [= <-].
  apply dequeue_Ok in Hdq.
  assert (x :: q' ≡ₚ r :: h :: q) as Hperm by (by rewrite <- Hdq, priorityEnqueue_perm).
  split; [reflexivity|reflexivity| |unfold idle_ok; simpl; rewrite Hr; naive_solver].
  unfold live; simpl. rewrite Hr, Hq. simpl.
  change (x :: q' ++ bq s) with ((x :: q') ++ bq s). rewrite Hperm. done.
Qed.

(** An insertion into the ready queue, with or without the comparison,
    is a move of the state in which the pointer is already queued. *)
Lemma g_admit_moved p d s s' : g_admit p d s = Ok s' → moved (push d s) s'.
Proof.
  unfold g_admit.
  assert (moved (push d s) (set_rq (ready_insert p (procs s) (rq s) d) s)) as Hm
    by solve_moved.
  destruct (preempts p); [|by intros [= <-]].
  intros H%preempt_check_moved. by etrans.
Qed.

(** Taking the head of the ready queue when nothing runs. *)
Lemma g_take_next_moved p tq s s' :
  ref s = None → g_take_next p tq s = Ok s' → moved s s'.
Proof.
  intros Hr. unfold g_take_next, rr_take_next, take_next.
  destruct (rq s) as [|x q'] eqn:Hrq; destruct (is_rr p); simpl; intros [= <-];
    (split; [reflexivity|solve_agree
            |unfold live; simpl; rewrite Hr, ?Hrq; solve_Permutation
            |unfold idle_ok; simpl; naive_solver]).
Qed.

(** What [ref] held does not matter to the block that reassigns it. *)
Lemma g_take_next_ref p tq v s : g_take_next p tq (set_ref v s) = g_take_next p tq s.
Proof.
  unfold g_take_next, rr_take_next, take_next. simpl.
  by destruct (is_rr p), (rq s).
Qed.

Lemma g_interrupt_unfold p tq s r :
  ref s = Some r →
  g_interrupt p tq s =
    g_take_next p tq (if remainingTime (procs s !!! r) =? 0
                      then retired_state r s else blocked_state r s).
Proof.
  intros Hr. unfold g_interrupt, block_or_finish, retired_state, blocked_state.
  rewrite Hr. destruct (_ =? 0); simpl; [done|]. by rewrite g_take_next_ref.
Qed.

Lemma blocked_state_moved s r : ref s = Some r → moved s (blocked_state r s).
Proof.
  intros Hr. split; [reflexivity|solve_agree| |done].
  unfold live, blocked_state; simpl. rewrite Hr, priorityBlock_perm. solve_Permutation.
Qed.

(** A block request: the running process is blocked or retired, and the
    head of the ready queue, if any, runs. *)
Lemma g_interrupt_inv p tq s s' :
  inv s → g_interrupt p tq s = Ok s' →
  inv s' ∧ data s' = data s ∧ agree static (procs s) (procs s').
Proof.
  intros Hinv. destruct (ref s) as [r|] eqn:Hr; [|by unfold g_interrupt, block_or_finish; rewrite Hr].
  rewrite (g_interrupt_unfold _ _ _ _ Hr).
  set (s1 := if _ =? 0 then _ else _).
  assert (inv s1 ∧ data s1 = data s ∧ agree static (procs s) (procs s1) ∧ ref s1 = None)
    as (Hinv1 & Hd1 & Hs1 & Hr1).
  { subst s1. destruct (_ =? 0); (split_and!; [|done|solve_agree|done]).
    - by apply inv_retire.
    - eapply inv_moved; [done|by apply blocked_state_moved]. }
  clearbody s1. intros Hs'. pose proof (g_take_next_moved _ _ _ _ Hr1 Hs') as Hm.
  split_and!; [by eapply inv_moved|by rewrite (moved_data _ _ Hm)|].
  etrans; [exact Hs1|]. revert Hs'. unfold g_take_next, rr_take_next, take_next.
  destruct (rq s1), (is_rr p); simpl; intros [= <-]; solve_agree.
Qed.

(** One record at the current tick. *)
Lemma g_arrival_inv p tq s s' :
  inv s → arrival_guard s = true → g_arrival p tq s = Ok s' → inv s'.
Proof.
  intros Hinv (Hd & _ & _)%arrival_guard_true. unfold g_arrival.
  set (s0 := if is_rr p then update (data s) (set_firstExecution true) s else s).
  assert (moved s s0) as Hm0 by (subst s0; destruct (is_rr p); [solve_moved|done]).
  assert (inv s0) as Hinv0 by (by eapply inv_moved).
  assert (data s0 = data s ∧ length (procs s0) = length (procs s) ∧
          is_interrupt (cur s0) = is_interrupt (cur s)) as (Hd0 & Hl0 & Hi0).
  { subst s0. destruct (is_rr p); [|done]. simpl. rewrite length_alter.
    split_and!; [done..|]. unfold cur, is_interrupt. simpl.
    rewrite list_lookup_total_alter. by case_decide. }
  assert (has_data s0 = true) as Hd0'.
  { unfold has_data in *. by rewrite Hd0, Hl0. }
  clearbody s0. fold (is_interrupt (cur s0)).
  destruct (is_interrupt (cur s0)) eqn:Hint.
  - destruct (g_interrupt p tq s0) as [s1|] eqn:H1; simpl; [|done]. intros [= <-].
    apply g_interrupt_inv in H1 as (Hinv1 & Hd1 & Hs1); [|done].
    apply inv_skip; [done|..].
    + unfold has_data in *. by rewrite Hd1, <- (agree_length _ _ _ Hs1).
    + unfold cur, is_interrupt in *. rewrite Hd1.
      pose proof (agree_lookup _ _ _ (data s0) Hs1) as [= -> _ _]. done.
  - destruct (g_admit p (data s0) s0) as [s1|] eqn:H1; simpl; [|done]. intros [= <-].
    apply g_admit_moved, moved_next_data in H1.
    eapply inv_moved; [|exact H1]. by apply inv_admit.
Qed.

(** Completion of the running process. *)
Lemma complete_inv s : inv s → inv (complete s).
Proof.
  intros Hinv. unfold complete. destruct (ref s) as [r|] eqn:Hr; [|done].
  destruct (_ =? 0); [|done]. by apply inv_retire.
Qed.

Lemma dispatch_moved s s' : idle_ok s → dispatch s = Ok s' → moved s s'.
Proof.
  intros Hok. unfold dispatch. destruct (IS_CPU_IDLE s) eqn:Hidle; simpl; [|by intros [= <-]].
  assert (ref s = None) as Hr by (by apply Hok).
  destruct (rq s) as [|x q'] eqn:Hrq; simpl; intros [= <-]; [done|].
  split; [reflexivity|reflexivity| |unfold idle_ok; simpl; naive_solver].
  unfold live; simpl. rewrite Hr, Hrq. solve_Permutation.
Qed.

(** The head of the ready queue takes the CPU, under Round Robin. *)
Lemma rr_run_head_spec tq s s' :
  rr_run_head tq s = Ok s' →
  ∃ x q', rq s = x :: q' ∧ ref s' = Some x ∧ rq s' = q' ∧ bq s' = bq s ∧
    data s' = data s ∧ IS_CPU_IDLE s' = false ∧ agree id_term (procs s) (procs s').
Proof.
  unfold rr_run_head. destruct (rq s) as [|x q'] eqn:Hrq; simpl; [done|].
  destruct (firstExecution _); intros [= <-]; exists x, q'; split_and!; try done; solve_agree.
Qed.

Lemma rr_dispatch_moved tq s s' : idle_ok s → rr_dispatch tq s = Ok s' → moved s s'.
Proof.
  intros Hok. unfold rr_dispatch.
  destruct (IS_CPU_IDLE s && negb (isEmpty (rq s))) eqn:Hidle.
  - apply andb_true_iff in Hidle as [Hidle%Hok _].
    intros (x & q' & Hrq & Hr' & Hrq' & Hbq & Hd & Hi & Hp)%rr_run_head_spec.
    split; [done|done| |unfold idle_ok; rewrite Hi, Hr'; naive_solver].
    unfold live. rewrite Hr', Hrq', Hbq, Hidle, Hrq. solve_Permutation.
  - destruct (quantum s =? 0); simpl; [|by intros [= <-]].
    destruct (isEmpty (rq s)) eqn:He; simpl; [intros [= <-]; solve_moved|].
    destruct (ref s) as [r|] eqn:Hr; [|done].
    intros (x & q' & Hrq & Hr' & Hrq' & Hbq & Hd & Hi & Hp)%rr_run_head_spec.
    simpl in *. rewrite enqueue_app in Hrq.
    split; [done|done| |unfold idle_ok; rewrite Hi, Hr'; naive_solver].
    unfold live. rewrite Hr', Hrq', Hbq, Hr. simpl.
    change (x :: q' ++ bq s) with ((x :: q') ++ bq s). rewrite <- Hrq. solve_Permutation.
Qed.

Lemma g_dispatch_moved p tq s s' : idle_ok s → g_dispatch p tq s = Ok s' → moved s s'.
Proof.
  unfold g_dispatch. destruct (is_rr p); eauto using rr_dispatch_moved, dispatch_moved.
Qed.

(** A release from the blocked queue. *)
Lemma g_unblock_step_moved p s s' : g_unblock_step p s = Ok s' → moved s s'.
Proof.
  unfold g_unblock_step. destruct (bq s) as [|x b] eqn:Hbq; simpl; [done|].
  intros H%g_admit_moved. etrans; [|exact H].
  split; [reflexivity|reflexivity| |done].
  unfold live; simpl. rewrite Hbq. solve_Permutation.
Qed.

(** ** The loop body and the run *)

Section tick.
Context (p : policy) (tq : Z).

Lemma idle_loop_inv fuel s s' :
  inv s → while idle_guard (g_idle_step p) fuel s = Ok s' → inv s'.
Proof. apply while_invariant. eauto using g_idle_step_inv. Qed.

Lemma arrival_loop_inv fuel s s' :
  inv s → while arrival_guard (g_arrival p tq) fuel s = Ok s' → inv s'.
Proof. apply while_invariant. eauto using g_arrival_inv. Qed.

Lemma unblock_loop_inv fuel s s' :
  inv s → while unblock_guard (g_unblock_step p) fuel s = Ok s' → inv s'.
Proof. apply while_invariant. eauto using inv_moved, g_unblock_step_moved. Qed.

Lemma tick_inv_aux ifuel s s' : inv s → tick p tq ifuel s = Ok s' → inv s'.
Proof.
  intros Hinv. unfold tick.
  intros (s1 & H1 & (s2 & H2 & (s3 & H3 & (s4 & H4 & [= <-])%res_bind_Ok)%res_bind_Ok
         )%res_bind_Ok)%res_bind_Ok.
  eapply inv_moved; [|apply tick_clock_moved].
  eapply unblock_loop_inv; [|exact H4].
  assert (inv s1) as Hinv1 by eauto using idle_loop_inv, g_begin_inv.
  assert (inv (complete s2)) as Hinv2 by eauto using complete_inv, arrival_loop_inv.
  eapply inv_moved; [exact Hinv2|]. eapply g_dispatch_moved; [apply Hinv2|exact H3].
Qed.

Lemma enter_inv s : initial s → inv (g_enter p tq s).
Proof.
  intros (Hrq & Hbq & Ht). rewrite Forall_forall in Ht.
  assert (∀ i, isTerminated (procs s !!! i) = false) as Hnt.
  { intros i. rewrite list_lookup_total_alt. destruct (procs s !! i) as [n|] eqn:Hn; [|done].
    apply Ht. by eapply list_elem_of_lookup_2. }
  unfold g_enter. destruct (is_rr p); (split; unfold live, in_system, idle_ok; simpl;
    rewrite ?Hrq, ?Hbq; simpl; [lia|done|constructor| |auto]);
    (intros i; split; [by intros ?%elem_of_nil|lia]).
Qed.

End tick.

(** ** No NULL dereference *)

Lemma inv_busy_ref s : inv s → IS_CPU_IDLE s = false → ∃ r, ref s = Some r.
Proof.
  intros [_ [_ Hi] _ _ _] Hidle. destruct (ref s) as [r|]; [by exists r|].
  rewrite (Hi eq_refl) in Hidle. done.
Qed.

Lemma g_take_next_Ok p tq s : is_Ok (g_take_next p tq s).
Proof.
  unfold g_take_next, rr_take_next, take_next.
  destruct (is_rr p), (rq s); simpl; by eexists.
Qed.

Lemma g_interrupt_Ok p tq s : IS_CPU_IDLE s = false → inv s → is_Ok (g_interrupt p tq s).
Proof.
  intros Hidle [r Hr]%inv_busy_ref; [|done]. unfold g_interrupt, block_or_finish.
  rewrite Hr. destruct (_ =? 0); simpl; apply g_take_next_Ok.
Qed.

(** With something running and something ready the comparison of SRTN
    succeeds. *)
Lemma preempt_check_Ok s : is_Some (ref s) → rq s ≠ [] → is_Ok (preempt_check s).
Proof.
  intros [r Hr] Hrq. unfold preempt_check. rewrite Hr.
  destruct (rq s) as [|h q] eqn:Hq; [done|]. destruct (_ >? _); [|by eexists].
  unfold priorityEnqueue. rewrite pq_insert_spec.
  destruct (insert_sorted _ r (h :: q)) as [|x q'] eqn:Hins; simpl; [|by eexists].
  apply (f_equal length) in Hins. by rewrite insert_sorted_length in Hins.
Qed.

Lemma ready_insert_nonempty p l q d : ready_insert p l q d ≠ [].
Proof.
  intros H. pose proof (ready_perm (ins := ready_insert p) l q d) as Hp.
  rewrite H in Hp. by apply Permutation_nil_cons in Hp.
Qed.

Lemma g_admit_Ok p d s : (preempts p = true → is_Some (ref s)) → is_Ok (g_admit p d s).
Proof.
  intros Hr. unfold g_admit. destruct (preempts p); [|by eexists].
  apply preempt_check_Ok; simpl; [auto|apply ready_insert_nonempty].
Qed.

Lemma preempt_check_frame s s' :
  preempt_check s = Ok s' →
  is_Some (ref s') ∧ bq s' = bq s ∧ procs s' = procs s ∧ data s' = data s.
Proof.
  unfold preempt_check. destruct (ref s) as [r|] eqn:Hr; [|done].
  destruct (rq s) as [|h q]; [done|].
  destruct (_ >? _); [|intros [= <-]; by rewrite Hr].
  destruct (dequeue _) as [[x q']|]; simpl; [|done]. intros [= <-]. simpl. eauto.
Qed.

Lemma g_admit_frame p d s s' :
  g_admit p d s = Ok s' →
  (is_Some (ref s) → is_Some (ref s')) ∧ bq s' = bq s ∧ procs s' = procs s ∧
  data s' = data s.
Proof.
  unfold g_admit. destruct (preempts p); [|by intros [= <-]].
  intros (? & ? & ? & ?)%preempt_check_frame. auto.
Qed.

Section safety.
Context (p : policy) (tq : Z).

(** One record at the current tick is always processed: the CPU is busy
    there, so [ref] is not NULL. *)
Lemma g_arrival_total s :
  inv s → arrival_guard s = true →
  ∃ s', g_arrival p tq s = Ok s' ∧ inv s' ∧ (records_left s' < records_left s)%nat.
Proof.
  intros Hinv Hg. pose proof Hg as (Hd & _ & Hidle)%arrival_guard_true.
  assert (∃ s', g_arrival p tq s = Ok s') as [s' Hs'].
  { unfold g_arrival.
    set (s0 := if is_rr p then update (data s) (set_firstExecution true) s else s).
    assert (moved s s0 ∧ IS_CPU_IDLE s0 = false) as [Hm Hidle0]
      by (subst s0; destruct (is_rr p); (split; [solve_moved || done|done])).
    assert (inv s0) as Hinv0 by (by eapply inv_moved). clearbody s0.
    destruct (processId (cur s0) >? 1000).
    - destruct (g_interrupt_Ok p tq s0 Hidle0 Hinv0) as [s1 ->]. by eexists.
    - destruct (g_admit_Ok p (data s0) s0) as [s1 ->]; [|by eexists].
      intros _. destruct (inv_busy_ref s0) as [r ->]; done. }
  exists s'. split_and!; [done|by eapply g_arrival_inv|].
  assert (data s' = S (data s) ∧ length (procs s') = length (procs s)) as [Hd' Hl'].
  { revert Hs'. unfold g_arrival.
    set (s0 := if is_rr p then update (data s) (set_firstExecution true) s else s).
    assert (moved s s0) as Hm by (subst s0; destruct (is_rr p); [solve_moved|done]).
    assert (inv s0) as Hinv0 by (by eapply inv_moved).
    destruct Hm as [Hd0 Hl0%agree_length _ _]. clearbody s0.
    destruct (processId (cur s0) >? 1000).
    - intros (s1 & H1 & [= <-])%res_bind_Ok.
      apply g_interrupt_inv in H1 as (_ & Hd1 & Hl1%agree_length); [|done].
      simpl. split; congruence.
    - intros (s1 & (_ & _ & Hp1 & Hd1)%g_admit_frame & [= <-])%res_bind_Ok.
      simpl. split; congruence. }
  apply Nat.ltb_lt in Hd. unfold records_left. lia.
Qed.

(** The arrival loop ends within the number of records left. *)
Lemma arrival_loop_total s :
  inv s →
  ∃ s', while arrival_guard (g_arrival p tq) (records_left s) s = Ok s' ∧ inv s'.
Proof.
  intros Hinv.
  destruct (while_terminates arrival_guard (g_arrival p tq) records_left inv
              (records_left s) s) as (s' & ? & ? & _); eauto using g_arrival_total.
Qed.

Lemma g_dispatch_Ok s : inv s → is_Ok (g_dispatch p tq s).
Proof.
  intros Hinv. unfold g_dispatch, rr_dispatch, dispatch, rr_run_head.
  destruct (is_rr p).
  - destruct (IS_CPU_IDLE s) eqn:Hidle; simpl.
    + destruct (rq s); simpl; [|by eexists]. destruct (quantum s =? 0); by eexists.
    + destruct (inv_busy_ref _ Hinv Hidle) as [r ->].
      destruct (quantum s =? 0); simpl; [|by eexists].
      destruct (rq s); simpl; by eexists.
  - destruct (IS_CPU_IDLE s), (rq s); simpl; by eexists.
Qed.

(** A release from the blocked queue succeeds unless the policy compares
    with a running process that is not there. *)
Lemma g_unblock_step_total s :
  inv s → unblock_guard s = true → (preempts p = true → is_Some (ref s)) →
  ∃ s', g_unblock_step p s = Ok s' ∧ inv s' ∧
        (preempts p = true → is_Some (ref s')) ∧ (length (bq s') < length (bq s))%nat.
Proof.
  intros Hinv (h & b & Hbq & _)%unblock_guard_true Hr.
  assert (∃ s', g_unblock_step p s = Ok s') as [s' Hs'].
  { unfold g_unblock_step. rewrite Hbq. simpl. by apply g_admit_Ok. }
  exists s'. split_and!; [done|by eauto using inv_moved, g_unblock_step_moved|..];
    revert Hs'; unfold g_unblock_step; rewrite Hbq; simpl;
    intros (Hr' & Hb & _)%g_admit_frame; simpl in *; [auto|rewrite Hb; lia].
Qed.

Lemma unblock_loop_total s :
  inv s → (preempts p = true → is_Some (ref s)) →
  ∃ s', while unblock_guard (g_unblock_step p) (length (bq s)) s = Ok s' ∧ inv s'.
Proof.
  intros Hinv Hr.
  destruct (while_terminates unblock_guard (g_unblock_step p) (λ s, length (bq s))
              (λ s, inv s ∧ (preempts p = true → is_Some (ref s)))
              (length (bq s)) s) as (s' & ? & [? _] & _); [|done..|by exists s'].
  intros s1 [Hinv1 Hr1] Hg.
  destruct (g_unblock_step_total s1) as (s2 & ? & ? & ? & ?); [done..|]. by exists s2.
Qed.

End safety.

(** ** The whole loop body *)

Section tick_safety.
Context (p : policy) (tq : Z).

(** Once the idle wait has ended, a turn of a policy that does not
    preempt runs to its end: no pointer it dereferences is NULL and its
    bounded loops stay within their bounds. *)
Lemma tick_is_Ok ifuel s :
  inv s → preempts p = false →
  is_Ok (g_idle_wait p ifuel (g_begin p s)) → is_Ok (tick p tq ifuel s).
Proof.
  intros Hinv Hp [s1 H1]. unfold tick. rewrite H1. simpl.
  assert (inv s1) as Hinv1 by eauto using idle_loop_inv, g_begin_inv.
  destruct (arrival_loop_total p tq s1 Hinv1) as (s2 & -> & Hinv2). simpl.
  apply complete_inv in Hinv2.
  destruct (g_dispatch_Ok p tq _ Hinv2) as [s3 H3]. rewrite H3. simpl.
  assert (inv s3) as Hinv3 by eauto using inv_moved, g_dispatch_moved, inv_idle.
  destruct (unblock_loop_total p s3 Hinv3) as (s4 & -> & _); [by rewrite Hp|].
  simpl. by eexists.
Qed.

(** The idle wait itself never dereferences NULL. *)
Lemma g_idle_wait_no_null ifuel s : g_idle_wait p ifuel s ≠ Err NullDeref.
Proof.
  apply (while_no_error _ _ NullDeref (λ _, True)); [done|done| |done].
  intros s1 _ _. unfold g_idle_step, rr_idle_step, idle_step.
  destruct (is_rr p), (processId (cur s1) >? 1000), (arrivalTime (cur s1) =? SYSTEM_TIME s1),
    (isTerminated (cur s1)); done.
Qed.

Lemma tick_no_null ifuel s :
  inv s → preempts p = false → tick p tq ifuel s ≠ Err NullDeref.
Proof.
  intros Hinv Hp Herr.
  destruct (g_idle_wait p ifuel (g_begin p s)) as [s1|e] eqn:H1.
  - destruct (tick_is_Ok ifuel s Hinv Hp) as [s' Hs']; [by rewrite H1; eexists|].
    congruence.
  - unfold tick in Herr. rewrite H1 in Herr. simpl in Herr. injection Herr as ->.
    by apply g_idle_wait_no_null in H1.
Qed.

End tick_safety.

(** ** Whole runs *)

Section run.
Context (p : policy) (tq : Z).

Lemma run_inv fuel ifuel s s' :
  initial s → run p tq fuel ifuel s = Ok s' → inv s' ∧ loop_guard s' = false.
Proof.
  intros Hinit Hrun. split; [|by eapply while_exit].
  eapply (while_invariant _ _ inv); [|by apply enter_inv|exact Hrun].
  intros s1 s2 Hinv _. by apply tick_inv_aux.
Qed.

Lemma run_no_null fuel ifuel s :
  initial s → preempts p = false → run p tq fuel ifuel s ≠ Err NullDeref.
Proof.
  intros Hinit Hp. apply (while_no_error _ _ NullDeref inv); [done| | |by apply enter_inv].
  - intros s1 s2 Hinv _. by apply tick_inv_aux.
  - intros s1 Hinv _. by apply tick_no_null.
Qed.

End run.

Lemma loop_guard_false s :
  loop_guard s = false ↔
  (length (procs s) ≤ data s)%nat ∧ ref s = None ∧ rq s = [] ∧ bq s = [].
Proof.
  unfold loop_guard, has_data. rewrite !orb_false_iff, !negb_false_iff, !isEmpty_true.
  rewrite Nat.ltb_ge, bool_decide_eq_false. split.
  - intros (((? & Hr) & ?) & ?). split_and!; try done. by destruct (ref s); [destruct Hr|].
  - intros (? & -> & ? & ?). split_and!; try done. by intros ?.
Qed.

(** When the loop has ended under the invariant, every real process of
    the list is terminated. *)
Lemma exit_all_terminated s i :
  inv s → loop_guard s = false →
  (i < length (procs s))%nat → is_interrupt (procs s !!! i) = false →
  isTerminated (procs s !!! i) = true.
Proof.
  intros [Hd _ _ Hl _] (Hdata & Hr & Hrq & Hbq)%loop_guard_false Hi Hint.
  specialize (Hl i). unfold live, in_system in Hl. rewrite Hr, Hrq, Hbq in Hl. simpl in Hl.
  destruct (isTerminated (procs s !!! i)); [done|].
  exfalso. eapply elem_of_nil, Hl. split_and!; [lia|done..].
Qed.
