(* ===== verification/Lifecycle.v ===== *)
(** * Lifecycle: what a turn of the loop may do to a PCB

    [evolves s s'] relates two engine states of one run: the clock has not
    gone back, the fields [processId], [arrivalTime] and [burstTime] of
    every PCB are what they were, a PCB that was terminated is untouched,
    and a PCB that became terminated has no CPU time left and carries as
    completion time a clock value between the two states and as turnaround
    time that value minus its arrival time.  Every block of the loop body
    satisfies it under the structural invariant of [Invariant], hence every
    turn and every run.

    From it follow the bookkeeping facts of the report: a terminated
    process has [remainingTime = 0] and
    [turnAroundTime = completionTime - arrivalTime], and its PCB never
    changes again. *)

From S2P Require Import Prelude Process Queue Engine Generic Invariant.

#[local] Open Scope Z_scope.

(** ** Definitions *)

(** A PCB that is terminated was completed at some clock value in
    [[t0, t1]] and is consistent with it. *)
Definition finished (t0 t1 : Z) (n : node) : Prop :=
  remainingTime n = 0 ∧
  ∃ c, t0 ≤ c ≤ t1 ∧ completionTime n = Some c ∧
       turnAroundTime n = Some (c - arrivalTime n).

(** One PCB between two states of a run, the clock going from [t0] to
    [t1]. *)
Definition node_evolves (t0 t1 : Z) (n n' : node) : Prop :=
  static n' = static n ∧
  (isTerminated n = true → n' = n) ∧
  (isTerminated n = false → isTerminated n' = true → finished t0 t1 n').

Record evolves (s s' : state) : Prop := mkEvolves {
  ev_clock : SYSTEM_TIME s ≤ SYSTEM_TIME s';
  ev_length : length (procs s') = length (procs s);
  ev_nodes : ∀ i, node_evolves (SYSTEM_TIME s) (SYSTEM_TIME s')
                    (procs s !!! i) (procs s' !!! i)
}.

(** Every terminated PCB of the state is consistent with a completion
    not later than the clock. *)
Definition books_ok (s : state) : Prop :=
  ∀ i, isTerminated (procs s !!! i) = true →
       ∃ t0, finished t0 (SYSTEM_TIME s) (procs s !!! i).

(** * Theorems *)

Lemma finished_weaken t0 t1 t0' t1' n :
  t0' ≤ t0 → t1 ≤ t1' → finished t0 t1 n → finished t0' t1' n.
Proof.
  intros ? ? (Hr & c & Hc & Hct & Hta). split; [done|]. exists c. split_and!; [lia..|done|done].
Qed.

Lemma node_evolves_refl t0 t1 n : node_evolves t0 t1 n n.
Proof. split_and!; [done|done|congruence]. Qed.

Lemma node_evolves_trans t0 t1 t2 n1 n2 n3 :
  t0 ≤ t1 → t1 ≤ t2 →
  node_evolves t0 t1 n1 n2 → node_evolves t1 t2 n2 n3 → node_evolves t0 t2 n1 n3.
Proof.
  intros ? ? (Hs1 & Hk1 & Hf1) (Hs2 & Hk2 & Hf2). split_and!.
  - congruence.
  - intros Ht. pose proof (Hk1 Ht) as ->. auto.
  - intros Ht1 Ht3. destruct (isTerminated n2) eqn:Ht2.
    + rewrite (Hk2 eq_refl). eapply finished_weaken; [| |by apply Hf1]; lia.
    + eapply finished_weaken; [| |by apply Hf2]; lia.
Qed.

#[export] Instance evolves_preorder : PreOrder evolves.
Proof.
  split.
  - intros s. split; [lia|done|]. intros i. apply node_evolves_refl.
  - intros s1 s2 s3 [Hc1 Hl1 Hn1] [Hc2 Hl2 Hn2]. split; [lia|congruence|].
    intros i. eapply node_evolves_trans; [exact Hc1|exact Hc2|apply Hn1|apply Hn2].
Qed.

(** ** Elementary transitions *)

(** Nothing but the pointers, the flags or the quantum changes. *)
Lemma evolves_same s s' :
  procs s' = procs s → SYSTEM_TIME s ≤ SYSTEM_TIME s' → evolves s s'.
Proof.
  intros Hp Ht. split; [done|by rewrite Hp|]. intros i. rewrite Hp.
  apply node_evolves_refl.
Qed.

(** An assignment to a field of an unfinished PCB that is neither a
    static field nor the termination flag. *)
Lemma evolves_alter s s' r f :
  isTerminated (procs s !!! r) = false →
  (∀ n, static (f n) = static n ∧ isTerminated (f n) = isTerminated n) →
  procs s' = alter f r (procs s) → SYSTEM_TIME s' = SYSTEM_TIME s →
  evolves s s'.
Proof.
  intros Hr Hf Hp Ht. split; [lia|by rewrite Hp, length_alter|].
  intros i. rewrite Hp, list_lookup_total_alter. case_decide as Hc;
    [destruct Hc as [<- _]|apply node_evolves_refl].
  destruct (Hf (procs s !!! r)) as [Hs Hk]. split_and!; [done|congruence|congruence].
Qed.

(** The running process is finished at the current clock value. *)
Lemma evolves_terminate s s' r :
  remainingTime (procs s !!! r) = 0 →
  procs s' = alter (terminate (SYSTEM_TIME s)) r (procs s) →
  SYSTEM_TIME s' = SYSTEM_TIME s →
  isTerminated (procs s !!! r) = false →
  evolves s s'.
Proof.
  intros Hrem Hp Ht Hr. split; [lia|by rewrite Hp, length_alter|].
  intros i. rewrite Hp, list_lookup_total_alter. case_decide as Hc;
    [destruct Hc as [<- _]|apply node_evolves_refl].
  split_and!; [done|congruence|]. intros _ _. split; [done|].
  exists (SYSTEM_TIME s). rewrite Ht. split_and!; [lia|lia|done|done].
Qed.

(** Ageing a blocked queue of unfinished processes. *)
Lemma evolves_deduct s s' :
  Forall (λ i, isTerminated (procs s !!! i) = false) (bq s) →
  procs s' = deduct (procs s) (bq s) → SYSTEM_TIME s' = SYSTEM_TIME s →
  evolves s s'.
Proof.
  intros Hbq Hp Ht. split; [lia|by rewrite Hp, deduct_length|].
  intros i. rewrite Hp. pose proof (deduct_fields (procs s) (bq s) i) as H. simpl in H.
  destruct H as (H1 & H2 & H3 & H4 & H5 & H6 & H7 & H8 & H9 & H10).
  split_and!.
  - unfold static. congruence.
  - intros Hterm. apply deduct_lookup_notin. intros Hi.
    rewrite Forall_forall in Hbq. rewrite (Hbq i Hi) in Hterm. done.
  - congruence.
Qed.

(** ** What the invariant says of the pointers the engine follows *)

Lemma inv_live_running s i :
  inv s → i ∈ live s → isTerminated (procs s !!! i) = false.
Proof. intros [_ _ _ Hl _] Hi. by apply Hl in Hi as (_ & _ & ?). Qed.

Lemma inv_ref_running s r : inv s → ref s = Some r → isTerminated (procs s !!! r) = false.
Proof.
  intros Hinv Hr. apply inv_live_running; [done|]. unfold live. rewrite Hr. set_solver.
Qed.

Lemma inv_rq_running s x q :
  inv s → rq s = x :: q → isTerminated (procs s !!! x) = false.
Proof.
  intros Hinv Hr. apply inv_live_running; [done|]. unfold live. rewrite Hr. set_solver.
Qed.

Lemma inv_bq_running s :
  inv s → Forall (λ i, isTerminated (procs s !!! i) = false) (bq s).
Proof.
  intros Hinv. apply Forall_forall. intros i Hi.
  apply inv_live_running; [done|]. unfold live. set_solver.
Qed.

Lemma inv_data_running s : inv s → isTerminated (cur s) = false.
Proof. intros [_ _ _ _ Hf]. by apply Hf. Qed.

(** ** The blocks of the loop body *)

(** An assignment through a pointer the invariant knows to be live. *)
Ltac by_alter :=
  eapply evolves_alter; [| |simpl; reflexivity|simpl; reflexivity];
  [ eauto using inv_ref_running, inv_rq_running, inv_data_running
  | intros ?; split; reflexivity ].

Lemma run_tick_evolves s : inv s → evolves s (run_tick s).
Proof.
  intros Hinv. unfold run_tick. destruct (ref s) as [r|] eqn:Hr; [|done].
  by_alter.
Qed.

Lemma age_blocked_evolves s : inv s → evolves s (age_blocked s).
Proof.
  intros Hinv. unfold age_blocked. destruct (isEmpty (bq s)); [done|].
  eapply evolves_deduct; [by apply inv_bq_running|done..].
Qed.

Lemma quantum_tick_evolves s : evolves s (quantum_tick s).
Proof.
  unfold quantum_tick. destruct (IS_CPU_IDLE s); [done|]. by apply evolves_same.
Qed.

Lemma tick_clock_evolves s : evolves s (tick_clock s).
Proof. apply evolves_same; simpl; [done|lia]. Qed.

Lemma g_begin_evolves p s : inv s → evolves s (g_begin p s).
Proof.
  intros Hinv. unfold g_begin.
  assert (inv (if is_rr p then quantum_tick s else s) ∧
          evolves s (if is_rr p then quantum_tick s else s)) as [Ha Hb].
  { destruct (is_rr p); [|done].
    split; [eapply inv_moved; [done|apply quantum_tick_moved]|apply quantum_tick_evolves]. }
  assert (inv (run_tick (if is_rr p then quantum_tick s else s))) as Hc
    by (eapply inv_moved; [done|apply run_tick_moved]).
  etrans; [exact Hb|]. etrans; [by apply run_tick_evolves|by apply age_blocked_evolves].
Qed.

Lemma g_idle_step_evolves p s s' : inv s → g_idle_step p s = Ok s' → evolves s s'.
Proof.
  intros Hinv. unfold g_idle_step, rr_idle_step, idle_step.
  destruct (is_rr p), (processId (cur s) >? 1000), (arrivalTime (cur s) =? SYSTEM_TIME s);
    simpl; try destruct (isTerminated (cur s)) eqn:Ht; simpl; intros [= <-];
    first [ apply evolves_same; simpl; [done|lia]
          | by_alter ].
Qed.

Lemma preempt_check_evolves s s' : preempt_check s = Ok s' → evolves s s'.
Proof.
  unfold preempt_check. destruct (ref s), (rq s); try done.
  destruct (_ >? _); [|by intros [= <-]].
  destruct (dequeue _) as [[x q']|]; simpl; [|done]. intros [= <-].
  by apply evolves_same.
Qed.

Lemma g_admit_evolves p d s s' : g_admit p d s = Ok s' → evolves s s'.
Proof.
  unfold g_admit. destruct (preempts p); [|intros [= <-]; by apply evolves_same].
  intros H%preempt_check_evolves. etrans; [|exact H]. by apply evolves_same.
Qed.

Lemma g_take_next_evolves p tq s s' :
  inv s → g_take_next p tq s = Ok s' → evolves s s'.
Proof.
  intros Hinv. unfold g_take_next, rr_take_next, take_next.
  destruct (rq s) as [|x q'] eqn:Hrq, (is_rr p); simpl; intros [= <-];
    first [ by apply evolves_same
          | by_alter ].
Qed.

Lemma g_interrupt_evolves p tq s s' : inv s → g_interrupt p tq s = Ok s' → evolves s s'.
Proof.
  intros Hinv. destruct (ref s) as [r|] eqn:Hr;
    [|by unfold g_interrupt, block_or_finish; rewrite Hr].
  rewrite (g_interrupt_unfold _ _ _ _ Hr).
  destruct (_ =? 0) eqn:Hrem; intros Hs'.
  - etrans; [|eapply g_take_next_evolves; [by apply inv_retire|exact Hs']].
    apply Z.eqb_eq in Hrem.
    eapply evolves_terminate; [exact Hrem|reflexivity|reflexivity|by eapply inv_ref_running].
  - etrans; [|eapply g_take_next_evolves; [|exact Hs']].
    + unfold blocked_state. by_alter.
    + eapply inv_moved; [done|by apply blocked_state_moved].
Qed.

Lemma g_arrival_evolves p tq s s' :
  inv s → arrival_guard s = true → g_arrival p tq s = Ok s' → evolves s s'.
Proof.
  intros Hinv _. unfold g_arrival.
  set (s0 := if is_rr p then update (data s) (set_firstExecution true) s else s).
  assert (evolves s s0) as He0 by (subst s0; destruct (is_rr p); [by_alter|done]).
  assert (inv s0) as Hinv0.
  { subst s0. destruct (is_rr p); [|done]. eapply inv_moved; [done|solve_moved]. }
  clearbody s0. destruct (processId (cur s0) >? 1000).
  - intros (s1 & H1%g_interrupt_evolves & [= <-])%res_bind_Ok; [|done].
    etrans; [exact He0|]. etrans; [exact H1|]. by apply evolves_same.
  - intros (s1 & H1%g_admit_evolves & [= <-])%res_bind_Ok.
    etrans; [exact He0|]. etrans; [exact H1|]. by apply evolves_same.
Qed.

Lemma complete_evolves s : inv s → evolves s (complete s).
Proof.
  intros Hinv. unfold complete. destruct (ref s) as [r|] eqn:Hr; [|done].
  destruct (_ =? 0) eqn:Hrem; [|done]. apply Z.eqb_eq in Hrem.
  eapply evolves_terminate; [exact Hrem|reflexivity|reflexivity|by eapply inv_ref_running].
Qed.

Lemma rr_run_head_evolves tq s s' :
  (∀ x q, rq s = x :: q → isTerminated (procs s !!! x) = false) →
  rr_run_head tq s = Ok s' → evolves s s'.
Proof.
  intros Hhead. unfold rr_run_head. destruct (rq s) as [|x q] eqn:Hrq; simpl; [done|].
  specialize (Hhead x q eq_refl).
  destruct (firstExecution _); intros [= <-]; [by_alter|by apply evolves_same].
Qed.

Lemma g_dispatch_evolves p tq s s' : inv s → g_dispatch p tq s = Ok s' → evolves s s'.
Proof.
  intros Hinv. unfold g_dispatch, rr_dispatch, dispatch. destruct (is_rr p).
  - destruct (IS_CPU_IDLE s && negb (isEmpty (rq s))).
    { apply rr_run_head_evolves. eauto using inv_rq_running. }
    destruct (quantum s =? 0); simpl; [|by intros [= <-]].
    destruct (isEmpty (rq s)) eqn:He; simpl; [intros [= <-]; by apply evolves_same|].
    destruct (ref s) as [r|] eqn:Hr; [|done].
    intros H%rr_run_head_evolves; [etrans; [|exact H]; by apply evolves_same|].
    simpl. intros x q Hx. apply inv_live_running; [done|].
    assert (x ∈ enqueue (rq s) r) as Hin by (rewrite Hx; left).
    rewrite enqueue_app in Hin. unfold live. rewrite Hr. set_solver.
  - destruct (IS_CPU_IDLE s && negb (isEmpty (rq s))); [|by intros [= <-]].
    destruct (dequeue _) as [[x q]|]; simpl; [|done]. intros [= <-]. by apply evolves_same.
Qed.

Lemma g_unblock_step_evolves p s s' : g_unblock_step p s = Ok s' → evolves s s'.
Proof.
  unfold g_unblock_step. destruct (dequeue _) as [[x q]|]; simpl; [|done].
  intros H%g_admit_evolves. etrans; [|exact H]. by apply evolves_same.
Qed.

(** ** The loop body and the run *)

Section tick.
Context (p : policy) (tq : Z).

(** A loop whose body keeps [inv] and evolves the state evolves it. *)
Lemma while_evolves guard body fuel s s' :
  (∀ s1 s2, inv s1 → guard s1 = true → body s1 = Ok s2 → inv s2 ∧ evolves s1 s2) →
  inv s → while guard body fuel s = Ok s' → inv s' ∧ evolves s s'.
Proof.
  intros Hbody Hinv.
  apply (while_invariant guard body (λ s1, inv s1 ∧ evolves s s1)); [|done].
  intros s1 s2 [Hinv1 He1] Hg Hb. destruct (Hbody _ _ Hinv1 Hg Hb). split; [done|by etrans].
Qed.

(** A turn is the clock tick after a sequence of blocks that keep the
    invariant and evolve the state. *)
Lemma tick_before_clock ifuel s s' :
  inv s → tick p tq ifuel s = Ok s' →
  ∃ s4, s' = tick_clock s4 ∧ inv s4 ∧ evolves s s4.
Proof.
  intros Hinv. unfold tick, g_idle_wait.
  intros (s1 & H1 & (s2 & H2 & (s3 & H3 & (s4 & H4 & [= <-])%res_bind_Ok)%res_bind_Ok
         )%res_bind_Ok)%res_bind_Ok.
  exists s4. split; [done|].
  pose proof (g_begin_inv p s Hinv) as Hinv0. pose proof (g_begin_evolves p s Hinv) as He0.
  apply while_evolves in H1 as [Hinv1 He1];
    [|eauto using g_idle_step_inv, g_idle_step_evolves|done].
  apply while_evolves in H2 as [Hinv2 He2];
    [|eauto using g_arrival_inv, g_arrival_evolves|done].
  pose proof (complete_inv _ Hinv2) as Hinv2'.
  assert (inv s3) as Hinv3 by eauto using inv_moved, g_dispatch_moved, inv_idle.
  apply while_evolves in H4 as [Hinv4 He4];
    [|eauto using inv_moved, g_unblock_step_moved, g_unblock_step_evolves|done].
  split; [done|].
  etrans; [exact He0|]. etrans; [exact He1|]. etrans; [exact He2|].
  etrans; [by apply complete_evolves|]. etrans; [by eapply g_dispatch_evolves|]. done.
Qed.

Lemma tick_evolves ifuel s s' :
  inv s → tick p tq ifuel s = Ok s' → inv s' ∧ evolves s s'.
Proof.
  intros Hinv (s4 & -> & Hinv4 & He4)%tick_before_clock; [|done].
  split; [eapply inv_moved; [done|apply tick_clock_moved]|].
  etrans; [exact He4|apply tick_clock_evolves].
Qed.

(** Each turn advances the clock by at least one. *)
Lemma tick_clock_lt ifuel s s' :
  inv s → tick p tq ifuel s = Ok s' → SYSTEM_TIME s < SYSTEM_TIME s'.
Proof.
  intros Hinv (s4 & -> & _ & [Hc _ _])%tick_before_clock; [|done]. simpl. lia.
Qed.

Lemma run_evolves fuel ifuel s s' :
  initial s → run p tq fuel ifuel s = Ok s' → evolves (g_enter p tq s) s'.
Proof.
  intros Hinit Hrun. eapply while_evolves; [|by apply enter_inv|exact Hrun].
  intros s1 s2 Hinv1 _. by apply tick_evolves.
Qed.

End tick.

(** ** Consequences *)

(** What is terminated stays as it is. *)
Lemma evolves_terminated s s' i :
  evolves s s' → isTerminated (procs s !!! i) = true → procs s' !!! i = procs s !!! i.
Proof. intros [_ _ Hn] Ht. by apply (Hn i). Qed.

Lemma evolves_static s s' i : evolves s s' → static (procs s' !!! i) = static (procs s !!! i).
Proof. intros [_ _ Hn]. apply (Hn i). Qed.

(** From a state with nothing terminated, whatever is terminated later
    was finished in between. *)
Lemma evolves_finished s s' i :
  evolves s s' → isTerminated (procs s !!! i) = false →
  isTerminated (procs s' !!! i) = true →
  finished (SYSTEM_TIME s) (SYSTEM_TIME s') (procs s' !!! i).
Proof. intros [_ _ Hn] Ht Ht'. by apply (Hn i). Qed.
