(* ===== verification/Correctness.v ===== *)
(** * Correctness: what holds of the four scheduling functions

    The theorems of this file are stated on the definitions of [Engine],
    that is on the C functions [fcfs], [sjf], [sjfPreempt], [roundRobin]
    and [schedule] and on their loop bodies.  They are obtained from the
    facts about the parameterised loop ([Invariant], [Lifecycle]) through
    the equations of [Generic].

    - [loop_bodies_keep_inv]: each loop body keeps the structural
      invariant.
    - [loop_bodies_total]: once the idle wait has ended, a loop body of
      FCFS, SJF or Round Robin runs to its end.
    - [schedule_null_only_srtn]: a NULL dereference is only possible
      under SRTN.
    - [schedule_completes]: a run that ends leaves every real process
      terminated, with no CPU time left and consistent completion and
      turnaround times, and leaves the static fields as loaded.
    - [loop_bodies_advance_clock], [loop_bodies_keep_terminated]: the clock
      goes forward at each turn and a terminated PCB never changes.
    - [unblock_loops_release_in_order]: what the unblock loop does, in
      closed form. *)

From S2P Require Import Prelude Process Queue Engine Generic Invariant Lifecycle.

#[local] Open Scope Z_scope.

(** ** Definitions *)

(** One of the four loop bodies of the C file, by the number its policy
    has in [SCHEDULING_POLICY]. *)
Definition loop_body (n : Z) (tq : Z) (ifuel : nat) (s : state) : res state :=
  if n =? 1 then fcfs_iter ifuel s
  else if n =? 2 then sjf_iter ifuel s
  else if n =? 3 then sjfPreempt_iter ifuel s
  else roundRobin_iter tq ifuel s.

(** Nothing is left to do: the CPU is free, both queues are empty and
    every record has been read.  It is the negation of the guard of the
    outer loop, line 317. *)
Definition settled (s : state) : Prop :=
  ref s = None ∧ rq s = [] ∧ bq s = [] ∧ data s = length (procs s).

(** Policy number [n] never dereferences NULL on a freshly loaded list. *)
Definition null_free (n : Z) : Prop :=
  ∀ tq fuel ifuel s, initial s → schedule n tq fuel ifuel s ≠ Err NullDeref.

(** The state of a result, for statements about concrete runs. *)
Definition final_of (r : res state) : state :=
  match r with
  | Ok s => s
  | Err _ => boot []
  end.

(** The blocked processes the unblock loop releases, in the order it
    releases them: the leading processes of the blocked queue whose
    blocked time is 0. *)
Fixpoint released (l : list node) (q : list nat) : list nat :=
  match q with
  | h :: q' => if blockedTime (l !!! h) =? 0 then h :: released l q' else []
  | [] => []
  end.

(** The blocked queue the unblock loop leaves. *)
Fixpoint kept (l : list node) (q : list nat) : list nat :=
  match q with
  | h :: q' => if blockedTime (l !!! h) =? 0 then kept l q' else q
  | [] => []
  end.

(** A small input: two processes and a block request (arrival, burst or
    duration, interrupt flag). *)
Definition sample_events : list event :=
  [mkEvent 0 4 0; mkEvent 1 3 0; mkEvent 2 3 1].

(** * Theorems *)

Lemma loop_body_tick n tq ifuel s p :
  policy_of_Z n = Some p → loop_body n tq ifuel s = tick p tq ifuel s.
Proof.
  intros Hp%policy_of_Z_Some. unfold loop_body.
  destruct p; subst; simpl;
    auto using fcfs_iter_tick, sjf_iter_tick, sjfPreempt_iter_tick, roundRobin_iter_tick.
Qed.

Lemma policy_of_Z_range n : 1 ≤ n ≤ 4 → ∃ p, policy_of_Z n = Some p.
Proof.
  intros Hn. unfold policy_of_Z. repeat case_test; eauto. lia.
Qed.

Lemma boot_initial evs : initial (boot (load evs)).
Proof.
  split_and!; [done..|]. simpl. apply Forall_forall. intros n Hn.
  apply list_elem_of_lookup in Hn as [i Hi].
  destruct (evs !! i) as [e|] eqn:He.
  - rewrite (load_lookup _ _ _ He) in Hi. by injection Hi as <-.
  - apply lookup_ge_None in He. apply lookup_lt_Some in Hi.
    rewrite input_length in Hi. lia.
Qed.

(** C4: every loop body keeps the structural invariant: the CPU flag
    agrees with the running slot, and the running slot, the ready queue
    and the blocked queue together hold each admitted, unfinished real
    process exactly once and nothing else. *)
Theorem loop_bodies_keep_inv (n tq : Z) (ifuel : nat) (s s' : state) :
  1 ≤ n ≤ 4 → inv s → loop_body n tq ifuel s = Ok s' → inv s'.
Proof.
  intros [p Hp]%policy_of_Z_range Hinv. rewrite (loop_body_tick _ _ _ _ _ Hp).
  by apply tick_inv_aux.
Qed.

Lemma loop_bodies_keep_inv_witness :
  inv (final_of (loop_body 4 2 10 (g_enter RR 2 (boot (load sample_events))))).
Proof.
  apply (loop_bodies_keep_inv 4 2 10 (g_enter RR 2 (boot (load sample_events)))).
  - lia.
  - apply enter_inv, boot_initial.
  - vm_compute. reflexivity.
Defined.

(** C29: under FCFS, SJF and Round Robin a loop body whose idle wait has
    ended runs to its end: [ref] and the queue heads it dereferences are
    not NULL, and the arrival loop and the unblock loop end within the
    number of records left and the length of the blocked queue. *)
Theorem loop_bodies_total (n tq : Z) (ifuel : nat) (s : state) :
  n = 1 ∨ n = 2 ∨ n = 4 → inv s →
  is_Ok (if n =? 4 then rr_idle_wait ifuel (age_blocked (run_tick (quantum_tick s)))
         else idle_wait ifuel (age_blocked (run_tick s))) →
  is_Ok (loop_body n tq ifuel s).
Proof.
  intros Hn Hinv Hidle.
  assert (∃ p, policy_of_Z n = Some p ∧ preempts p = false ∧ is_rr p = (n =? 4))
    as (p & Hp & Hpre & Hrr).
  { destruct Hn as [->|[->| ->]]; [by exists FCFS|by exists SJF|by exists RR]. }
  rewrite (loop_body_tick _ _ _ _ _ Hp). apply tick_is_Ok; [done..|].
  unfold g_idle_wait, g_begin. rewrite Hrr.
  destruct Hn as [->|[->| ->]]; apply policy_of_Z_Some in Hp; by destruct p.
Qed.

Lemma loop_bodies_total_witness :
  is_Ok (loop_body 1 0 10 (g_enter FCFS 0 (boot (load sample_events)))).
Proof.
  apply (loop_bodies_total 1 0 10 (g_enter FCFS 0 (boot (load sample_events)))).
  - by left.
  - apply enter_inv, boot_initial.
  - vm_compute. by eexists.
Defined.

Lemma g_enter_procs p tq s : procs (g_enter p tq s) = procs s.
Proof. unfold g_enter. by destruct (is_rr p). Qed.

Lemma schedule_run_policy n tq fuel ifuel s p :
  policy_of_Z n = Some p → schedule n tq fuel ifuel s = run p tq fuel ifuel s.
Proof. intros Hp. by rewrite schedule_run, Hp. Qed.

(** C16: a run of [schedule] from a freshly loaded list never dereferences
    NULL under FCFS, SJF and Round Robin, and changes nothing under a
    policy number that is not one of the four: only policy 3 (SRTN) can
    end in a NULL dereference. *)
Theorem schedule_null_only_srtn (n : Z) : n ≠ 3 → null_free n.
Proof.
  intros Hn tq fuel ifuel s Hinit. rewrite schedule_run.
  destruct (policy_of_Z n) as [p|] eqn:Hp; [|done].
  apply run_no_null; [done|]. apply policy_of_Z_Some in Hp. by destruct p.
Qed.

Lemma schedule_null_only_srtn_witness : null_free 4.
Proof. apply (schedule_null_only_srtn 4). lia. Defined.

(** What a run that ends leaves of the engine state. *)
Lemma schedule_exit n tq fuel ifuel s s' :
  initial s → 1 ≤ n ≤ 4 → schedule n tq fuel ifuel s = Ok s' →
  settled s' ∧ length (procs s') = length (procs s).
Proof.
  intros Hinit [p Hp]%policy_of_Z_range. rewrite (schedule_run_policy _ _ _ _ _ _ Hp).
  intros Hrun. pose proof (run_inv _ _ _ _ _ _ Hinit Hrun) as [Hinv Hg].
  pose proof (ev_length _ _ (run_evolves _ _ _ _ _ _ Hinit Hrun)) as Hlen.
  rewrite g_enter_procs in Hlen.
  pose proof Hg as (Hd & Hr & Hrq & Hbq)%loop_guard_false.
  pose proof (inv_data _ Hinv). unfold settled. split_and!; [done..|lia|done].
Qed.

(** What a run that ends leaves of each PCB. *)
Lemma schedule_books n tq fuel ifuel s s' i :
  initial s → 1 ≤ n ≤ 4 → schedule n tq fuel ifuel s = Ok s' →
  (i < length (procs s))%nat →
  static (procs s' !!! i) = static (procs s !!! i) ∧
  (is_interrupt (procs s !!! i) = false →
     isTerminated (procs s' !!! i) = true ∧
     remainingTime (procs s' !!! i) = 0 ∧
     ∃ c, c ≤ SYSTEM_TIME s' ∧
          completionTime (procs s' !!! i) = Some c ∧
          turnAroundTime (procs s' !!! i) = Some (c - arrivalTime (procs s !!! i))).
Proof.
  intros Hinit Hn Hrun Hi.
  pose proof (schedule_exit _ _ _ _ _ _ Hinit Hn Hrun) as [(_ & _ & _ & Hd) Hlen].
  apply policy_of_Z_range in Hn as [p Hp]. rewrite (schedule_run_policy _ _ _ _ _ _ Hp) in Hrun.
  pose proof (run_inv _ _ _ _ _ _ Hinit Hrun) as [Hinv Hg].
  pose proof (run_evolves _ _ _ _ _ _ Hinit Hrun) as Hev.
  pose proof (evolves_static _ _ i Hev) as Hst. rewrite g_enter_procs in Hst.
  split; [done|]. intros Hint. injection Hst as Hid Harr Hb.
  assert (isTerminated (procs s' !!! i) = true) as Hterm.
  { apply exit_all_terminated; [done|done|lia|]. unfold is_interrupt in *. by rewrite Hid. }
  destruct (evolves_finished _ _ i Hev) as (Hrem & c & Hc & Hct & Hta); [|done|].
  { rewrite g_enter_procs. destruct Hinit as (_ & _ & Hnt). rewrite Forall_forall in Hnt.
    apply Hnt, list_elem_of_lookup_total_2. lia. }
  split_and!; [done..|]. exists c. rewrite <- Harr. split_and!; [lia|done..].
Qed.

(** C2: when [schedule] returns from a freshly loaded list under one of
    the four policies, nothing runs, both queues are empty, the cursor is
    at the end of the list, the static fields of every PCB are as loaded,
    and every real process is terminated with no remaining time, a
    completion time not later than the final clock and a turnaround time
    equal to completion time minus arrival time. *)
Theorem schedule_completes (n tq : Z) (fuel ifuel : nat) (s s' : state) :
  initial s → 1 ≤ n ≤ 4 → schedule n tq fuel ifuel s = Ok s' →
  settled s' ∧ length (procs s') = length (procs s) ∧
  ∀ i, (i < length (procs s))%nat →
    static (procs s' !!! i) = static (procs s !!! i) ∧
    (is_interrupt (procs s !!! i) = false →
       isTerminated (procs s' !!! i) = true ∧
       remainingTime (procs s' !!! i) = 0 ∧
       ∃ c, c ≤ SYSTEM_TIME s' ∧
            completionTime (procs s' !!! i) = Some c ∧
            turnAroundTime (procs s' !!! i) = Some (c - arrivalTime (procs s !!! i))).
Proof.
  intros Hinit Hn Hrun.
  pose proof (schedule_exit _ _ _ _ _ _ Hinit Hn Hrun) as [? ?].
  split_and!; [done..|]. intros i Hi. by eapply schedule_books.
Qed.

Lemma schedule_completes_witness :
  let s := boot (load sample_events) in
  let s' := final_of (schedule 1 0 30 30 s) in
  settled s' ∧ length (procs s') = length (procs s) ∧
  ∀ i, (i < length (procs s))%nat →
    static (procs s' !!! i) = static (procs s !!! i) ∧
    (is_interrupt (procs s !!! i) = false →
       isTerminated (procs s' !!! i) = true ∧
       remainingTime (procs s' !!! i) = 0 ∧
       ∃ c, c ≤ SYSTEM_TIME s' ∧
            completionTime (procs s' !!! i) = Some c ∧
            turnAroundTime (procs s' !!! i) = Some (c - arrivalTime (procs s !!! i))).
Proof.
  apply (schedule_completes 1 0 30 30 (boot (load sample_events))).
  - apply boot_initial.
  - lia.
  - vm_compute. reflexivity.
Defined.

(** A loop body that ends has advanced the clock by at least one
    tick. *)
Theorem loop_bodies_advance_clock (n tq : Z) (ifuel : nat) (s s' : state) :
  1 ≤ n ≤ 4 → inv s → loop_body n tq ifuel s = Ok s' →
  SYSTEM_TIME s < SYSTEM_TIME s'.
Proof.
  intros [p Hp]%policy_of_Z_range Hinv. rewrite (loop_body_tick _ _ _ _ _ Hp).
  by apply tick_clock_lt.
Qed.

Lemma loop_bodies_advance_clock_witness :
  SYSTEM_TIME (g_enter SJF 0 (boot (load sample_events))) <
  SYSTEM_TIME (final_of (loop_body 2 0 10 (g_enter SJF 0 (boot (load sample_events))))).
Proof.
  apply (loop_bodies_advance_clock 2 0 10 (g_enter SJF 0 (boot (load sample_events)))).
  - lia.
  - apply enter_inv, boot_initial.
  - vm_compute. reflexivity.
Defined.

(** C30: a loop body never assigns to [processId], [arrivalTime] or
    [burstTime], and it leaves a PCB that is terminated exactly as it
    is. *)
Theorem loop_bodies_keep_terminated (n tq : Z) (ifuel : nat) (s s' : state) (i : nat) :
  1 ≤ n ≤ 4 → inv s → loop_body n tq ifuel s = Ok s' →
  static (procs s' !!! i) = static (procs s !!! i) ∧
  (isTerminated (procs s !!! i) = true → procs s' !!! i = procs s !!! i).
Proof.
  intros [p Hp]%policy_of_Z_range Hinv. rewrite (loop_body_tick _ _ _ _ _ Hp).
  intros [_ Hev]%tick_evolves; [|done].
  split; [by apply evolves_static|by apply evolves_terminated].
Qed.

Lemma loop_bodies_keep_terminated_witness :
  let s := final_of (schedule 1 0 30 30 (boot (load sample_events))) in
  let s' := final_of (loop_body 1 0 10 s) in
  isTerminated (procs s !!! 0%nat) = true ∧
  static (procs s' !!! 0%nat) = static (procs s !!! 0%nat) ∧
  procs s' !!! 0%nat = procs s !!! 0%nat.
Proof.
  intros s s'.
  assert (inv s) as Hinv.
  { destruct (schedule 1 0 30 30 (boot (load sample_events))) as [s0|e] eqn:Hrun;
      [|by vm_compute in Hrun].
    rewrite (schedule_run_policy 1 _ _ _ _ FCFS) in Hrun by done.
    apply (run_inv _ _ _ _ _ _ (boot_initial sample_events) Hrun). }
  destruct (loop_bodies_keep_terminated 1 0 10 s s' 0%nat) as [Hst Hterm];
    [lia|done|by vm_compute|].
  split; [by vm_compute|]. split; [exact Hst|]. apply Hterm. by vm_compute.
Defined.

(** ** The unblock loop *)

Lemma released_kept l q : released l q ++ kept l q = q.
Proof. induction q as [|h q IH]; simpl; [done|]. case_test; simpl; congruence. Qed.

Lemma foldl_enqueue q ds : foldl enqueue q ds = q ++ ds.
Proof.
  revert q. induction ds as [|d ds IH]; intros q; simpl; [by rewrite app_nil_r|].
  by rewrite IH, enqueue_app, <- app_assoc.
Qed.

(** Without preemption the unblock loop moves the released processes, one
    after the other, from the blocked queue into the ready queue. *)
Lemma unblock_loop_closed p fuel s :
  preempts p = false → (length (bq s) ≤ fuel)%nat →
  while unblock_guard (g_unblock_step p) fuel s =
    Ok (set_rq (foldl (ready_insert p (procs s)) (rq s) (released (procs s) (bq s)))
          (set_bq (kept (procs s) (bq s)) s)).
Proof.
  intros Hp. destruct s as [l d r rq bq t idle q]. cbn [Engine.bq Engine.rq procs].
  revert rq fuel. induction bq as [|h b IH]; intros rq fuel Hlen.
  - by rewrite while_false.
  - cbn [released kept]. destruct (blockedTime (l !!! h) =? 0) eqn:Hh;
      [|by rewrite while_false].
    destruct fuel as [|fuel]; [simpl in Hlen; lia|].
    rewrite while_true by done.
    assert (g_unblock_step p (mkState l d r rq (h :: b) t idle q) =
            Ok (mkState l d r (ready_insert p l rq h) b t idle q)) as ->.
    { unfold g_unblock_step, g_admit. by rewrite Hp. }
    cbn [res_bind]. rewrite IH by (simpl in Hlen; lia). done.
Qed.

(** C23: the unblock loop of [fcfs] (also used by [roundRobin]) appends
    to the ready queue, in blocked-queue order, the leading processes of
    the blocked queue whose blocked time is 0 and removes them from the
    blocked queue; the loop of [sjf] inserts them one after the other by
    remaining time.  Neither fails, and both end within the length of the
    blocked queue. *)
Theorem unblock_loops_release_in_order (s : state) :
  fcfs_unblock s =
    Ok (set_rq (rq s ++ released (procs s) (bq s)) (set_bq (kept (procs s) (bq s)) s)) ∧
  sjf_unblock s =
    Ok (set_rq (foldl (priorityEnqueue (procs s)) (rq s) (released (procs s) (bq s)))
          (set_bq (kept (procs s) (bq s)) s)).
Proof.
  unfold fcfs_unblock, sjf_unblock. split.
  - rewrite (while_ext _ _ (g_unblock_step FCFS)) by (intros; apply fcfs_unblock_step_generic).
    rewrite unblock_loop_closed by done. simpl. by rewrite foldl_enqueue.
  - rewrite (while_ext _ _ (g_unblock_step SJF)) by (intros; apply sjf_unblock_step_generic).
    by rewrite unblock_loop_closed.
Qed.
