(* ===== verification/Termination.v ===== *)
(** * Termination: runs without block requests end

    [schedule] does not return on every input ([Divergence]).  This file
    shows that it does return, within a stated amount of fuel, on the
    inputs on which a scheduler is usually run: records in arrival order,
    no block request, every burst time at least 1.

    The argument is the usual one for a loop: an invariant [top] of the
    states at the start of a turn, and a measure that every turn lowers.
    [calm k t s] collects what holds between two blocks of a turn: nothing
    is blocked, the records still to come arrive in order and not before
    [t], the running process has at least [k] units of CPU time left, the
    ready and the future ones at least 1.  The measure is the CPU time all
    processes still need ([work]) plus the number of records not yet read:
    a turn with a running process uses one unit of the former, a turn on an
    idle CPU reads at least one record.  The idle wait needs as many turns
    as the clock is behind the next arrival. *)

From S2P Require Import Prelude Process Queue Engine Generic Invariant Lifecycle Correctness.

#[local] Open Scope Z_scope.

(** ** Definitions *)

(** What the argument reads of a PCB. *)
Definition sched_view (n : node) : Z * Z * Z :=
  (processId n, arrivalTime n, remainingTime n).

(** The CPU time the processes of a list still need. *)
Definition work (l : list node) : Z := foldr Z.add 0 (remainingTime <$> l).

(** The measure of the outer loop. *)
Definition turns_left (s : state) : nat :=
  (Z.to_nat (work (procs s)) + records_left s)%nat.

(** The measure of the idle wait: how far the clock is behind the arrival
    under the cursor, and one turn to start it. *)
Definition idle_left (s : state) : nat :=
  if idle_guard s then S (Z.to_nat (arrivalTime (cur s) - SYSTEM_TIME s)%Z) else 0%nat.

Record calm (k t : Z) (s : state) : Prop := mkCalm {
  calm_bq : bq s = [];
  calm_real : ∀ i, is_interrupt (procs s !!! i) = false;
  calm_order : ∀ i j, (data s ≤ i)%nat → (i ≤ j)%nat → (j < length (procs s))%nat →
    arrivalTime (procs s !!! i) ≤ arrivalTime (procs s !!! j);
  calm_next : has_data s = true → t ≤ arrivalTime (cur s);
  calm_ref : ∀ r, ref s = Some r → k ≤ remainingTime (procs s !!! r);
  calm_rq : ∀ i, i ∈ rq s → 1 ≤ remainingTime (procs s !!! i);
  calm_new : ∀ i, (data s ≤ i)%nat → (i < length (procs s))%nat →
    1 ≤ remainingTime (procs s !!! i);
  calm_nonneg : ∀ i, 0 ≤ remainingTime (procs s !!! i);
  calm_time : 0 ≤ SYSTEM_TIME s
}.

(** Between two blocks of a turn. *)
Definition mid (k t : Z) (s : state) : Prop :=
  inv s ∧ calm k t s ∧ (IS_CPU_IDLE s = true → rq s = []).

(** At the start of a turn. *)
Definition top (s : state) : Prop := mid 1 (SYSTEM_TIME s) s.

(** What a block may do to the quantities of the measure: the view of the
    PCBs is kept, the cursor and the clock only go forward. *)
Record spent (s s' : state) : Prop := mkSpent {
  spent_view : agree sched_view (procs s) (procs s');
  spent_data : (data s ≤ data s')%nat;
  spent_bq : bq s' = bq s;
  spent_time : SYSTEM_TIME s ≤ SYSTEM_TIME s'
}.

(** The inputs of the theorem: no block request, bursts of at least 1,
    arrivals from 0 on in file order. *)
Definition well_formed (evs : list event) : Prop :=
  Forall (λ e, ev_interrupt e = 0 ∧ 1 ≤ ev_burst e ∧ 0 ≤ ev_arrival e) evs ∧
  StronglySorted (λ a b, ev_arrival a ≤ ev_arrival b) evs ∧
  (length evs ≤ 1000)%nat.

(** The fuel of the outer loop: the sum of the bursts and one turn per
    record. *)
Definition fuel_of (evs : list event) : nat :=
  (Z.to_nat (foldr Z.add 0%Z (ev_burst <$> evs)) + length evs)%nat.

(** The fuel of the idle wait: one more than the last arrival. *)
Definition idle_fuel_of (evs : list event) : nat :=
  S (Z.to_nat (foldr Z.max 0%Z (ev_arrival <$> evs))).

(** Scenario 1 of the specification: arrivals (0,5) and (1,3). *)
Definition sample_events_calm : list event := [mkEvent 0 5 0; mkEvent 1 3 0].

(** * Theorems *)

(** ** The measure *)

Lemma view_fields n n' :
  sched_view n' = sched_view n →
  processId n' = processId n ∧ arrivalTime n' = arrivalTime n ∧
  remainingTime n' = remainingTime n.
Proof. by intros [= ]. Qed.

Lemma agree_view l l' i :
  agree sched_view l l' →
  processId (l' !!! i) = processId (l !!! i) ∧ arrivalTime (l' !!! i) = arrivalTime (l !!! i) ∧
  remainingTime (l' !!! i) = remainingTime (l !!! i).
Proof. intros H. apply view_fields, (agree_lookup sched_view), H. Qed.

Lemma work_agree l l' : agree sched_view l l' → work l' = work l.
Proof.
  unfold agree, work. intros H.
  assert (remainingTime <$> l = remainingTime <$> l') as ->; [|done].
  change remainingTime with ((λ v : Z * Z * Z, v.2) ∘ sched_view).
  by rewrite !list_fmap_compose, H.
Qed.

Lemma work_dec l r :
  (r < length l)%nat → work (alter dec_remainingTime r l) = work l - 1.
Proof.
  unfold work. revert r. induction l as [|n l IH]; intros [|r] Hr; simpl in *; try lia.
  specialize (IH r ltac:(lia)). unfold alter, fmap in IH. lia.
Qed.

#[export] Instance spent_preorder : PreOrder spent.
Proof.
  split.
  - intros s. by split.
  - intros s1 s2 s3 [] []. split; [by etrans|lia|congruence|lia].
Qed.

Lemma spent_turns_left s s' : spent s s' → (turns_left s' ≤ turns_left s)%nat.
Proof.
  intros [Hv Hd _ _]. unfold turns_left, records_left.
  rewrite (work_agree _ _ Hv), <- (agree_length _ _ _ Hv). lia.
Qed.

(** ** What the blocks keep *)

(** [calm] only reads the view of the PCBs, the cursor, the running slot
    and the two queues. *)
Lemma calm_transfer k t k' t' s s' :
  calm k t s → spent s s' →
  (has_data s' = true → t' ≤ arrivalTime (procs s !!! data s')) →
  (∀ r, ref s' = Some r → k' ≤ remainingTime (procs s !!! r)) →
  (∀ i, i ∈ rq s' → 1 ≤ remainingTime (procs s !!! i)) →
  calm k' t' s'.
Proof.
  intros [Hbq Hreal Hord Hnext Href Hrq Hnew Hnn Ht] [Hv Hd Hb Htime] Hnext' Href' Hrq'.
  pose proof (agree_length _ _ _ Hv) as Hlen.
  pose proof (λ i, agree_view _ _ i Hv) as Hvi.
  split; [congruence| | | | | | | |lia].
  - intros i. unfold is_interrupt. destruct (Hvi i) as (-> & _ & _). apply Hreal.
  - intros i j Hi Hij Hj. destruct (Hvi i) as (_ & -> & _), (Hvi j) as (_ & -> & _).
    apply Hord; lia.
  - intros Hd'. unfold cur. destruct (Hvi (data s')) as (_ & -> & _). auto.
  - intros r Hr. destruct (Hvi r) as (_ & _ & ->). auto.
  - intros i Hi. destruct (Hvi i) as (_ & _ & ->). auto.
  - intros i Hi Hl. destruct (Hvi i) as (_ & _ & ->). apply Hnew; lia.
  - intros i. destruct (Hvi i) as (_ & _ & ->). auto.
Qed.

(** A pointer the engine holds points into the part of the list that has
    been read. *)
Lemma inv_live_lt s i : inv s → i ∈ live s → (i < data s)%nat ∧ (i < length (procs s))%nat.
Proof.
  intros Hinv Hi. apply (inv_live _ Hinv) in Hi as (Hi & _). pose proof (inv_data _ Hinv). lia.
Qed.

Lemma inv_ref_lt s r : inv s → ref s = Some r → (r < data s)%nat ∧ (r < length (procs s))%nat.
Proof. intros Hinv Hr. apply inv_live_lt; [done|]. unfold live. rewrite Hr. set_solver. Qed.

Lemma inv_ref_notin_rq s r : inv s → ref s = Some r → r ∉ rq s.
Proof.
  intros Hinv Hr. pose proof (inv_nodup _ Hinv) as Hnd. unfold live in Hnd.
  rewrite Hr in Hnd. simpl in Hnd. apply NoDup_cons in Hnd as [Hnd _]. set_solver.
Qed.

(** With nothing blocked the start of a turn is the decrement of the
    running process, up to the quantum. *)
Lemma g_begin_unfold p s :
  bq s = [] →
  ∃ q, g_begin p s =
       set_quantum q (match ref s with Some r => update r dec_remainingTime s | None => s end).
Proof.
  intros Hbq. unfold g_begin, age_blocked, run_tick, quantum_tick.
  destruct s as [l d r rq bq t idle q]. simpl in *. subst.
  destruct (is_rr p), idle, r; simpl; by eexists.
Qed.

Lemma remaining_dec (l : list node) (r i : nat) :
  (r < length l)%nat →
  remainingTime (alter dec_remainingTime r l !!! i) =
    remainingTime (l !!! i) - (if decide (i = r) then 1 else 0).
Proof.
  intros Hr. rewrite list_lookup_total_alter. repeat case_decide; simplify_eq; simpl; lia.
Qed.

Lemma static_dec (l : list node) (r i : nat) :
  static (alter dec_remainingTime r l !!! i) = static (l !!! i).
Proof. rewrite list_lookup_total_alter. case_decide as H; [destruct H as [-> _]|]; done. Qed.

Lemma calm_run_tick t s r q :
  inv s → calm 1 t s → ref s = Some r →
  calm 0 t (set_quantum q (update r dec_remainingTime s)).
Proof.
  intros Hinv [Hbq Hreal Hord Hnext Href Hrq Hnew Hnn Ht] Hr.
  destruct (inv_ref_lt _ _ Hinv Hr) as [Hrd Hrl].
  pose proof (inv_ref_notin_rq _ _ Hinv Hr) as Hnotin.
  assert (∀ i, arrivalTime (alter dec_remainingTime r (procs s) !!! i) =
               arrivalTime (procs s !!! i) ∧
               is_interrupt (alter dec_remainingTime r (procs s) !!! i) =
               is_interrupt (procs s !!! i)) as Hst.
  { intros i. pose proof (static_dec (procs s) r i) as [= Hid Ha _].
    unfold is_interrupt. by rewrite Hid, Ha. }
  split; simpl; rewrite ?length_alter; [done|..|done].
  - intros i. destruct (Hst i) as [_ ->]. apply Hreal.
  - intros i j Hi Hij Hj. destruct (Hst i) as [-> _], (Hst j) as [-> _]. by apply Hord.
  - unfold has_data, cur. simpl. rewrite length_alter. destruct (Hst (data s)) as [-> _].
    apply Hnext.
  - intros r' Hr'. assert (r' = r) as -> by congruence.
    rewrite remaining_dec by done. specialize (Href r Hr).
    case_decide; lia.
  - intros i Hi. rewrite remaining_dec by done. specialize (Hrq i Hi).
    case_decide; [set_solver|lia].
  - intros i Hi Hl. rewrite remaining_dec by done. specialize (Hnew i Hi Hl).
    case_decide; lia.
  - intros i. rewrite remaining_dec by done. specialize (Hnn i).
    case_decide; [subst; specialize (Href r Hr)|]; lia.
Qed.

Lemma g_begin_top p s :
  top s →
  mid 0 (SYSTEM_TIME s) (g_begin p s) ∧
  SYSTEM_TIME (g_begin p s) = SYSTEM_TIME s ∧
  IS_CPU_IDLE (g_begin p s) = IS_CPU_IDLE s ∧
  records_left (g_begin p s) = records_left s ∧
  work (procs (g_begin p s)) = work (procs s) - (if ref s is Some _ then 1 else 0).
Proof.
  intros (Hinv & Hcalm & Hidle). pose proof (g_begin_inv p s Hinv) as Hinv'.
  destruct (g_begin_unfold p s (calm_bq _ _ _ Hcalm)) as [q Hq]. rewrite Hq in *.
  unfold mid. destruct (ref s) as [r|] eqn:Hr.
  - destruct (inv_ref_lt _ _ Hinv Hr) as [_ Hrl].
    split_and!; [done|by apply calm_run_tick|exact Hidle|done|done| |].
    + unfold records_left. simpl. by rewrite length_alter.
    + simpl. by apply work_dec.
  - split_and!; [done| |exact Hidle|done|done|done|simpl; lia].
    destruct Hcalm. split; simpl; done.
Qed.

(** ** The idle wait *)

(** One turn of the idle wait when the record under the cursor is a
    process that is not terminated: it is started, or the clock
    advances. *)
Lemma g_idle_step_cases p s :
  is_interrupt (cur s) = false → isTerminated (cur s) = false →
  ∃ s', g_idle_step p s = Ok s' ∧
    agree sched_view (procs s) (procs s') ∧ rq s' = rq s ∧ bq s' = bq s ∧
    ((arrivalTime (cur s) = SYSTEM_TIME s ∧ data s' = S (data s) ∧
      ref s' = Some (data s) ∧ IS_CPU_IDLE s' = false ∧ SYSTEM_TIME s' = SYSTEM_TIME s) ∨
     (arrivalTime (cur s) ≠ SYSTEM_TIME s ∧ data s' = data s ∧ ref s' = ref s ∧
      IS_CPU_IDLE s' = IS_CPU_IDLE s ∧ SYSTEM_TIME s' = SYSTEM_TIME s + 1)).
Proof.
  unfold is_interrupt. intros Hint Hterm.
  unfold g_idle_step, rr_idle_step, idle_step. rewrite Hint, Hterm.
  destruct (is_rr p), (Z.eqb_spec (arrivalTime (cur s)) (SYSTEM_TIME s)); simpl;
    eexists; (split; [done|]); split_and!; try done; try (by left); try (by right).
  by apply agree_alter.
Qed.

Lemma idle_left_guard s :
  idle_guard s = true → idle_left s = S (Z.to_nat (arrivalTime (cur s) - SYSTEM_TIME s)).
Proof. unfold idle_left. by intros ->. Qed.

Lemma g_idle_step_calm p s :
  mid 0 (SYSTEM_TIME s) s → idle_guard s = true →
  ∃ s', g_idle_step p s = Ok s' ∧ mid 0 (SYSTEM_TIME s') s' ∧ spent s s' ∧
        (idle_left s' < idle_left s)%nat ∧
        ((data s' = data s ∧ IS_CPU_IDLE s' = true) ∨ (data s < data s')%nat).
Proof.
  intros (Hinv & Hcalm & Hidle) Hg. pose proof Hg as (Hd & Hi & Hrq)%idle_guard_true.
  destruct (g_idle_step_cases p s) as (s' & Hs' & Hv & Hrq' & Hbq' & Hcase);
    [apply Hcalm|by apply inv_data_running|].
  exists s'. split; [done|]. pose proof (g_idle_step_inv _ _ _ Hinv Hg Hs') as Hinv'.
  pose proof (agree_length _ _ _ Hv) as Hlen. unfold has_data in Hd.
  rewrite (idle_left_guard s Hg). pose proof (calm_next _ _ _ Hcalm Hd) as Hnext.
  destruct Hcase as [(Ha & Hd' & Hr' & Hi' & Ht')|(Ha & Hd' & Hr' & Hi' & Ht')].
  - assert (spent s s') as Hsp by (split; [done|lia|done|lia]).
    unfold mid. split_and!; [done| |by rewrite Hi'|done| |right; lia].
    + eapply calm_transfer; [done..| | |].
      * unfold has_data. rewrite Hd', <- Hlen, Ht'. intros ?%Nat.ltb_lt.
        etrans; [exact Hnext|]. apply (calm_order _ _ _ Hcalm); [lia|lia|done].
      * intros r. rewrite Hr'. intros [= <-]. apply (calm_nonneg _ _ _ Hcalm).
      * intros i. rewrite Hrq', Hrq. by intros ?%elem_of_nil.
    + unfold idle_left, idle_guard. rewrite Hi', andb_false_r. simpl. lia.
  - assert (spent s s') as Hsp by (split; [done|lia|done|lia]).
    assert (idle_guard s' = true) as Hg'.
    { apply idle_guard_true. unfold has_data. rewrite Hd', <- Hlen, Hi', Hrq'. done. }
    unfold mid. split_and!; [done| |by rewrite Hrq'|done| |left; split; congruence].
    + eapply calm_transfer; [done..| | |].
      * rewrite Hd', Ht'. unfold cur in *. lia.
      * intros r. rewrite Hr'. apply (calm_ref _ _ _ Hcalm).
      * intros i. rewrite Hrq'. apply (calm_rq _ _ _ Hcalm).
    + rewrite (idle_left_guard s' Hg'). unfold cur. rewrite Hd', Ht'.
      destruct (agree_view _ _ (data s) Hv) as (_ & -> & _). unfold cur in *. lia.
Qed.

(** The idle wait ends within [idle_left] turns; if it ran at all, it has
    started a process. *)
Lemma idle_loop_calm p ifuel s :
  mid 0 (SYSTEM_TIME s) s → (idle_left s ≤ ifuel)%nat →
  ∃ s', g_idle_wait p ifuel s = Ok s' ∧ mid 0 (SYSTEM_TIME s') s' ∧ spent s s' ∧
        idle_guard s' = false ∧
        ((data s' = data s ∧ IS_CPU_IDLE s' = IS_CPU_IDLE s) ∨ (data s < data s')%nat).
Proof.
  intros Hmid Hfuel. unfold g_idle_wait.
  set (I := λ s1, mid 0 (SYSTEM_TIME s1) s1 ∧ spent s s1 ∧
    ((data s1 = data s ∧ IS_CPU_IDLE s1 = IS_CPU_IDLE s) ∨ (data s < data s1)%nat)).
  destruct (while_terminates idle_guard (g_idle_step p) idle_left I ifuel s)
    as (s' & Hs' & (Hmid' & Hsp' & Hcase) & Hg'); [|by split_and!; [| |left]|done|by exists s'].
  intros s1 (Hmid1 & Hsp1 & Hcase1) Hg1.
  destruct (g_idle_step_calm p s1 Hmid1 Hg1) as (s2 & Hs2 & Hmid2 & Hsp2 & Hlt & Hcase2).
  exists s2. split; [done|]. split; [|done]. split_and!; [done|by etrans|].
  apply idle_guard_true in Hg1 as (_ & Hi1 & _). pose proof (spent_data _ _ Hsp2).
  destruct Hcase1 as [[? ?]|?], Hcase2 as [[? ?]|?]; [left; split; congruence|right; lia..].
Qed.

(** ** The arrival loop *)

(** What an insertion into the ready queue leaves: the process list, the
    cursor, the clock and the flag as they were, and in the ready queue
    the new process, the old ones and, after a preemption, the process
    that ran, which then has more time left than one of the others. *)
Lemma g_admit_cases p d s s' :
  g_admit p d s = Ok s' →
  procs s' = procs s ∧ bq s' = bq s ∧ data s' = data s ∧
  SYSTEM_TIME s' = SYSTEM_TIME s ∧ IS_CPU_IDLE s' = IS_CPU_IDLE s ∧
  ∀ i, i ∈ rq s' → i = d ∨ i ∈ rq s ∨
    (ref s = Some i ∧ ∃ h, (h = d ∨ h ∈ rq s) ∧
       remainingTime (procs s !!! h) < remainingTime (procs s !!! i)).
Proof.
  unfold g_admit. set (q := ready_insert p (procs s) (rq s) d).
  assert (∀ i, i ∈ q → i = d ∨ i ∈ rq s) as Hq.
  { intros i Hi. unfold q in Hi. rewrite (ready_perm (procs s) (rq s) d) in Hi. set_solver. }
  assert (∀ i, i ∈ q → i = d ∨ i ∈ rq s ∨
    (ref s = Some i ∧ ∃ h, (h = d ∨ h ∈ rq s) ∧
       remainingTime (procs s !!! h) < remainingTime (procs s !!! i))) as Hq3
    by (intros i Hi; apply Hq in Hi as [?|?]; auto).
  destruct (preempts p); [|intros [= <-]; split_and!; auto].
  unfold preempt_check. simpl. destruct (ref s) as [r|]; [|done].
  destruct q as [|h q'] eqn:Hq'; [done|].
  destruct (Z.gtb_spec (remainingTime (procs s !!! r)) (remainingTime (procs s !!! h)));
    [|intros [= <-]; split_and!; auto].
  intros Hs'. bind_inv Hs'. destruct a as [x rest]. injection Hs' as <-.
  apply dequeue_Ok in Ha. simpl. split_and!; [done..|]. intros i Hi.
  assert (i ∈ r :: h :: q') as Hin.
  { rewrite <- (priorityEnqueue_perm (procs s) (h :: q') r), Ha. set_solver. }
  apply elem_of_cons in Hin as [->|Hin]; [|by apply Hq in Hin as [?|?]; auto].
  right. right. split; [done|]. exists h. split; [apply Hq; set_solver|lia].
Qed.

Lemma g_arrival_calm p tq s s' :
  mid 0 (SYSTEM_TIME s) s → arrival_guard s = true → g_arrival p tq s = Ok s' →
  mid 0 (SYSTEM_TIME s') s' ∧ spent s s' ∧
  SYSTEM_TIME s' = SYSTEM_TIME s ∧ IS_CPU_IDLE s' = false.
Proof.
  intros (Hinv & Hcalm & Hidle) Hg Hs'.
  pose proof (g_arrival_inv _ _ _ _ Hinv Hg Hs') as Hinv'.
  apply arrival_guard_true in Hg as (Hd & Ht & Hbusy). unfold g_arrival in Hs'.
  set (s0 := if is_rr p then update (data s) (set_firstExecution true) s else s) in *.
  assert (agree sched_view (procs s) (procs s0) ∧ data s0 = data s ∧ ref s0 = ref s ∧
          rq s0 = rq s ∧ bq s0 = bq s ∧ SYSTEM_TIME s0 = SYSTEM_TIME s ∧
          IS_CPU_IDLE s0 = IS_CPU_IDLE s) as (Hv0 & Hd0 & Hr0 & Hrq0 & Hbq0 & Ht0 & Hi0).
  { unfold s0. destruct (is_rr p); split_and!; try done. by apply agree_alter. }
  pose proof (λ i, agree_view _ _ i Hv0) as Hvi.
  assert ((processId (cur s0) >? 1000) = false) as Hint.
  { unfold cur. rewrite Hd0. destruct (Hvi (data s)) as (-> & _ & _). apply Hcalm. }
  rewrite Hint in Hs'. bind_inv Hs'. injection Hs' as <-.
  apply g_admit_cases in Ha as (Hp1 & Hbq1 & Hd1 & Ht1 & Hi1 & Hrq1).
  pose proof (agree_length _ _ _ Hv0) as Hlen. unfold has_data in Hd.
  assert (spent s (next_data a)) as Hsp.
  { split; simpl; [by rewrite Hp1|lia|congruence|lia]. }
  unfold mid. split_and!; [done| |simpl; congruence|done|simpl; congruence|simpl; congruence].
  replace (SYSTEM_TIME (next_data a)) with (SYSTEM_TIME s) by (simpl; congruence).
  eapply calm_transfer; [done|done|..].
  - unfold has_data. simpl. rewrite Hp1, Hd1, Hd0, <- Hlen. intros ?%Nat.ltb_lt.
    etrans; [apply (calm_next _ _ _ Hcalm); exact Hd|].
    apply (calm_order _ _ _ Hcalm); [lia|lia|done].
  - intros r _. apply (calm_nonneg _ _ _ Hcalm).
  - simpl. intros i Hi. apply Hrq1 in Hi as [->|[Hi|(Hr & h & Hh & Hlt)]].
    + rewrite Hd0. apply (calm_new _ _ _ Hcalm); [lia|by apply Nat.ltb_lt].
    + rewrite Hrq0 in Hi. by apply (calm_rq _ _ _ Hcalm).
    + destruct (Hvi i) as (_ & _ & Hi'), (Hvi h) as (_ & _ & Hh'). rewrite Hi', Hh' in Hlt.
      assert (1 ≤ remainingTime (procs s !!! h)); [|lia].
      destruct Hh as [->|Hh];
        [rewrite Hd0; apply (calm_new _ _ _ Hcalm); [lia|by apply Nat.ltb_lt]|].
      rewrite Hrq0 in Hh. by apply (calm_rq _ _ _ Hcalm).
Qed.

(** The arrival loop, which ends within the records left, keeps [mid]
    and leaves no record that arrives now under the cursor. *)
Lemma arrival_loop_calm p tq s :
  mid 0 (SYSTEM_TIME s) s → idle_guard s = false →
  ∃ s', while arrival_guard (g_arrival p tq) (records_left s) s = Ok s' ∧
        mid 0 (SYSTEM_TIME s + 1) s' ∧ spent s s' ∧
        SYSTEM_TIME s' = SYSTEM_TIME s ∧ IS_CPU_IDLE s' = IS_CPU_IDLE s.
Proof.
  intros Hmid Hnotidle. pose proof Hmid as (Hinv & Hcalm & Hidle).
  destruct (arrival_loop_total p tq s Hinv) as (s' & Hs' & _). exists s'. split; [done|].
  pose proof (while_exit _ _ _ _ _ Hs') as Hg'.
  set (I := λ s1, mid 0 (SYSTEM_TIME s1) s1 ∧ spent s s1 ∧
    SYSTEM_TIME s1 = SYSTEM_TIME s ∧ IS_CPU_IDLE s1 = IS_CPU_IDLE s ∧
    (IS_CPU_IDLE s = true → has_data s1 = has_data s)).
  assert (I s') as ((Hinv' & Hcalm' & Hidle') & Hsp & Ht & Hi & Hsame).
  { eapply (while_invariant _ _ I); [|by split_and!|exact Hs'].
    intros s1 s2 (Hmid1 & Hsp1 & Ht1 & Hi1 & _) Hg1 Hs2.
    pose proof Hg1 as (_ & _ & Hbusy)%arrival_guard_true.
    destruct (g_arrival_calm _ _ _ _ Hmid1 Hg1 Hs2) as (Hmid2 & Hsp2 & Ht2 & Hi2).
    split_and!; [done|by etrans|congruence..]. }
  unfold mid. split_and!; [done| |done..].
  destruct Hcalm'. split; try done. intros Hd'. specialize (calm_next0 Hd').
  assert (arrivalTime (cur s') ≠ SYSTEM_TIME s'); [|lia].
  intros Heq. unfold arrival_guard in Hg'. rewrite Hd', Heq, Z.eqb_refl in Hg'. simpl in Hg'.
  apply negb_false_iff in Hg'. rewrite Hi in Hg'.
  unfold idle_guard in Hnotidle. rewrite <- (Hsame Hg'), Hd', Hg', (Hidle Hg') in Hnotidle. done.
Qed.

(** ** Completion and dispatch *)

Lemma calm_live t s i : calm 1 t s → i ∈ live s → 1 ≤ remainingTime (procs s !!! i).
Proof.
  intros Hcalm. unfold live. rewrite (calm_bq _ _ _ Hcalm), app_nil_r, elem_of_app.
  intros [Hi|Hi]; [|by apply (calm_rq _ _ _ Hcalm)].
  apply (calm_ref _ _ _ Hcalm). destruct (ref s); set_solver.
Qed.

Lemma complete_calm t s :
  calm 0 t s →
  calm 1 t (complete s) ∧ spent s (complete s) ∧ SYSTEM_TIME (complete s) = SYSTEM_TIME s.
Proof.
  intros Hcalm. unfold complete. destruct (ref s) as [r|] eqn:Hr.
  - destruct (Z.eqb_spec (remainingTime (procs s !!! r)) 0) as [H0|H0].
    + assert (spent s (set_ref None (set_idle true (update r (terminate (SYSTEM_TIME s)) s))))
        as Hsp by (split; simpl; [by apply agree_alter|done..]).
      split_and!; [|done..]. eapply calm_transfer; [done..| |done|apply Hcalm].
      unfold has_data. simpl. rewrite length_alter. apply (calm_next _ _ _ Hcalm).
    + split_and!; [|done..]. eapply calm_transfer; [done..|apply Hcalm| |apply Hcalm].
      intros r' Hr'. rewrite Hr in Hr'. injection Hr' as <-.
      pose proof (calm_nonneg _ _ _ Hcalm r). lia.
  - split_and!; [|done..]. destruct Hcalm. split; try done. by rewrite Hr.
Qed.

Lemma rr_run_head_view tq s s' :
  rr_run_head tq s = Ok s' →
  agree sched_view (procs s) (procs s') ∧ data s' = data s ∧ bq s' = bq s ∧
  SYSTEM_TIME s' = SYSTEM_TIME s ∧ IS_CPU_IDLE s' = false.
Proof.
  unfold rr_run_head. intros Hs'. bind_inv Hs'. injection Hs' as <-.
  destruct (firstExecution _); simpl; split_and!; try done. by apply agree_alter.
Qed.

(** The dispatch step keeps the view, the cursor and the clock, and does
    not leave the CPU idle while somebody is ready. *)
Lemma g_dispatch_cases p tq s s' :
  g_dispatch p tq s = Ok s' →
  agree sched_view (procs s) (procs s') ∧ data s' = data s ∧ bq s' = bq s ∧
  SYSTEM_TIME s' = SYSTEM_TIME s ∧ (IS_CPU_IDLE s' = true → rq s' = []).
Proof.
  unfold g_dispatch, rr_dispatch, dispatch.
  destruct (IS_CPU_IDLE s && negb (isEmpty (rq s))) eqn:Hidle.
  - destruct (is_rr p).
    + intros (? & ? & ? & ? & ?)%rr_run_head_view. split_and!; try done. congruence.
    + intros Hs'. bind_inv Hs'. injection Hs' as <-. by split_and!.
  - assert (IS_CPU_IDLE s = true → rq s = []) as Hrq.
    { intros Hi. rewrite Hi in Hidle. simpl in Hidle.
      by apply negb_false_iff, isEmpty_true in Hidle. }
    destruct (is_rr p); [|by intros [= <-]].
    destruct ((quantum s =? 0) && negb (isEmpty (rq s))).
    + destruct (ref s); [|done].
      intros (? & ? & ? & ? & ?)%rr_run_head_view. split_and!; try done. congruence.
    + destruct ((quantum s =? 0) && isEmpty (rq s)); by intros [= <-].
Qed.

Lemma g_dispatch_calm p tq t s s' :
  inv s → calm 1 t s → g_dispatch p tq s = Ok s' →
  calm 1 t s' ∧ spent s s' ∧ SYSTEM_TIME s' = SYSTEM_TIME s ∧
  (IS_CPU_IDLE s' = true → rq s' = []).
Proof.
  intros Hinv Hcalm Hs'.
  pose proof (g_dispatch_moved _ _ _ _ (inv_idle _ Hinv) Hs') as Hm.
  apply g_dispatch_cases in Hs' as (Hv & Hd & Hbq & Ht & Hidle).
  assert (spent s s') as Hsp by (split; [done|lia|done|lia]).
  assert (∀ i, i ∈ live s' → 1 ≤ remainingTime (procs s !!! i)) as Hlive.
  { intros i Hi. apply (calm_live t); [done|]. by rewrite <- (moved_live _ _ Hm). }
  split_and!; [|done..]. eapply calm_transfer; [done..| | |].
  - unfold has_data. rewrite Hd, <- (agree_length _ _ _ Hv). apply (calm_next _ _ _ Hcalm).
  - intros r Hr. apply Hlive. unfold live. rewrite Hr. set_solver.
  - intros i Hi. apply Hlive. unfold live. set_solver.
Qed.

(** ** A turn *)

Lemma work_bounds l :
  Forall (λ n, 0 ≤ remainingTime n) l →
  0 ≤ work l ∧ ∀ r n, l !! r = Some n → remainingTime n ≤ work l.
Proof.
  unfold work. induction 1 as [|n l Hn Hl [IH0 IH]]; rewrite ?fmap_cons;
    cbn [foldr fmap list_fmap]; (split; [lia|]).
  - intros r n Hr. by rewrite lookup_nil in Hr.
  - intros [|r] m Hm; simplify_eq/=; [lia|]. specialize (IH _ _ Hm). lia.
Qed.

Lemma work_ge (l : list node) (r : nat) :
  (∀ i, 0 ≤ remainingTime (l !!! i)) → (r < length l)%nat →
  remainingTime (l !!! r) ≤ work l.
Proof.
  intros Hnn Hr. apply lookup_lt_is_Some in Hr as [n Hn].
  rewrite (list_lookup_total_correct _ _ _ Hn). eapply work_bounds; [|done].
  apply Forall_lookup. intros i x Hx. specialize (Hnn i).
  by rewrite (list_lookup_total_correct _ _ _ Hx) in Hnn.
Qed.

(** The turn of a busy CPU uses one unit of work. *)
Lemma busy_turn_left p s r :
  top s → ref s = Some r → (turns_left (g_begin p s) < turns_left s)%nat.
Proof.
  intros Htop Hr. destruct (g_begin_top p s Htop) as (_ & _ & _ & Hrec & Hw).
  destruct Htop as (Hinv & Hcalm & _). destruct (inv_ref_lt _ _ Hinv Hr) as [_ Hlt].
  pose proof (work_ge _ r (calm_nonneg _ _ _ Hcalm) Hlt).
  pose proof (calm_ref _ _ _ Hcalm r Hr). unfold turns_left. rewrite Hrec, Hw, Hr. lia.
Qed.

(** The turn of an idle CPU reads a record. *)
Lemma idle_turn_left s1 s2 :
  inv s2 → spent s1 s2 → (data s1 < data s2)%nat → (turns_left s2 < turns_left s1)%nat.
Proof.
  intros Hinv [Hv Hd _ _] Hlt. pose proof (inv_data _ Hinv).
  unfold turns_left, records_left. rewrite (work_agree _ _ Hv), <- (agree_length _ _ _ Hv) in *.
  lia.
Qed.

Lemma idle_left_bound k ifuel s :
  calm k (SYSTEM_TIME s) s → arrivalTime (cur s) < Z.of_nat ifuel → (idle_left s ≤ ifuel)%nat.
Proof.
  intros Hcalm Hlt. unfold idle_left. destruct (idle_guard s) eqn:Hg; [|lia].
  apply idle_guard_true in Hg as (Hd & _).
  pose proof (calm_next _ _ _ Hcalm Hd). pose proof (calm_time _ _ _ Hcalm). lia.
Qed.

Lemma tick_clock_top s :
  inv s → calm 1 (SYSTEM_TIME s + 1) s → (IS_CPU_IDLE s = true → rq s = []) →
  top (tick_clock s) ∧ spent s (tick_clock s).
Proof.
  intros Hinv Hcalm Hidle.
  assert (spent s (tick_clock s)) as Hsp by (split; simpl; [done..|lia]).
  split; [|done]. split_and!; [by eapply inv_moved; [|apply tick_clock_moved]| |done].
  eapply calm_transfer; [done..|apply Hcalm|apply Hcalm|apply Hcalm].
Qed.

(** The turn after its first block: the idle wait ends, the rest of the
    turn runs to the clock tick, and the state at the start of the next
    turn is again [top]. *)
Lemma tick_after_begin p tq ifuel s s1 :
  g_begin p s = s1 → mid 0 (SYSTEM_TIME s1) s1 → (idle_left s1 ≤ ifuel)%nat →
  ∃ s2 s', tick p tq ifuel s = Ok s' ∧ top s' ∧
    mid 0 (SYSTEM_TIME s2) s2 ∧ spent s1 s2 ∧ spent s2 s' ∧ idle_guard s2 = false ∧
    ((data s2 = data s1 ∧ IS_CPU_IDLE s2 = IS_CPU_IDLE s1) ∨ (data s1 < data s2)%nat).
Proof.
  intros Hs1 Hmid1 Hfuel.
  destruct (idle_loop_calm p ifuel s1 Hmid1 Hfuel) as (s2 & Hs2 & Hmid2 & Hsp2 & Hg2 & Hcase2).
  destruct (arrival_loop_calm p tq s2 Hmid2 Hg2) as (s3 & Hs3 & Hmid3 & Hsp3 & Ht3 & Hi3).
  destruct Hmid3 as (Hinv3 & Hcalm3 & _).
  destruct (complete_calm _ _ Hcalm3) as (Hcalm4 & Hsp4 & Ht4).
  pose proof (complete_inv _ Hinv3) as Hinv4.
  destruct (g_dispatch_Ok p tq _ Hinv4) as [s5 Hs5].
  destruct (g_dispatch_calm _ _ _ _ _ Hinv4 Hcalm4 Hs5) as (Hcalm5 & Hsp5 & Ht5 & Hidle5).
  assert (inv s5) as Hinv5 by eauto using inv_moved, g_dispatch_moved, inv_idle.
  destruct (tick_clock_top s5) as [Htop Hsp6]; [done|by rewrite Ht5, Ht4, Ht3|done|].
  exists s2, (tick_clock s5). split_and!; [|done..|by repeat (etrans; [eassumption|])|done|done].
  unfold tick. rewrite Hs1, Hs2. simpl. rewrite Hs3. simpl. rewrite Hs5. simpl.
  rewrite while_false; [done|]. unfold unblock_guard. by rewrite (calm_bq _ _ _ Hcalm5).
Qed.

(** With nothing running and nothing blocked, the start of a turn changes
    the quantum at most. *)
Lemma g_begin_idle_top p s :
  top s → ref s = None → loop_guard s = true →
  idle_guard (g_begin p s) = true ∧ turns_left (g_begin p s) = turns_left s.
Proof.
  intros (Hinv & Hcalm & Hidle) Hr Hguard.
  destruct (g_begin_unfold p s (calm_bq _ _ _ Hcalm)) as [q ->]. rewrite Hr.
  assert (IS_CPU_IDLE s = true) as Hi by (by apply (inv_idle _ Hinv)).
  split; [|done]. unfold loop_guard in Hguard.
  rewrite Hr, (Hidle Hi), (calm_bq _ _ _ Hcalm) in Hguard. simpl in Hguard.
  rewrite !orb_false_r in Hguard. apply idle_guard_true. simpl. auto.
Qed.

(** A turn from [top] runs to its end, reaches [top] again and lowers the
    measure. *)
Lemma tick_top p tq ifuel s :
  top s → loop_guard s = true →
  (∀ i, arrivalTime (procs s !!! i) < Z.of_nat ifuel) →
  ∃ s', tick p tq ifuel s = Ok s' ∧ top s' ∧ (turns_left s' < turns_left s)%nat.
Proof.
  intros Htop Hguard Hfuel. pose proof Htop as (Hinv & Hcalm & Hidle).
  destruct (g_begin_top p s Htop) as (Hmid1 & Ht1 & Hi1 & Hrec1 & Hw1).
  rewrite <- Ht1 in Hmid1.
  destruct (tick_after_begin p tq ifuel s _ eq_refl Hmid1)
    as (s2 & s' & Hs' & Htop' & Hmid2 & Hsp2 & Hsp' & Hg2 & Hcase).
  { apply (idle_left_bound 0); [apply Hmid1|]. unfold cur.
    pose proof (evolves_static s (g_begin p s) (data (g_begin p s))
                  (g_begin_evolves p s Hinv)) as [= _ -> _]. apply Hfuel. }
  exists s'. split_and!; [done..|].
  pose proof (spent_turns_left _ _ Hsp'). pose proof (spent_turns_left _ _ Hsp2).
  destruct (ref s) as [r|] eqn:Hr; [pose proof (busy_turn_left p s r Htop Hr); lia|].
  destruct (g_begin_idle_top p s Htop Hr Hguard) as [Hg1 Heq].
  assert (data (g_begin p s) < data s2)%nat as Hlt; [|pose proof
    (idle_turn_left _ _ (proj1 Hmid2) Hsp2 Hlt); lia].
  destruct Hcase as [[Hd Hi]|?]; [exfalso|done].
  apply idle_guard_true in Hg1 as (Hd1 & Hi1' & _). destruct Hmid2 as (_ & _ & Hidle2).
  rewrite Hi1' in Hi. unfold idle_guard, has_data in *.
  rewrite Hd, <- (agree_length _ _ _ (spent_view _ _ Hsp2)), Hd1, Hi, (Hidle2 Hi) in Hg2. done.
Qed.

(** ** A run *)

Lemma run_top p tq fuel ifuel s :
  top s → (∀ i, arrivalTime (procs s !!! i) < Z.of_nat ifuel) → (turns_left s ≤ fuel)%nat →
  ∃ s', while loop_guard (tick p tq ifuel) fuel s = Ok s' ∧ top s' ∧ loop_guard s' = false.
Proof.
  intros Htop Hfuel Hturns.
  set (I := λ s1, top s1 ∧ ∀ i, arrivalTime (procs s1 !!! i) < Z.of_nat ifuel).
  destruct (while_terminates loop_guard (tick p tq ifuel) turns_left I fuel s)
    as (s' & Hs' & [Htop' _] & Hg'); [|done|done|by exists s'].
  intros s1 [Htop1 Hfuel1] Hg1.
  destruct (tick_top p tq ifuel s1 Htop1 Hg1 Hfuel1) as (s2 & Hs2 & Htop2 & Hlt).
  exists s2. split; [done|]. split; [|done]. split; [done|].
  intros i. destruct (tick_evolves p tq _ _ _ (proj1 Htop1) Hs2) as [_ Hev].
  pose proof (evolves_static _ _ i Hev) as [= _ -> _]. apply Hfuel1.
Qed.

(** ** The loaded list *)

Lemma sorted_lookup_le (evs : list event) i j a b :
  StronglySorted (λ a b, ev_arrival a ≤ ev_arrival b) evs →
  evs !! i = Some a → evs !! j = Some b → (i ≤ j)%nat → ev_arrival a ≤ ev_arrival b.
Proof.
  intros Hs. revert i j. induction Hs as [|e evs _ IH Hall]; intros [|i] [|j] Ha Hb Hij;
    simplify_eq/=; [lia| |lia|by apply (IH i j); [..|lia]].
  rewrite Forall_forall in Hall. by eapply Hall, list_elem_of_lookup_2.
Qed.

Lemma max_arrival_bound (l : list Z) i x : l !! i = Some x → x ≤ foldr Z.max 0 l.
Proof.
  revert i. induction l as [|y l IH]; intros [|i] Hx; simplify_eq/=; [lia|].
  specialize (IH _ Hx). lia.
Qed.

(** The PCB at a position of the loaded list of a well-formed file. *)
Lemma load_well_formed evs i :
  well_formed evs →
  is_interrupt (load evs !!! i) = false ∧ 0 ≤ arrivalTime (load evs !!! i) ∧
  0 ≤ remainingTime (load evs !!! i) ∧
  arrivalTime (load evs !!! i) < Z.of_nat (idle_fuel_of evs) ∧
  ((i < length evs)%nat → 1 ≤ remainingTime (load evs !!! i)).
Proof.
  intros (Hall & _ & Hlen). rewrite list_lookup_total_alt. unfold idle_fuel_of.
  destruct (evs !! i) as [e|] eqn:He.
  - rewrite (load_lookup _ _ _ He). simpl.
    rewrite Forall_forall in Hall. destruct (Hall e) as (Hint & Hb & Ha);
      [by eapply list_elem_of_lookup_2|].
    assert (is_proc_event e = true) as Hp by (unfold is_proc_event; lia).
    pose proof (event_id_proc _ _ _ He Hp) as Hid.
    assert (n_procs evs ≤ length evs)%nat by (unfold n_procs; apply length_filter).
    assert (ev_arrival e ≤ foldr Z.max 0 (ev_arrival <$> evs))
      by (apply (max_arrival_bound _ i); by rewrite list_lookup_fmap, He).
    unfold is_interrupt. simpl. split_and!; [lia..|done].
  - rewrite (proj2 (lookup_ge_None _ _)) by (rewrite input_length; by apply lookup_ge_None).
    apply lookup_ge_None in He. simpl. split_and!; [done|lia..].
Qed.

Lemma load_work evs : work (load evs) = foldr Z.add 0 (ev_burst <$> evs).
Proof. unfold work. by rewrite load_remaining. Qed.

Lemma load_order evs i j :
  well_formed evs → (i ≤ j)%nat → (j < length evs)%nat →
  arrivalTime (load evs !!! i) ≤ arrivalTime (load evs !!! j).
Proof.
  intros (_ & Hs & _) Hij Hj.
  destruct (lookup_lt_is_Some_2 evs i) as [a Ha]; [lia|].
  destruct (lookup_lt_is_Some_2 evs j) as [b Hb]; [lia|].
  rewrite !list_lookup_total_alt, (load_lookup _ _ _ Ha), (load_lookup _ _ _ Hb). simpl.
  by eapply sorted_lookup_le.
Qed.

Lemma calm_set_quantum k t q s : calm k t s → calm k t (set_quantum q s).
Proof. intros []. by split. Qed.

Lemma enter_calm evs : well_formed evs → calm 1 0 (enter (boot (load evs))).
Proof.
  intros Hwf. pose proof (λ i, load_well_formed evs i Hwf) as Hl.
  split; simpl; [done| | | |done| | | |done].
  - intros i. apply Hl.
  - intros i j _ Hij Hj. rewrite input_length in Hj. by apply load_order.
  - intros _. apply Hl.
  - intros i Hi. by apply elem_of_nil in Hi.
  - intros i _ Hi. rewrite input_length in Hi. by apply Hl.
  - intros i. apply Hl.
Qed.

(** The state in which the engine is entered on a well-formed file is
    [top]. *)
Lemma enter_top p tq evs : well_formed evs → top (g_enter p tq (boot (load evs))).
Proof.
  intros Hwf. pose proof (enter_inv p tq _ (boot_initial evs)) as Hinv.
  pose proof (enter_calm evs Hwf) as Hcalm. unfold top, mid, g_enter in *.
  destruct (is_rr p); (split_and!; [done| |done]); [by apply calm_set_quantum|done].
Qed.

(** ** The theorems *)

(** From a state at the start of a turn of a run without block
    requests, with the outer loop's guard true and the idle wait given
    more fuel than the latest arrival time, each of the four loop bodies
    returns, the state it returns is again such a state, and the CPU time
    still needed plus the number of unread records has gone down. *)
Theorem loop_bodies_progress (n tq : Z) (ifuel : nat) (s : state) :
  1 ≤ n ≤ 4 → top s → loop_guard s = true →
  (∀ i, arrivalTime (procs s !!! i) < Z.of_nat ifuel) →
  ∃ s', loop_body n tq ifuel s = Ok s' ∧ top s' ∧ (turns_left s' < turns_left s)%nat.
Proof.
  intros [p Hp]%policy_of_Z_range Htop Hg Hfuel. rewrite (loop_body_tick _ _ _ _ _ Hp).
  by apply tick_top.
Qed.

(** Enough fuel for a run on well-formed records. *)
Lemma schedule_returns n tq evs fuel ifuel :
  1 ≤ n ≤ 4 → well_formed evs →
  (fuel_of evs ≤ fuel)%nat → (idle_fuel_of evs ≤ ifuel)%nat →
  ∃ s', schedule n tq fuel ifuel (boot (load evs)) = Ok s'.
Proof.
  intros Hn Hwf Hfuel Hifuel. destruct (policy_of_Z_range n Hn) as [p Hp].
  pose proof (λ i, load_well_formed evs i Hwf) as Hl.
  destruct (run_top p tq fuel ifuel (g_enter p tq (boot (load evs)))) as (s' & Hs' & _).
  { by apply enter_top. }
  { intros i. rewrite g_enter_procs. simpl. destruct (Hl i) as (_ & _ & _ & ? & _). lia. }
  { unfold turns_left, records_left, fuel_of in *. rewrite g_enter_procs.
    replace (data (g_enter p tq (boot (load evs)))) with 0%nat
      by (unfold g_enter; by destruct (is_rr p)).
    simpl. rewrite load_work, input_length. lia. }
  exists s'. by rewrite (schedule_run_policy _ _ _ _ _ _ Hp).
Qed.

(** C3: on a file of at most 1000 records without block requests whose
    records are in arrival order from time 0 on, with burst times of at
    least 1, [schedule]
    returns under each of the four policies as soon as the outer loop has
    the sum of the burst times plus the number of records as fuel and the
    idle wait one more than the latest arrival time; nothing is left to
    do then and every process is terminated with no remaining time. *)
Theorem schedule_terminates (n tq : Z) (evs : list event) (fuel ifuel : nat) :
  1 ≤ n ≤ 4 → well_formed evs →
  (fuel_of evs ≤ fuel)%nat → (idle_fuel_of evs ≤ ifuel)%nat →
  ∃ s', schedule n tq fuel ifuel (boot (load evs)) = Ok s' ∧ settled s' ∧
    ∀ i, (i < length evs)%nat →
      isTerminated (procs s' !!! i) = true ∧ remainingTime (procs s' !!! i) = 0.
Proof.
  intros Hn Hwf Hfuel Hifuel.
  destruct (schedule_returns n tq evs fuel ifuel) as [s' Hrun]; [done..|].
  exists s'. split; [done|].
  destruct (schedule_exit _ _ _ _ _ _ (boot_initial evs) Hn Hrun) as [Hset _].
  split; [done|]. intros i Hi.
  destruct (schedule_books _ _ _ _ _ _ i (boot_initial evs) Hn Hrun) as [_ Hb];
    [simpl; by rewrite input_length|].
  destruct Hb as (? & ? & _); [apply load_well_formed, Hwf|done].
Qed.

Lemma sample_events_calm_wf : well_formed sample_events_calm.
Proof.
  split_and!; [repeat constructor; simpl; lia|repeat constructor; simpl; lia|simpl; lia].
Qed.

Lemma loop_bodies_progress_witness :
  ∃ s', loop_body 2 0 2 (g_enter SJF 0 (boot (load sample_events_calm))) = Ok s' ∧ top s' ∧
        (turns_left s' < turns_left (g_enter SJF 0 (boot (load sample_events_calm))))%nat.
Proof.
  apply (loop_bodies_progress 2 0 2 (g_enter SJF 0 (boot (load sample_events_calm)))).
  - lia.
  - apply enter_top, sample_events_calm_wf.
  - reflexivity.
  - intros i. destruct (load_well_formed _ i sample_events_calm_wf) as (_ & _ & _ & H & _).
    exact H.
Defined.

Lemma schedule_terminates_witness :
  ∃ s', schedule 4 2 10 2 (boot (load sample_events_calm)) = Ok s' ∧ settled s' ∧
    ∀ i, (i < length sample_events_calm)%nat →
      isTerminated (procs s' !!! i) = true ∧ remainingTime (procs s' !!! i) = 0.
Proof.
  apply (schedule_terminates 4 2 sample_events_calm 10 2);
    [lia|apply sample_events_calm_wf|vm_compute; lia|vm_compute; lia].
Defined.
