(* ===== verification/Order.v ===== *)
(** * Order: the queues stay sorted

    [priorityBlock] keeps the blocked queue in ascending order of the
    blocked time that is left, and under SJF and SRTN [priorityEnqueue]
    keeps the ready queue in ascending order of remaining time.  The keys
    are read through the PCB pointers at the time of each insertion, and
    the PCBs change while they are queued ([deduct] ages the blocked ones,
    the running process is decremented), so that the queues are sorted at
    a later time is a property of the whole loop, not of the insertions.

    [ordered p] is that property at a turn boundary of policy [p], with,
    under SRTN, the fact that the running process has no more time left
    than any ready one.  [reach] is the step relation of the outer loop of
    the selected function; every state it reaches from a freshly loaded
    list is [ordered].  What the dispatch then does is to give the CPU to
    a ready process with the least remaining time
    ([dispatch_takes_shortest]). *)

From S2P Require Import Prelude Process Queue Engine Generic Invariant Lifecycle.
From S2P Require Import Correctness Termination.

#[local] Open Scope Z_scope.

(** ** Definitions *)

(** The two fields the queues are ordered by. *)
Definition keys (n : node) : Z * Z := (remainingTime n, blockedTime n).

(** The key of a pointer of the ready queue, of the blocked queue. *)
Definition rem (s : state) (i : nat) : Z := remainingTime (procs s !!! i).
Definition blk (s : state) (i : nat) : Z := blockedTime (procs s !!! i).

(** The policies that order the ready queue. *)
Definition sorts_ready (p : policy) : bool :=
  match p with SJF | SRTN => true | _ => false end.

Record ordered (p : policy) (s : state) : Prop := mkOrdered {
  ord_bq : sorted_by (blk s) (bq s);
  ord_rq : sorts_ready p = true → sorted_by (rem s) (rq s);
  ord_ref : preempts p = true →
            ∀ r, ref s = Some r → Forall (λ h, rem s r ≤ rem s h) (rq s)
}.

(** The states at the turn boundaries of the function [schedule] selects
    for policy number [n], entered in state [s0]. *)
Inductive reach (n tq : Z) (ifuel : nat) (s0 : state) : state → Prop :=
  | reach_enter p :
      policy_of_Z n = Some p → reach n tq ifuel s0 (g_enter p tq s0)
  | reach_turn s s' :
      reach n tq ifuel s0 s → loop_guard s = true →
      loop_body n tq ifuel s = Ok s' → reach n tq ifuel s0 s'.

(** What the loops of a turn keep. *)
Definition kept (p : policy) (s : state) : Prop := inv s ∧ ordered p s.

(** Every pointer the state holds designates a PCB of the list, and the
    cursor is at most one past the last. *)
Definition pointers_valid (s : state) : bool :=
  (data s <=? length (procs s))%nat &&
  forallb (λ i, i <? length (procs s))%nat (option_list (ref s) ++ rq s ++ bq s).

(** * Theorems *)

Lemma sorted_by_eq (key key' : nat → Z) q :
  (∀ i, i ∈ q → key' i = key i) → sorted_by key q → sorted_by key' q.
Proof. intros Hk. apply sorted_by_ext. by apply Forall_forall. Qed.

Lemma agree_keys l l' i :
  agree keys l l' →
  remainingTime (l' !!! i) = remainingTime (l !!! i) ∧
  blockedTime (l' !!! i) = blockedTime (l !!! i).
Proof. intros H. by pose proof (agree_lookup _ _ _ i H) as [= -> ->]. Qed.

(** A step that leaves the keys and the three places alone. *)
Lemma ordered_same p s s' :
  agree keys (procs s) (procs s') → ref s' = ref s → rq s' = rq s → bq s' = bq s →
  ordered p s → ordered p s'.
Proof.
  intros Hk Hr Hrq Hbq [Hb Hq Hf].
  assert (∀ i, rem s' i = rem s i ∧ blk s' i = blk s i) as Hsame
    by (intros i; by apply agree_keys).
  split; rewrite ?Hr, ?Hrq, ?Hbq.
  - eapply sorted_by_eq; [|exact Hb]. intros i _. apply Hsame.
  - intros Hp. eapply sorted_by_eq; [|by apply Hq]. intros i _. apply Hsame.
  - intros Hp r Hrr. eapply Forall_impl; [by apply Hf|]. simpl. intros h.
    by rewrite !(proj1 (Hsame _)).
Qed.

Lemma inv_NoDup_bq s : inv s → NoDup (bq s).
Proof.
  intros Hinv. pose proof (inv_nodup _ Hinv) as Hnd. unfold live in Hnd.
  apply NoDup_app in Hnd as (_ & _ & Hnd). by apply NoDup_app in Hnd as (_ & _ & Hnd).
Qed.

Lemma inv_ref_notin_bq s r : inv s → ref s = Some r → r ∉ bq s.
Proof.
  intros Hinv Hr. pose proof (inv_nodup _ Hinv) as Hnd. unfold live in Hnd.
  rewrite Hr in Hnd. simpl in Hnd. apply NoDup_cons in Hnd as [Hnd _]. set_solver.
Qed.

(** ** The start of a turn *)

Lemma run_tick_ordered p s : inv s → ordered p s → ordered p (run_tick s).
Proof.
  intros Hinv Hord. unfold run_tick. destruct (ref s) as [r|] eqn:Hr; [|done].
  destruct Hord as [Hb Hq Hf].
  pose proof (inv_ref_lt _ _ Hinv Hr) as [_ Hlen].
  pose proof (inv_ref_notin_rq _ _ Hinv Hr) as Hrq.
  assert (∀ i, rem (update r dec_remainingTime s) i =
               rem s i - (if decide (i = r) then 1 else 0)) as Hrem
    by (intros i; by apply remaining_dec).
  split; simpl.
  - eapply sorted_by_eq; [|exact Hb]. intros i _. unfold blk. simpl.
    eapply (agree_lookup blockedTime). by apply agree_alter.
  - intros Hp. eapply sorted_by_eq; [|by apply Hq]. intros i Hi. rewrite Hrem.
    case_decide; [congruence|lia].
  - intros Hp r' Hr'. rewrite Hr in Hr'. injection Hr' as <-.
    specialize (Hf Hp r Hr). rewrite Forall_forall in *.
    intros h Hh. rewrite !Hrem, decide_True by done. specialize (Hf h Hh).
    case_decide; [congruence|lia].
Qed.

Lemma age_blocked_ordered p s : inv s → ordered p s → ordered p (age_blocked s).
Proof.
  intros Hinv Hord. unfold age_blocked. destruct (isEmpty (bq s)); [done|].
  destruct Hord as [Hb Hq Hf].
  assert (∀ i, rem (set_procs (deduct (procs s) (bq s)) s) i = rem s i) as Hrem.
  { intros i. unfold rem. simpl. apply (deduct_fields (procs s) (bq s) i). }
  split; simpl.
  - eapply (sorted_by_shift _ _ (-1)); [|exact Hb]. intros j Hj. unfold blk. simpl.
    rewrite deduct_lookup_in; [simpl; lia|by apply inv_NoDup_bq|done|].
    apply inv_live_lt; [done|]. unfold live. set_solver.
  - intros Hp. eapply sorted_by_eq; [|by apply Hq]. auto.
  - intros Hp r Hr. eapply Forall_impl; [by apply Hf|]. simpl. intros h.
    by rewrite !Hrem.
Qed.

Lemma g_begin_ordered p s : inv s → ordered p s → ordered p (g_begin p s).
Proof.
  intros Hinv Hord. unfold g_begin.
  set (s0 := if is_rr p then quantum_tick s else s).
  assert (moved s s0) as Hm
    by (subst s0; destruct (is_rr p); [apply quantum_tick_moved|done]).
  assert (ordered p s0) as Hord0.
  { subst s0. destruct (is_rr p); [|done]. unfold quantum_tick.
    destruct (IS_CPU_IDLE s); [done|]. by apply (ordered_same p s). }
  apply age_blocked_ordered.
  - eapply inv_moved; [by eapply inv_moved|apply run_tick_moved].
  - apply run_tick_ordered; [by eapply inv_moved|done].
Qed.

(** ** The blocks of a turn *)

Lemma preempts_sorts p : preempts p = true → sorts_ready p = true.
Proof. by destruct p. Qed.

Lemma is_rr_sorts p : is_rr p = true → sorts_ready p = false ∧ preempts p = false.
Proof. by destruct p. Qed.

(** Under a policy that does not order the ready queue only the blocked
    queue counts. *)
Lemma ordered_fifo p s :
  sorts_ready p = false → sorted_by (blk s) (bq s) → ordered p s.
Proof.
  intros Hp Hb. split; [done|by rewrite Hp|].
  intros Hp'%preempts_sorts. congruence.
Qed.

(** The head of a sorted ready queue takes the CPU. *)
Lemma ordered_take p s x q :
  sorted_by (blk s) (bq s) → (sorts_ready p = true → sorted_by (rem s) (x :: q)) →
  ordered p (set_rq q (set_ref (Some x) s)).
Proof.
  intros Hb Hq. split; simpl; [done|..].
  - intros Hp. by eapply sorted_by_tail, Hq.
  - intros Hp%preempts_sorts ? [= <-]. specialize (Hq Hp). unfold sorted_by in Hq.
    by apply StronglySorted_cons in Hq as [? _].
Qed.

(** The CPU is left empty. *)
Lemma ordered_idle p s :
  sorted_by (blk s) (bq s) → (sorts_ready p = true → sorted_by (rem s) (rq s)) →
  ordered p (set_ref None s).
Proof. by split. Qed.

Lemma g_idle_step_ordered p s s' :
  idle_guard s = true → ordered p s → g_idle_step p s = Ok s' → ordered p s'.
Proof.
  intros (_ & _ & Hrq)%idle_guard_true Hord.
  assert (ordered p (set_rq [] (set_ref (Some (data s)) s))) as Hstart.
  { apply ordered_take; [apply Hord|]. intros _. repeat constructor. }
  unfold g_idle_step, rr_idle_step, idle_step.
  destruct (is_rr p), (processId (cur s) >? 1000),
    (arrivalTime (cur s) =? SYSTEM_TIME s), (isTerminated (cur s)); simpl;
    intros [= <-];
    first [ by apply (ordered_same p s)
          | apply (ordered_same p (set_rq [] (set_ref (Some (data s)) s)));
            simpl; [..|done]; first [done|by apply agree_alter] ].
Qed.

Lemma g_take_next_ordered p tq s s' :
  sorted_by (blk s) (bq s) → (sorts_ready p = true → sorted_by (rem s) (rq s)) →
  g_take_next p tq s = Ok s' → ordered p s'.
Proof.
  intros Hb Hq. unfold g_take_next, rr_take_next, take_next.
  destruct (rq s) as [|x q] eqn:Hrq; simpl.
  { destruct (is_rr p); intros [= <-];
      apply (ordered_same p (set_ref None s)); try done; by apply ordered_idle; rewrite ?Hrq. }
  destruct (is_rr p); intros [= <-];
    apply (ordered_same p (set_rq q (set_ref (Some x) s))); simpl; try done;
    first [by apply agree_alter|by apply ordered_take].
Qed.

(** A block request leaves both queues sorted; [ref] dangles until the
    next statement. *)
Lemma block_or_finish_ordered p s s1 :
  inv s → ordered p s → block_or_finish s = Ok s1 →
  sorted_by (blk s1) (bq s1) ∧ (sorts_ready p = true → sorted_by (rem s1) (rq s1)).
Proof.
  intros Hinv [Hb Hq _]. unfold block_or_finish.
  destruct (ref s) as [r|] eqn:Hr; [|done].
  pose proof (inv_ref_notin_bq _ _ Hinv Hr) as Hnb.
  destruct (negb _); intros [= <-]; simpl.
  - split.
    + unfold priorityBlock. rewrite pq_insert_spec. apply insert_sorted_sorted.
      eapply sorted_by_eq; [|exact Hb]. intros i Hi. unfold blk.
      rewrite list_lookup_total_alter_ne; [done|congruence].
    + intros Hp. eapply sorted_by_eq; [|by apply Hq]. intros i _.
      eapply (agree_lookup remainingTime). by apply agree_alter.
  - split; [|intros Hp]; (eapply sorted_by_eq; [|eauto]); intros i _.
    + eapply (agree_lookup blockedTime). by apply agree_alter.
    + eapply (agree_lookup remainingTime). by apply agree_alter.
Qed.

Lemma g_interrupt_ordered p tq s s' :
  inv s → ordered p s → g_interrupt p tq s = Ok s' → ordered p s'.
Proof.
  intros Hinv Hord Hs'. unfold g_interrupt in Hs'. bind_inv Hs'.
  destruct (block_or_finish_ordered p s a Hinv Hord Ha) as [Hb Hq].
  by eapply g_take_next_ordered.
Qed.

(** The comparison of SRTN: whoever runs afterwards has no more time left
    than any ready process. *)
Lemma preempt_check_ordered p s s' :
  sorted_by (blk s) (bq s) → sorted_by (rem s) (rq s) →
  preempt_check s = Ok s' → ordered p s'.
Proof.
  intros Hb Hq. unfold preempt_check. destruct (ref s) as [r|] eqn:Hr; [|done].
  destruct (rq s) as [|h t] eqn:Hrq; [done|]. case_test.
  - intros Hs'. bind_inv Hs'. injection Hs' as <-. destruct a as [x q']. simpl.
    apply dequeue_Ok in Ha. apply ordered_take; [done|]. intros _.
    rewrite <- Ha. unfold priorityEnqueue. rewrite pq_insert_spec.
    by apply insert_sorted_sorted.
  - intros [= <-]. split; [done|by rewrite Hrq|]. intros _ r' Hr'.
    rewrite Hr in Hr'. injection Hr' as <-.
    rewrite Hrq. apply StronglySorted_cons in Hq as [Hh Ht].
    unfold rem in *. constructor; [lia|].
    eapply Forall_impl; [exact Hh|]. simpl. intros; lia.
Qed.

Lemma g_admit_ordered p d s s' :
  sorted_by (blk s) (bq s) → (sorts_ready p = true → sorted_by (rem s) (rq s)) →
  g_admit p d s = Ok s' → ordered p s'.
Proof.
  intros Hb Hq. unfold g_admit.
  assert (sorts_ready p = true →
          sorted_by (rem s) (ready_insert p (procs s) (rq s) d)) as Hins.
  { intros Hp. destruct p; try done; simpl; unfold priorityEnqueue;
      rewrite pq_insert_spec; by apply insert_sorted_sorted, Hq. }
  destruct (preempts p) eqn:Hp.
  - apply preempt_check_ordered; [done|]. by apply Hins, preempts_sorts.
  - intros [= <-]. split; [done|done|]. by rewrite Hp.
Qed.

Lemma g_arrival_ordered p tq s s' :
  inv s → ordered p s → g_arrival p tq s = Ok s' → ordered p s'.
Proof.
  intros Hinv Hord. unfold g_arrival.
  set (s0 := if is_rr p then update (data s) (set_firstExecution true) s else s).
  assert (moved s s0 ∧ ordered p s0) as [Hm0 Hord0].
  { subst s0. destruct (is_rr p); [|done]. split; [solve_moved|].
    apply (ordered_same p s); try done. by apply agree_alter. }
  destruct (_ >? _); intros Hs'; bind_inv Hs'; injection Hs' as <-;
    apply (ordered_same p a); try done.
  - eapply g_interrupt_ordered; [|done..]. by eapply inv_moved.
  - eapply g_admit_ordered; [| |done]; apply Hord0.
Qed.

Lemma complete_ordered p s : ordered p s → ordered p (complete s).
Proof.
  intros Hord. unfold complete. destruct (ref s) as [r|]; [|done].
  destruct (_ =? 0); [|done].
  apply (ordered_same p (set_ref None s)); simpl; try done; [by apply agree_alter|].
  apply ordered_idle; apply Hord.
Qed.

Lemma rr_run_head_ordered p tq s s' :
  is_rr p = true → sorted_by (blk s) (bq s) → rr_run_head tq s = Ok s' → ordered p s'.
Proof.
  intros [Hp _]%is_rr_sorts Hb. unfold rr_run_head. intros Hs'. bind_inv Hs'.
  injection Hs' as <-. apply ordered_fifo; [done|].
  destruct (firstExecution _); simpl; [|done].
  eapply sorted_by_eq; [|exact Hb]. intros i _.
  eapply (agree_lookup blockedTime). by apply agree_alter.
Qed.

Lemma g_dispatch_ordered p tq s s' :
  ordered p s → g_dispatch p tq s = Ok s' → ordered p s'.
Proof.
  intros Hord. unfold g_dispatch, rr_dispatch, dispatch.
  destruct (is_rr p) eqn:Hp.
  - destruct (IS_CPU_IDLE s && _).
    { intros H. eapply rr_run_head_ordered; [done|apply Hord|done]. }
    destruct ((quantum s =? 0) && negb _).
    { destruct (ref s) as [r|]; [|done]. intros H.
      eapply (rr_run_head_ordered p tq (set_rq _ s)); [done|apply Hord|done]. }
    destruct (_ && _); intros [= <-]; [by apply (ordered_same p s)|done].
  - destruct (_ && _); [|by intros [= <-]].
    destruct (rq s) as [|x q] eqn:Hrq; simpl; [done|]. intros [= <-].
    apply (ordered_same p (set_rq q (set_ref (Some x) s))); try done.
    apply ordered_take; [apply Hord|]. rewrite <- Hrq. apply Hord.
Qed.

Lemma g_unblock_step_ordered p s s' :
  ordered p s → g_unblock_step p s = Ok s' → ordered p s'.
Proof.
  intros [Hb Hq _]. unfold g_unblock_step.
  destruct (bq s) as [|x b] eqn:Hbq; simpl; [done|].
  apply g_admit_ordered; simpl; [by eapply sorted_by_tail|done].
Qed.

(** ** The loop body and the run *)

Section tick.
Context (p : policy) (tq : Z).

(** The state in which a turn dispatches: after the idle wait, the
    arrivals of the tick and the completion test. *)
Lemma before_dispatch_kept ifuel s s1 s2 :
  kept p s → g_idle_wait p ifuel (g_begin p s) = Ok s1 →
  while arrival_guard (g_arrival p tq) (records_left s1) s1 = Ok s2 →
  kept p (complete s2).
Proof.
  intros [Hinv Hord] H1 H2.
  assert (kept p s1) as Hk1.
  { eapply (while_invariant _ _ (kept p));
      [|split; [by apply g_begin_inv|by apply g_begin_ordered]|exact H1].
    intros ? ? [??] ? ?. split; [by eapply g_idle_step_inv|by eapply g_idle_step_ordered]. }
  assert (kept p s2) as [Hinv2 Hord2].
  { eapply (while_invariant _ _ (kept p)); [|exact Hk1|exact H2].
    intros ? ? [??] ? ?. split; [by eapply g_arrival_inv|by eapply g_arrival_ordered]. }
  split; [by apply complete_inv|by apply complete_ordered].
Qed.

Lemma tick_ordered ifuel s s' : kept p s → tick p tq ifuel s = Ok s' → kept p s'.
Proof.
  intros Hk Htick. split; [eapply tick_inv_aux; [apply Hk|done]|].
  revert Htick. unfold tick.
  intros (s1 & H1 & (s2 & H2 & (s3 & H3 & (s4 & H4 & [= <-])%res_bind_Ok)%res_bind_Ok
         )%res_bind_Ok)%res_bind_Ok.
  destruct (before_dispatch_kept _ _ _ _ Hk H1 H2) as [Hinv2 Hord2].
  assert (kept p s3) as Hk3.
  { split; [|by eapply g_dispatch_ordered].
    eapply inv_moved; [done|]. eapply g_dispatch_moved; [apply Hinv2|done]. }
  apply (ordered_same p s4); try done.
  eapply (while_invariant _ _ (kept p)); [|exact Hk3|exact H4].
  intros ? ? [??] ? ?.
  split; [by eapply inv_moved, g_unblock_step_moved|by eapply g_unblock_step_ordered].
Qed.

Lemma enter_ordered s : initial s → kept p (g_enter p tq s).
Proof.
  intros Hinit. split; [by apply enter_inv|]. destruct Hinit as (Hrq & Hbq & _).
  unfold g_enter. destruct (is_rr p);
    (split; simpl; rewrite ?Hrq, ?Hbq; [constructor|constructor|done]).
Qed.

End tick.

Lemma reach_kept n tq ifuel s0 s :
  initial s0 → reach n tq ifuel s0 s → ∃ p, policy_of_Z n = Some p ∧ kept p s.
Proof.
  intros Hinit. induction 1 as [p Hp|s s' _ (p & Hp & Hk) Hg Hbody].
  - exists p. split; [done|]. by apply enter_ordered.
  - exists p. split; [done|]. rewrite (loop_body_tick _ _ _ _ _ Hp) in Hbody.
    by eapply tick_ordered.
Qed.

(** C5: at every turn boundary of a run of [schedule] from a freshly
    loaded list the blocked queue is in ascending order of blocked time;
    under SJF and SRTN the ready queue is in ascending order of remaining
    time; under SRTN the running process has no more time left than any
    ready process. *)
Theorem reachable_states_ordered (n tq : Z) (ifuel : nat) (s0 s : state) :
  initial s0 → reach n tq ifuel s0 s →
  sorted_by (blk s) (bq s) ∧
  (n = 2 ∨ n = 3 → sorted_by (rem s) (rq s)) ∧
  (n = 3 → ∀ r, ref s = Some r → Forall (λ h, rem s r ≤ rem s h) (rq s)).
Proof.
  intros Hinit Hreach.
  destruct (reach_kept _ _ _ _ _ Hinit Hreach) as (p & Hp%policy_of_Z_Some & _ & [Hb Hq Hf]).
  split; [done|]. split; [intros Hn; apply Hq|intros Hn; apply Hf];
    destruct p; simpl; (done || lia).
Qed.

Lemma reachable_states_ordered_witness :
  let s0 := boot (load [mkEvent 0 5 0; mkEvent 0 3 0; mkEvent 1 1 0]) in
  let s := final_of (loop_body 3 0 5 (final_of (loop_body 3 0 5 (g_enter SRTN 0 s0)))) in
  sorted_by (blk s) (bq s) ∧
  sorted_by (rem s) (rq s) ∧
  ∀ r, ref s = Some r → Forall (λ h, rem s r ≤ rem s h) (rq s).
Proof.
  intros s0 s. destruct (reachable_states_ordered 3 0 5 s0 s) as (Hbq & Hrq & Hhead).
  - apply boot_initial.
  - eapply reach_turn; [eapply reach_turn; [by apply (reach_enter _ _ _ _ SRTN)|..]|..];
      by vm_compute.
  - split; [exact Hbq|]. split; [apply Hrq; by right|by apply Hhead].
Defined.

(** C6: in a turn of SJF or SRTN that starts at a turn boundary of a run,
    the dispatch step gives the idle CPU to the head of the ready queue,
    and no ready process has less time left than it. *)
Theorem dispatch_takes_shortest (n tq : Z) (p : policy) (ifuel : nat)
    (s0 s s1 s2 : state) :
  initial s0 → reach n tq ifuel s0 s → policy_of_Z n = Some p →
  sorts_ready p = true →
  g_idle_wait p ifuel (g_begin p s) = Ok s1 →
  while arrival_guard (g_arrival p tq) (records_left s1) s1 = Ok s2 →
  IS_CPU_IDLE (complete s2) = true → rq (complete s2) ≠ [] →
  ∃ x, g_dispatch p tq (complete s2) = Ok (set_idle false (set_rq (tail (rq (complete s2)))
                                           (set_ref (Some x) (complete s2)))) ∧
       head (rq (complete s2)) = Some x ∧
       ∀ h, h ∈ rq (complete s2) → rem (complete s2) x ≤ rem (complete s2) h.
Proof.
  intros Hinit Hreach Hp Hsort H1 H2 Hidle Hrq.
  destruct (reach_kept _ _ _ _ _ Hinit Hreach) as (p' & Hp' & Hk).
  assert (p' = p) as -> by congruence.
  destruct (before_dispatch_kept _ _ _ _ _ _ Hk H1 H2) as [_ [_ Hq _]].
  specialize (Hq Hsort). unfold g_dispatch, dispatch. rewrite Hidle.
  destruct (rq (complete s2)) as [|x q]; [done|]. exists x.
  replace (is_rr p) with false by (by destruct p). simpl. split_and!; [done..|].
  apply StronglySorted_cons in Hq as [Hx _]. rewrite Forall_forall in Hx.
  intros h [->|Hh]%elem_of_cons; [lia|auto].
Qed.

Lemma dispatch_takes_shortest_witness :
  let s0 := boot (load [mkEvent 0 2 0; mkEvent 0 5 0; mkEvent 1 3 0]) in
  let s := final_of (loop_body 2 0 5 (final_of (loop_body 2 0 5 (g_enter SJF 0 s0)))) in
  let s1 := final_of (g_idle_wait SJF 5 (g_begin SJF s)) in
  let s2 := final_of (while arrival_guard (g_arrival SJF 0) (records_left s1) s1) in
  ∃ x, g_dispatch SJF 0 (complete s2) = Ok (set_idle false (set_rq (tail (rq (complete s2)))
                                           (set_ref (Some x) (complete s2)))) ∧
       head (rq (complete s2)) = Some x ∧
       ∀ h, h ∈ rq (complete s2) → rem (complete s2) x ≤ rem (complete s2) h.
Proof.
  intros s0 s s1 s2.
  apply (dispatch_takes_shortest 2 0 SJF 5 s0 s s1 s2); try by vm_compute.
  - apply boot_initial.
  - eapply reach_turn; [eapply reach_turn; [by apply (reach_enter _ _ _ _ SJF)|..]|..];
      by vm_compute.
Defined.

Lemma inv_pointers_valid s : inv s → pointers_valid s = true.
Proof.
  intros Hinv. unfold pointers_valid. apply andb_true_iff. split.
  - apply Nat.leb_le, Hinv.
  - apply forallb_forall. intros i Hi%list_elem_of_In. apply Nat.ltb_lt.
    by apply inv_live_lt.
Qed.

(** C28: at every turn boundary of a run of [schedule] from a freshly
    loaded list every pointer of the engine ([ref], the nodes of the two
    queues) designates a PCB of the process list, and the cursor [data]
    is in the list or one past its end: no dereference of the loop body
    leaves the list. *)
Theorem reachable_pointers_valid (n tq : Z) (ifuel : nat) (s0 s : state) :
  initial s0 → reach n tq ifuel s0 s → pointers_valid s = true.
Proof.
  intros Hinit Hreach.
  destruct (reach_kept _ _ _ _ _ Hinit Hreach) as (p & _ & Hinv & _).
  by apply inv_pointers_valid.
Qed.

Lemma reachable_pointers_valid_witness :
  pointers_valid
    (final_of (loop_body 4 2 5 (g_enter RR 2 (boot (load sample_events))))) = true.
Proof.
  apply (reachable_pointers_valid 4 2 5 (boot (load sample_events))).
  - apply boot_initial.
  - eapply reach_turn; [by apply (reach_enter _ _ _ _ RR)|by vm_compute..].
Defined.
