(* ===== verification/Metrics.v ===== *)
(** * Metrics: the numbers of the report

    [output] of the C file walks the process list once: it skips the block
    requests, assigns [waitingTime = turnAroundTime - burstTime] in each
    real PCB, adds the two times to two accumulators, counts the rows and
    at the end divides the accumulators by the count.  The model keeps the
    numbers and leaves the [fprintf] formatting out.

    - A field the engine never assigned is [None]; arithmetic on it gives
      [None] (C reads an indeterminate value).
    - The accumulators are [float] in C; the sums of the model are exact
      integers, which is what the C sums are below 2^24.
    - The division by [count] is not guarded in C: with no real process it
      is 0.0 / 0, which the model calls [NaN]. *)

From Stdlib Require Import QArith.
From S2P Require Import Prelude Process Queue Engine Generic Invariant Lifecycle Correctness.

#[local] Open Scope Z_scope.

(** ** Definitions *)

(** The accumulators of [output]. *)
Record totals : Type := mkTotals {
  avgTurnAround : option Z;
  avgWaiting : option Z;
  count : Z
}.

(** [acc += (float) t], where [t] may be indeterminate. *)
Definition add_time (acc t : option Z) : option Z :=
  match acc, t with
  | Some a, Some x => Some (a + x)
  | _, _ => None
  end.

(** [ref->waitingTime = ref->turnAroundTime - ref->burstTime]. *)
Definition output_row (n : node) : node :=
  set_waitingTime (option_map (λ t, t - burstTime n) (turnAroundTime n)) n.

Definition add_row (n : node) (t : totals) : totals :=
  mkTotals (add_time (avgTurnAround t) (turnAroundTime n))
           (add_time (avgWaiting t) (waitingTime n))
           (count t + 1).

(** One turn of the loop of [output]: the PCBs seen so far, as they are
    now, and the accumulators. *)
Definition output_step (acc : list node * totals) (n : node) : list node * totals :=
  if processId n >? 1000 then (acc.1 ++ [n], acc.2)
  else let n' := output_row n in (acc.1 ++ [n'], add_row n' acc.2).

Definition output (l : list node) : list node * totals :=
  foldl output_step ([], mkTotals (Some 0) (Some 0) 0) l.

(** What [sum / count] prints. *)
Inductive average : Type :=
  | NaN
  | Indeterminate
  | Avg (q : Q).

Definition divide (sum : option Z) (count : Z) : average :=
  match sum with
  | None => Indeterminate
  | Some z => if count =? 0 then NaN else Avg (z # Z.to_pos count)
  end.

(** The two averages of the last line of the report: waiting time, then
    turnaround time. *)
Definition averages (t : totals) : average * average :=
  (divide (avgWaiting t) (count t), divide (avgTurnAround t) (count t)).

(** The whole program after parsing: load, schedule, report. *)
Definition simulate (policy tq : Z) (fuel : nat) (evs : list event)
  : res (list node * totals) :=
  do s <- schedule policy tq fuel fuel (boot (load evs));
  Ok (output (procs s)).

(** *** Reference definitions *)

(** The PCB of a position after [output]. *)
Definition reported (n : node) : node :=
  if is_interrupt n then n else output_row n.

(** The sum of a field over a list, indeterminate as soon as one is. *)
Definition sum_field (f : node → option Z) (l : list node) : option Z :=
  foldr (λ n acc, add_time acc (f n)) (Some 0) l.

Definition real (l : list node) : list node :=
  filter (λ n, is_interrupt n = false) l.

Definition totals_of (l : list node) : totals :=
  mkTotals (sum_field turnAroundTime (real l))
           (sum_field waitingTime (real l))
           (Z.of_nat (length (real l))).

(** * Theorems *)

Lemma add_time_assoc a b c :
  add_time (add_time a b) c = add_time a (add_time b c).
Proof. destruct a, b, c; simpl; f_equal; lia. Qed.

Lemma add_time_comm a b : add_time a b = add_time b a.
Proof. destruct a, b; simpl; f_equal; lia. Qed.

Lemma sum_field_snoc f l n :
  sum_field f (l ++ [n]) = add_time (sum_field f l) (f n).
Proof.
  unfold sum_field. induction l as [|m l IH]; simpl.
  - done.
  - rewrite IH, !add_time_assoc. f_equal. apply add_time_comm.
Qed.

Lemma real_snoc l n :
  real (l ++ [n]) = if is_interrupt n then real l else real l ++ [n].
Proof.
  unfold real. rewrite filter_app, filter_cons, filter_nil.
  destruct (is_interrupt n); simpl; [by rewrite app_nil_r|done].
Qed.

Lemma output_snoc l n : output (l ++ [n]) = output_step (output l) n.
Proof. unfold output. by rewrite foldl_snoc. Qed.

Lemma is_interrupt_reported n : is_interrupt (reported n) = is_interrupt n.
Proof. unfold reported. by destruct (is_interrupt n) eqn:Hn. Qed.

Lemma output_closed l :
  output l = (reported <$> l, totals_of (reported <$> l)).
Proof.
  induction l as [|n l IH] using rev_ind; [done|].
  rewrite output_snoc, IH, fmap_app. change (reported <$> [n]) with [reported n].
  unfold totals_of. rewrite real_snoc, is_interrupt_reported.
  unfold output_step, reported, is_interrupt. simpl.
  destruct (processId n >? 1000) eqn:Hn; [done|].
  unfold add_row. simpl. rewrite !sum_field_snoc, length_app. simpl.
  do 2 f_equal. lia.
Qed.

(** C33: [output] leaves the block requests as they are, gives every real
    PCB the waiting time [turnAroundTime - burstTime] and changes nothing
    else in it; its accumulators hold the sums of the turnaround and
    waiting times of the real PCBs and their number. *)
Theorem output_spec (l : list node) :
  output l = (reported <$> l, totals_of (reported <$> l)) ∧
  ∀ n, n ∈ (output l).1 → is_interrupt n = false →
    waitingTime n = (λ t, t - burstTime n) <$> turnAroundTime n.
Proof.
  split; [apply output_closed|]. rewrite output_closed. simpl.
  intros n (m & -> & _)%list_elem_of_fmap Hn.
  unfold reported in *. destruct (is_interrupt m) eqn:Hm; [congruence|done].
Qed.

Lemma real_no_process l :
  Forall (λ n, is_interrupt n = true) l → real (reported <$> l) = [].
Proof.
  induction 1 as [|n l Hn _ IH]; [done|].
  unfold real in *. rewrite fmap_cons, filter_cons, is_interrupt_reported, Hn. by simpl.
Qed.

(** C34: with no real process in the list, both averages of the report
    are 0.0 / 0, not a number: the division by [count] is not guarded. *)
Theorem averages_empty_NaN (l : list node) :
  Forall (λ n, is_interrupt n = true) l →
  averages (output l).2 = (NaN, NaN).
Proof.
  intros Hl. rewrite output_closed. unfold averages, totals_of. cbn [snd avgWaiting
    avgTurnAround count]. by rewrite (real_no_process l Hl).
Qed.

Lemma averages_empty_NaN_witness :
  averages (output (load [mkEvent 0 3 1])).2 = (NaN, NaN).
Proof.
  apply (averages_empty_NaN (load [mkEvent 0 3 1])).
  repeat constructor.
Defined.

Lemma simulate_Ok policy tq fuel evs r :
  simulate policy tq fuel evs = Ok r →
  ∃ s', schedule policy tq fuel fuel (boot (load evs)) = Ok s' ∧ r = output (procs s').
Proof. unfold simulate. intros Hs. bind_inv Hs. naive_solver. Qed.

(** C7: when the whole program ends under one of the four policies, the
    row of every real process satisfies the metric equations: its
    turnaround time is its completion time minus its arrival time, its
    waiting time is its turnaround time minus its burst time, and its
    identity, arrival time and burst time are those of its record. *)
Theorem simulate_metrics (policy tq : Z) (fuel : nat) (evs : list event)
    (r : list node * totals) (i : nat) :
  1 ≤ policy ≤ 4 → simulate policy tq fuel evs = Ok r →
  (i < length evs)%nat → is_interrupt (load evs !!! i) = false →
  ∃ c, completionTime (r.1 !!! i) = Some c ∧
       turnAroundTime (r.1 !!! i) = Some (c - arrivalTime (load evs !!! i)) ∧
       waitingTime (r.1 !!! i) =
         Some (c - arrivalTime (load evs !!! i) - burstTime (load evs !!! i)) ∧
       static (r.1 !!! i) = static (load evs !!! i).
Proof.
  intros Hp (s' & Hrun & ->)%simulate_Ok Hi Hint.
  pose proof (boot_initial evs) as Hinit.
  pose proof (schedule_exit _ _ _ _ _ _ Hinit Hp Hrun) as [_ Hlen].
  simpl in Hlen. rewrite input_length in Hlen.
  destruct (schedule_books _ _ _ _ _ _ i Hinit Hp Hrun) as [Hst Hb].
  { simpl. by rewrite input_length. }
  simpl in Hst, Hb. destruct (Hb Hint) as (_ & _ & c & _ & Hc & Hta).
  rewrite output_closed. simpl. rewrite (list_lookup_total_fmap reported) by lia.
  injection Hst as Hid Harr Hbt.
  assert (is_interrupt (procs s' !!! i) = false) as Hint'.
  { unfold is_interrupt in *. by rewrite Hid. }
  exists c. unfold reported. rewrite Hint'. simpl.
  rewrite Hc, Hta, Hbt. simpl. split_and!; [done..|]. unfold static. simpl. congruence.
Qed.


Lemma simulate_metrics_witness :
  ∃ c, completionTime ((output (procs (final_of
         (schedule 2 0 30 30 (boot (load sample_events)))))).1 !!! 1%nat) = Some c ∧
       turnAroundTime ((output (procs (final_of
         (schedule 2 0 30 30 (boot (load sample_events)))))).1 !!! 1%nat) =
         Some (c - arrivalTime (load sample_events !!! 1%nat)) ∧
       waitingTime ((output (procs (final_of
         (schedule 2 0 30 30 (boot (load sample_events)))))).1 !!! 1%nat) =
         Some (c - arrivalTime (load sample_events !!! 1%nat)
                 - burstTime (load sample_events !!! 1%nat)) ∧
       static ((output (procs (final_of
         (schedule 2 0 30 30 (boot (load sample_events)))))).1 !!! 1%nat) =
         static (load sample_events !!! 1%nat).
Proof.
  apply (simulate_metrics 2 0 30 sample_events _ 1%nat).
  - lia.
  - vm_compute. reflexivity.
  - simpl. lia.
  - reflexivity.
Defined.

(** ** The report of a run that was not scheduled *)

Lemma real_reported l : real (reported <$> l) = reported <$> real l.
Proof.
  induction l as [|n l IH]; [done|]. unfold real in *.
  rewrite fmap_cons, !filter_cons, is_interrupt_reported.
  destruct (decide (is_interrupt n = false)); [|done]. by rewrite fmap_cons, IH.
Qed.

Lemma sum_field_unassigned f l :
  l ≠ [] → Forall (λ n, f n = None) l → sum_field f l = None.
Proof.
  intros Hl Hf. destruct Hf as [|n l Hn _]; [done|].
  unfold sum_field. simpl. rewrite Hn. by destruct (foldr _ _ l).
Qed.

Lemma reported_new_node id a b :
  completionTime (reported (new_node id a b)) = None ∧
  turnAroundTime (reported (new_node id a b)) = None ∧
  waitingTime (reported (new_node id a b)) = None.
Proof. unfold reported. by destruct (is_interrupt _). Qed.

(** C35: with a policy number outside 1..4 the program still writes its
    report, from PCBs no scheduling function has touched: whatever the
    input, the run returns, and the completion, turnaround and waiting
    time of every row are fields that were never assigned; with at least
    one process in the file both averages are computed from such fields. *)
Theorem invalid_policy_report (policy tq : Z) (fuel : nat) (evs : list event) :
  ¬ (1 ≤ policy ≤ 4) →
  ∃ r, simulate policy tq fuel evs = Ok r ∧
    length r.1 = length evs ∧
    (∀ n, n ∈ r.1 →
       completionTime n = None ∧ turnAroundTime n = None ∧ waitingTime n = None) ∧
    (real (load evs) ≠ [] → averages r.2 = (Indeterminate, Indeterminate)).
Proof.
  intros Hp. exists (output (load evs)). unfold simulate.
  rewrite schedule_invalid_policy, res_bind_ret_l by done. split; [done|].
  rewrite output_closed. cbn [fst snd].
  assert (∀ n, n ∈ reported <$> load evs →
            completionTime n = None ∧ turnAroundTime n = None ∧ waitingTime n = None)
    as Hrows.
  { intros n (m & -> & (id & a & b & ->)%load_new_node)%list_elem_of_fmap.
    apply reported_new_node. }
  split; [by rewrite length_fmap, input_length|]. split; [exact Hrows|].
  intros Hreal. unfold averages, totals_of. cbn [avgWaiting avgTurnAround count].
  rewrite !sum_field_unassigned; [done|..]; rewrite ?real_reported;
    try (by destruct (real (load evs)));
    apply Forall_forall; intros n Hn; apply Hrows;
    rewrite <- real_reported in Hn; unfold real in Hn;
    by apply list_elem_of_filter in Hn as [_ Hn].
Qed.

Lemma invalid_policy_report_witness :
  ∃ r, simulate 0 2 10 sample_events = Ok r ∧
    length r.1 = length sample_events ∧
    (∀ n, n ∈ r.1 →
       completionTime n = None ∧ turnAroundTime n = None ∧ waitingTime n = None) ∧
    averages r.2 = (Indeterminate, Indeterminate).
Proof.
  destruct (invalid_policy_report 0 2 10 sample_events) as (r & Hrun & Hlen & Hrows & Havg);
    [lia|].
  exists r. split_and!; [exact Hrun|exact Hlen|exact Hrows|]. apply Havg. by vm_compute.
Defined.
