(* ===== verification/Timeline.v ===== *)
(** * Timeline: runs in closed form

    Two families of input files on which the state of the engine at every
    value of the clock has a closed form, so that the run is known for
    every member of the family and not for one file only.

    - [block_events b t d]: one process of burst [b] and one block request
      of duration [d] that meets it at [t].  Scenario 4 of the
      specification is [block_events 4 2 3].
    - [quantum_events b]: three processes with bursts 1, [b] and 1 and no
      block request, the second arriving after an idle turn, run with the
      quantum [b].
    - [response_events b tq d]: two processes and a block request that
      arrives when the second, of burst 1, has just used its unit of CPU
      time, run under Round Robin with the quantum [tq].

    A timeline is a function from the clock to the state at the beginning
    of the turn of that clock; one lemma says that a turn takes the state
    of the clock [T] to that of [T + 1], and [run_timeline] follows the
    outer loop along it. *)

From S2P Require Import Prelude Process Queue Engine Generic Metrics.

#[local] Open Scope Z_scope.

(** ** Definitions *)

(** *** A process that blocks once *)

(** The input file: a process of burst [b] that arrives at 0, and a block
    request of duration [d] at [t]. *)
Definition block_events (b t d : Z) : list event := [mkEvent 0 b 0; mkEvent t d 1].

Section block_timeline.
Context (p : policy) (tq b t d : Z).

(** The PCB of the process with [rem] units of CPU time and [blk] units
    of blocked time left, and as it is once finished at [c]. *)
Definition pcb (rem blk : Z) : node :=
  mkNode 1 0 b None None None rem 0 false false blk.

Definition done_pcb (c : Z) : node :=
  mkNode 1 0 b (Some c) None (Some c) 0 0 true false 0.

(** The PCB of the request at the clock [T]: [roundRobin] marks it when
    it arrives. *)
Definition req (T : Z) : node :=
  mkNode 1001 t d None None None d 0 false (is_rr p && (t <? T)) 0.

(** The state when the turn of the clock [T] begins, with the quantum
    [q]: before the first turn; the process running until the request
    arrives; the process blocked, its blocked time running down; the
    process released, in the ready queue; the process running again; the
    process finished. *)
Definition block_at (T q : Z) : state :=
  if T =? 0 then g_enter p tq (boot (load (block_events b t d)))
  else if T <=? t then mkState [pcb (b - T + 1) 0; req T] 1 (Some 0%nat) [] [] T false q
  else if T <=? t + d then
    mkState [pcb (b - t) (d - (T - t - 1)); req T] 2 None [] [0%nat] T true q
  else if T =? t + d + 1 then mkState [pcb (b - t) 0; req T] 2 None [0%nat] [] T true q
  else if T <=? b + d + 1 then
    mkState [pcb (b + d + 2 - T) 0; req T] 2 (Some 0%nat) [] [] T false q
  else mkState [done_pcb (b + d + 1); req T] 2 None [] [] T true q.

(** The quantum of [roundRobin] has no part in this run. *)
Definition block_phase (T : Z) (s : state) : Prop := ∃ q, s = block_at T q.

End block_timeline.

(** *** Round Robin after an idle turn *)

(** The input file: bursts 1, [b] and 1; the CPU is idle in the turn of
    the clock 1, the second process arrives at 2 and the third at 3. *)
Definition quantum_events (b : Z) : list event :=
  [mkEvent 0 1 0; mkEvent 2 b 0; mkEvent 3 1 0].

Section quantum_timeline.
Context (b : Z).

(** A PCB that has not run, one that runs, one that is finished. *)
Definition waits (id a burst : Z) (fe : bool) : node :=
  mkNode id a burst None None None burst 0 false fe 0.

Definition runs (id a burst rem resp : Z) : node :=
  mkNode id a burst None None None rem resp false false 0.

Definition finished (id a burst c resp : Z) : node :=
  mkNode id a burst (Some c) None (Some (c - a)) 0 resp true false 0.

(** The run of [fcfs]: the second process runs from 2 to [b + 2], then
    the third. *)
Definition fcfs_at (T : Z) : state :=
  if T =? 0 then g_enter FCFS b (boot (load (quantum_events b)))
  else if T =? 1 then
    mkState [runs 1 0 1 1 0; waits 2 2 b false; waits 3 3 1 false] 1 (Some 0%nat) [] [] T false 0
  else if T =? 2 then
    mkState [finished 1 0 1 1 0; waits 2 2 b false; waits 3 3 1 false] 1 None [] [] T true 0
  else if T =? 3 then
    mkState [finished 1 0 1 1 0; runs 2 2 b b 0; waits 3 3 1 false] 2 (Some 1%nat) [] [] T false 0
  else if T <=? b + 2 then
    mkState [finished 1 0 1 1 0; runs 2 2 b (b + 3 - T) 0; waits 3 3 1 false]
      3 (Some 1%nat) [2%nat] [] T false 0
  else if T =? b + 3 then
    mkState [finished 1 0 1 1 0; finished 2 2 b (b + 2) 0; runs 3 3 1 1 0]
      3 (Some 2%nat) [] [] T false 0
  else
    mkState [finished 1 0 1 1 0; finished 2 2 b (b + 2) 0; finished 3 3 1 (b + 3) 0]
      3 None [] [] T true 0.

(** The run of [roundRobin] with the quantum [b]: the second process
    starts in the idle wait on what the first has left of its quantum,
    and gives way to the third when that is used up. *)
Definition rr_at (T : Z) : state :=
  if T =? 0 then g_enter RR b (boot (load (quantum_events b)))
  else if T =? 1 then
    mkState [runs 1 0 1 1 0; waits 2 2 b false; waits 3 3 1 false] 1 (Some 0%nat) [] [] T false b
  else if T =? 2 then
    mkState [finished 1 0 1 1 0; waits 2 2 b false; waits 3 3 1 false] 1 None [] [] T true (b - 1)
  else if T =? 3 then
    mkState [finished 1 0 1 1 0; runs 2 2 b b 0; waits 3 3 1 false]
      2 (Some 1%nat) [] [] T false (b - 1)
  else if T <=? b + 1 then
    mkState [finished 1 0 1 1 0; runs 2 2 b (b + 3 - T) 0; waits 3 3 1 true]
      3 (Some 1%nat) [2%nat] [] T false (b + 2 - T)
  else if T =? b + 2 then
    mkState [finished 1 0 1 1 0; runs 2 2 b 1 0; runs 3 3 1 1 (b - 2)]
      3 (Some 2%nat) [1%nat] [] T false b
  else if T =? b + 3 then
    mkState [finished 1 0 1 1 0; runs 2 2 b 1 0; finished 3 3 1 (b + 2) (b - 2)]
      3 (Some 1%nat) [] [] T false b
  else
    mkState [finished 1 0 1 1 0; finished 2 2 b (b + 3) 0; finished 3 3 1 (b + 2) (b - 2)]
      3 None [] [] T true (b - 1).

End quantum_timeline.

(** *** Round Robin and a block request *)

(** The input file: a process of burst [b], a process of burst 1, both
    at 0, and a block request at [tq + 1]. *)
Definition response_events (b tq d : Z) : list event :=
  [mkEvent 0 b 0; mkEvent 0 1 0; mkEvent (tq + 1) d 1].

Section response_timeline.
Context (b tq d : Z).

(** The run of [roundRobin] with the quantum [tq]: the first process
    runs for a quantum and gives way to the second; the request meets the
    second when it has no time left, finishes it and hands the CPU back
    to the first, whose response time it assigns again.  From then on the
    quantum [q] has no part. *)
Definition response_at (T q : Z) : state :=
  if T =? 0 then g_enter RR tq (boot (load (response_events b tq d)))
  else if T <=? tq then
    mkState [runs 1 0 b (b - T + 1) 0; waits 2 0 1 true; waits 1001 (tq + 1) d false]
      2 (Some 0%nat) [1%nat] [] T false (tq - T + 1)
  else if T =? tq + 1 then
    mkState [runs 1 0 b (b - tq) 0; runs 2 0 1 1 tq; waits 1001 (tq + 1) d false]
      2 (Some 1%nat) [0%nat] [] T false tq
  else if T <=? b + 1 then
    mkState [runs 1 0 b (b + 2 - T) (tq + 1); finished 2 0 1 (tq + 1) tq;
             waits 1001 (tq + 1) d true]
      3 (Some 0%nat) [] [] T false q
  else
    mkState [finished 1 0 b (b + 1) (tq + 1); finished 2 0 1 (tq + 1) tq;
             waits 1001 (tq + 1) d true]
      3 None [] [] T true q.

Definition response_phase (T : Z) (s : state) : Prop := ∃ q, s = response_at T q.

End response_timeline.

(** * Theorems *)

(** ** Following a timeline *)

Section run_timeline.
Context (p : policy) (tq : Z) (ifuel : nat) (φ : Z → state → Prop) (s0 : state).
Context (Hstart : φ 0 (g_enter p tq s0)).

(** The run up to the clock [k], when every turn before it follows the
    timeline. *)
Lemma run_to_clock (k fuel : nat) :
  (∀ T s, 0 ≤ T < Z.of_nat k → φ T s →
     loop_guard s = true ∧ ∃ s', tick p tq ifuel s = Ok s' ∧ φ (T + 1) s') →
  ∃ s', φ (Z.of_nat k) s' ∧
    run p tq (k + fuel) ifuel s0 = while loop_guard (tick p tq ifuel) fuel s'.
Proof. intros Hstep. unfold run. by apply (while_turns _ _ φ k 0). Qed.

(** A timeline that ends after the turn of the clock [last]. *)
Lemma run_timeline (last : Z) (fuel : nat) :
  0 ≤ last → (Z.to_nat (last + 1) ≤ fuel)%nat →
  (∀ T s, 0 ≤ T ≤ last → φ T s →
     loop_guard s = true ∧ ∃ s', tick p tq ifuel s = Ok s' ∧ φ (T + 1) s') →
  (∀ s, φ (last + 1) s → loop_guard s = false) →
  ∃ s', run p tq fuel ifuel s0 = Ok s' ∧ φ (last + 1) s'.
Proof.
  intros Hlast Hfuel Hstep Hend.
  destruct (run_to_clock (Z.to_nat (last + 1)) (fuel - Z.to_nat (last + 1)))
    as (s' & Hs' & Hrun).
  { intros T s HT. apply Hstep. lia. }
  rewrite Z2Nat.id in Hs' by lia. exists s'. split; [|done].
  replace fuel with (Z.to_nat (last + 1) + (fuel - Z.to_nat (last + 1)))%nat by lia.
  rewrite Hrun. by apply while_false, Hend.
Qed.

(** A timeline that ends in an error in the turn of the clock [last]. *)
Lemma run_timeline_error (last : Z) (fuel : nat) (e : error) :
  0 ≤ last → (Z.to_nat (last + 1) ≤ fuel)%nat →
  (∀ T s, 0 ≤ T < last → φ T s →
     loop_guard s = true ∧ ∃ s', tick p tq ifuel s = Ok s' ∧ φ (T + 1) s') →
  (∀ s, φ last s → loop_guard s = true ∧ tick p tq ifuel s = Err e) →
  run p tq fuel ifuel s0 = Err e.
Proof.
  intros Hlast Hfuel Hstep Hend.
  destruct (run_to_clock (Z.to_nat last) (S (fuel - Z.to_nat last - 1)))
    as (s' & Hs' & Hrun).
  { intros T s HT. apply Hstep. lia. }
  rewrite Z2Nat.id in Hs' by lia. destruct (Hend s' Hs') as [Hg He].
  replace fuel with (Z.to_nat last + S (fuel - Z.to_nat last - 1))%nat by lia.
  by rewrite Hrun, while_true, He.
Qed.

End run_timeline.

(** Evaluation of a turn on a state with symbolic times: fix the case of
    the timeline, compute, split on the comparisons of times and let
    [lia] discard the cases the hypotheses exclude; what is left are
    equations between times. *)
Ltac zcbv := cbv -[Z.add Z.sub Z.eqb Z.gtb Z.ltb Z.leb Z.opp].
Ltac clock_cases := repeat (case_test; try lia).
Ltac turn_eval := repeat (zcbv; case_test; try lia); zcbv.
Ltac field_eq :=
  match goal with
  | |- Ok _ = Ok _ => f_equal
  | |- mkState _ _ _ _ _ _ _ _ = mkState _ _ _ _ _ _ _ _ => f_equal
  | |- _ :: _ = _ :: _ => f_equal
  | |- mkNode _ _ _ _ _ _ _ _ _ _ _ = mkNode _ _ _ _ _ _ _ _ _ _ _ => f_equal
  | |- Some _ = Some _ => f_equal
  end.
Ltac turn_done :=
  clock_cases; turn_eval;
  try (try eexists; repeat field_eq; first [reflexivity|lia|exact 0]).

(** ** A process that blocks once *)

Section block_facts.
Context (tq b t d : Z) (Ht : 1 ≤ t < b) (Hd : 1 ≤ d).

Lemma loop_guard_block_at p T q :
  loop_guard (block_at p tq b t d T q) = bool_decide (T ≤ b + d + 1).
Proof. unfold block_at. case_bool_decide; destruct p; clock_cases; turn_eval; done. Qed.

(** One turn from the state of the clock [T]: it gives the state of the
    clock [T + 1], except under SRTN at the release. *)
Lemma tick_block_at p T q ifuel :
  0 ≤ T ≤ b + d + 1 → preempts p = false ∨ T ≠ t + d →
  ∃ q', tick p tq (S ifuel) (block_at p tq b t d T q) = Ok (block_at p tq b t d (T + 1) q').
Proof. intros HT Hp. unfold block_at. destruct p, ifuel; destruct Hp; try done; turn_done. Qed.

(** Under SRTN the release finds no running process to compare with. *)
Lemma tick_block_at_release q ifuel :
  tick SRTN tq ifuel (block_at SRTN tq b t d (t + d) q) = Err NullDeref.
Proof. unfold block_at. destruct ifuel; turn_done. Qed.

Lemma block_phase_step p ifuel T s :
  (1 ≤ ifuel)%nat → 0 ≤ T ≤ b + d + 1 → preempts p = false ∨ T ≠ t + d →
  block_phase p tq b t d T s →
  loop_guard s = true ∧
  ∃ s', tick p tq ifuel s = Ok s' ∧ block_phase p tq b t d (T + 1) s'.
Proof.
  intros Hi HT Hp [q ->]. destruct ifuel as [|ifuel]; [lia|].
  rewrite loop_guard_block_at. split; [apply bool_decide_eq_true; lia|].
  destruct (tick_block_at p T q ifuel HT Hp) as [q' Hq'].
  exists (block_at p tq b t d (T + 1) q'). split; [done|by exists q'].
Qed.

Lemma block_phase_enter p :
  block_phase p tq b t d 0 (g_enter p tq (boot (load (block_events b t d)))).
Proof. by exists 0. Qed.

Lemma block_run p fuel ifuel :
  preempts p = false → (Z.to_nat (b + d + 2) ≤ fuel)%nat → (1 ≤ ifuel)%nat →
  ∃ s' q, run p tq fuel ifuel (boot (load (block_events b t d))) = Ok s' ∧
    s' = block_at p tq b t d (b + d + 2) q.
Proof.
  intros Hp Hfuel Hi.
  destruct (run_timeline p tq ifuel (block_phase p tq b t d) _ (block_phase_enter p)
              (b + d + 1) fuel) as (s' & Hrun & q & Hs'); [lia|by rewrite <- Z.add_assoc|..].
  - intros T s HT. apply block_phase_step; auto.
  - intros s [q ->]. rewrite loop_guard_block_at. apply bool_decide_eq_false. lia.
  - exists s', q. by rewrite <- Z.add_assoc in Hs'.
Qed.

Lemma block_run_srtn fuel ifuel :
  (Z.to_nat (b + d + 2) ≤ fuel)%nat → (1 ≤ ifuel)%nat →
  run SRTN tq fuel ifuel (boot (load (block_events b t d))) = Err NullDeref.
Proof.
  intros Hfuel Hi.
  apply (run_timeline_error SRTN tq ifuel (block_phase SRTN tq b t d) _
           (block_phase_enter SRTN) (t + d)); [lia|lia|..].
  - intros T s HT. apply block_phase_step; [done|lia|right; lia].
  - intros s [q ->]. rewrite loop_guard_block_at, tick_block_at_release.
    split; [apply bool_decide_eq_true; lia|done].
Qed.

End block_facts.

(** C12: a process that blocks once.  On the file with one process of
    burst time [b] and one block request of duration [d] that arrives at
    [t] while the process runs, [fcfs], [sjf] and [roundRobin] return, and
    the process completes at [b + d + 1]: the unblock loop runs after the
    dispatch of its turn, so the released process takes the CPU one turn
    after its blocked time has run out.  [sjfPreempt] does not complete
    the run: at the release it reads the remaining time of a running
    process that does not exist. *)
Theorem blocked_process_completes_late (n tq b t d : Z) (fuel ifuel : nat) :
  1 ≤ t < b → 1 ≤ d → (Z.to_nat (b + d + 2) ≤ fuel)%nat → (1 ≤ ifuel)%nat →
  (n = 1 ∨ n = 2 ∨ n = 4 →
   ∃ s', schedule n tq fuel ifuel (boot (load (block_events b t d))) = Ok s' ∧
     SYSTEM_TIME s' = b + d + 2 ∧
     isTerminated (procs s' !!! 0%nat) = true ∧
     completionTime (procs s' !!! 0%nat) = Some (b + d + 1) ∧
     turnAroundTime (procs s' !!! 0%nat) = Some (b + d + 1)) ∧
  (n = 3 → schedule n tq fuel ifuel (boot (load (block_events b t d))) = Err NullDeref).
Proof.
  intros Ht Hd Hfuel Hi. rewrite schedule_run. split.
  - intros Hn.
    assert (∃ p, policy_of_Z n = Some p ∧ preempts p = false) as (p & -> & Hp).
    { destruct Hn as [->| [->| ->]]; by eexists. }
    destruct (block_run tq b t d Ht Hd p fuel ifuel) as (s' & q & Hrun & ->); [done..|].
    exists (block_at p tq b t d (b + d + 2) q). split; [done|].
    unfold block_at. clock_cases. by simpl.
  - intros ->. by apply block_run_srtn.
Qed.

Lemma blocked_process_completes_late_witness :
  (∃ s', schedule 1 2 9 1 (boot (load (block_events 4 2 3))) = Ok s' ∧
     SYSTEM_TIME s' = 4 + 3 + 2 ∧
     isTerminated (procs s' !!! 0%nat) = true ∧
     completionTime (procs s' !!! 0%nat) = Some (4 + 3 + 1) ∧
     turnAroundTime (procs s' !!! 0%nat) = Some (4 + 3 + 1)) ∧
  schedule 3 2 9 1 (boot (load (block_events 4 2 3))) = Err NullDeref.
Proof.
  destruct (blocked_process_completes_late 1 2 4 2 3 9 1) as [Hfcfs _];
    [lia|lia|simpl; lia|lia|].
  destruct (blocked_process_completes_late 3 2 4 2 3 9 1) as [_ Hsrtn];
    [lia|lia|simpl; lia|lia|].
  split; [apply Hfcfs; by left|by apply Hsrtn].
Defined.

(** ** Round Robin after an idle turn *)

Section quantum_facts.
Context (b : Z) (Hb : 2 ≤ b).

Lemma loop_guard_fcfs_at T : loop_guard (fcfs_at b T) = bool_decide (T ≤ b + 3).
Proof. unfold fcfs_at. case_bool_decide; clock_cases; turn_eval; done. Qed.

Lemma loop_guard_rr_at T : loop_guard (rr_at b T) = bool_decide (T ≤ b + 3).
Proof. unfold rr_at. case_bool_decide; clock_cases; turn_eval; done. Qed.

Lemma tick_fcfs_at T ifuel :
  0 ≤ T ≤ b + 3 → tick FCFS b (S ifuel) (fcfs_at b T) = Ok (fcfs_at b (T + 1)).
Proof. intros HT. unfold fcfs_at. destruct ifuel; turn_done. Qed.

Lemma tick_rr_at T ifuel :
  0 ≤ T ≤ b + 3 → tick RR b (S ifuel) (rr_at b T) = Ok (rr_at b (T + 1)).
Proof. intros HT. unfold rr_at. destruct ifuel; turn_done. Qed.

Lemma fcfs_run_quantum_events fuel ifuel :
  (Z.to_nat (b + 4) ≤ fuel)%nat → (1 ≤ ifuel)%nat →
  run FCFS b fuel ifuel (boot (load (quantum_events b))) = Ok (fcfs_at b (b + 4)).
Proof.
  intros Hfuel Hi. destruct ifuel as [|ifuel]; [lia|].
  destruct (run_timeline FCFS b (S ifuel) (λ T s, s = fcfs_at b T) _ eq_refl (b + 3) fuel)
    as (s' & -> & ->); [lia|by rewrite <- Z.add_assoc|..|by rewrite <- Z.add_assoc].
  - intros T s HT ->. rewrite loop_guard_fcfs_at, tick_fcfs_at by done.
    split; [apply bool_decide_eq_true; lia|by eexists].
  - intros s ->. rewrite loop_guard_fcfs_at. apply bool_decide_eq_false. lia.
Qed.

Lemma rr_run_quantum_events fuel ifuel :
  (Z.to_nat (b + 4) ≤ fuel)%nat → (1 ≤ ifuel)%nat →
  run RR b fuel ifuel (boot (load (quantum_events b))) = Ok (rr_at b (b + 4)).
Proof.
  intros Hfuel Hi. destruct ifuel as [|ifuel]; [lia|].
  destruct (run_timeline RR b (S ifuel) (λ T s, s = rr_at b T) _ eq_refl (b + 3) fuel)
    as (s' & -> & ->); [lia|by rewrite <- Z.add_assoc|..|by rewrite <- Z.add_assoc].
  - intros T s HT ->. rewrite loop_guard_rr_at, tick_rr_at by done.
    split; [apply bool_decide_eq_true; lia|by eexists].
  - intros s ->. rewrite loop_guard_rr_at. apply bool_decide_eq_false. lia.
Qed.

End quantum_facts.

(** C14: Round Robin with a quantum that is at least every burst time is
    not First Come First Served.  On the file with bursts 1, [b] and 1 and
    no block request, run with the quantum [b], the second process starts
    in the idle wait, which does not refill the quantum: it runs on the
    [b - 1] units the first process has left and is rotated out when they
    are used up, one unit before its end.  [roundRobin] completes it at
    [b + 3] and the third process at [b + 2]; [fcfs] completes them at
    [b + 2] and [b + 3]. *)
Theorem rr_rotates_on_inherited_quantum (b : Z) (fuel ifuel : nat) :
  2 ≤ b → (Z.to_nat (b + 4) ≤ fuel)%nat → (1 ≤ ifuel)%nat →
  Forall (λ e, ev_interrupt e = 0 ∧ ev_burst e ≤ b) (quantum_events b) ∧
  ∃ s_fcfs s_rr,
    schedule 1 b fuel ifuel (boot (load (quantum_events b))) = Ok s_fcfs ∧
    schedule 4 b fuel ifuel (boot (load (quantum_events b))) = Ok s_rr ∧
    completionTime <$> procs s_fcfs = [Some 1; Some (b + 2); Some (b + 3)] ∧
    completionTime <$> procs s_rr = [Some 1; Some (b + 3); Some (b + 2)].
Proof.
  intros Hb Hfuel Hi. split; [repeat constructor; simpl; lia|].
  exists (fcfs_at b (b + 4)), (rr_at b (b + 4)). rewrite !schedule_run. simpl.
  rewrite fcfs_run_quantum_events, rr_run_quantum_events by done.
  split; [done|]. split; [done|]. unfold fcfs_at, rr_at. clock_cases. by simpl.
Qed.

Lemma rr_rotates_on_inherited_quantum_witness :
  Forall (λ e, ev_interrupt e = 0 ∧ ev_burst e ≤ 5) (quantum_events 5) ∧
  ∃ s_fcfs s_rr,
    schedule 1 5 9 1 (boot (load (quantum_events 5))) = Ok s_fcfs ∧
    schedule 4 5 9 1 (boot (load (quantum_events 5))) = Ok s_rr ∧
    completionTime <$> procs s_fcfs = [Some 1; Some (5 + 2); Some (5 + 3)] ∧
    completionTime <$> procs s_rr = [Some 1; Some (5 + 3); Some (5 + 2)].
Proof. apply (rr_rotates_on_inherited_quantum 5 9 1); [lia|simpl; lia|lia]. Defined.

(** ** Round Robin and a block request *)

Section response_facts.
Context (b tq d : Z) (Htq : 1 ≤ tq < b).

Lemma loop_guard_response_at T q :
  loop_guard (response_at b tq d T q) = bool_decide (T ≤ b + 1).
Proof. unfold response_at. case_bool_decide; clock_cases; turn_eval; done. Qed.

Lemma tick_response_at T q ifuel :
  0 ≤ T ≤ b + 1 →
  ∃ q', tick RR tq (S ifuel) (response_at b tq d T q) = Ok (response_at b tq d (T + 1) q').
Proof. intros HT. unfold response_at. destruct ifuel; turn_done. Qed.

Lemma response_run fuel ifuel :
  (Z.to_nat (b + 2) ≤ fuel)%nat → (1 ≤ ifuel)%nat →
  ∃ q, run RR tq fuel ifuel (boot (load (response_events b tq d))) =
         Ok (response_at b tq d (b + 2) q).
Proof.
  intros Hfuel Hi. destruct ifuel as [|ifuel]; [lia|].
  destruct (run_timeline RR tq (S ifuel) (response_phase b tq d) _
              (ex_intro _ 0 eq_refl) (b + 1) fuel) as (s' & Hrun & q & ->);
    [lia|by rewrite <- Z.add_assoc|..|exists q; by rewrite <- Z.add_assoc in Hrun].
  - intros T s HT [q ->]. rewrite loop_guard_response_at.
    split; [apply bool_decide_eq_true; lia|].
    destruct (tick_response_at T q ifuel HT) as [q' ->]. eexists. split; [done|by exists q'].
  - intros s [q ->]. rewrite loop_guard_response_at. apply bool_decide_eq_false. lia.
Qed.

End response_facts.

(** C13: under Round Robin a block request can leave a process with a
    response time above its waiting time.  On the file with a process of
    burst [b], a process of burst 1 and a block request at [tq + 1], run
    with the quantum [tq < b], the first process runs from 0 to [tq] and
    is taken from the ready queue again by the block-request branch, which
    stores the clock [tq + 1] as its response time; it completes at
    [b + 1], so that the report gives it the waiting time 1. *)
Theorem rr_response_above_waiting (b tq d : Z) (fuel : nat) :
  1 ≤ tq < b → (Z.to_nat (b + 2) ≤ fuel)%nat →
  ∃ r, simulate 4 tq fuel (response_events b tq d) = Ok r ∧
    completionTime (r.1 !!! 0%nat) = Some (b + 1) ∧
    waitingTime (r.1 !!! 0%nat) = Some 1 ∧
    responseTime (r.1 !!! 0%nat) = tq + 1.
Proof.
  intros Htq Hfuel. unfold simulate. rewrite schedule_run. simpl.
  destruct (response_run b tq d Htq fuel fuel) as [q ->]; [done|lia|].
  rewrite res_bind_ret_l. eexists. split; [done|].
  unfold response_at. clock_cases. rewrite output_closed. turn_eval.
  split_and!; f_equal; lia.
Qed.

Lemma rr_response_above_waiting_witness :
  ∃ r, simulate 4 2 7 (response_events 5 2 3) = Ok r ∧
    completionTime (r.1 !!! 0%nat) = Some (5 + 1) ∧
    waitingTime (r.1 !!! 0%nat) = Some 1 ∧
    responseTime (r.1 !!! 0%nat) = 2 + 1.
Proof. apply (rr_response_above_waiting 5 2 3 7); [lia|simpl; lia]. Defined.
