(* ===== verification/Bounds.v ===== *)
(** * Bounds: no process is served faster than the clock

    A process receives one unit of CPU time per turn in which it runs, and
    it cannot run before its arrival: the CPU time a real process has
    received is at most the time since its arrival.  [timely] is that
    invariant, with the completion times of the terminated processes; it
    holds at every turn boundary under every policy, with or without block
    requests.  At the end of a run it gives the bounds of the report:
    every completion time is at least arrival plus burst, so waiting times
    are not negative and turnaround times are at least the burst times. *)

From S2P Require Import Prelude Process Queue Engine Generic Invariant Lifecycle.
From S2P Require Import Correctness Termination Metrics.

#[local] Open Scope Z_scope.

(** ** Definitions *)

(** The CPU time a PCB has received. *)
Definition served (n : node) : Z := burstTime n - remainingTime n.

(** The fields the argument reads. *)
Definition tview (n : node) : Z * Z * Z * Z * bool * option Z :=
  (processId n, arrivalTime n, burstTime n, remainingTime n, isTerminated n,
   completionTime n).

(** A PCB at clock [t]: terminated not before arrival plus burst, or
    served no more than the time since its arrival less [off]. *)
Definition on_time (off t : Z) (n : node) : Prop :=
  if isTerminated n
  then ∃ c, completionTime n = Some c ∧ arrivalTime n + burstTime n ≤ c
  else served n + off ≤ t - arrivalTime n.

(** [off] is 1 at a turn boundary, where the running process is about to
    be served, and 0 inside a turn. *)
Record timely (off : Z) (s : state) : Prop := mkTimely {
  tm_new : ∀ i, (data s ≤ i)%nat → served (procs s !!! i) = 0;
  tm_old : ∀ i, (i < data s)%nat → is_interrupt (procs s !!! i) = false →
           on_time off (SYSTEM_TIME s) (procs s !!! i)
}.

(** A freshly loaded list: nothing queued, nothing terminated, nothing
    served. *)
Definition fresh (s : state) : Prop :=
  initial s ∧ ∀ i, served (procs s !!! i) = 0.

(** * Theorems *)

Lemma tview_fields n n' :
  tview n' = tview n →
  is_interrupt n' = is_interrupt n ∧ served n' = served n ∧
  ∀ off t, on_time off t n' ↔ on_time off t n.
Proof.
  intros [= Hid Ha Hb Hr Ht Hc]. unfold is_interrupt, on_time, served.
  by rewrite Hid, Ha, Hb, Hr, Ht, Hc.
Qed.

(** A step that changes none of the fields read, does not move the cursor
    and does not use up slack. *)
Lemma timely_step off off' s s' :
  agree tview (procs s) (procs s') → data s' = data s →
  SYSTEM_TIME s - off ≤ SYSTEM_TIME s' - off' →
  timely off s → timely off' s'.
Proof.
  intros Hv Hd Ht [Hnew Hold].
  assert (∀ i, tview (procs s' !!! i) = tview (procs s !!! i)) as Hn
    by (intros i; by apply agree_lookup).
  split; rewrite Hd; intros i Hi.
  - destruct (tview_fields _ _ (Hn i)) as (_ & -> & _). auto.
  - destruct (tview_fields _ _ (Hn i)) as (-> & Hs & Hon). intros Hint.
    specialize (Hold i Hi Hint). apply Hon. unfold on_time in *.
    destruct (isTerminated _); [done|lia].
Qed.

(** The cursor passes a record: a block request, or a process that
    arrives now. *)
Lemma timely_admit s :
  inv s →
  (is_interrupt (cur s) = false → arrivalTime (cur s) = SYSTEM_TIME s) →
  timely 0 s → timely 0 (next_data s).
Proof.
  intros Hinv Harr [Hnew Hold]. split; simpl; intros i Hi; [apply Hnew; lia|].
  destruct (decide (i = data s)) as [->|Hne]; [|apply Hold; lia].
  intros Hint. unfold on_time. rewrite (inv_fresh _ Hinv) by done.
  rewrite Hnew by done. specialize (Harr Hint). unfold cur in Harr. lia.
Qed.

(** The same when the step also changes fields that are not read. *)
Lemma timely_admit_step s s' :
  inv s →
  (is_interrupt (cur s) = false → arrivalTime (cur s) = SYSTEM_TIME s) →
  agree tview (procs s) (procs s') → data s' = S (data s) →
  SYSTEM_TIME s' = SYSTEM_TIME s →
  timely 0 s → timely 0 s'.
Proof.
  intros Hinv Harr Hv Hd Ht Htm.
  apply (timely_step 0 0 (next_data s)); [done|done|simpl; lia|].
  by apply timely_admit.
Qed.

(** The running process is served. *)
Lemma run_tick_timely s : inv s → timely 1 s → timely 0 (run_tick s).
Proof.
  intros Hinv Htm. unfold run_tick. destruct (ref s) as [r|] eqn:Hr.
  2:{ apply (timely_step 1 0 s); [done|done|lia|done]. }
  destruct Htm as [Hnew Hold].
  assert (r ∈ live s) as Hlive by (unfold live; rewrite Hr; set_solver).
  apply (inv_live _ Hinv) in Hlive as (Hrd & Hint & Hterm).
  pose proof (inv_data _ Hinv) as Hd.
  split; simpl; intros i Hi.
  - rewrite list_lookup_total_alter_ne by lia. auto.
  - destruct (decide (i = r)) as [->|Hne].
    + rewrite list_lookup_total_alter, decide_True by (split; [done|lia]).
      intros _. specialize (Hold r Hrd Hint). unfold on_time, served in *.
      simpl. rewrite Hterm in *. lia.
    + rewrite list_lookup_total_alter_ne by done. intros Hint'.
      specialize (Hold i Hi Hint'). unfold on_time in *.
      destruct (isTerminated _); [done|lia].
Qed.

(** The running process is finished with no time left. *)
Lemma retire_timely s r :
  inv s → ref s = Some r → remainingTime (procs s !!! r) = 0 → timely 0 s →
  timely 0 (update r (terminate (SYSTEM_TIME s)) s).
Proof.
  intros Hinv Hr Hrem [Hnew Hold].
  assert (r ∈ live s) as Hlive by (unfold live; rewrite Hr; set_solver).
  apply (inv_live _ Hinv) in Hlive as (Hrd & Hint & Hterm).
  pose proof (inv_data _ Hinv) as Hd.
  split; simpl; intros i Hi.
  - rewrite list_lookup_total_alter_ne by lia. auto.
  - destruct (decide (i = r)) as [->|Hne]; [|by rewrite list_lookup_total_alter_ne; auto].
    rewrite list_lookup_total_alter, decide_True by (split; [done|lia]).
    intros _. specialize (Hold r Hrd Hint). unfold on_time, served in *.
    rewrite Hterm in Hold. simpl. eexists. split; [done|]. lia.
Qed.

(** ** The blocks of a turn *)

Lemma g_begin_timely p s : inv s → timely 1 s → timely 0 (g_begin p s).
Proof.
  intros Hinv Htm. unfold g_begin.
  set (s0 := if is_rr p then quantum_tick s else s).
  assert (moved s s0 ∧ timely 1 s0) as [Hm Htm0].
  { subst s0. destruct (is_rr p); [|done]. split; [apply quantum_tick_moved|].
    unfold quantum_tick. destruct (IS_CPU_IDLE s); [done|].
    apply (timely_step 1 1 s); [done|done|simpl; lia|done]. }
  unfold age_blocked. destruct (isEmpty _).
  - apply run_tick_timely; [by eapply inv_moved|done].
  - eapply (timely_step 0 0 (run_tick s0)); [..|apply run_tick_timely];
      [solve_agree|done|simpl; lia|by eapply inv_moved|done].
Qed.

Lemma g_idle_step_timely p s s' :
  inv s → timely 0 s → g_idle_step p s = Ok s' → timely 0 s'.
Proof.
  intros Hinv Htm. unfold g_idle_step, rr_idle_step, idle_step.
  fold (is_interrupt (cur s)).
  destruct (is_rr p), (is_interrupt (cur s)) eqn:Hint,
    (Z.eqb_spec (arrivalTime (cur s)) (SYSTEM_TIME s)), (isTerminated (cur s));
    simpl; intros [= <-];
    first [ apply (timely_admit_step s); simpl; try done; try congruence;
            by apply agree_alter
          | apply (timely_step 0 0 s); [done|done|simpl; lia|done] ].
Qed.

Lemma g_take_next_timely p tq s s' :
  timely 0 s → g_take_next p tq s = Ok s' → timely 0 s'.
Proof.
  intros Htm. unfold g_take_next, rr_take_next, take_next.
  destruct (is_rr p), (rq s); simpl; intros [= <-];
    (apply (timely_step 0 0 s); simpl; [|done|lia|done]);
    first [done|by apply agree_alter].
Qed.

Lemma g_interrupt_timely p tq s s' :
  inv s → timely 0 s → g_interrupt p tq s = Ok s' →
  timely 0 s' ∧ data s' = data s ∧ agree static (procs s) (procs s').
Proof.
  intros Hinv Htm Hs'.
  destruct (g_interrupt_inv _ _ _ _ Hinv Hs') as (_ & Hd & Hst). split; [|done].
  destruct (ref s) as [r|] eqn:Hr; [|by unfold g_interrupt, block_or_finish in Hs'; rewrite Hr in Hs'].
  rewrite (g_interrupt_unfold _ _ _ _ Hr) in Hs'.
  eapply g_take_next_timely; [|exact Hs'].
  destruct (Z.eqb_spec (remainingTime (procs s !!! r)) 0) as [Hrem|_].
  - eapply (timely_step 0 0 (update r (terminate (SYSTEM_TIME s)) s));
      [done|done|simpl; lia|by apply retire_timely].
  - apply (timely_step 0 0 s); simpl; [by apply agree_alter|done|lia|done].
Qed.

Lemma g_arrival_timely p tq s s' :
  inv s → arrival_guard s = true → timely 0 s → g_arrival p tq s = Ok s' →
  timely 0 s'.
Proof.
  intros Hinv (_ & Harr & _)%arrival_guard_true Htm. unfold g_arrival.
  set (s0 := if is_rr p then update (data s) (set_firstExecution true) s else s).
  assert (moved s s0 ∧ agree tview (procs s) (procs s0) ∧ data s0 = data s ∧
          SYSTEM_TIME s0 = SYSTEM_TIME s) as (Hm0 & Hv0 & Hd0 & Ht0).
  { subst s0. destruct (is_rr p); [|done]. split; [solve_moved|].
    split; [by apply agree_alter|done]. }
  assert (inv s0) as Hinv0 by (by eapply inv_moved).
  assert (timely 0 s0) as Htm0 by (apply (timely_step 0 0 s); [done|done|lia|done]).
  assert (is_interrupt (cur s0) = false → arrivalTime (cur s0) = SYSTEM_TIME s0) as Harr0.
  { unfold cur. rewrite Hd0, Ht0. pose proof (agree_lookup _ _ _ (data s) Hv0) as [= _ -> _ _ _ _].
    done. }
  fold (is_interrupt (cur s0)). destruct (is_interrupt (cur s0)) eqn:Hint;
    intros Hs'; bind_inv Hs'; injection Hs' as <-.
  - destruct (g_interrupt_timely _ _ _ _ Hinv0 Htm0 Ha) as (Htm1 & Hd1 & Hst1).
    destruct (g_interrupt_inv _ _ _ _ Hinv0 Ha) as (Hinv1 & _ & _).
    apply timely_admit; [done| |done]. unfold cur, is_interrupt. rewrite Hd1.
    pose proof (agree_lookup _ _ _ (data s0) Hst1) as [= -> _ _].
    unfold cur, is_interrupt in Hint. by rewrite Hint.
  - destruct (g_admit_cases _ _ _ _ Ha) as (Hp1 & _ & Hd1 & Ht1 & _).
    apply (timely_admit_step s0);
      [done|by intros _; apply Harr0|by simpl; rewrite Hp1|simpl; lia|done|done].
Qed.

Lemma complete_timely s : inv s → timely 0 s → timely 0 (complete s).
Proof.
  intros Hinv Htm. unfold complete. destruct (ref s) as [r|] eqn:Hr; [|done].
  destruct (Z.eqb_spec (remainingTime (procs s !!! r)) 0) as [Hrem|_]; [|done].
  eapply (timely_step 0 0 (update r (terminate (SYSTEM_TIME s)) s));
    [done|done|simpl; lia|by apply retire_timely].
Qed.

Lemma rr_run_head_tview tq s s' :
  rr_run_head tq s = Ok s' →
  agree tview (procs s) (procs s') ∧ data s' = data s ∧ SYSTEM_TIME s' = SYSTEM_TIME s.
Proof.
  unfold rr_run_head. intros Hs'. bind_inv Hs'. injection Hs' as <-.
  destruct (firstExecution _); simpl; split_and!; try done. by apply agree_alter.
Qed.

Lemma g_dispatch_timely p tq s s' :
  timely 0 s → g_dispatch p tq s = Ok s' → timely 0 s'.
Proof.
  intros Htm Hs'.
  assert (agree tview (procs s) (procs s') ∧ data s' = data s ∧
          SYSTEM_TIME s' = SYSTEM_TIME s) as (Hv & Hd & Ht).
  { revert Hs'. unfold g_dispatch, rr_dispatch, dispatch. destruct (is_rr p).
    - destruct (IS_CPU_IDLE s && _); [apply rr_run_head_tview|].
      destruct ((quantum s =? 0) && negb _).
      { destruct (ref s); [|done]. intros H%rr_run_head_tview. exact H. }
      destruct (_ && _); by intros [= <-].
    - destruct (_ && _); [|by intros [= <-]].
      intros Hs'. bind_inv Hs'. by injection Hs' as <-. }
  apply (timely_step 0 0 s); [done|done|lia|done].
Qed.

Lemma g_unblock_step_timely p s s' :
  timely 0 s → g_unblock_step p s = Ok s' → timely 0 s'.
Proof.
  intros Htm. unfold g_unblock_step. intros Hs'. bind_inv Hs'.
  destruct (g_admit_cases _ _ _ _ Hs') as (Hp1 & _ & Hd1 & Ht1 & _).
  apply (timely_step 0 0 s); simpl in *; [by rewrite Hp1|done|lia|done].
Qed.

(** ** The loop body and the run *)

Section tick.
Context (p : policy) (tq : Z).

Lemma tick_timely ifuel s s' :
  inv s → timely 1 s → tick p tq ifuel s = Ok s' → timely 1 s'.
Proof.
  intros Hinv Htm. unfold tick.
  intros (s1 & H1 & (s2 & H2 & (s3 & H3 & (s4 & H4 & [= <-])%res_bind_Ok)%res_bind_Ok
         )%res_bind_Ok)%res_bind_Ok.
  set (I := λ s, inv s ∧ timely 0 s).
  assert (I s1) as Hk1.
  { eapply (while_invariant _ _ I); [|split; [by apply g_begin_inv|by apply g_begin_timely]
                                    |exact H1].
    intros ? ? [??] ? ?. split; [by eapply g_idle_step_inv|by eapply g_idle_step_timely]. }
  assert (I s2) as [Hinv2 Htm2].
  { eapply (while_invariant _ _ I); [|exact Hk1|exact H2].
    intros ? ? [??] ? ?. split; [by eapply g_arrival_inv|by eapply g_arrival_timely]. }
  assert (I s3) as Hk3.
  { split; [|by eapply g_dispatch_timely, H3; apply complete_timely].
    eapply inv_moved; [by apply complete_inv|].
    eapply g_dispatch_moved; [by apply complete_inv|done]. }
  assert (I s4) as [_ Htm4].
  { eapply (while_invariant _ _ I); [|exact Hk3|exact H4].
    intros ? ? [??] ? ?.
    split; [by eapply inv_moved, g_unblock_step_moved|by eapply g_unblock_step_timely]. }
  apply (timely_step 0 1 s4); [done|done|simpl; lia|done].
Qed.

Lemma run_timely fuel ifuel s s' :
  fresh s → run p tq fuel ifuel s = Ok s' → timely 1 s'.
Proof.
  intros [Hinit Hfresh] Hrun.
  cut (inv s' ∧ timely 1 s'); [by intros [_ ?]|].
  eapply (while_invariant _ _ (λ s, inv s ∧ timely 1 s)); [| |exact Hrun].
  - intros s1 s2 [??] _ ?. split; [by eapply tick_inv_aux|by eapply tick_timely].
  - split; [by apply enter_inv|].
    unfold g_enter. destruct (is_rr p); (split; simpl; [auto|lia]).
Qed.

End tick.

Lemma boot_fresh evs : fresh (boot (load evs)).
Proof.
  split; [apply boot_initial|]. intros i. simpl. rewrite list_lookup_total_alt.
  destruct (load evs !! i) as [n|] eqn:Hn; [|by vm_compute].
  apply lookup_lt_Some in Hn as Hi. rewrite input_length in Hi.
  destruct (lookup_lt_is_Some_2 evs i Hi) as [e He].
  rewrite (load_lookup _ _ _ He) in Hn. injection Hn as <-. unfold served. simpl. lia.
Qed.

(** A run that ends has completed no real process before its arrival
    time plus its burst time. *)
Lemma schedule_completion_bound n tq fuel ifuel evs s' i :
  1 ≤ n ≤ 4 → schedule n tq fuel ifuel (boot (load evs)) = Ok s' →
  (i < length evs)%nat → is_interrupt (load evs !!! i) = false →
  ∃ c, completionTime (procs s' !!! i) = Some c ∧
       turnAroundTime (procs s' !!! i) = Some (c - arrivalTime (load evs !!! i)) ∧
       arrivalTime (load evs !!! i) + burstTime (load evs !!! i) ≤ c ∧
       static (procs s' !!! i) = static (load evs !!! i) ∧
       remainingTime (procs s' !!! i) = 0.
Proof.
  intros Hn Hrun Hi Hint. pose proof (boot_initial evs) as Hinit.
  destruct (schedule_exit _ _ _ _ _ _ Hinit Hn Hrun) as [(_ & _ & _ & Hd) Hlen].
  simpl in Hlen. rewrite input_length in Hlen.
  destruct (schedule_books _ _ _ _ _ _ i Hinit Hn Hrun) as [Hst Hb];
    [simpl; by rewrite input_length|].
  simpl in Hst, Hb. destruct (Hb Hint) as (Hterm & Hrem & c & _ & Hc & Hta).
  destruct (policy_of_Z_range n Hn) as [p Hp].
  rewrite (schedule_run_policy _ _ _ _ _ _ Hp) in Hrun.
  pose proof (run_timely _ _ _ _ _ _ (boot_fresh evs) Hrun) as [_ Hold].
  injection Hst as Hid Ha Hbt.
  assert (on_time 1 (SYSTEM_TIME s') (procs s' !!! i)) as Hon.
  { apply Hold; [lia|]. unfold is_interrupt in *. by rewrite Hid. }
  unfold on_time in Hon. rewrite Hterm, Hc in Hon. destruct Hon as (? & [= <-] & Hle).
  exists c. split_and!; [done|done|lia|unfold static; congruence|done].
Qed.

(** C9: in the report of a run that ends under one of the four policies,
    with or without block requests, no real process has a negative
    waiting time or a turnaround time below its burst time, and each has
    received exactly its burst time of CPU. *)
Theorem report_bounds (policy tq : Z) (fuel : nat) (evs : list event)
    (r : list node * totals) (i : nat) :
  1 ≤ policy ≤ 4 → simulate policy tq fuel evs = Ok r →
  (i < length evs)%nat → is_interrupt (load evs !!! i) = false →
  ∃ w t, waitingTime (r.1 !!! i) = Some w ∧ turnAroundTime (r.1 !!! i) = Some t ∧
         0 ≤ w ∧ burstTime (r.1 !!! i) ≤ t ∧
         served (r.1 !!! i) = burstTime (r.1 !!! i).
Proof.
  intros Hp (s' & Hrun & ->)%simulate_Ok Hi Hint.
  destruct (schedule_completion_bound _ _ _ _ _ _ i Hp Hrun Hi Hint)
    as (c & Hc & Hta & Hle & [= Hid Ha Hb] & Hrem).
  destruct (schedule_exit _ _ _ _ _ _ (boot_initial evs) Hp Hrun) as [_ Hlen].
  simpl in Hlen. rewrite input_length in Hlen.
  rewrite output_closed. simpl. rewrite (list_lookup_total_fmap reported) by lia.
  unfold reported, is_interrupt in *. rewrite Hid, Hint.
  exists (c - arrivalTime (load evs !!! i) - burstTime (procs s' !!! i)),
         (c - arrivalTime (load evs !!! i)).
  unfold served. simpl. rewrite Hta, Hrem. simpl. split_and!; [done|done|lia..].
Qed.

Lemma report_bounds_witness :
  ∃ w t,
    waitingTime ((output (procs (final_of
      (schedule 1 0 30 30 (boot (load sample_events)))))).1 !!! 0%nat) = Some w ∧
    turnAroundTime ((output (procs (final_of
      (schedule 1 0 30 30 (boot (load sample_events)))))).1 !!! 0%nat) = Some t ∧
    0 ≤ w ∧
    burstTime ((output (procs (final_of
      (schedule 1 0 30 30 (boot (load sample_events)))))).1 !!! 0%nat) ≤ t ∧
    served ((output (procs (final_of
      (schedule 1 0 30 30 (boot (load sample_events)))))).1 !!! 0%nat) =
    burstTime ((output (procs (final_of
      (schedule 1 0 30 30 (boot (load sample_events)))))).1 !!! 0%nat).
Proof.
  apply (report_bounds 1 0 30 sample_events _ 0%nat).
  - lia.
  - vm_compute. reflexivity.
  - simpl. lia.
  - reflexivity.
Defined.
