(* ===== verification/Response.v ===== *)
(** * Response: the response times of Round Robin without block requests

    [roundRobin] stores a response time in a PCB when the process is
    first given the CPU: 0 when the idle wait starts it at its arrival,
    the clock minus the arrival time when the dispatch takes it from the
    ready queue with [firstExecution] set.  A process admitted by the
    arrival loop has [firstExecution] set until that dispatch, and has not
    been served before it.

    On a list without block requests the CPU time a process has received
    is therefore at most the time since its first dispatch: [prompt] is
    the invariant of [Bounds] with the arrival time moved by the response
    time.  At the end of a run it gives the response bound of the
    specification: the response time of every process is between 0 and
    its waiting time.  With block requests the bound fails
    ([Timeline.rr_response_above_waiting]): the dispatch of the
    block-request branch stores a response time without testing
    [firstExecution]. *)

From S2P Require Import Prelude Process Queue Engine Generic Invariant Lifecycle.
From S2P Require Import Correctness Termination Metrics Bounds.

#[local] Open Scope Z_scope.

(** ** Definitions *)

(** The fields the argument reads. *)
Definition rview (n : node) : Z * Z * Z * Z * bool * option Z * Z * bool :=
  (tview n, responseTime n, firstExecution n).

(** A PCB at clock [t]: terminated not before arrival plus response plus
    burst, or served no more than the time since arrival plus response,
    less [off]. *)
Definition late (off t : Z) (n : node) : Prop :=
  if isTerminated n
  then ∃ c, completionTime n = Some c ∧
            arrivalTime n + responseTime n + burstTime n ≤ c
  else served n + off + responseTime n ≤ t - arrivalTime n.

(** [off] is 1 at a turn boundary and 0 inside a turn, as in
    [Bounds.timely]. *)
Record prompt (off : Z) (s : state) : Prop := mkPrompt {
  pr_real : ∀ i, is_interrupt (procs s !!! i) = false;
  pr_resp : ∀ i, 0 ≤ responseTime (procs s !!! i);
  pr_first : ∀ i, firstExecution (procs s !!! i) = true →
    i ∈ rq s ∧ served (procs s !!! i) = 0 ∧ responseTime (procs s !!! i) = 0;
  pr_new : ∀ i, (data s ≤ i)%nat →
    served (procs s !!! i) = 0 ∧ responseTime (procs s !!! i) = 0;
  pr_old : ∀ i, (i < data s)%nat → late off (SYSTEM_TIME s) (procs s !!! i)
}.

(** A process list without block requests. *)
Definition all_real (l : list node) : Prop :=
  ∀ i, is_interrupt (l !!! i) = false.

(** Three processes that share the CPU under a quantum of 2. *)
Definition rr_events : list event :=
  [mkEvent 0 4 0; mkEvent 1 3 0; mkEvent 2 1 0].

(** * Theorems *)

Lemma rview_fields n n' :
  rview n' = rview n →
  is_interrupt n' = is_interrupt n ∧ served n' = served n ∧
  responseTime n' = responseTime n ∧ firstExecution n' = firstExecution n ∧
  ∀ off t, late off t n' ↔ late off t n.
Proof.
  intros [= Hid Ha Hb Hr Ht Hc Hrs Hf]. unfold is_interrupt, late, served.
  by rewrite Hid, Ha, Hb, Hr, Ht, Hc, Hrs, Hf.
Qed.

Lemma late_weaken off off' t t' n : t - off ≤ t' - off' → late off t n → late off' t' n.
Proof. unfold late. destruct (isTerminated n); [done|lia]. Qed.

(** A step that changes none of the fields read, removes nothing from
    the ready queue, does not move the cursor and does not use up
    slack. *)
Lemma prompt_step off off' s s' :
  agree rview (procs s) (procs s') → data s' = data s →
  (∀ i, i ∈ rq s → i ∈ rq s') →
  SYSTEM_TIME s - off ≤ SYSTEM_TIME s' - off' →
  prompt off s → prompt off' s'.
Proof.
  intros Hv Hd Hrq Ht [Hreal Hresp Hfirst Hnew Hold].
  assert (∀ i, rview (procs s' !!! i) = rview (procs s !!! i)) as Hn
    by (intros i; by apply agree_lookup).
  split; rewrite ?Hd; intros i; destruct (rview_fields _ _ (Hn i)) as (Hi & Hs & Hr & Hf & Hl).
  - by rewrite Hi.
  - by rewrite Hr.
  - rewrite Hf, Hs, Hr. intros H. destruct (Hfirst i H) as (? & ? & ?). auto.
  - rewrite Hs, Hr. auto.
  - intros Hlt. apply Hl. eapply late_weaken; [exact Ht|auto].
Qed.

(** A step that assigns to the PCB behind one pointer [r], which is, or
    becomes, admitted. *)
Lemma prompt_alter off off' s s' r f :
  procs s' = alter f r (procs s) → (r < length (procs s))%nat →
  (data s ≤ data s')%nat → (r < data s')%nat →
  (∀ i, (data s ≤ i)%nat → (i < data s')%nat → i = r) →
  (∀ i, i ∈ rq s → i ≠ r → i ∈ rq s') →
  SYSTEM_TIME s - off ≤ SYSTEM_TIME s' - off' →
  is_interrupt (f (procs s !!! r)) = false →
  0 ≤ responseTime (f (procs s !!! r)) →
  (firstExecution (f (procs s !!! r)) = true →
   r ∈ rq s' ∧ served (f (procs s !!! r)) = 0 ∧ responseTime (f (procs s !!! r)) = 0) →
  late off' (SYSTEM_TIME s') (f (procs s !!! r)) →
  prompt off s → prompt off' s'.
Proof.
  intros Hp Hr Hd Hr' Hadm Hrq Ht Hint Hres Hfst Hlate [Hreal Hresp Hfirst Hnew Hold].
  assert (procs s' !!! r = f (procs s !!! r)) as Heq
    by (by rewrite Hp, list_lookup_total_alter, decide_True).
  assert (∀ i, i ≠ r → procs s' !!! i = procs s !!! i) as Hne
    by (intros i Hi; by rewrite Hp, list_lookup_total_alter_ne).
  split; intros i; (destruct (decide (i = r)) as [->|Hi]; [rewrite Heq|rewrite (Hne i Hi)]);
    try done.
  - intros H. destruct (Hfirst i H) as (? & ? & ?). auto.
  - lia.
  - intros Hge. apply Hnew. lia.
  - intros Hlt. eapply late_weaken; [exact Ht|]. apply Hold.
    destruct (decide (i < data s)%nat); [done|]. destruct Hi. apply Hadm; lia.
Qed.

(** ** What the invariant of the engine gives *)

Lemma inv_ref_facts s r :
  inv s → ref s = Some r →
  (r < data s)%nat ∧ (r < length (procs s))%nat ∧
  isTerminated (procs s !!! r) = false ∧ (r ∉ rq s).
Proof.
  intros Hinv Hr.
  assert (r ∈ live s) as Hlive by (unfold live; rewrite Hr; set_solver).
  apply (inv_live _ Hinv) in Hlive as (Hrd & _ & Hterm).
  pose proof (inv_data _ Hinv). pose proof (inv_nodup _ Hinv) as Hnd.
  unfold live in Hnd. rewrite Hr in Hnd. simpl in Hnd. apply NoDup_cons in Hnd as [Hnot _].
  split_and!; [done|lia|done|set_solver].
Qed.

Lemma inv_rq_facts s x q :
  inv s → rq s = x :: q →
  (x < data s)%nat ∧ (x < length (procs s))%nat ∧
  isTerminated (procs s !!! x) = false ∧ (x ∉ q) ∧ (ref s ≠ Some x).
Proof.
  intros Hinv Hrq.
  assert (x ∈ live s) as Hlive by (unfold live; rewrite Hrq; set_solver).
  apply (inv_live _ Hinv) in Hlive as (Hrd & _ & Hterm).
  pose proof (inv_data _ Hinv). pose proof (inv_nodup _ Hinv) as Hnd.
  unfold live in Hnd. rewrite Hrq in Hnd.
  split_and!; [done|lia|done|..].
  - apply NoDup_app in Hnd as (_ & _ & Hnd). apply NoDup_app in Hnd as (Hnd & _).
    by apply NoDup_cons in Hnd as [? _].
  - intros Hr. rewrite Hr in Hnd. simpl in Hnd. apply NoDup_cons in Hnd as [Hnot _].
    set_solver.
Qed.

(** The running process has been dispatched. *)
Lemma prompt_ref_first off s r :
  inv s → prompt off s → ref s = Some r → firstExecution (procs s !!! r) = false.
Proof.
  intros Hinv Hpr Hr. destruct (inv_ref_facts s r Hinv Hr) as (_ & _ & _ & Hnot).
  destruct (firstExecution _) eqn:Hf; [|done]. by destruct (pr_first _ _ Hpr r Hf).
Qed.

(** ** The blocks of a turn of [roundRobin] *)

Lemma run_tick_prompt s : inv s → prompt 1 s → prompt 0 (run_tick s).
Proof.
  intros Hinv Hpr. unfold run_tick. destruct (ref s) as [r|] eqn:Hr.
  2:{ apply (prompt_step 1 0 s); [done|done|done|lia|done]. }
  destruct (inv_ref_facts s r Hinv Hr) as (Hrd & Hlen & Hterm & _).
  pose proof (prompt_ref_first 1 s r Hinv Hpr Hr) as Hf.
  pose proof (pr_old _ _ Hpr r Hrd) as Hlate.
  apply (prompt_alter 1 0 s _ r dec_remainingTime); simpl;
    [done|done|done|done|lia|done|lia|apply (pr_real _ _ Hpr)|apply (pr_resp _ _ Hpr)
    |congruence| |done].
  unfold late, served in *. simpl. rewrite Hterm in *. lia.
Qed.

Lemma g_begin_prompt s : inv s → prompt 1 s → prompt 0 (g_begin RR s).
Proof.
  intros Hinv Hpr. unfold g_begin. simpl.
  assert (inv (quantum_tick s) ∧ prompt 1 (quantum_tick s)) as [Hinv0 Hpr0].
  { split; [eapply inv_moved; [done|apply quantum_tick_moved]|].
    unfold quantum_tick. destruct (IS_CPU_IDLE s); [done|].
    apply (prompt_step 1 1 s); [done|done|done|simpl; lia|done]. }
  unfold age_blocked. destruct (isEmpty _); [by apply run_tick_prompt|].
  apply (prompt_step 0 0 (run_tick (quantum_tick s))); [solve_agree|done|done|simpl; lia|].
  by apply run_tick_prompt.
Qed.

Lemma rr_idle_step_prompt s s' :
  inv s → idle_guard s = true → prompt 0 s → rr_idle_step s = Ok s' → prompt 0 s'.
Proof.
  intros Hinv (Hd & _ & Hrq)%idle_guard_true Hpr. unfold rr_idle_step.
  pose proof (pr_real _ _ Hpr (data s)) as Hint. unfold is_interrupt in Hint.
  fold (cur s) in Hint. rewrite Hint.
  destruct (Z.eqb_spec (arrivalTime (cur s)) (SYSTEM_TIME s)) as [Harr|_];
    [destruct (isTerminated (cur s)) eqn:Hterm|]; simpl; intros [= <-].
  1,3: apply (prompt_step 0 0 s); [done|done|done|simpl; lia|done].
  unfold has_data in Hd. apply Nat.ltb_lt in Hd.
  destruct (pr_new _ _ Hpr (data s)) as [Hs0 Hr0]; [done|].
  apply (prompt_alter 0 0 s _ (data s) (set_responseTime 0)); simpl;
    [done|done|lia|lia|lia|done|lia|apply (pr_real _ _ Hpr)|done| | |done].
  - intros Hf. destruct (pr_first _ _ Hpr (data s) Hf) as [Hin _].
    rewrite Hrq in Hin. by apply elem_of_nil in Hin.
  - unfold late, served, cur in *. simpl. rewrite Hterm. lia.
Qed.

Lemma rr_arrival_prompt tq s s' :
  inv s → arrival_guard s = true → prompt 0 s → g_arrival RR tq s = Ok s' → prompt 0 s'.
Proof.
  intros Hinv (Hd & Harr & _)%arrival_guard_true Hpr. unfold g_arrival, g_admit. simpl.
  unfold has_data in Hd. apply Nat.ltb_lt in Hd.
  pose proof (pr_real _ _ Hpr (data s)) as Hint. unfold is_interrupt in Hint.
  replace (processId (cur (update (data s) (set_firstExecution true) s)) >? 1000)
    with false
    by (unfold cur; simpl; by rewrite list_lookup_total_alter, decide_True).
  simpl. intros [= <-].
  destruct (pr_new _ _ Hpr (data s)) as [Hs0 Hr0]; [done|].
  apply (prompt_alter 0 0 s _ (data s) (set_firstExecution true)); simpl;
    [done|done|lia|lia|lia| |lia|apply (pr_real _ _ Hpr)|apply (pr_resp _ _ Hpr)| | |done].
  - intros i Hi _. rewrite enqueue_app. set_solver.
  - intros _. rewrite enqueue_app. split_and!; [set_solver|done..].
  - unfold late, served, cur in *. simpl. rewrite (inv_fresh _ Hinv) by done. lia.
Qed.

Lemma complete_prompt s : inv s → prompt 0 s → prompt 0 (complete s).
Proof.
  intros Hinv Hpr. unfold complete. destruct (ref s) as [r|] eqn:Hr; [|done].
  destruct (Z.eqb_spec (remainingTime (procs s !!! r)) 0) as [Hrem|_]; [|done].
  destruct (inv_ref_facts s r Hinv Hr) as (Hrd & Hlen & Hterm & _).
  pose proof (prompt_ref_first 0 s r Hinv Hpr Hr) as Hf.
  pose proof (pr_old _ _ Hpr r Hrd) as Hlate.
  apply (prompt_alter 0 0 s _ r (terminate (SYSTEM_TIME s))); simpl;
    [done|done|done|done|lia|done|lia|apply (pr_real _ _ Hpr)|apply (pr_resp _ _ Hpr)
    |congruence| |done].
  unfold late, served in *. simpl. rewrite Hterm in Hlate.
  eexists. split; [done|lia].
Qed.

(** The head of the ready queue takes the CPU: if it has not run yet,
    its response time is the time it has waited. *)
Lemma rr_run_head_prompt tq s s' x q :
  rq s = x :: q → x ∉ q → (x < data s)%nat → (x < length (procs s))%nat →
  isTerminated (procs s !!! x) = false →
  prompt 0 s → rr_run_head tq s = Ok s' → prompt 0 s'.
Proof.
  intros Hrq Hnot Hxd Hlen Hterm Hpr. unfold rr_run_head. rewrite Hrq. simpl.
  assert (∀ i, i ∈ rq s → i ≠ x → i ∈ q) as Hq by (rewrite Hrq; set_solver).
  pose proof (pr_old _ _ Hpr x Hxd) as Hlate.
  destruct (firstExecution (procs s !!! x)) eqn:Hf; intros [= <-].
  - destruct (pr_first _ _ Hpr x Hf) as (_ & Hs0 & Hr0).
    unfold late in Hlate. rewrite Hterm in Hlate.
    apply (prompt_alter 0 0 s _ x (first_response (SYSTEM_TIME s))); simpl;
      [done|done|done|done|lia|done|lia|apply (pr_real _ _ Hpr)|lia|done| |done].
    unfold late, served in *. simpl. rewrite Hterm. lia.
  - apply (prompt_alter 0 0 s _ x id); simpl;
      [by rewrite list_alter_id|done|done|done|lia|done|lia|apply (pr_real _ _ Hpr)
      |apply (pr_resp _ _ Hpr)|congruence|done|done].
Qed.

Lemma rr_dispatch_prompt tq s s' :
  inv s → prompt 0 s → rr_dispatch tq s = Ok s' → prompt 0 s'.
Proof.
  intros Hinv Hpr. unfold rr_dispatch.
  destruct (rq s) as [|x q] eqn:Hrq; simpl; rewrite ?andb_false_r, ?andb_true_r.
  { destruct (quantum s =? 0); intros [= <-]; [|done].
    apply (prompt_step 0 0 s); simpl; [done|done|done|lia|done]. }
  destruct (inv_rq_facts s x q Hinv Hrq) as (Hxd & Hlen & Hterm & Hnot & Hne).
  destruct (IS_CPU_IDLE s); [by apply (rr_run_head_prompt tq s s' x q)|].
  destruct (quantum s =? 0); [|by intros [= <-]].
  destruct (ref s) as [r|] eqn:Hr; [|done].
  destruct (inv_ref_facts s r Hinv Hr) as (_ & _ & _ & Hrnot).
  apply (rr_run_head_prompt tq _ s' x (q ++ [r])); simpl;
    [by rewrite ?Hrq, ?enqueue_app|rewrite ?Hrq in Hrnot; set_solver|done..|].
  apply (prompt_step 0 0 s); simpl; [done|done| |lia|done].
  intros i Hi. rewrite ?enqueue_app. rewrite ?Hrq in Hi. set_solver.
Qed.

Lemma rr_unblock_step_prompt s s' :
  prompt 0 s → g_unblock_step RR s = Ok s' → prompt 0 s'.
Proof.
  intros Hpr. unfold g_unblock_step, g_admit. simpl.
  destruct (bq s); simpl; [done|]. intros [= <-].
  apply (prompt_step 0 0 s); simpl; [done|done| |lia|done].
  intros i Hi. rewrite enqueue_app. set_solver.
Qed.

(** ** The loop body and the run *)

Section tick.
Context (tq : Z).

Lemma tick_prompt ifuel s s' :
  inv s → prompt 1 s → tick RR tq ifuel s = Ok s' → prompt 1 s'.
Proof.
  intros Hinv Hpr. unfold tick, g_idle_wait.
  intros (s1 & H1 & (s2 & H2 & (s3 & H3 & (s4 & H4 & [= <-])%res_bind_Ok)%res_bind_Ok
         )%res_bind_Ok)%res_bind_Ok.
  set (I := λ s, inv s ∧ prompt 0 s).
  assert (I s1) as Hk1.
  { eapply (while_invariant _ _ I); [|split; [by apply g_begin_inv|by apply g_begin_prompt]
                                    |exact H1].
    intros ? ? [??] ? ?. split; [by eapply g_idle_step_inv|by eapply rr_idle_step_prompt]. }
  assert (I s2) as [Hinv2 Hpr2].
  { eapply (while_invariant _ _ I); [|exact Hk1|exact H2].
    intros ? ? [??] ? ?. split; [by eapply g_arrival_inv|by eapply rr_arrival_prompt]. }
  assert (I s3) as Hk3.
  { pose proof (complete_inv _ Hinv2) as Hinv2'. split.
    - eapply inv_moved; [done|]. eapply g_dispatch_moved; [apply Hinv2'|done].
    - eapply rr_dispatch_prompt; [done|by apply complete_prompt|exact H3]. }
  assert (I s4) as [_ Hpr4].
  { eapply (while_invariant _ _ I); [|exact Hk3|exact H4].
    intros ? ? [??] ? ?.
    split; [by eapply inv_moved, g_unblock_step_moved|by eapply rr_unblock_step_prompt]. }
  apply (prompt_step 0 1 s4); [done|done|done|simpl; lia|done].
Qed.

Lemma run_prompt fuel ifuel s s' :
  initial s → prompt 1 (g_enter RR tq s) → run RR tq fuel ifuel s = Ok s' → prompt 1 s'.
Proof.
  intros Hinit Hpr Hrun.
  cut (inv s' ∧ prompt 1 s'); [by intros [_ ?]|].
  eapply (while_invariant _ _ (λ s, inv s ∧ prompt 1 s)); [| |exact Hrun].
  - intros s1 s2 [??] _ ?. split; [by eapply tick_inv_aux|by eapply tick_prompt].
  - split; [by apply enter_inv|done].
Qed.

End tick.

Lemma load_fresh_fields evs i :
  served (load evs !!! i) = 0 ∧ responseTime (load evs !!! i) = 0 ∧
  firstExecution (load evs !!! i) = false.
Proof.
  rewrite list_lookup_total_alt.
  destruct (load evs !! i) as [n|] eqn:Hn; [|by vm_compute].
  apply lookup_lt_Some in Hn as Hi. rewrite input_length in Hi.
  destruct (lookup_lt_is_Some_2 evs i Hi) as [e He].
  rewrite (load_lookup _ _ _ He) in Hn. injection Hn as <-. unfold served. simpl.
  split_and!; [lia|done..].
Qed.

Lemma boot_prompt tq evs : all_real (load evs) → prompt 1 (g_enter RR tq (boot (load evs))).
Proof.
  intros Hreal. split; simpl; intros i.
  - apply Hreal.
  - by destruct (load_fresh_fields evs i) as (_ & -> & _).
  - by destruct (load_fresh_fields evs i) as (_ & _ & ->).
  - by destruct (load_fresh_fields evs i) as (-> & -> & _).
  - lia.
Qed.

(** A run of Round Robin on a list without block requests that ends has
    completed every process not before its arrival plus its response
    time plus its burst time. *)
Lemma rr_completion_bound tq fuel ifuel evs s' i :
  all_real (load evs) → schedule 4 tq fuel ifuel (boot (load evs)) = Ok s' →
  (i < length evs)%nat →
  ∃ c, completionTime (procs s' !!! i) = Some c ∧
       0 ≤ responseTime (procs s' !!! i) ∧
       arrivalTime (procs s' !!! i) + responseTime (procs s' !!! i)
         + burstTime (procs s' !!! i) ≤ c.
Proof.
  intros Hreal Hrun Hi. pose proof (boot_initial evs) as Hinit.
  destruct (schedule_exit 4 _ _ _ _ _ Hinit ltac:(lia) Hrun) as [(_ & _ & _ & Hd) Hlen].
  simpl in Hlen. rewrite input_length in Hlen.
  destruct (schedule_books 4 _ _ _ _ _ i Hinit ltac:(lia) Hrun) as [_ Hb];
    [simpl; by rewrite input_length|].
  destruct (Hb (Hreal i)) as (Hterm & _ & c & _ & Hc & _).
  rewrite (schedule_run_policy 4 _ _ _ _ RR) in Hrun by done.
  pose proof (run_prompt _ _ _ _ _ Hinit (boot_prompt tq evs Hreal) Hrun)
    as [_ Hresp _ _ Hold].
  specialize (Hold i ltac:(lia)). unfold late in Hold. rewrite Hterm, Hc in Hold.
  destruct Hold as (? & [= <-] & Hle). eauto.
Qed.

(** C10: under Round Robin on a list without block requests, the response
    time of every process of the report is at least 0 and at most its
    waiting time. *)
Theorem rr_response_bound (tq : Z) (fuel : nat) (evs : list event)
    (r : list node * totals) (i : nat) :
  all_real (load evs) → simulate 4 tq fuel evs = Ok r → (i < length evs)%nat →
  ∃ w, waitingTime (r.1 !!! i) = Some w ∧ 0 ≤ responseTime (r.1 !!! i) ≤ w.
Proof.
  intros Hreal (s' & Hrun & ->)%simulate_Ok Hi.
  destruct (rr_completion_bound _ _ _ _ _ i Hreal Hrun Hi) as (c & Hc & Hr0 & Hle).
  destruct (schedule_completion_bound 4 _ _ _ _ _ i ltac:(lia) Hrun Hi (Hreal i))
    as (c' & Hc' & Hta & _ & [= Hid Ha Hb] & _).
  destruct (schedule_exit 4 _ _ _ _ _ (boot_initial evs) ltac:(lia) Hrun) as [_ Hlen].
  simpl in Hlen. rewrite input_length in Hlen.
  rewrite output_closed. simpl. rewrite (list_lookup_total_fmap reported) by lia.
  pose proof (Hreal i) as Hint. unfold reported, is_interrupt in *. rewrite Hid, Hint.
  simpl. rewrite Hta. simpl. eexists. split; [done|].
  assert (c' = c) as -> by congruence. lia.
Qed.

Lemma rr_response_bound_witness :
  ∃ w, waitingTime ((output (procs (final_of
         (schedule 4 2 30 30 (boot (load rr_events)))))).1 !!! 1%nat) = Some w ∧
       0 ≤ responseTime ((output (procs (final_of
         (schedule 4 2 30 30 (boot (load rr_events)))))).1 !!! 1%nat) ≤ w.
Proof.
  apply (rr_response_bound 2 30 rr_events _ 1%nat).
  - intros i. destruct (decide (i < 3)%nat) as [Hi|Hi].
    + by do 3 (destruct i as [|i]; [done|]); lia.
    + by rewrite list_lookup_total_alt, lookup_ge_None_2 by (simpl; lia).
  - vm_compute. reflexivity.
  - simpl. lia.
Defined.
