(* ===== verification/Program.v ===== *)
(** * Program: main, the report file and the console display

    [main] of [src/cpu_scheduling.c] opens input.txt, reads the policy and
    the records ([Parse]), runs [schedule] ([Engine]) and calls [output]
    ([Metrics]), which opens output.txt and writes the report.  The two
    files are the arguments of the model: [None] is an input file that
    cannot be opened, [false] an output file that cannot.

    The report is kept as data: the banner the [switch] of [output]
    selects, the integers of each row in column order, with the response
    time as a seventh column under policy 4, and the two averages.  The
    widths of the [fprintf] formats and the rounding of [%.2f] are left
    out.

    The theorems: a printed configuration is read, scheduled and reported
    as [Metrics.simulate] says ([main_print]); on well-formed records the
    whole program returns 0 and every row of its report holds the metric
    equations ([main_terminates]); whatever the input file holds, the
    rows of a report that is written are rows of processes that have
    completed ([main_report_sound]); the exit status tells which file
    could not be opened ([main_exit_status]). *)

From Stdlib Require Import QArith String.
From S2P Require Import Prelude Process Parse Queue Engine Generic Invariant Lifecycle.
From S2P Require Import Correctness Termination Metrics Bounds.

#[local] Open Scope Z_scope.

(** ** Definitions *)

(** The first line of the report. *)
Inductive banner : Type :=
  | FCFS_banner
  | SJF_banner
  | SRTN_banner
  | RR_banner (tq : Z).

(** The [switch] of [output]: it has no default case. *)
Definition banner_of (policy tq : Z) : option banner :=
  if policy =? 1 then Some FCFS_banner
  else if policy =? 2 then Some SJF_banner
  else if policy =? 3 then Some SRTN_banner
  else if policy =? 4 then Some (RR_banner tq)
  else None.

(** The integers of one row, in column order. *)
Definition row_cells (policy : Z) (n : node) : list (option Z) :=
  [Some (processId n); Some (arrivalTime n); Some (burstTime n);
   completionTime n; waitingTime n; turnAroundTime n]
  ++ (if policy =? 4 then [Some (responseTime n)] else []).

Record report : Type := mkReport {
  rep_banner : option banner;
  rep_response : bool;
  rep_rows : list (list (option Z));
  rep_averages : average * average
}.

(** What [output] writes once output.txt is open: the banner, the column
    titles, one row per real PCB after its waiting time is assigned, the
    averages. *)
Definition write_report (policy tq : Z) (l : list node) : report :=
  let r := output l in
  mkReport (banner_of policy tq) (policy =? 4) (row_cells policy <$> real r.1)
           (averages r.2).

(** How the program ends: its exit status and the report it wrote. *)
Inductive outcome : Type :=
  | Exit (status : Z) (written : option report).

(** [output] with its file: [exit(1)] when output.txt cannot be opened. *)
Definition output_file (output_txt : bool) (policy tq : Z) (l : list node)
  : outcome :=
  if output_txt then Exit 0 (Some (write_report policy tq l)) else Exit 1 None.

(** [main]: [return -1] when input.txt cannot be opened; otherwise read,
    schedule, report. *)
Definition main (input_txt : option string) (output_txt : bool) (fuel : nat)
  : res outcome :=
  match input_txt with
  | None => Ok (Exit (-1) None)
  | Some fs =>
      do cfg <- read_input fuel fs;
      do s <- schedule cfg.1.1 cfg.1.2 fuel fuel (boot cfg.2);
      Ok (output_file output_txt cfg.1.1 cfg.1.2 (procs s))
  end.

(** [display]: one entry per PCB of the list, block requests included.
    No function calls it. *)
Definition display (l : list node) : list (Z * option Z * option Z) :=
  (λ n, (processId n, waitingTime n, turnAroundTime n)) <$> l.

(** *** Reference definitions *)

(** The row of a process that arrived at [a] with burst [b] and completed
    at [c]. *)
Definition row_of (policy id a b c resp : Z) : list (option Z) :=
  [Some id; Some a; Some b; Some c; Some (c - a - b); Some (c - a)]
  ++ (if policy =? 4 then [Some resp] else []).

(** * Theorems *)

Lemma main_unfold fs output_txt fuel policy tq l :
  read_input fuel fs = Ok (policy, tq, l) →
  main (Some fs) output_txt fuel =
    do s <- schedule policy tq fuel fuel (boot l);
    Ok (output_file output_txt policy tq (procs s)).
Proof. unfold main. by intros ->. Qed.

Lemma main_print_file policy tq evs output_txt fuel :
  (length evs < fuel)%nat →
  main (Some (print_input policy tq evs)) output_txt fuel =
    do s <- schedule policy (quantum_read policy tq) fuel fuel (boot (load evs));
    Ok (output_file output_txt policy (quantum_read policy tq) (procs s)).
Proof.
  intros Hfuel. apply main_unfold. unfold print_input.
  replace fuel with (length evs + S (fuel - S (length evs)))%nat by lia.
  by rewrite read_input_print, input_file_end.
Qed.

(** A printed configuration is read, scheduled and reported as
    [simulate] says of its records: [main] returns 0 with the report of
    the process list [simulate] ends with, under the quantum [setPolicy]
    leaves in [TIME_QUANTUM]. *)
Theorem main_print (policy tq : Z) (evs : list event) (fuel : nat) :
  (length evs < fuel)%nat →
  main (Some (print_input policy tq evs)) true fuel =
    do r <- simulate policy (quantum_read policy tq) fuel evs;
    Ok (Exit 0 (Some (mkReport (banner_of policy (quantum_read policy tq))
                               (policy =? 4) (row_cells policy <$> real r.1)
                               (averages r.2)))).
Proof.
  intros Hfuel. rewrite main_print_file by done. unfold simulate.
  by destruct (schedule _ _ _ _ _).
Qed.

Lemma main_print_witness :
  main (Some (print_input 4 2 sample_events)) true 30 =
    do r <- simulate 4 (quantum_read 4 2) 30 sample_events;
    Ok (Exit 0 (Some (mkReport (banner_of 4 (quantum_read 4 2))
                               (4 =? 4) (row_cells 4 <$> real r.1)
                               (averages r.2)))).
Proof. apply (main_print 4 2 sample_events 30). simpl. lia. Defined.

Lemma real_all l : Forall (λ n, is_interrupt n = false) l → real l = l.
Proof.
  induction 1 as [|n l Hn _ IH]; [done|].
  unfold real in *. by rewrite filter_cons, Hn, IH.
Qed.

Lemma row_cells_reported policy n c :
  is_interrupt n = false → completionTime n = Some c →
  turnAroundTime n = Some (c - arrivalTime n) →
  row_cells policy (reported n) =
    row_of policy (processId n) (arrivalTime n) (burstTime n) c (responseTime n).
Proof.
  intros Hn Hc Hta. unfold reported, row_cells, row_of. rewrite Hn. simpl.
  by rewrite Hc, Hta.
Qed.

(** After a run on well-formed records every PCB is a real process. *)
Lemma schedule_all_real policy tq fuel evs s' :
  1 ≤ policy ≤ 4 → well_formed evs →
  schedule policy tq fuel fuel (boot (load evs)) = Ok s' →
  Forall (λ n, is_interrupt n = false) (reported <$> procs s').
Proof.
  intros Hp Hwf Hrun. pose proof (boot_initial evs) as Hinit.
  pose proof (schedule_exit _ _ _ _ _ _ Hinit Hp Hrun) as [_ Hlen].
  apply Forall_fmap, Forall_lookup. intros j n Hn. simpl.
  rewrite is_interrupt_reported.
  destruct (schedule_books _ _ _ _ _ _ j Hinit Hp Hrun) as [Hst _].
  { apply lookup_lt_Some in Hn. lia. }
  destruct (load_well_formed evs j Hwf) as [Hint _]. simpl in Hst.
  rewrite (list_lookup_total_correct _ _ _ Hn) in Hst. injection Hst as Hid _ _.
  unfold is_interrupt in *. by rewrite Hid.
Qed.

(** The rows of the report of a run that ends on well-formed records. *)
Lemma report_rows policy tq fuel evs s' i e :
  1 ≤ policy ≤ 4 → well_formed evs →
  schedule policy tq fuel fuel (boot (load evs)) = Ok s' →
  evs !! i = Some e →
  ∃ c resp, ev_arrival e + ev_burst e ≤ c ∧
    rep_rows (write_report policy tq (procs s')) !! i =
      Some (row_of policy (event_id evs i e) (ev_arrival e) (ev_burst e) c resp).
Proof.
  intros Hp Hwf Hrun He. pose proof (lookup_lt_Some _ _ _ He) as Hi.
  pose proof (schedule_exit _ _ _ _ _ _ (boot_initial evs) Hp Hrun) as [_ Hlen].
  simpl in Hlen. rewrite input_length in Hlen.
  destruct (load_well_formed evs i Hwf) as [Hint _].
  destruct (schedule_completion_bound _ _ _ _ _ _ i Hp Hrun Hi Hint)
    as (c & Hc & Hta & Hle & Hst & _).
  pose proof (load_lookup _ _ _ He) as Hld.
  rewrite (list_lookup_total_correct _ _ _ Hld) in Hst, Hta, Hle, Hint.
  injection Hst as Hid Ha Hbt. simpl in Hta, Hle.
  exists c, (responseTime (procs s' !!! i)). split; [done|].
  unfold write_report. rewrite output_closed. simpl.
  rewrite real_all by by eapply schedule_all_real.
  rewrite !list_lookup_fmap, (list_lookup_lookup_total_lt (procs s') i) by lia. simpl.
  rewrite (row_cells_reported policy _ c), Hid, Ha, Hbt; [done| |done|by rewrite Ha].
  unfold is_interrupt in *. by rewrite Hid.
Qed.

(** C1: on well-formed records, printed as an input file, the whole
    program ends under each of the four policies once its loops are given
    the fuel of [Termination]: it returns 0, and its report has the banner
    of the policy and one row per record, which holds the identity, the
    arrival time and the burst time of the record, a completion time not
    before arrival plus burst, and the waiting and turnaround times the
    completion time determines. *)
Theorem main_terminates (policy tq : Z) (evs : list event) (fuel : nat) :
  1 ≤ policy ≤ 4 → well_formed evs →
  (length evs < fuel)%nat → (fuel_of evs ≤ fuel)%nat → (idle_fuel_of evs ≤ fuel)%nat →
  ∃ rep, main (Some (print_input policy tq evs)) true fuel = Ok (Exit 0 (Some rep)) ∧
    rep_banner rep = banner_of policy (quantum_read policy tq) ∧
    ∀ i e, evs !! i = Some e →
      ∃ c resp, ev_arrival e + ev_burst e ≤ c ∧
        rep_rows rep !! i =
          Some (row_of policy (event_id evs i e) (ev_arrival e) (ev_burst e) c resp).
Proof.
  intros Hp Hwf Hlen Hfuel Hifuel. rewrite main_print_file by done.
  destruct (schedule_returns policy (quantum_read policy tq) evs fuel fuel)
    as [s' Hrun]; [done..|].
  rewrite Hrun. eexists. split; [done|]. split; [done|].
  intros i e He. by eapply report_rows.
Qed.

Lemma main_terminates_witness :
  ∃ rep, main (Some (print_input 4 2 sample_events_calm)) true 10
           = Ok (Exit 0 (Some rep)) ∧
    rep_banner rep = banner_of 4 (quantum_read 4 2) ∧
    ∀ i e, sample_events_calm !! i = Some e →
      ∃ c resp, ev_arrival e + ev_burst e ≤ c ∧
        rep_rows rep !! i =
          Some (row_of 4 (event_id sample_events_calm i e) (ev_arrival e) (ev_burst e)
                  c resp).
Proof.
  apply (main_terminates 4 2 sample_events_calm 10);
    [lia|apply sample_events_calm_wf|simpl; lia|vm_compute; lia|vm_compute; lia].
Defined.

(** C38: the exit status tells which file could not be opened: -1 for
    input.txt, and nothing is read or scheduled; 1 for output.txt, after
    the whole schedule has run; 0 otherwise, with a report. *)
Theorem main_exit_status (input_txt : option string) (output_txt : bool)
    (fuel : nat) (status : Z) (written : option report) :
  main input_txt output_txt fuel = Ok (Exit status written) →
  match input_txt with
  | None => status = -1 ∧ written = None
  | Some fs =>
      ∃ policy tq l s, read_input fuel fs = Ok (policy, tq, l) ∧
        schedule policy tq fuel fuel (boot l) = Ok s ∧
        if output_txt then status = 0 ∧ written = Some (write_report policy tq (procs s))
        else status = 1 ∧ written = None
  end.
Proof.
  unfold main. destruct input_txt as [fs|]; [|by intros [= <- <-]].
  destruct (read_input fuel fs) as [[[policy tq] l]|] eqn:Hread; [|done]. simpl.
  destruct (schedule policy tq fuel fuel (boot l)) as [s|] eqn:Hrun; [|done]. simpl.
  intros Hout. exists policy, tq, l, s. split_and!; [done..|].
  unfold output_file in Hout. by destruct output_txt; injection Hout as <- <-.
Qed.

Lemma main_exit_status_witness :
  ∃ policy tq l s, read_input 5 "1 0 1 0" = Ok (policy, tq, l) ∧
    schedule policy tq 5 5 (boot l) = Ok s ∧ 1 = 1 ∧ @None report = None.
Proof. apply (main_exit_status (Some "1 0 1 0"%string) false 5 1 None). reflexivity. Defined.

(** ** The report of any input file *)

(** A row of the report of a run that ends is the row of a real process
    that has completed, not before its arrival time plus its burst time. *)
Lemma report_row_sound policy tq fuel evs s' row :
  1 ≤ policy ≤ 4 → schedule policy tq fuel fuel (boot (load evs)) = Ok s' →
  row ∈ rep_rows (write_report policy tq (procs s')) →
  ∃ id a b c resp, row = row_of policy id a b c resp ∧ id ≤ 1000 ∧ a + b ≤ c.
Proof.
  intros Hp Hrun. unfold write_report. rewrite output_closed. simpl.
  intros (n & -> & [Hint (m & -> & [i Hi]%list_elem_of_lookup)%list_elem_of_fmap]
            %list_elem_of_filter)%list_elem_of_fmap.
  rewrite is_interrupt_reported in Hint.
  pose proof (schedule_exit _ _ _ _ _ _ (boot_initial evs) Hp Hrun) as [_ Hlen].
  simpl in Hlen. rewrite input_length in Hlen. pose proof (lookup_lt_Some _ _ _ Hi) as Hlt.
  destruct (schedule_books _ _ _ _ _ _ i (boot_initial evs) Hp Hrun) as [Hst _];
    [simpl; rewrite input_length; lia|]. simpl in Hst.
  apply list_lookup_total_correct in Hi as Hm. rewrite Hm in Hst.
  injection Hst as Hid Ha Hb.
  destruct (schedule_completion_bound _ _ _ _ _ _ i Hp Hrun) as (c & Hc & Hta & Hle & _);
    [lia|unfold is_interrupt in *; by rewrite <- Hid|].
  rewrite Hm in Hc, Hta. rewrite <- Ha in Hta. rewrite <- Ha, <- Hb in Hle.
  exists (processId m), (arrivalTime m), (burstTime m), c, (responseTime m).
  split; [by apply row_cells_reported|]. unfold is_interrupt in Hint. split; [lia|done].
Qed.

(** C8: the report of any input file.  Whatever input.txt holds, when
    the program ends under one of the four policies and has written its
    report, the exit status is 0, the banner is that of the policy read,
    and every row is the row of a process: an identity of at most 1000, a
    completion time not before the arrival time plus the burst time, and
    the waiting and turnaround times the completion time determines. *)
Theorem main_report_sound (fs : string) (fuel : nat) (status : Z) (rep : report) :
  main (Some fs) true fuel = Ok (Exit status (Some rep)) →
  1 ≤ (setPolicy fs).1.1 ≤ 4 →
  status = 0 ∧
  rep_banner rep = banner_of (setPolicy fs).1.1 (setPolicy fs).1.2 ∧
  ∀ row, row ∈ rep_rows rep →
    ∃ id a b c resp,
      row = row_of (setPolicy fs).1.1 id a b c resp ∧ id ≤ 1000 ∧ a + b ≤ c.
Proof.
  unfold main. destruct (read_input fuel fs) as [[[policy tq] l]|] eqn:Hread; [|done].
  apply read_input_load in Hread as (<- & <- & evs & ->). simpl.
  destruct (schedule _ _ _ _ _) as [s'|] eqn:Hrun; [|done]. simpl.
  intros [= <- <-] Hp. split; [done|]. split; [done|].
  intros row. by apply (report_row_sound _ _ fuel evs).
Qed.

Lemma main_report_sound_witness :
  ∃ rep, main (Some "2 0 3 0 0 2 0 1 2 1"%string) true 20 = Ok (Exit 0 (Some rep)) ∧
    rep_banner rep = Some SJF_banner ∧
    ∀ row, row ∈ rep_rows rep →
      ∃ id a b c resp, row = row_of 2 id a b c resp ∧ id ≤ 1000 ∧ a + b ≤ c.
Proof.
  eexists. split; [vm_compute; reflexivity|].
  apply (main_report_sound "2 0 3 0 0 2 0 1 2 1"%string 20 0); [vm_compute; reflexivity|by vm_compute].
Defined.
