(* ===== verification/Console.v ===== *)
(** * Console: what the program prints on standard output

    The scheduling functions of [src/cpu_scheduling.c] announce three
    things with [printf]: that the running process was blocked, that it
    completed, and that a process left the blocked queue, each with the
    identity of the process and the clock.  [schedule] prints a line that
    names the policy before it calls the function, and [main] and [output]
    print an error when a file cannot be opened.

    The console is a log kept beside the engine state.  What a block
    prints is a function of the state in which it starts
    ([block_or_finish_says], [complete_says], [unblock_says]), and
    [printing] runs a block of [Engine] and appends what it says, so the
    state transitions are those of the engine and not a second copy of
    them.  [tick_out] is the turn of [Generic.tick] with the three
    printing blocks in their places, [schedule_out] the dispatcher with
    its line, [main_out] the program with its two error messages.

    The theorems: forgetting the log gives back [schedule] and [main]
    ([console_erasure]); when a run returns, the completions announced
    are, one for one, the processes of the report with their completion
    times, every process announced as blocked was announced as unblocked
    as many times, and the clock values of the log never decrease
    ([console_spec]). *)

From Stdlib Require Import String.
From S2P Require Import Prelude Process Parse Queue Engine Generic Invariant Lifecycle.
From S2P Require Import Correctness Termination Metrics Bounds Program.

#[local] Open Scope Z_scope.

(** ** Definitions *)

(** The three announcements of the engine:
    "Process %d was blocked at %d!", "Process %d completed at %d" and
    "Process %d was unblocked at %d!". *)
Inductive happening : Type := blocked | completed | unblocked.

#[export] Instance happening_eq_dec : EqDecision happening.
Proof. solve_decision. Defined.

Record notice : Type := mkNotice {
  what : happening;
  who : Z;       (* the first [%d]: a process identity *)
  when : Z       (* the second [%d]: [SYSTEM_TIME] *)
}.

(** A line of standard output. *)
Inductive message : Type :=
  | InputError             (* "Error: Unable to open the file." *)
  | Executing (b : banner) (* "Executing ... Scheduling Policy" *)
  | InvalidPolicy          (* "Invalid Scheduling Policy Selected!" *)
  | Engine (n : notice)
  | OutputError.           (* "Error! Output file did not open." *)

(** The engine state and what has been printed so far. *)
Definition traced : Type := state * list notice.

(** [printf(..., p->processId, SYSTEM_TIME)] through pointer [p]. *)
Definition notice_of (h : happening) (p : nat) (s : state) : notice :=
  mkNotice h (processId (procs s !!! p)) (SYSTEM_TIME s).

(** Lines 339 and 343: the block request announces that the running
    process was blocked, or that it completed. *)
Definition block_or_finish_says (s : state) : list notice :=
  match ref s with
  | None => []
  | Some r =>
      if negb (remainingTime (procs s !!! r) =? 0)
      then [notice_of blocked r s] else [notice_of completed r s]
  end.

(** Line 366. *)
Definition complete_says (s : state) : list notice :=
  match ref s with
  | Some r =>
      if remainingTime (procs s !!! r) =? 0 then [notice_of completed r s] else []
  | None => []
  end.

(** Line 381: [temp] is the head of the blocked queue. *)
Definition unblock_says (s : state) : list notice :=
  match bq s with
  | h :: _ => [notice_of unblocked h s]
  | [] => []
  end.

(** A block that prints: the state changes as the block of [Engine]
    says, and the log grows by what the block says in the state it starts
    from. *)
Definition printing (says : state → list notice) (f : state → res state)
    (c : traced) : res traced :=
  do s <- f c.1;
  Ok (s, c.2 ++ says c.1).

(** A block without [printf]. *)
Definition silent (f : state → res state) (c : traced) : res traced :=
  do s <- f c.1;
  Ok (s, c.2).

Section console.
Context (p : policy) (TIME_QUANTUM : Z).

(** One turn of the arrival loop prints in its block-request branch. *)
Definition arrival_says (s : state) : list notice :=
  let s := if is_rr p then update (data s) (set_firstExecution true) s else s in
  if processId (cur s) >? 1000 then block_or_finish_says s else [].

(** The loop body with its [printf] calls. *)
Definition tick_out (ifuel : nat) (c : traced) : res traced :=
  do c <- silent (λ s, g_idle_wait p ifuel (g_begin p s)) c;
  do c <- while (λ c, arrival_guard c.1)
                (printing arrival_says (g_arrival p TIME_QUANTUM))
                (records_left c.1) c;
  do c <- printing complete_says (λ s, Ok (complete s)) c;
  do c <- silent (g_dispatch p TIME_QUANTUM) c;
  do c <- while (λ c, unblock_guard c.1)
                (printing unblock_says (g_unblock_step p))
                (length (bq c.1)) c;
  silent (λ s, Ok (tick_clock s)) c.

Definition run_out (fuel ifuel : nat) (s : state) : res traced :=
  while (λ c, loop_guard c.1) (tick_out ifuel) fuel (g_enter p TIME_QUANTUM s, []).

End console.

(** The line of [schedule], then the log of the function it calls. *)
Definition engine_out (b : banner) (r : res traced) : res (state * list message) :=
  do c <- r;
  Ok (c.1, Executing b :: (Engine <$> c.2)).

(** [schedule], lines 669-691. *)
Definition schedule_out (SCHEDULING_POLICY TIME_QUANTUM : Z) (fuel ifuel : nat)
    (s : state) : res (state * list message) :=
  if SCHEDULING_POLICY =? 1 then
    engine_out FCFS_banner (run_out FCFS TIME_QUANTUM fuel ifuel s)
  else if SCHEDULING_POLICY =? 2 then
    engine_out SJF_banner (run_out SJF TIME_QUANTUM fuel ifuel s)
  else if SCHEDULING_POLICY =? 3 then
    engine_out SRTN_banner (run_out SRTN TIME_QUANTUM fuel ifuel s)
  else if SCHEDULING_POLICY =? 4 then
    engine_out (RR_banner TIME_QUANTUM) (run_out RR TIME_QUANTUM fuel ifuel s)
  else Ok (s, [InvalidPolicy]).

(** [main] with its console, and the message of [output] when output.txt
    cannot be opened. *)
Definition main_out (input_txt : option string) (output_txt : bool) (fuel : nat)
  : res (outcome * list message) :=
  match input_txt with
  | None => Ok (Exit (-1) None, [InputError])
  | Some fs =>
      do cfg <- read_input fuel fs;
      do c <- schedule_out cfg.1.1 cfg.1.2 fuel fuel (boot cfg.2);
      Ok (output_file output_txt cfg.1.1 cfg.1.2 (procs c.1),
          c.2 ++ (if output_txt then [] else [OutputError]))
  end.

(** *** Reference definitions *)

(** Forgetting the log. *)
Definition erase {A B : Type} (r : res (A * B)) : res A :=
  do c <- r;
  Ok c.1.

(** [f_out] is [f] with a log. *)
Definition erases (f_out : traced → res traced) (f : state → res state) : Prop :=
  ∀ c, erase (f_out c) = f c.1.

(** The completions a log announces, and those the process list records:
    identity and completion time. *)
Definition completion (m : notice) : option (Z * option Z) :=
  if decide (what m = completed) then Some (who m, Some (when m)) else None.

Definition completions (out : list notice) : list (Z * option Z) :=
  omap completion out.

Definition done_row (n : node) : option (Z * option Z) :=
  if isTerminated n then Some (processId n, completionTime n) else None.

Definition done_rows (l : list node) : list (Z * option Z) := omap done_row l.

(** The identities a log announces as [h]. *)
Definition pids (h : happening) (out : list notice) : list Z :=
  who <$> filter (λ m, what m = h) out.

(** The identities of the processes in the blocked queue. *)
Definition queued_ids (s : state) : list Z :=
  (λ i, processId (procs s !!! i)) <$> bq s.

(** The engine messages of a console. *)
Definition engine_log (out : list message) : list notice :=
  omap (λ m, match m with Engine n => Some n | _ => None end) out.

(** Block requests are never terminated. *)
Definition real_done (l : list node) : Prop :=
  Forall (λ n, isTerminated n = true → is_interrupt n = false) l.

(** A step of the engine from [s] to [s'] that prints [ms]: the clock
    does not go back, the notices carry the clock of [s], the PCBs newly
    terminated are real processes and those announced as completed, and
    the blocked queue changes by those announced as blocked and
    unblocked. *)
Record told (ms : list notice) (s s' : state) : Prop := mkTold {
  told_clock : SYSTEM_TIME s ≤ SYSTEM_TIME s';
  told_when : Forall (λ m, when m = SYSTEM_TIME s) ms;
  told_real : real_done (procs s) → real_done (procs s');
  told_done : done_rows (procs s') ≡ₚ done_rows (procs s) ++ completions ms;
  told_queue : queued_ids s' ++ pids unblocked ms ≡ₚ queued_ids s ++ pids blocked ms
}.

(** The log agrees with the state. *)
Record heard (c : traced) : Prop := mkHeard {
  hd_inv : inv c.1;
  hd_real : real_done (procs c.1);
  hd_done : completions c.2 ≡ₚ done_rows (procs c.1);
  hd_queue : pids blocked c.2 ≡ₚ pids unblocked c.2 ++ queued_ids c.1;
  hd_when : Forall (λ m, when m ≤ SYSTEM_TIME c.1) c.2;
  hd_sorted : StronglySorted (λ m m', when m ≤ when m') c.2
}.

(** The fields of a PCB the log speaks of. *)
Definition done_view (n : node) : Z * bool * option Z :=
  (processId n, isTerminated n, completionTime n).

(** A step that terminates nothing and leaves the blocked queue alone. *)
Record hushed (s s' : state) : Prop := mkHushed {
  hu_view : agree done_view (procs s) (procs s');
  hu_bq : bq s' = bq s;
  hu_clock : SYSTEM_TIME s ≤ SYSTEM_TIME s'
}.

(** * Theorems *)

(** ** Erasure *)

Lemma erase_bind {A B C D : Type} (m : res (A * B)) (k : A * B → res (C * D))
    (m' : res A) (k' : A → res C) :
  erase m = m' → (∀ c, erase (k c) = k' c.1) →
  erase (do c <- m; k c) = do a <- m'; k' a.
Proof. intros <- Hk. unfold erase. destruct m as [c|e]; simpl; [apply Hk|done]. Qed.

Lemma printing_erases says f : erases (printing says f) f.
Proof. intros c. unfold erase, printing. by destruct (f c.1). Qed.

Lemma silent_erases f : erases (silent f) f.
Proof. intros c. unfold erase, silent. by destruct (f c.1). Qed.

Lemma erases_Ok f_out f c c' : erases f_out f → f_out c = Ok c' → f c.1 = Ok c'.1.
Proof. intros Hf Hc. by rewrite <-Hf, Hc. Qed.

Lemma erases_Err f_out f c e : erases f_out f → f_out c = Err e → f c.1 = Err e.
Proof. intros Hf Hc. by rewrite <-Hf, Hc. Qed.

(** A loop with a log is the loop. *)
Lemma while_erases guard f_out f fuel :
  erases f_out f →
  erases (while (λ c, guard c.1) f_out fuel) (while guard f fuel).
Proof.
  intros Hf. induction fuel as [|fuel IH]; intros c; simpl;
    (destruct (guard c.1); [|by unfold erase]); [by unfold erase|].
  destruct (f_out c) as [c'|e] eqn:Hc.
  - rewrite (erases_Ok _ _ _ _ Hf Hc). simpl. apply IH.
  - by rewrite (erases_Err _ _ _ _ Hf Hc).
Qed.

Lemma tick_out_erases p tq ifuel : erases (tick_out p tq ifuel) (tick p tq ifuel).
Proof.
  intros c. unfold tick_out, tick.
  apply erase_bind; [apply silent_erases|intros c1].
  apply erase_bind; [apply while_erases, printing_erases|intros c2].
  change (printing complete_says _ c2)
    with (Ok (complete c2.1, c2.2 ++ complete_says c2.1) : res traced).
  rewrite res_bind_ret_l.
  apply erase_bind; [apply silent_erases|intros c4].
  apply erase_bind; [apply while_erases, printing_erases|intros c5].
  exact (silent_erases _ c5).
Qed.

Lemma run_out_erases p tq fuel ifuel s :
  erase (run_out p tq fuel ifuel s) = run p tq fuel ifuel s.
Proof. apply (while_erases loop_guard), tick_out_erases. Qed.

Lemma engine_out_erases b r : erase (engine_out b r) = erase r.
Proof. unfold erase, engine_out. by destruct r. Qed.

Lemma schedule_out_erases n tq fuel ifuel s :
  erase (schedule_out n tq fuel ifuel s) = schedule n tq fuel ifuel s.
Proof.
  rewrite schedule_run. unfold schedule_out, policy_of_Z.
  repeat case_test; rewrite ?engine_out_erases; auto using run_out_erases.
Qed.

Lemma main_out_erases input_txt output_txt fuel :
  erase (main_out input_txt output_txt fuel) = main input_txt output_txt fuel.
Proof.
  unfold main_out, main. destruct input_txt as [fs|]; [|done].
  destruct (read_input fuel fs) as [cfg|e]; [|done]. simpl.
  rewrite <-schedule_out_erases. unfold erase.
  by destruct (schedule_out _ _ _ _ _).
Qed.

(** ** Logs and process lists *)

Lemma completions_app out1 out2 :
  completions (out1 ++ out2) = completions out1 ++ completions out2.
Proof. apply omap_app. Qed.

Lemma pids_app h out1 out2 : pids h (out1 ++ out2) = pids h out1 ++ pids h out2.
Proof. unfold pids. by rewrite filter_app, fmap_app. Qed.

Lemma done_view_fields n n' :
  done_view n' = done_view n →
  processId n' = processId n ∧ isTerminated n' = isTerminated n ∧ done_row n' = done_row n.
Proof. unfold done_row. intros [= -> -> ->]. done. Qed.

Lemma done_rows_view l :
  done_rows l = omap (λ v : Z * bool * option Z, if v.1.2 then Some (v.1.1, v.2) else None)
                     (done_view <$> l).
Proof.
  unfold done_rows. induction l as [|n l IH]; [done|].
  rewrite fmap_cons. cbn [omap list_omap]. rewrite <-IH. reflexivity.
Qed.

Lemma done_rows_agree l l' : agree done_view l l' → done_rows l' = done_rows l.
Proof. unfold agree. intros Hl. by rewrite !done_rows_view, Hl. Qed.

Lemma real_done_agree l l' : agree done_view l l' → real_done l → real_done l'.
Proof.
  intros Hl Hr. apply Forall_lookup_2. intros i n' Hi.
  pose proof (agree_lookup done_view l l' i Hl) as Hv.
  rewrite (list_lookup_total_correct _ _ _ Hi) in Hv.
  destruct (done_view_fields _ _ Hv) as (Hid & Ht & _).
  assert (i < length l)%nat as Hlen.
  { rewrite (agree_length done_view l l' Hl). by eapply lookup_lt_Some. }
  apply (Forall_lookup_total_1 _ _ i) in Hr; [|done].
  unfold is_interrupt in *. rewrite Hid, Ht. done.
Qed.

(** The PCB behind a pointer is terminated at clock [t]: one more row. *)
Lemma done_rows_retire l r t :
  (r < length l)%nat → isTerminated (l !!! r) = false →
  done_rows (alter (terminate t) r l) ≡ₚ done_rows l ++ [(processId (l !!! r), Some t)].
Proof.
  unfold done_rows. revert r. induction l as [|n l IH]; intros [|r]; simpl; try lia.
  - intros _ Hn. replace (done_row n) with (@None (Z * option Z))
      by (unfold done_row; by rewrite Hn).
    apply Permutation_cons_append.
  - intros Hr Ht. specialize (IH r ltac:(lia) Ht).
    destruct (done_row n); simpl; by rewrite IH.
Qed.

Lemma real_done_retire l r t :
  is_interrupt (l !!! r) = false → real_done l → real_done (alter (terminate t) r l).
Proof.
  intros Hr Hl. apply Forall_lookup_2. intros i n' Hi.
  assert (i < length l)%nat as Hlen.
  { apply lookup_lt_Some in Hi. by rewrite length_alter in Hi. }
  rewrite <-(list_lookup_total_correct _ _ _ Hi), list_lookup_total_alter.
  case_decide as Hc; [destruct Hc as [<- _]; by intros _|].
  by apply (Forall_lookup_total_1 _ _ i) in Hl.
Qed.

Lemma agree_done_view_id l l' : agree done_view l l' → agree processId l l'.
Proof.
  unfold agree. intros Hl.
  change processId with ((λ v : Z * bool * option Z, v.1.1) ∘ done_view).
  by rewrite !list_fmap_compose, Hl.
Qed.

Lemma queued_ids_agree s s' :
  agree processId (procs s) (procs s') → bq s' = bq s → queued_ids s' = queued_ids s.
Proof.
  intros Hl Hbq. unfold queued_ids. rewrite Hbq. apply list_fmap_ext. intros _ i _.
  apply (agree_lookup processId _ _ i Hl).
Qed.

Lemma queued_ids_perm s s' q :
  agree processId (procs s) (procs s') → bq s' ≡ₚ q →
  queued_ids s' ≡ₚ (λ i, processId (procs s !!! i)) <$> q.
Proof.
  intros Hl Hq. unfold queued_ids. rewrite Hq.
  rewrite (list_fmap_ext (λ i, processId (procs s' !!! i))
             (λ i, processId (procs s !!! i)) q); [done|].
  intros _ i _. apply (agree_lookup processId _ _ i Hl).
Qed.

(** ** Steps that print nothing *)

#[export] Instance hushed_preorder : PreOrder hushed.
Proof.
  split.
  - intros s. by split.
  - intros s1 s2 s3 [Hv1 Hb1 Hc1] [Hv2 Hb2 Hc2]. split; [by etrans|congruence|lia].
Qed.

Ltac solve_hushed := split; [solve_agree|reflexivity|simpl; lia].

Lemma g_begin_hushed p s : hushed s (g_begin p s).
Proof.
  unfold g_begin.
  assert (∀ s0, hushed s0 (run_tick s0)) as Hrun.
  { intros s0. unfold run_tick. destruct (ref s0); [solve_hushed|done]. }
  assert (∀ s0, hushed s0 (age_blocked s0)) as Hage.
  { intros s0. unfold age_blocked. destruct (isEmpty (bq s0)); [done|solve_hushed]. }
  etrans; [|apply Hage]. etrans; [|apply Hrun].
  unfold quantum_tick. destruct (is_rr p), (IS_CPU_IDLE s); (done || solve_hushed).
Qed.

Lemma g_idle_step_hushed p s s' : g_idle_step p s = Ok s' → hushed s s'.
Proof.
  unfold g_idle_step, rr_idle_step, idle_step.
  destruct (is_rr p), (processId (cur s) >? 1000), (arrivalTime (cur s) =? SYSTEM_TIME s);
    simpl; try destruct (isTerminated (cur s)); simpl; intros [= <-]; solve_hushed.
Qed.

Lemma preempt_check_hushed s s' : preempt_check s = Ok s' → hushed s s'.
Proof.
  unfold preempt_check. destruct (ref s), (rq s); try done.
  destruct (_ >? _); [|by intros [= <-]].
  destruct (dequeue _) as [[x q']|]; simpl; [|done]. intros [= <-]. solve_hushed.
Qed.

Lemma g_admit_hushed p d s s' : g_admit p d s = Ok s' → hushed s s'.
Proof.
  unfold g_admit. destruct (preempts p); [|intros [= <-]; solve_hushed].
  intros H%preempt_check_hushed. etrans; [|exact H]. solve_hushed.
Qed.

Lemma g_take_next_hushed p tq s s' : g_take_next p tq s = Ok s' → hushed s s'.
Proof.
  unfold g_take_next, rr_take_next, take_next.
  destruct (rq s), (is_rr p); simpl; intros [= <-]; solve_hushed.
Qed.

Lemma rr_run_head_hushed tq s s' : rr_run_head tq s = Ok s' → hushed s s'.
Proof.
  unfold rr_run_head. destruct (rq s) as [|x q']; simpl; [done|].
  destruct (firstExecution _); intros [= <-]; solve_hushed.
Qed.

Lemma g_dispatch_hushed p tq s s' : g_dispatch p tq s = Ok s' → hushed s s'.
Proof.
  unfold g_dispatch, rr_dispatch, dispatch. destruct (is_rr p).
  - destruct (IS_CPU_IDLE s && _); [apply rr_run_head_hushed|].
    destruct (quantum s =? 0); simpl; [|by intros [= <-]].
    destruct (isEmpty (rq s)); simpl; [intros [= <-]; solve_hushed|].
    destruct (ref s); [|done]. intros H%rr_run_head_hushed.
    etrans; [|exact H]. solve_hushed.
  - destruct (IS_CPU_IDLE s && _); [|by intros [= <-]].
    destruct (dequeue _) as [[x q']|]; simpl; [|done]. intros [= <-]. solve_hushed.
Qed.

Lemma idle_wait_hushed p ifuel s s' :
  inv s → g_idle_wait p ifuel (g_begin p s) = Ok s' → inv s' ∧ hushed s s'.
Proof.
  intros Hinv. unfold g_idle_wait.
  apply (while_invariant _ _ (λ s1, inv s1 ∧ hushed s s1)).
  - intros s1 s2 [Hinv1 Hh1] Hg Hs2.
    split; [by eapply g_idle_step_inv|]. etrans; [exact Hh1|by eapply g_idle_step_hushed].
  - split; [by apply g_begin_inv|apply g_begin_hushed].
Qed.

(** ** Steps that print *)

Lemma told_hushed s s' : hushed s s' → told [] s s'.
Proof.
  intros [Hv Hb Hc]. split; [done|constructor|by apply real_done_agree|..].
  - by rewrite (done_rows_agree _ _ Hv), app_nil_r.
  - by rewrite (queued_ids_agree s s') by eauto using agree_done_view_id.
Qed.

Lemma told_then ms s s1 s2 : told ms s s1 → hushed s1 s2 → told ms s s2.
Proof.
  intros [Hc Hw Hr Hd Hq] [Hv Hb Hc']. split; [lia|done|..].
  - intros H. by apply (real_done_agree (procs s1)); auto.
  - by rewrite (done_rows_agree _ _ Hv).
  - by rewrite (queued_ids_agree s1 s2) by eauto using agree_done_view_id.
Qed.

Lemma told_after ms s s0 s' :
  hushed s s0 → SYSTEM_TIME s0 = SYSTEM_TIME s → told ms s0 s' → told ms s s'.
Proof.
  intros [Hv Hb _] Ht [Hc Hw Hr Hd Hq]. split; [lia|by rewrite <-Ht|..].
  - intros H. by apply Hr, (real_done_agree (procs s)).
  - by rewrite <-(done_rows_agree _ _ Hv).
  - by rewrite <-(queued_ids_agree s s0) by eauto using agree_done_view_id.
Qed.

Lemma inv_ref_real s r :
  inv s → ref s = Some r →
  (r < length (procs s))%nat ∧ is_interrupt (procs s !!! r) = false ∧
  isTerminated (procs s !!! r) = false.
Proof.
  intros Hinv Hr.
  assert (r ∈ live s) as Hlive by (unfold live; rewrite Hr; set_solver).
  apply (inv_live _ Hinv) in Hlive as (Hrd & Hint & Hterm).
  pose proof (inv_data _ Hinv). split_and!; [lia|done..].
Qed.

(** The running process is finished: one completion is announced. *)
Lemma retired_told s r :
  inv s → ref s = Some r → told [notice_of completed r s] s (retired_state r s).
Proof.
  intros Hinv Hr. destruct (inv_ref_real s r Hinv Hr) as (Hlen & Hint & Hterm).
  split; simpl; [lia|by repeat constructor|by apply real_done_retire|by apply done_rows_retire|].
  rewrite (queued_ids_agree s (retired_state r s)); [done|solve_agree|done].
Qed.

(** The running process is blocked: it enters the blocked queue. *)
Lemma blocked_told s r :
  inv s → ref s = Some r → told [notice_of blocked r s] s (blocked_state r s).
Proof.
  intros Hinv Hr.
  assert (agree done_view (procs s) (procs (blocked_state r s))) as Hv by solve_agree.
  split; [simpl; lia|by repeat constructor|by apply real_done_agree|..].
  - change (completions [notice_of blocked r s]) with (@nil (Z * option Z)).
    by rewrite (done_rows_agree _ _ Hv), app_nil_r.
  - change (pids unblocked [notice_of blocked r s]) with (@nil Z).
    change (pids blocked [notice_of blocked r s]) with [processId (procs s !!! r)].
    rewrite app_nil_r, (queued_ids_perm s _ (r :: bq s));
      [apply Permutation_cons_append|by apply agree_done_view_id|apply priorityBlock_perm].
Qed.

Lemma g_interrupt_told p tq s s' :
  inv s → g_interrupt p tq s = Ok s' → told (block_or_finish_says s) s s'.
Proof.
  intros Hinv. unfold block_or_finish_says.
  destruct (ref s) as [r|] eqn:Hr; [|by unfold g_interrupt, block_or_finish; rewrite Hr].
  rewrite (g_interrupt_unfold _ _ _ _ Hr).
  destruct (_ =? 0); simpl; intros H%g_take_next_hushed;
    (eapply told_then; [|exact H]); [by apply retired_told|by apply blocked_told].
Qed.

Lemma g_arrival_told p tq s s' :
  inv s → g_arrival p tq s = Ok s' → told (arrival_says p s) s s'.
Proof.
  intros Hinv. unfold g_arrival, arrival_says.
  set (s0 := if is_rr p then update (data s) (set_firstExecution true) s else s).
  assert (moved s s0 ∧ hushed s s0 ∧ SYSTEM_TIME s0 = SYSTEM_TIME s) as (Hm & Hh & Ht)
    by (subst s0; destruct (is_rr p); (split_and!; [solve_moved|solve_hushed|done])
                                      || done).
  assert (inv s0) as Hinv0 by (by eapply inv_moved).
  clearbody s0. intros Hs'. apply (told_after _ s s0); [done..|]. revert Hs'.
  destruct (processId (cur s0) >? 1000).
  - destruct (g_interrupt p tq s0) as [s1|] eqn:H1; simpl; [|done]. intros [= <-].
    eapply told_then; [by apply (g_interrupt_told p tq)|solve_hushed].
  - destruct (g_admit p (data s0) s0) as [s1|] eqn:H1; simpl; [|done]. intros [= <-].
    apply told_hushed. etrans; [by eapply g_admit_hushed|solve_hushed].
Qed.

Lemma complete_told s : inv s → told (complete_says s) s (complete s).
Proof.
  intros Hinv. unfold complete, complete_says. destruct (ref s) as [r|] eqn:Hr.
  - destruct (_ =? 0); [by apply retired_told|by apply told_hushed].
  - by apply told_hushed.
Qed.

Lemma g_unblock_step_told p s s' :
  g_unblock_step p s = Ok s' → told (unblock_says s) s s'.
Proof.
  unfold g_unblock_step, unblock_says. destruct (bq s) as [|h b] eqn:Hbq; simpl; [done|].
  intros H%g_admit_hushed. eapply told_then; [|exact H].
  split; simpl; [lia|by repeat constructor|done|by rewrite app_nil_r|].
  unfold queued_ids, pids. simpl. rewrite Hbq, app_nil_r. simpl.
  by rewrite <-Permutation_cons_append.
Qed.

(** ** The log agrees with the state *)

Lemma same_when_sorted ms t :
  Forall (λ m, when m = t) ms → StronglySorted (λ m m', when m ≤ when m') ms.
Proof.
  induction 1 as [|m ms Hm Hms IH]; constructor; [done|].
  eapply Forall_impl; [exact Hms|]. simpl. intros m' Hm'. lia.
Qed.

Lemma heard_told c ms s' : heard c → inv s' → told ms c.1 s' → heard (s', c.2 ++ ms).
Proof.
  intros [_ Hr Hd Hq Hw Hs] Hinv' [Hc' Hw' Hr' Hd' Hq']. split; simpl; [done|auto|..].
  - by rewrite completions_app, Hd, Hd'.
  - rewrite !pids_app, Hq, <-!app_assoc. f_equiv.
    rewrite <-Hq'. apply Permutation_app_comm.
  - apply Forall_app. split.
    + eapply Forall_impl; [exact Hw|]. simpl. intros m Hm. lia.
    + eapply Forall_impl; [exact Hw'|]. simpl. intros m Hm. lia.
  - apply StronglySorted_app. split_and!; [|done|by eapply same_when_sorted].
    intros m1 m2 H1 H2. rewrite Forall_forall in Hw, Hw'.
    specialize (Hw _ H1). specialize (Hw' _ H2). simpl in *. lia.
Qed.

Lemma printing_heard (P : state → Prop) says f c c' :
  (∀ s s', inv s → P s → f s = Ok s' → inv s' ∧ told (says s) s s') →
  heard c → P c.1 → printing says f c = Ok c' → heard c'.
Proof.
  intros Hf Hc HP. unfold printing.
  destruct (f c.1) as [s'|] eqn:Hs'; simpl; [|done]. intros [= <-].
  destruct (Hf _ _ (hd_inv _ Hc) HP Hs'). by apply heard_told.
Qed.

Lemma silent_heard f c c' :
  (∀ s s', inv s → f s = Ok s' → inv s' ∧ hushed s s') →
  heard c → silent f c = Ok c' → heard c'.
Proof.
  intros Hf Hc. unfold silent.
  destruct (f c.1) as [s'|] eqn:Hs'; simpl; [|done]. intros [= <-].
  destruct (Hf _ _ (hd_inv _ Hc) Hs') as [Hinv' Hh%told_hushed].
  rewrite <-(app_nil_r c.2). by apply heard_told.
Qed.

(** ** The turn and the run *)

Section log.
Context (p : policy) (tq : Z).

Lemma tick_out_heard ifuel c c' : heard c → tick_out p tq ifuel c = Ok c' → heard c'.
Proof.
  intros Hc. unfold tick_out.
  intros (c1 & H1 & (c2 & H2 & (c3 & H3 & (c4 & H4 & (c5 & H5 & H6)%res_bind_Ok
         )%res_bind_Ok)%res_bind_Ok)%res_bind_Ok)%res_bind_Ok.
  apply silent_heard in H1; [|eauto using idle_wait_hushed|done].
  apply (while_invariant _ _ heard) in H2; [|intros a b Ha Hg|done].
  2:{ apply (printing_heard (λ s, arrival_guard s = true)); [|done..].
      eauto using g_arrival_inv, g_arrival_told. }
  apply (printing_heard (λ _, True)) in H3; [| |done..].
  2:{ intros s s' Hinv _ [= <-]. eauto using complete_inv, complete_told. }
  apply silent_heard in H4; [| |done].
  2:{ intros s s' Hinv Hs'. split; [|by eapply g_dispatch_hushed].
      eapply inv_moved; [done|]. eapply g_dispatch_moved; [apply Hinv|done]. }
  apply (while_invariant _ _ heard) in H5; [|intros a b Ha Hg|done].
  2:{ apply (printing_heard (λ _, True)); [|done..].
      intros s s' Hinv _ Hs'. split; [|by eapply g_unblock_step_told].
      eapply inv_moved; [done|by eapply g_unblock_step_moved]. }
  apply silent_heard in H6; [done| |done].
  intros s s' Hinv [= <-]. split; [|solve_hushed].
  eapply inv_moved; [done|apply tick_clock_moved].
Qed.

Lemma done_rows_none l : Forall (λ n, isTerminated n = false) l → done_rows l = [].
Proof.
  unfold done_rows. induction 1 as [|n l Hn _ IH]; [done|].
  simpl. unfold done_row at 1. by rewrite Hn.
Qed.

Lemma enter_heard s : initial s → heard (g_enter p tq s, []).
Proof.
  intros Hinit. pose proof Hinit as (Hrq & Hbq & Hterm).
  split; simpl; [by apply enter_inv|..|constructor|constructor].
  - rewrite g_enter_procs. eapply Forall_impl; [exact Hterm|]. simpl. congruence.
  - by rewrite g_enter_procs, done_rows_none.
  - unfold queued_ids. replace (bq (g_enter p tq s)) with (bq s); [by rewrite Hbq|].
    unfold g_enter. by destruct (is_rr p).
Qed.

Lemma run_out_heard fuel ifuel s c' :
  initial s → run_out p tq fuel ifuel s = Ok c' → heard c' ∧ loop_guard c'.1 = false.
Proof.
  intros Hinit Hrun. split; [|by apply while_exit in Hrun].
  eapply (while_invariant _ _ heard); [|by apply enter_heard|exact Hrun].
  intros c1 c2 Hc1 _. by apply tick_out_heard.
Qed.

End log.

(** ** The console of [schedule] *)

Lemma engine_log_engine b log : engine_log (Executing b :: (Engine <$> log)) = log.
Proof.
  unfold engine_log. simpl. induction log as [|m log IH]; [done|].
  rewrite fmap_cons. simpl. by rewrite IH.
Qed.

Lemma schedule_out_Ok n tq fuel ifuel s s' out :
  1 ≤ n ≤ 4 → schedule_out n tq fuel ifuel s = Ok (s', out) →
  ∃ p b log, policy_of_Z n = Some p ∧ banner_of n tq = Some b ∧
    run_out p tq fuel ifuel s = Ok (s', log) ∧ out = Executing b :: (Engine <$> log).
Proof.
  intros Hn. unfold schedule_out, engine_out, policy_of_Z, banner_of.
  repeat case_test; try lia;
    intros ([s1 log] & Hrun & [= <- <-])%res_bind_Ok; eauto 10.
Qed.

(** When the loop has ended, the rows of the terminated PCBs are the rows
    of the real processes. *)
Lemma done_rows_real l :
  real_done l →
  (∀ i, (i < length l)%nat → is_interrupt (l !!! i) = false → isTerminated (l !!! i) = true) →
  done_rows l = (λ n, (processId n, completionTime n)) <$> real l.
Proof.
  unfold done_rows, real. induction 1 as [|n l Hn Hl IH]; intros Hall; [done|].
  specialize (IH (λ i Hi, Hall (S i) ltac:(simpl; lia))).
  specialize (Hall 0%nat ltac:(simpl; lia)). simpl in Hall.
  rewrite filter_cons. cbn [omap list_omap]. rewrite IH. unfold done_row.
  destruct (is_interrupt n) eqn:Hint, (isTerminated n) eqn:Ht;
    rewrite ?decide_True, ?decide_False by done; naive_solver.
Qed.

Lemma run_out_spec p tq fuel ifuel evs s' log :
  run_out p tq fuel ifuel (boot (load evs)) = Ok (s', log) →
  completions log ≡ₚ (λ n, (processId n, completionTime n)) <$> real (procs s') ∧
  pids blocked log ≡ₚ pids unblocked log ∧
  StronglySorted (λ m m', when m ≤ when m') log.
Proof.
  intros [[Hinv Hr Hd Hq Hw Hs] Hg]%run_out_heard; [|apply boot_initial]. simpl in *.
  pose proof Hg as (_ & _ & _ & Hbq)%loop_guard_false. split_and!; [| |done].
  - rewrite Hd, (done_rows_real (procs s')); [done..|].
    intros i Hi Hint. by apply exit_all_terminated.
  - rewrite Hq. unfold queued_ids. rewrite Hbq. simpl. by rewrite app_nil_r.
Qed.

(** The program with its console is the program: forgetting the log
    of [schedule_out] gives [schedule], and forgetting that of [main_out]
    gives [main], results and errors alike. *)
Theorem console_erasure (n tq : Z) (fuel ifuel : nat) (s : state)
    (input_txt : option string) (output_txt : bool) :
  erase (schedule_out n tq fuel ifuel s) = schedule n tq fuel ifuel s ∧
  erase (main_out input_txt output_txt fuel) = main input_txt output_txt fuel.
Proof. split; [apply schedule_out_erases|apply main_out_erases]. Qed.

(** C11: when [schedule] returns under one of the four policies, the
    console shows the line of the policy and then the log of the engine,
    in which the completions announced are, one for one, the real
    processes of the list with the completion times of the report, every
    process announced as blocked is announced as unblocked as many times,
    and the clock values never decrease. *)
Theorem console_spec (n tq : Z) (fuel ifuel : nat) (evs : list event)
    (s' : state) (out : list message) :
  1 ≤ n ≤ 4 → schedule_out n tq fuel ifuel (boot (load evs)) = Ok (s', out) →
  head out = Executing <$> banner_of n tq ∧
  out = default InvalidPolicy (head out) :: (Engine <$> engine_log out) ∧
  completions (engine_log out)
    ≡ₚ (λ m, (processId m, completionTime m)) <$> real (procs s') ∧
  pids blocked (engine_log out) ≡ₚ pids unblocked (engine_log out) ∧
  StronglySorted (λ m m', when m ≤ when m') (engine_log out).
Proof.
  intros Hn (p & b & log & _ & Hb & Hrun & ->)%schedule_out_Ok; [|done].
  rewrite engine_log_engine, Hb. split_and!; [done..| | |]; by eapply run_out_spec.
Qed.

Lemma console_spec_witness :
  ∃ s' out, schedule_out 1 0 30 30 (boot (load sample_events)) = Ok (s', out) ∧
    out = [Executing FCFS_banner; Engine (mkNotice blocked 1 2);
           Engine (mkNotice completed 2 5); Engine (mkNotice unblocked 1 5);
           Engine (mkNotice completed 1 8)] ∧
    completions (engine_log out)
      ≡ₚ (λ m, (processId m, completionTime m)) <$> real (procs s').
Proof.
  destruct (schedule_out 1 0 30 30 (boot (load sample_events))) as [[s' out]|e] eqn:Hrun.
  - exists s', out. split; [done|]. split.
    + vm_compute in Hrun. by injection Hrun as _ <-.
    + apply (console_spec 1 0 30 30 sample_events s' out); [lia|done].
  - vm_compute in Hrun. discriminate Hrun.
Defined.

(** When input.txt cannot be opened the message of [main] is all there
    is; when output.txt cannot, the schedule has run and its log is on the
    console, followed by the message of [output]; for a policy number
    outside 1..4 [schedule] prints its message and leaves the list as it
    is. *)
Example console_of_main :
  main_out None true 30 = Ok (Exit (-1) None, [InputError]) ∧
  main_out (Some (print_input 1 0 sample_events)) false 30 =
    Ok (Exit 1 None,
        [Executing FCFS_banner; Engine (mkNotice blocked 1 2);
         Engine (mkNotice completed 2 5); Engine (mkNotice unblocked 1 5);
         Engine (mkNotice completed 1 8); OutputError]) ∧
  schedule_out 7 0 30 30 (boot (load sample_events)) =
    Ok (boot (load sample_events), [InvalidPolicy]).
Proof. by vm_compute. Qed.
