(* ===== verification/Divergence.v ===== *)
(** * Divergence: the arrival that is never admitted

    The idle wait of the four functions starts the process under the
    cursor only when its arrival time equals the clock.  The arrival loop
    admits a record only while the CPU is busy.  So a process that arrives
    in the tick in which a block request has just emptied the CPU is not
    admitted in that tick, and one tick later the idle wait finds its
    arrival time in the past: it advances the clock for ever.  The same
    happens to a process that arrives in the tick after a blocked process
    was released on an idle CPU: the turn starts with an idle CPU and a
    ready process, so the idle wait does not run and the arrival loop
    does not either.

    A second way not to end: a process with burst time 0 that waits in the
    ready queue is dispatched after the completion test of its tick, loses
    one unit at the start of the next and goes on with a negative
    remaining time, which the test [remainingTime == 0] never meets.

    [missed] and [runaway] are the tests for the two states,
    [never_returns] says that no amount of fuel lets the outer loop
    return.  The theorems show that both states are traps of the loop, and
    give the shortest inputs that reach them. *)

From S2P Require Import Prelude Process Queue Engine Generic Invariant Lifecycle Correctness.

#[local] Open Scope Z_scope.

(** ** Definitions *)

(** The CPU is idle, nothing is ready, and the record under the cursor is
    a process whose arrival time is in the past. *)
Definition missed (s : state) : bool :=
  idle_guard s && negb (is_interrupt (cur s)) && (arrivalTime (cur s) <? SYSTEM_TIME s).

(** The outer loop of policy [p] does not return from [s], whatever the
    fuel of the loops. *)
Definition never_returns (p : policy) (tq : Z) (s : state) : Prop :=
  ∀ fuel ifuel s', while loop_guard (tick p tq ifuel) fuel s ≠ Ok s'.

(** Every record has been read, nobody is blocked, and the running
    process has no time left at the start of a turn; under Round Robin
    nobody is ready either. *)
Definition runaway (p : policy) (s : state) : bool :=
  negb (has_data s) && (isEmpty (rq s) || negb (is_rr p)) && isEmpty (bq s) &&
  negb (IS_CPU_IDLE s) &&
  match ref s with
  | Some r => bool_decide (r < length (procs s))%nat && (remainingTime (procs s !!! r) <=? 0)
  | None => false
  end.

(** A runaway state: the only process was loaded with burst time 0 and
    has been dispatched. *)
Definition zero_left : state :=
  mkState [mkNode 1 0 0 None None None 0 0 false false 0] 1 (Some 0%nat) [] [] 3 false 0.

(** A process, a block request for it at tick 2, and a second process
    that arrives in the same tick. *)
Definition missed_events : list event :=
  [mkEvent 0 4 0; mkEvent 2 3 1; mkEvent 2 5 0].

(** The state of FCFS on [missed_events] after [k] turns. *)
Definition missed_after (k : nat) : state :=
  Nat.iter k (λ s, final_of (fcfs_iter 5 s)) (enter (boot (load missed_events))).

(** Two processes, a block request for the first at tick 1, and a third
    process that arrives at tick 4: the second process completes at
    tick 3, the first is released in that tick on an idle CPU, and tick 4
    starts with an idle CPU and a ready process. *)
Definition late_release_events : list event :=
  [mkEvent 0 5 0; mkEvent 0 2 0; mkEvent 1 2 1; mkEvent 4 1 0].

(** A process with burst time 0 that arrives while the CPU is busy. *)
Definition zero_burst_events : list event := [mkEvent 0 2 0; mkEvent 1 0 0].

(** * Theorems *)

Lemma missed_true s :
  missed s = true ↔
  idle_guard s = true ∧ is_interrupt (cur s) = false ∧ arrivalTime (cur s) < SYSTEM_TIME s.
Proof. unfold missed. rewrite !andb_true_iff, negb_true_iff, Z.ltb_lt. naive_solver. Qed.

Lemma missed_step p s :
  missed s = true →
  g_idle_step p s = Ok (set_time (SYSTEM_TIME s + 1) s) ∧
  missed (set_time (SYSTEM_TIME s + 1) s) = true.
Proof.
  intros (Hg & Hint & Harr)%missed_true. split.
  - unfold is_interrupt in Hint. unfold g_idle_step, rr_idle_step, idle_step. rewrite Hint.
    replace (arrivalTime (cur s) =? SYSTEM_TIME s) with false by lia.
    by destruct (is_rr p).
  - apply missed_true. split_and!; [exact Hg|exact Hint|].
    change (arrivalTime (cur s) < SYSTEM_TIME s + 1). lia.
Qed.

Lemma idle_wait_missed p ifuel s :
  missed s = true → g_idle_wait p ifuel s = Err OutOfFuel.
Proof.
  unfold g_idle_wait. revert s. induction ifuel as [|ifuel IH]; intros s Hm;
    pose proof Hm as (Hg & _)%missed_true; simpl; rewrite Hg; [done|].
  destruct (missed_step p s Hm) as [-> Hm']. simpl. by apply IH.
Qed.

(** With the CPU idle, the start of a turn only ages the blocked queue. *)
Lemma g_begin_idle p s :
  inv s → IS_CPU_IDLE s = true → g_begin p s = age_blocked s.
Proof.
  intros Hinv Hidle. unfold g_begin, quantum_tick, run_tick.
  destruct (inv_idle _ Hinv) as [Hr _]. rewrite Hidle. destruct (is_rr p); by rewrite (Hr Hidle).
Qed.

Lemma g_begin_missed p s : inv s → missed s = true → missed (g_begin p s) = true.
Proof.
  intros Hinv (Hg & Hint & Harr)%missed_true. apply idle_guard_true in Hg as (Hd & Hidle & Hrq).
  rewrite g_begin_idle by done. pose proof (age_blocked_evolves s Hinv) as Hev.
  pose proof (evolves_static _ _ (data s) Hev) as [= Hid Ha _].
  apply missed_true. unfold age_blocked in *. destruct (isEmpty (bq s)).
  - split_and!; [by apply idle_guard_true|done..].
  - unfold is_interrupt, cur, idle_guard, has_data in *. simpl in *.
    rewrite deduct_length, Hid, Ha, Hd, Hidle, Hrq. done.
Qed.

Lemma tick_missed p tq ifuel s :
  inv s → missed s = true → tick p tq ifuel s = Err OutOfFuel.
Proof.
  intros Hinv Hm. unfold tick. by rewrite (idle_wait_missed p ifuel _ (g_begin_missed p s Hinv Hm)).
Qed.

(** A set of states that the outer loop cannot leave and in which its
    guard holds is a trap: no run from it returns. *)
Lemma trap_never_returns p tq (T : state → Prop) :
  (∀ s, T s → loop_guard s = true) →
  (∀ s ifuel s', T s → tick p tq ifuel s = Ok s' → T s') →
  ∀ s, T s → never_returns p tq s.
Proof.
  intros Hguard Hstep s Hs fuel ifuel. revert s Hs.
  induction fuel as [|fuel IH]; intros s Hs s'; simpl; rewrite (Hguard s Hs); [done|].
  destruct (tick p tq ifuel s) as [s1|] eqn:Ht; [|done]. simpl. eauto.
Qed.

Lemma missed_never_returns p tq s : inv s → missed s = true → never_returns p tq s.
Proof.
  intros Hinv Hm. apply (trap_never_returns p tq (λ s, inv s ∧ missed s = true)); [| |done].
  - intros s1 [_ (Hg & _)%missed_true]. apply idle_guard_true in Hg as (Hd & _).
    unfold loop_guard. by rewrite Hd.
  - intros s1 ifuel s' [Hinv1 Hm1]. by rewrite tick_missed.
Qed.

Lemma runaway_true p s :
  runaway p s = true ↔
  has_data s = false ∧ (rq s = [] ∨ is_rr p = false) ∧ bq s = [] ∧ IS_CPU_IDLE s = false ∧
  ∃ r, ref s = Some r ∧ (r < length (procs s))%nat ∧ remainingTime (procs s !!! r) ≤ 0.
Proof.
  unfold runaway.
  rewrite !andb_true_iff, orb_true_iff, !negb_true_iff, !isEmpty_true.
  destruct (ref s) as [r|]; [|naive_solver].
  rewrite andb_true_iff, bool_decide_eq_true, Z.leb_le. naive_solver.
Qed.

(** The start of a turn in a runaway state: the remaining time goes
    below 0. *)
Lemma g_begin_runaway p s :
  runaway p s = true → runaway p (g_begin p s) = true ∧
  ∃ r, ref (g_begin p s) = Some r ∧ remainingTime (procs (g_begin p s) !!! r) < 0.
Proof.
  intros (Hd & Hrq & Hbq & Hidle & r & Hr & Hlt & Hrem)%runaway_true.
  assert (∃ q, g_begin p s = set_quantum q (update r dec_remainingTime s)) as [q ->].
  { unfold g_begin, age_blocked, run_tick, quantum_tick. rewrite Hidle.
    destruct (is_rr p); cbn [ref set_quantum]; rewrite Hr;
      cbn [bq set_quantum update set_procs]; rewrite Hbq;
      [by eexists|exists (quantum s); by destruct s]. }
  assert (remainingTime (alter dec_remainingTime r (procs s) !!! r) < 0) as Hneg.
  { rewrite list_lookup_total_alter, decide_True by done. simpl. lia. }
  split; [apply runaway_true; unfold has_data in *|]; cbn [ref bq rq procs data IS_CPU_IDLE
    set_quantum update set_procs]; rewrite ?length_alter; [split_and!; [done..|]|];
    exists r; repeat split; (done || lia).
Qed.

Lemma g_dispatch_runaway p tq s :
  IS_CPU_IDLE s = false → rq s = [] ∨ is_rr p = false →
  ∃ q, g_dispatch p tq s = Ok (set_quantum q s).
Proof.
  intros Hidle Hrq. unfold g_dispatch, rr_dispatch, dispatch. rewrite Hidle. simpl.
  destruct (is_rr p); [|exists (quantum s); by destruct s].
  destruct Hrq as [->|]; [|done]. simpl. rewrite andb_false_r, andb_true_r.
  destruct (quantum s =? 0); [by eexists|exists (quantum s); by destruct s].
Qed.

Lemma tick_runaway p tq ifuel s :
  runaway p s = true → ∃ s', tick p tq ifuel s = Ok s' ∧ runaway p s' = true.
Proof.
  intros (Hrun & r & Hr & Hneg)%g_begin_runaway. unfold tick, g_idle_wait.
  set (s1 := g_begin p s) in *.
  apply runaway_true in Hrun as Hrun'. destruct Hrun' as (Hd & Hrq & Hbq & Hidle & _).
  rewrite while_false by (unfold idle_guard; by rewrite Hd). simpl.
  rewrite while_false by (unfold arrival_guard; by rewrite Hd). simpl.
  assert (complete s1 = s1) as ->.
  { unfold complete. rewrite Hr.
    by replace (remainingTime (procs s1 !!! r) =? 0) with false by lia. }
  destruct (g_dispatch_runaway p tq s1 Hidle Hrq) as [q ->]. simpl.
  rewrite while_false by (unfold unblock_guard; simpl; by rewrite Hbq). simpl.
  eexists. split; [done|]. exact Hrun.
Qed.

Lemma runaway_never_returns p tq s : runaway p s = true → never_returns p tq s.
Proof.
  apply (trap_never_returns p tq (λ s, runaway p s = true)).
  - intros s1 (_ & _ & _ & _ & r & Hr & _)%runaway_true.
    unfold loop_guard. rewrite Hr. simpl. by rewrite orb_true_r.
  - intros s1 ifuel s' Hs1 Ht. destruct (tick_runaway p tq ifuel s1 Hs1) as (s2 & Ht2 & Hs2).
    congruence.
Qed.

(** A turn that returns returns the same state with any fuel. *)
Lemma tick_fuel_indep p tq i j s a b :
  tick p tq i s = Ok a → tick p tq j s = Ok b → a = b.
Proof.
  unfold tick. intros Ha Hb.
  destruct (g_idle_wait p i (g_begin p s)) as [s1|] eqn:H1; [|done].
  destruct (g_idle_wait p j (g_begin p s)) as [s2|] eqn:H2; [|done].
  assert (s1 = s2) as ->; [|congruence].
  unfold g_idle_wait in *.
  apply (while_fuel_mono _ _ _ (i `max` j)) in H1; [|lia|done].
  apply (while_fuel_mono _ _ _ (i `max` j)) in H2; [|lia|done]. congruence.
Qed.

Lemma never_returns_step p tq N s t :
  inv s → loop_guard s = true → tick p tq N s = Ok t →
  (inv t → never_returns p tq t) → never_returns p tq s.
Proof.
  intros Hinv Hg Ht Hnever fuel ifuel s' Hrun.
  destruct fuel as [|fuel]; simpl in Hrun; rewrite Hg in Hrun; [done|].
  bind_inv Hrun. assert (a = t) as -> by eauto using tick_fuel_indep.
  eapply Hnever; [by eapply tick_inv_aux|done].
Qed.

(** One turn of a concrete run that cannot return. *)
Ltac turn :=
  eapply (never_returns_step _ _ 5);
    [try done | reflexivity | vm_compute; reflexivity | intros ?].

Lemma missed_events_never_return p :
  never_returns p 2 (g_enter p 2 (boot (load missed_events))).
Proof.
  pose proof (enter_inv p 2 _ (boot_initial missed_events)).
  destruct p; do 3 turn; by apply missed_never_returns.
Qed.

Lemma late_release_events_never_return p :
  preempts p = false → never_returns p 2 (g_enter p 2 (boot (load late_release_events))).
Proof.
  pose proof (enter_inv p 2 _ (boot_initial late_release_events)).
  destruct p; [|..|done|]; intros _; do 9 turn; by apply missed_never_returns.
Qed.

Lemma zero_burst_events_never_return p :
  preempts p = false → never_returns p 2 (g_enter p 2 (boot (load zero_burst_events))).
Proof.
  pose proof (enter_inv p 2 _ (boot_initial zero_burst_events)).
  destruct p; [|..|done|]; intros _; do 3 turn; apply runaway_never_returns;
    vm_compute; reflexivity.
Qed.

(** When the record under the cursor is a process whose arrival time
    is already in the past while the CPU is idle and nothing is ready, the
    idle wait of each of the four functions never ends: every turn only
    advances the clock, whatever the fuel. *)
Theorem idle_wait_spins (ifuel : nat) (s : state) :
  missed s = true →
  idle_wait ifuel s = Err OutOfFuel ∧ rr_idle_wait ifuel s = Err OutOfFuel.
Proof.
  intros Hm. split; [apply (idle_wait_missed FCFS)|apply (idle_wait_missed RR)]; done.
Qed.

Lemma idle_wait_spins_witness :
  idle_wait 7 (mkState sample_procs 2 None [] [] 9 true 0) = Err OutOfFuel ∧
  rr_idle_wait 7 (mkState sample_procs 2 None [] [] 9 true 0) = Err OutOfFuel.
Proof.
  apply (idle_wait_spins 7 (mkState sample_procs 2 None [] [] 9 true 0)).
  reflexivity.
Defined.

(** A loop body entered with a missed arrival under the cursor does
    not return, under any of the four policies. *)
Theorem loop_bodies_stuck_on_missed (n tq : Z) (ifuel : nat) (s : state) :
  1 ≤ n ≤ 4 → inv s → missed s = true →
  loop_body n tq ifuel s = Err OutOfFuel.
Proof.
  intros [p Hp]%policy_of_Z_range Hinv Hm.
  rewrite (loop_body_tick _ _ _ _ _ Hp). by apply tick_missed.
Qed.

Lemma missed_after_inv : inv (missed_after 3).
Proof.
  apply (tick_inv_aux FCFS 0 5 (missed_after 2)); [|vm_compute; reflexivity].
  apply (tick_inv_aux FCFS 0 5 (missed_after 1)); [|vm_compute; reflexivity].
  apply (tick_inv_aux FCFS 0 5 (missed_after 0)); [|vm_compute; reflexivity].
  apply (enter_inv FCFS 0), boot_initial.
Qed.

Lemma loop_bodies_stuck_on_missed_witness :
  loop_body 1 0 9 (missed_after 3) = Err OutOfFuel.
Proof.
  apply (loop_bodies_stuck_on_missed 1 0 9 (missed_after 3));
    [lia|apply missed_after_inv|reflexivity].
Defined.

(** C26: two inputs on which [schedule] never returns, whatever the fuel of
    the outer loop and of the idle wait.  On a process, a block request
    for it at tick 2 and a second process that arrives at tick 2, under
    every policy: the second process is not admitted in its tick.  On two
    processes, a block request at tick 1 and a third process at tick 4,
    under FCFS, SJF and Round Robin: tick 4 starts with an idle CPU and
    the released process in the ready queue, and the third process is not
    admitted.  The clock of the model is an unbounded integer: on the
    machine the run goes on until [SYSTEM_TIME] overflows. *)
Theorem schedule_diverges_on_missed_arrival (n : Z) (fuel ifuel : nat) :
  1 ≤ n ≤ 4 →
  ¬ is_Ok (schedule n 2 fuel ifuel (boot (load missed_events))) ∧
  (n ≠ 3 → ¬ is_Ok (schedule n 2 fuel ifuel (boot (load late_release_events)))).
Proof.
  intros [p Hp]%policy_of_Z_range. rewrite !(schedule_run_policy _ _ _ _ _ _ Hp).
  split; [|intros Hn]; intros [s' Hrun].
  - by eapply missed_events_never_return.
  - eapply (late_release_events_never_return p); [|exact Hrun].
    apply policy_of_Z_Some in Hp. destruct p; (done || lia).
Qed.

Lemma schedule_diverges_on_missed_arrival_witness :
  ¬ is_Ok (schedule 1 2 1000 1000 (boot (load missed_events))) ∧
  ¬ is_Ok (schedule 1 2 1000 1000 (boot (load late_release_events))).
Proof.
  destruct (schedule_diverges_on_missed_arrival 1 1000 1000) as [Hmissed Hlate]; [lia|].
  split; [exact Hmissed|]. apply Hlate. lia.
Defined.

(** Once every record is read and nobody is blocked, a running
    process with no remaining time at the start of a turn is never
    completed (under Round Robin, when nobody else is ready): the loop
    body returns a state of the same kind, with the remaining time one
    lower. *)
Theorem loop_bodies_keep_runaway (n tq : Z) (ifuel : nat) (s : state) (p : policy) :
  policy_of_Z n = Some p → runaway p s = true →
  ∃ s', loop_body n tq ifuel s = Ok s' ∧ runaway p s' = true.
Proof.
  intros Hp Hs. rewrite (loop_body_tick _ _ _ _ _ Hp). by apply tick_runaway.
Qed.

Lemma loop_bodies_keep_runaway_witness :
  ∃ s', loop_body 1 0 5 zero_left = Ok s' ∧ runaway FCFS s' = true.
Proof.
  apply (loop_bodies_keep_runaway 1 0 5 zero_left FCFS); vm_compute; reflexivity.
Defined.

(** C27: on the input of a process with burst 2 and a process with
    burst 0 that arrives at tick 1, [schedule] does not return under FCFS,
    SJF and Round Robin (taken with quantum 2): the second process is
    dispatched after the completion test and runs with a negative
    remaining time for ever.  The integers of the model are unbounded: on
    the machine the run goes on until [remainingTime] or [SYSTEM_TIME]
    overflows. *)
Theorem schedule_diverges_on_zero_burst (n : Z) (fuel ifuel : nat) :
  n = 1 ∨ n = 2 ∨ n = 4 →
  ¬ is_Ok (schedule n 2 fuel ifuel (boot (load zero_burst_events))).
Proof.
  intros Hn [s' Hrun].
  assert (∃ p, policy_of_Z n = Some p ∧ preempts p = false) as (p & Hp & Hpre).
  { destruct Hn as [->|[->| ->]]; [by exists FCFS|by exists SJF|by exists RR]. }
  rewrite (schedule_run_policy _ _ _ _ _ _ Hp) in Hrun.
  by eapply zero_burst_events_never_return.
Qed.

Lemma schedule_diverges_on_zero_burst_witness :
  ¬ is_Ok (schedule 4 2 1000 1000 (boot (load zero_burst_events))).
Proof. apply (schedule_diverges_on_zero_burst 4 1000 1000). auto. Defined.
