(* ===== verification/Scenarios.v ===== *)
(** * Scenarios: the program on concrete inputs

    The whole program after parsing ([Metrics.simulate]) evaluated on the
    scenarios of the specification and on the smallest inputs that show
    where the code and the specification part.  Every statement is closed
    and proved by evaluation: the numbers are those the model computes.

    A row of a table is (process id, completion time, waiting time,
    turnaround time, response time); the two averages are waiting time,
    then turnaround time, as fractions sum # count. *)

From Stdlib Require Import QArith.
From S2P Require Import Prelude Process Queue Engine Generic Invariant Lifecycle.
From S2P Require Import Correctness Metrics.

#[local] Open Scope Z_scope.

(** ** Definitions *)

Definition row : Type := Z * option Z * option Z * option Z * Z.

Definition summary (n : node) : row :=
  (processId n, completionTime n, waitingTime n, turnAroundTime n, responseTime n).

(** The table and the averages of the report. *)
Definition table (policy tq : Z) (fuel : nat) (evs : list event)
  : res (list row * (average * average)) :=
  do r <- simulate policy tq fuel evs;
  Ok (summary <$> real r.1, averages r.2).

(** Scenario 1: arrivals (0,5) and (1,3). *)
Definition scenario1 : list event := [mkEvent 0 5 0; mkEvent 1 3 0].

(** Scenario 2: arrivals (0,4) and (0,3). *)
Definition scenario2 : list event := [mkEvent 0 4 0; mkEvent 0 3 0].

(** Scenario 3: arrivals (0,5) and (2,1). *)
Definition scenario3 : list event := [mkEvent 0 5 0; mkEvent 2 1 0].

(** Scenario 4: arrival (0,4) and a block request of duration 3 at
    tick 2. *)
Definition scenario4 : list event := [mkEvent 0 4 0; mkEvent 2 3 1].

(** Two processes under Round Robin and a block request at tick 3 that
    blocks the second one, so that the first, which has run before, is
    dispatched by the block-request branch. *)
Definition rr_block_events : list event :=
  [mkEvent 0 4 0; mkEvent 0 3 0; mkEvent 3 5 1].

(** Two processes blocked at ticks 1 and 4 for 5 and 2 ticks: both are
    released in tick 6. *)
Definition release_order_events : list event :=
  [mkEvent 0 10 0; mkEvent 0 10 0; mkEvent 1 5 1; mkEvent 4 2 1].

(** A process blocked at tick 2 for 3 ticks, and a second process that
    arrives at tick 10. *)
Definition idle_gap_events : list event :=
  [mkEvent 0 4 0; mkEvent 2 3 1; mkEvent 10 1 0].

(** A short process, then two processes that arrive together at tick 3,
    when the CPU has been idle for two ticks. *)
Definition rr_idle_events : list event :=
  [mkEvent 0 1 0; mkEvent 3 4 0; mkEvent 3 4 0].

(** A process of burst 3, and two processes that arrive at ticks 4 and 5,
    after the CPU has been idle: every burst is at most 5. *)
Definition rr_leftover_events : list event :=
  [mkEvent 0 3 0; mkEvent 4 5 0; mkEvent 5 1 0].

(** * Theorems *)

(** The first three scenarios of the specification.  Scenario 1
    under FCFS: process 1 completes at 5 with waiting time 0 and
    turnaround 5, process 2 at 8 with waiting time 4 and turnaround 7; the
    averages are 4/2 and 12/2.  Scenario 2 under Round Robin with quantum
    2: process 1 completes at 6 (waiting 2, turnaround 6, response 0),
    process 2 at 7 (waiting 4, turnaround 7, response 2).  Scenario 3
    under SRTN: the process arriving at tick 2 with burst 1 preempts the
    running one and completes at 3; the preempted process resumes and
    completes at 6. *)
Example spec_scenarios :
  table 1 0 50 scenario1 =
    Ok ([(1, Some 5, Some 0, Some 5, 0); (2, Some 8, Some 4, Some 7, 0)],
        (Avg (4 # 2), Avg (12 # 2))) ∧
  table 4 2 50 scenario2 =
    Ok ([(1, Some 6, Some 2, Some 6, 0); (2, Some 7, Some 4, Some 7, 2)],
        (Avg (6 # 2), Avg (13 # 2))) ∧
  table 3 0 50 scenario3 =
    Ok ([(1, Some 6, Some 1, Some 6, 0); (2, Some 3, Some 0, Some 1, 0)],
        (Avg (1 # 2), Avg (7 # 2))).
Proof. vm_compute. done. Qed.

(** Scenario 4 under FCFS, SJF and Round Robin: the blocked process
    completes at tick 8 with turnaround 8, one tick later than a release
    at tick 5 followed by two ticks of CPU would give: the release is
    queued after the dispatch step of its tick, so the process is
    dispatched only in the next tick. *)
Example scenario4_completes_at_8 :
  table 1 0 50 scenario4 = Ok ([(1, Some 8, Some 4, Some 8, 0)], (Avg 4, Avg 8)) ∧
  table 2 0 50 scenario4 = Ok ([(1, Some 8, Some 4, Some 8, 0)], (Avg 4, Avg 8)) ∧
  table 4 2 50 scenario4 = Ok ([(1, Some 8, Some 4, Some 8, 0)], (Avg 4, Avg 8)).
Proof. vm_compute. done. Qed.

(** Scenario 4 under SRTN ends in a NULL dereference: the only
    process is released from the blocked queue while the CPU is idle, and
    the release compares its remaining time with that of [ref]. *)
Example scenario4_srtn_null :
  table 3 0 50 scenario4 = Err NullDeref.
Proof. vm_compute. reflexivity. Qed.

(** With a policy outside 1..4 nothing is scheduled, and the report
    is still written: it reads the completion and turnaround times no one
    assigned. *)
Example invalid_policy_reports_unassigned :
  table 7 0 50 scenario4 =
    Ok ([(1, None, None, None, 0)], (Indeterminate, Indeterminate)).
Proof. vm_compute. reflexivity. Qed.

(** Under Round Robin a process dispatched by the block-request
    branch gets its response time overwritten although it has run before:
    process 1 ends with response time 3 and waiting time 1. *)
Example rr_response_overwritten :
  table 4 2 50 rr_block_events =
    Ok ([(1, Some 5, Some 1, Some 5, 3); (2, Some 11, Some 8, Some 11, 2)],
        (Avg (9 # 2), Avg (16 # 2))).
Proof. vm_compute. reflexivity. Qed.

(** Two processes released from the blocked queue in the same tick
    enter the ready queue in the order in which they were blocked, not in
    the order of their block durations: under FCFS process 1 (blocked for
    5 ticks at tick 1) runs before process 2 (blocked for 2 ticks at
    tick 4) and completes first. *)
Example release_order_by_entry :
  table 1 0 80 release_order_events =
    Ok ([(1, Some 16, Some 6, Some 16, 0); (2, Some 23, Some 13, Some 23, 0)],
        (Avg (19 # 2), Avg (39 # 2))).
Proof. vm_compute. reflexivity. Qed.

(** While the idle wait advances the clock to the next arrival the
    blocked queue is not aged: under FCFS and Round Robin a process
    blocked at tick 2 for 3 ticks, with the next arrival at tick 10, is
    released only in tick 12 and completes at 15. *)
Example idle_wait_freezes_blocked :
  table 1 0 80 idle_gap_events =
    Ok ([(1, Some 15, Some 11, Some 15, 0); (2, Some 11, Some 0, Some 1, 0)],
        (Avg (11 # 2), Avg (16 # 2))) ∧
  table 4 2 80 idle_gap_events =
    Ok ([(1, Some 15, Some 11, Some 15, 0); (2, Some 11, Some 0, Some 1, 0)],
        (Avg (11 # 2), Avg (16 # 2))).
Proof. vm_compute. done. Qed.

(** Round Robin with a quantum that is at least every burst time is
    not FCFS: with quantum 5 the first process leaves 2 units of quantum,
    the second process is started by the idle wait at tick 4 without a
    fresh quantum and is rotated out at tick 6, so that the third process
    completes at 7 and the second at 10, where FCFS completes them at 10
    and at 9. *)
Example rr_large_quantum_is_not_fcfs :
  table 1 0 80 rr_leftover_events =
    Ok ([(1, Some 3, Some 0, Some 3, 0); (2, Some 9, Some 0, Some 5, 0);
         (3, Some 10, Some 4, Some 5, 0)],
        (Avg (4 # 3), Avg (13 # 3))) ∧
  table 4 5 80 rr_leftover_events =
    Ok ([(1, Some 3, Some 0, Some 3, 0); (2, Some 10, Some 1, Some 6, 0);
         (3, Some 7, Some 1, Some 2, 1)],
        (Avg (2 # 3), Avg (11 # 3))).
Proof. vm_compute. done. Qed.

(** Under Round Robin a process started by the idle wait keeps the
    quantum that was left: with quantum 2, process 2 is started at tick 3
    with one unit of quantum and is rotated out after one tick, so that it
    completes at 11 and process 3 at 10. *)
Example rr_idle_dispatch_keeps_quantum :
  table 4 2 80 rr_idle_events =
    Ok ([(1, Some 1, Some 0, Some 1, 0); (2, Some 11, Some 4, Some 8, 0);
         (3, Some 10, Some 3, Some 7, 1)],
        (Avg (7 # 3), Avg (16 # 3))).
Proof. vm_compute. reflexivity. Qed.
